(** * Amass data sources: Umbrella and NetworksDB

    A shallow embedding of [datasrcs/umbrella.go] and
    [datasrcs/networksdb.go], together with the parts of the Go standard
    library their control flow depends on ([net], [regexp], [strings],
    [strconv]), and the properties of the resolution engine, the
    reverse-WHOIS aggregator and the scrape extractor. [RunHelpCommand]
    of [cmd/amass/help.go] and [AcquireScripts] of package [config]
    follow, the latter over a file tree as [path/filepath] walks it.

    Conventions of the embedding.
    - Go [int] is a 64-bit integer: it is a [Z], with the wrap-around of
      the only arithmetic the sources perform on it written out.
    - Go [string] is a [string] of bytes; [s[i:j]] is [slice], which fails
      where Go panics.
    - A [*stringset.Set] is a [gset string] of normalised keys.
    - A Go [map[string]T] is a [gmap string T].
    - The service's effects (rate-limit checks, outbound requests, cache
      updates, events on the output channel) are threaded through a state
      and error monad over [World], which keeps with every outbound
      request the number of rate-limit checks passed before it; a run
      ends in [Ok], in a [Panic] (a Go run-time panic) or in [Spin] (the
      loop did not finish within the fuel given).
    - [Log.Printf] only writes to the diagnostic sink and is left out. *)

From stdpp Require Import base numbers list strings gmap pretty.
From Stdlib Require Import ZArith Lia Ascii.

Open Scope Z_scope.

(** ** Go basics *)

(** The double quote character, for the patterns that contain it. *)
Definition dq : string := String (Ascii.ascii_of_nat 34) EmptyString.

(** [int] arithmetic wraps around at 64 bits. *)
Definition int_wrap (z : Z) : Z := (z + 2 ^ 63) mod 2 ^ 64 - 2 ^ 63.

Module strings.

Definition byte_in (lo hi : nat) (c : Ascii.ascii) : bool :=
  (Nat.leb lo (Ascii.nat_of_ascii c) && Nat.leb (Ascii.nat_of_ascii c) hi)%bool.

(** [unicode.IsSpace] on the one-byte code points: tab, line feed,
    vertical tab, form feed, carriage return and space. Bytes above 127
    are parts of longer code points and are kept: the white space
    outside ASCII, which [TrimSpace] of Go removes as well, is not
    modelled, so [TrimSpace] below is that of Go on texts that neither
    begin nor end with such a code point. *)
Definition isSpace (c : Ascii.ascii) : bool :=
  (byte_in 9 13 c || byte_in 32 32 c)%bool.

Fixpoint TrimLeft (s : string) : string :=
  match s with
  | String c s' => if isSpace c then TrimLeft s' else s
  | EmptyString => EmptyString
  end.

(** Drops trailing white space: a character is kept when it is not a
    space or when something is kept after it. *)
Fixpoint TrimRight (s : string) : string :=
  match s with
  | String c s' =>
      match TrimRight s' with
      | EmptyString => if isSpace c then EmptyString else String c EmptyString
      | r => String c r
      end
  | EmptyString => EmptyString
  end.

Definition TrimSpace (s : string) : string := TrimRight (TrimLeft s).

Fixpoint Join (l : list string) (sep : string) : string :=
  match l with
  | [] => EmptyString
  | [x] => x
  | x :: rest => x +:+ sep +:+ Join rest sep
  end.

Fixpoint drop (n : nat) (s : string) : string :=
  match n, s with
  | S n', String _ s' => drop n' s'
  | _, _ => s
  end.

(** [s[lo:hi]]: Go panics unless [lo <= hi <= len(s)]. *)
Definition slice (s : string) (lo hi : nat) : option string :=
  if (Nat.leb lo hi && Nat.leb hi (String.length s))%bool
  then Some (String.substring lo (hi - lo) s)
  else None.

End strings.

Module strconv.

Definition digit (c : Ascii.ascii) : option Z :=
  if strings.byte_in 48 57 c then Some (Z.of_nat (Ascii.nat_of_ascii c) - 48) else None.

(** Value of a run of decimal digits, [None] on any other byte. *)
Fixpoint digits (acc : Z) (s : string) : option Z :=
  match s with
  | EmptyString => Some acc
  | String c s' =>
      match digit c with
      | Some d => digits (acc * 10 + d) s'
      | None => None
      end
  end.

(** [strconv.Atoi]: an optional sign and at least one digit, with a
    value that fits [int]. *)
Definition Atoi (s : string) : option Z :=
  let '(neg, body) :=
    match s with
    | String c s' =>
        if Ascii.eqb c "-"%char then (true, s')
        else if Ascii.eqb c "+"%char then (false, s')
        else (false, s)
    | EmptyString => (false, s)
    end in
  match body with
  | EmptyString => None
  | _ =>
      match digits 0 body with
      | Some v =>
          let v' := if neg then - v else v in
          if (- 2 ^ 63 <=? v') && (v' <=? 2 ^ 63 - 1) then Some v' else None
      | None => None
      end
  end.

(** [strconv.Itoa], also what [%d] prints. *)
Definition Itoa (z : Z) : string := pretty z.

End strconv.

(** ** The regular expressions of the scrape extractor

    The patterns of [networksdb.go] are sequences of literal text, greedy
    repetitions of a character class and one capture group, so a matcher
    for such sequences models [regexp] on them: Go returns the leftmost
    match and, among those, the one a backtracking search finds first. *)
Module regexp.

Inductive item : Type :=
| Lit (s : string)
| Rep (cls : Ascii.ascii → bool) (least : nat)
| Open
| Close.

Definition Regexp : Type := list item.

(** Length of the longest run of class characters at the head of [s]. *)
Fixpoint span (cls : Ascii.ascii → bool) (s : string) : nat :=
  match s with
  | String c s' => if cls c then S (span cls s') else O
  | EmptyString => O
  end.

Fixpoint first_some {A B : Type} (f : A → option B) (l : list A) : option B :=
  match l with
  | [] => None
  | x :: l' => match f x with Some y => Some y | None => first_some f l' end
  end.

(** The repetition counts a greedy class tries, longest first. *)
Definition counts (least most : nat) : list nat :=
  rev (seq least (S most - least)).

(** [exec re s pos g] matches [re] against [s], which starts at offset
    [pos] of the page; [g] holds the bounds of the capture group. The
    result is the offset where the match ends and the group. *)
Fixpoint exec (re : Regexp) (s : string) (pos : nat) (g : nat * nat)
  : option (nat * (nat * nat)) :=
  match re with
  | [] => Some (pos, g)
  | Lit l :: re' =>
      if String.prefix l s
      then exec re' (strings.drop (String.length l) s) (pos + String.length l)%nat g
      else None
  | Rep cls least :: re' =>
      first_some
        (λ k, exec re' (strings.drop k s) (pos + k)%nat g)
        (counts least (span cls s))
  | Open :: re' => exec re' s pos (pos, snd g)
  | Close :: re' => exec re' s pos (fst g, pos)
  end.

(** A match: where it starts and ends, and the bounds of the group. *)
Record loc : Type := { lo : nat; hi : nat; group : nat * nat }.

(** Leftmost match in [s], the tail of the page from offset [pos]. *)
Fixpoint find (re : Regexp) (s : string) (pos : nat) : option loc :=
  match exec re s pos (pos, pos) with
  | Some (e, g) => Some {| lo := pos; hi := e; group := g |}
  | None =>
      match s with
      | String _ s' => find re s' (S pos)
      | EmptyString => None
      end
  end.

(** Successive matches that do not overlap; after an empty match the
    search resumes one byte further. *)
Fixpoint find_all (fuel : nat) (re : Regexp) (s : string) (pos : nat) : list loc :=
  match fuel with
  | O => []
  | S fuel' =>
      match find re s pos with
      | None => []
      | Some m =>
          let next := if Nat.eqb (hi m) (lo m) then S (hi m) else hi m in
          m :: find_all fuel' re (strings.drop (next - pos) s) next
      end
  end.

Definition text (page : string) (b e : nat) : string :=
  String.substring b (e - b) page.

(** [FindStringIndex]: the bounds of the leftmost match, [None] for nil. *)
Definition FindStringIndex (re : Regexp) (page : string) : option (list nat) :=
  match find re page 0 with
  | Some m => Some [lo m; hi m]
  | None => None
  end.

Definition submatch (page : string) (m : loc) : list string :=
  [text page (lo m) (hi m); text page (fst (group m)) (snd (group m))].

(** [FindStringSubmatch]: the whole match and the group. *)
Definition FindStringSubmatch (re : Regexp) (page : string) : option (list string) :=
  submatch page <$> find re page 0.

(** [FindAllStringSubmatch(page, -1)]; nil and the empty list coincide
    for the [range] loops that consume it. *)
Definition FindAllStringSubmatch (re : Regexp) (page : string) : list (list string) :=
  submatch page <$> find_all (S (String.length page)) re page 0.

Definition any : Ascii.ascii → bool := λ c, negb (Ascii.eqb c (Ascii.ascii_of_nat 10)).
Definition digit : Ascii.ascii → bool := strings.byte_in 48 57.
Definition alnum (c : Ascii.ascii) : bool :=
  (strings.byte_in 48 57 c || strings.byte_in 65 90 c || strings.byte_in 97 122 c)%bool.
Definition iplink (c : Ascii.ascii) : bool :=
  (Ascii.eqb c "."%char || Ascii.eqb c ":"%char || alnum c)%bool.

End regexp.

(** ** Packages taken as given

    What the sources use of packages outside the repository and the
    standard-library functions not modelled below. Every definition and
    theorem that follows holds for any implementation with these
    signatures and laws. *)
Class Library : Type := {
  (** [caffix/stringset]: [Insert] stores a normalised key (the package
      folds the case), so inserting an element of the set again does not
      change it. *)
  set_key : string → string;
  set_key_idem : ∀ s, set_key (set_key s) = set_key s;
  (** The order in which [Slice] lists a set is the iteration order of a
      Go map, which the language leaves unspecified. *)
  set_order : gset string → list string;
  set_order_perm : ∀ s, set_order s ≡ₚ elements s;
  (** [net]: the textual IPv6 forms, as sixteen bytes. *)
  parseIPv6 : string → option (list Z);
  parseIPv6_bytes : ∀ s ip,
    parseIPv6 s = Some ip → length ip = 16%nat ∧ Forall (λ b, 0 ≤ b < 256) ip;
  formatIPv6 : list Z → string;
  (** [time.Parse] with the layout [2006-01-02]. *)
  parseDate : string → option Z;
}.

(** ** Package [net] (Go 1.18): addresses, masks and containment *)
Module net.

Definition IP : Type := list Z.
Definition IPMask : Type := list Z.
Record IPNet : Type := { IPNet_IP : IP; IPNet_Mask : IPMask }.

Definition IPv4len : nat := 4.
Definition IPv6len : nat := 16.

Definition v4InV6Prefix : list Z := [0; 0; 0; 0; 0; 0; 0; 0; 0; 0; 255; 255].

Definition IPv4 (a b c d : Z) : IP := v4InV6Prefix ++ [a; b; c; d].

Definition isZeros (p : list Z) : bool := forallb (Z.eqb 0) p.
Definition allFF (p : list Z) : bool := forallb (Z.eqb 255) p.
Definition bytesEqual (p q : list Z) : bool := bool_decide (p = q).

(** The nil slice is the empty list: [To4] answers nil for what is not
    an IPv4 address. *)
Definition To4 (ip : IP) : IP :=
  if Nat.eqb (length ip) IPv4len then ip
  else if (Nat.eqb (length ip) IPv6len && isZeros (take 10 ip)
           && bool_decide (ip !! 10%nat = Some 255)
           && bool_decide (ip !! 11%nat = Some 255))%bool
       then drop 12 ip
       else [].

Definition big : Z := 16777215.

(** [dtoi]: the decimal number at the head of [s], how many bytes it
    takes, and whether there was one below [big]. *)
Fixpoint dtoi_from (s : string) (n : Z) (i : nat) : Z * nat * bool :=
  match s with
  | String c s' =>
      match strconv.digit c with
      | Some d =>
          let n' := n * 10 + d in
          if big <=? n' then (big, i, false) else dtoi_from s' n' (S i)
      | None => if Nat.eqb i 0 then (0, O, false) else (n, i, true)
      end
  | EmptyString => if Nat.eqb i 0 then (0, O, false) else (n, i, true)
  end.

Definition dtoi (s : string) : Z * nat * bool := dtoi_from s 0 0.

Definition starts_with (c : ascii) (s : string) : bool :=
  match s with String c' _ => Ascii.eqb c' c | EmptyString => false end.

(** The loop of [parseIPv4] over the octets still to read; [i] is the
    index of the octet and [p] the octets read. *)
Fixpoint parseIPv4_loop (todo : nat) (i : nat) (s : string) (p : list Z) : option IP :=
  match todo with
  | O =>
      match s with
      | EmptyString => Some (v4InV6Prefix ++ p)
      | _ => None
      end
  | S todo' =>
      match s with
      | EmptyString => None
      | _ =>
          let dotted :=
            if Nat.ltb 0 i
            then (if starts_with "." s then Some (strings.drop 1 s) else None)
            else Some s in
          match dotted with
          | None => None
          | Some s1 =>
              let '(n, c, ok) := dtoi s1 in
              if (negb ok || (255 <? n))%bool then None
              else if (Nat.ltb 1 c && starts_with "0" s1)%bool then None
              else parseIPv4_loop todo' (S i) (strings.drop c s1) (p ++ [n])
          end
      end
  end.

Definition parseIPv4 (s : string) : option IP := parseIPv4_loop 4 0 s [].

Fixpoint has_byte (c : ascii) (s : string) : bool :=
  match s with
  | String c' s' => (Ascii.eqb c' c || has_byte c s')%bool
  | EmptyString => false
  end.

(** [ParseIP] looks at the first dot or colon to choose the family. *)
Fixpoint family (s : string) : option bool :=
  match s with
  | String c s' =>
      if Ascii.eqb c "." then Some true
      else if Ascii.eqb c ":" then Some false
      else family s'
  | EmptyString => None
  end.

Definition ParseIP `{Library} (s : string) : IP :=
  match family s with
  | Some true => default [] (parseIPv4 s)
  | Some false => default [] (parseIPv6 s)
  | None => []
  end.

(** [CIDRMask(ones, bits)], byte by byte. *)
Fixpoint mask_bytes (l : nat) (n : Z) : IPMask :=
  match l with
  | O => []
  | S l' =>
      if 8 <=? n then 255 :: mask_bytes l' (n - 8)
      else Z.lxor 255 (Z.shiftr 255 n) :: mask_bytes l' 0
  end.

Definition CIDRMask (ones bits : Z) : IPMask :=
  if (negb (bits =? 32) && negb (bits =? 128))%bool then []
  else if ((ones <? 0) || (bits <? ones))%bool then []
  else mask_bytes (Z.to_nat (bits / 8)) ones.

Fixpoint and_bytes (p m : list Z) : list Z :=
  match p, m with
  | b :: p', c :: m' => Z.land b c :: and_bytes p' m'
  | _, _ => []
  end.

(** [ip.Mask(mask)] *)
Definition Mask (ip : IP) (mask : IPMask) : IP :=
  let mask :=
    if (Nat.eqb (length mask) IPv6len && Nat.eqb (length ip) IPv4len
        && allFF (take 12 mask))%bool
    then drop 12 mask else mask in
  let ip :=
    if (Nat.eqb (length mask) IPv4len && Nat.eqb (length ip) IPv6len
        && bytesEqual (take 12 ip) v4InV6Prefix)%bool
    then drop 12 ip else ip in
  if Nat.eqb (length ip) (length mask) then and_bytes ip mask else [].

Fixpoint index_byte (c : ascii) (s : string) (i : nat) : option nat :=
  match s with
  | String c' s' => if Ascii.eqb c' c then Some i else index_byte c s' (S i)
  | EmptyString => None
  end.

(** [ParseCIDR]: the address and the network, [None] for the error. *)
Definition ParseCIDR `{Library} (s : string) : option (IP * IPNet) :=
  match index_byte "/" s 0 with
  | None => None
  | Some i =>
      let addr := String.substring 0 i s in
      let mask := strings.drop (S i) s in
      let '(iplen, ip) :=
        match parseIPv4 addr with
        | Some ip => (IPv4len, Some ip)
        | None => (IPv6len, parseIPv6 addr)
        end in
      let '(n, j, ok) := dtoi mask in
      match ip with
      | Some ip =>
          if (negb ok || negb (Nat.eqb j (String.length mask))
              || (n <? 0) || (8 * Z.of_nat iplen <? n))%bool
          then None
          else
            let m := CIDRMask n (8 * Z.of_nat iplen) in
            Some (ip, {| IPNet_IP := Mask ip m; IPNet_Mask := m |})
      | None => None
      end
  end.

Definition networkNumberAndMask (n : IPNet) : IP * IPMask :=
  let ip4 := To4 (IPNet_IP n) in
  let ip := match ip4 with [] => IPNet_IP n | _ => ip4 end in
  if (match ip4 with [] => negb (Nat.eqb (length ip) IPv6len) | _ => false end)
  then ([], [])
  else
    if Nat.eqb (length (IPNet_Mask n)) IPv4len then
      if negb (Nat.eqb (length ip) IPv4len) then ([], []) else (ip, IPNet_Mask n)
    else if Nat.eqb (length (IPNet_Mask n)) IPv6len then
      if Nat.eqb (length ip) IPv4len then (ip, drop 12 (IPNet_Mask n))
      else (ip, IPNet_Mask n)
    else ([], []).

(** The comparison loop of [Contains]: [nn[i]&m[i] != ip[i]&m[i]]
    for no index [i < len(ip)]. *)
Fixpoint same_network (nn m ip : list Z) : bool :=
  match ip, nn, m with
  | b :: ip', a :: nn', c :: m' =>
      if negb (Z.land a c =? Z.land b c) then false else same_network nn' m' ip'
  | _, _, _ => true
  end.

Definition Contains (n : IPNet) (ip : IP) : bool :=
  let '(nn, m) := networkNumberAndMask n in
  let ip := match To4 ip with [] => ip | x => x end in
  if negb (Nat.eqb (length ip) (length nn)) then false
  else same_network nn m ip.

Definition dotted (p : list Z) : string :=
  strings.Join (strconv.Itoa <$> p) ".".

(** [ip.String()] *)
Definition IP_String `{Library} (ip : IP) : string :=
  match To4 ip with
  | [] => formatIPv6 ip
  | p4 => dotted p4
  end.

End net.

(** ** Package [caffix/stringset] *)
Module stringset.

Definition Set_ : Type := gset string.

Definition New : Set_ := ∅.
Definition Insert `{Library} (e : string) (s : Set_) : Set_ := {[ set_key e ]} ∪ s.
Definition InsertMany `{Library} (es : list string) (s : Set_) : Set_ :=
  foldl (λ s e, Insert e s) s es.
Definition Union `{Library} (s other : Set_) : Set_ := InsertMany (elements other) s.
Definition Len (s : Set_) : nat := size s.
Definition Slice `{Library} (s : Set_) : list string := set_order s.

End stringset.

(** ** Package [requests] and the collaborators of a service *)

(** Modelled from the spec: the tags of package [requests], whose
    declarations are not among the sources; the spec names them as the
    provenance of a fact, API or scrape. *)
Definition API : string := "api".
Definition SCRAPE : string := "scrape".

Record ASNRequest : Type := {
  Address : string;
  ASN : Z;
  Prefix : string;
  CC : string;
  Registry : string;
  AllocationDate : option Z;
  Description : string;
  Netblocks : list string;
  Tag : string;
  Source : string;
}.

Record WhoisRequest : Type := {
  Domain : string;
  NewDomains : list string;
  WhoisTag : string;
  WhoisSource : string;
}.

Definition set_Address (v : string) (r : ASNRequest) : ASNRequest :=
  {| Address := v; ASN := ASN r; Prefix := Prefix r; CC := CC r; Registry := Registry r;
     AllocationDate := AllocationDate r; Description := Description r;
     Netblocks := Netblocks r; Tag := Tag r; Source := Source r |}.
Definition set_CC (v : string) (r : ASNRequest) : ASNRequest :=
  {| Address := Address r; ASN := ASN r; Prefix := Prefix r; CC := v; Registry := Registry r;
     AllocationDate := AllocationDate r; Description := Description r;
     Netblocks := Netblocks r; Tag := Tag r; Source := Source r |}.
Definition set_Prefix (v : string) (r : ASNRequest) : ASNRequest :=
  {| Address := Address r; ASN := ASN r; Prefix := v; CC := CC r; Registry := Registry r;
     AllocationDate := AllocationDate r; Description := Description r;
     Netblocks := Netblocks r; Tag := Tag r; Source := Source r |}.
Definition set_Netblocks (v : list string) (r : ASNRequest) : ASNRequest :=
  {| Address := Address r; ASN := ASN r; Prefix := Prefix r; CC := CC r; Registry := Registry r;
     AllocationDate := AllocationDate r; Description := Description r;
     Netblocks := v; Tag := Tag r; Source := Source r |}.

(** The zero value of the struct. *)
Definition ASNRequest_zero : ASNRequest :=
  {| Address := EmptyString; ASN := 0; Prefix := EmptyString; CC := EmptyString;
     Registry := EmptyString; AllocationDate := None; Description := EmptyString;
     Netblocks := []; Tag := EmptyString; Source := EmptyString |}.

Record Credentials : Type := { Key : string }.

(** [creds == nil || creds.Key == ""] *)
Definition no_key (creds : option Credentials) : bool :=
  match creds with
  | None => true
  | Some c => bool_decide (Key c = EmptyString)
  end.

(** An outbound request, as handed to [http.RequestWebPage]: the URL,
    the form values of the body (nil for a GET) and the headers. *)
Record Call : Type := {
  url : string;
  body : list (string * string);
  headers : list (string * string);
}.

(** What a service has done: the outbound requests in the order they
    were made, the number of [CheckRateLimit] calls, the facts handed to
    [Cache().Update] and the events sent on [Output()], oldest first; and
    for each outbound request, in the same order, the number of
    [CheckRateLimit] calls that had returned when it was made. *)
Record World : Type := {
  sent : list Call;
  checks : nat;
  cache : list ASNRequest;
  output : list WhoisRequest;
  stamps : list nat;
}.

Definition World_zero : World :=
  {| sent := []; checks := 0; cache := []; output := []; stamps := [] |}.

Inductive Result (A : Type) : Type :=
| Ok (a : A) (w : World)
| Panic (w : World)
| Spin (w : World).
Arguments Ok {A} a w.
Arguments Panic {A} w.
Arguments Spin {A} w.

Definition M (A : Type) : Type := World → Result A.

Definition ret {A : Type} (a : A) : M A := λ w, Ok a w.
Definition bind {A B : Type} (m : M A) (k : A → M B) : M B :=
  λ w, match m w with
       | Ok a w' => k a w'
       | Panic w' => Panic w'
       | Spin w' => Spin w'
       end.
Definition panic {A : Type} : M A := λ w, Panic w.
Definition spin {A : Type} : M A := λ w, Spin w.

#[global] Instance M_ret : MRet M := @ret.
#[global] Instance M_bind : MBind M := λ A B k m, bind m k.

(** The world a run ends in, whatever the way it ends. *)
Definition final {A : Type} (r : Result A) : World :=
  match r with Ok _ w => w | Panic w => w | Spin w => w end.

Definition CheckRateLimit : M unit :=
  λ w, Ok tt {| sent := sent w; checks := S (checks w); cache := cache w; output := output w;
                stamps := stamps w |}.

(** Modelled from the spec: [numRateLimitChecks] is declared in a file of
    the package that is not among the sources; it charges the rate
    limiter of the service [num] times. *)
Fixpoint numRateLimitChecks (num : nat) : M unit :=
  match num with
  | O => ret tt
  | S num' => CheckRateLimit;; numRateLimitChecks num'
  end.

(** [sys.Cache().Update(req)]: the cache reads the fact as it is now. *)
Definition Update (req : ASNRequest) : M unit :=
  λ w, Ok tt {| sent := sent w; checks := checks w; cache := cache w ++ [req]; output := output w;
                stamps := stamps w |}.

(** [Output() <- ev] *)
Definition send (ev : WhoisRequest) : M unit :=
  λ w, Ok tt {| sent := sent w; checks := checks w; cache := cache w; output := output w ++ [ev];
                stamps := stamps w |}.

(** [http.RequestWebPage]: the provider sees the request and how many
    were made before it; [None] is a transport error. *)
Definition RequestWebPage {D : Type} (serve : nat → Call → option D) (c : Call) : M (option D) :=
  λ w, Ok (serve (length (sent w)) c)
          {| sent := sent w ++ [c]; checks := checks w; cache := cache w; output := output w;
             stamps := stamps w ++ [checks w] |}.

Definition GET (u : string) (hs : list (string * string)) : Call :=
  {| url := u; body := []; headers := hs |}.
Definition POST (u : string) (form : list (string * string)) (hs : list (string * string)) : Call :=
  {| url := u; body := form; headers := hs |}.

(** ** [datasrcs/umbrella.go] *)
Module Umbrella.

(** The elements of the array [as_for_ip.json] answers. *)
Record ASRecord : Type := {
  as_Date : string;
  as_Registry : Z;
  as_Description : string;
  as_ASN : Z;
  as_CIDR : string;
}.

(** The elements of the array [prefixes_for_asn.json] answers. *)
Record NetblockRecord : Type := {
  nb_CIDR : string;
  nb_CountryName : string;
  nb_CountryCode : string;
}.

Record whoisRecord : Type := {
  NameServers : list string;
  AdminContactEmail : string;
  BillingContactEmail : string;
  RegistrantEmail : string;
  TechContactEmail : string;
  ZoneContactEmail : string;
}.

Record rWhoisDomain : Type := { rw_Domain : string; Current : bool }.

Record rWhoisResponse : Type := {
  TotalResults : Z;
  MoreData : bool;
  Limit : Z;
  Domains : list rWhoisDomain;
}.

Definition whoisRecord_zero : whoisRecord :=
  {| NameServers := []; AdminContactEmail := EmptyString; BillingContactEmail := EmptyString;
     RegistrantEmail := EmptyString; TechContactEmail := EmptyString;
     ZoneContactEmail := EmptyString |}.

(** A page of the provider, as [json.Unmarshal] reads it: JSON [null],
    a document of one of the shapes the service decodes, or text that
    does not decode at the type asked for. *)
Inductive Page : Type :=
| Null
| ASPage (as_ : list ASRecord)
| NetblockPage (netblock : list NetblockRecord)
| WhoisPage (whois : whoisRecord)
| ReversePage (whois : gmap string rWhoisResponse)
| Malformed.

(** [json.Unmarshal(page, &as)]: [None] is the error. *)
Definition unmarshal_as (p : Page) : option (list ASRecord) :=
  match p with Null => Some [] | ASPage l => Some l | _ => None end.

Definition unmarshal_netblock (p : Page) : option (list NetblockRecord) :=
  match p with Null => Some [] | NetblockPage l => Some l | _ => None end.

Definition unmarshal_whois (p : Page) : option whoisRecord :=
  match p with Null => Some whoisRecord_zero | WhoisPage r => Some r | _ => None end.

(** Decoding into the map [whois] that already exists keeps its
    entries and sets the keys of the page; [null] makes the map nil. *)
Definition unmarshal_reverse (p : Page) (whois : gmap string rWhoisResponse)
  : option (gmap string rWhoisResponse) :=
  match p with
  | Null => Some ∅
  | ReversePage m => Some (m ∪ whois)
  | _ => None
  end.

Definition String : string := "Umbrella".
Definition SourceType : string := API.

Section service.
Context `{Library}.
(** The provider, the scope of the enumeration and [u.creds]. *)
Variable serve : nat → Call → option Page.
Variable IsDomainInScope : string → bool.
Variable creds : option Credentials.

Definition restHeaders : list (string * string) :=
  [("Content-Type", "application/json")]
    ++ (if no_key creds then []
        else [("Authorization", "Bearer " +:+ default EmptyString (Key <$> creds))]).

Definition whoisBaseURL : string := "https://investigate.api.umbrella.com/whois/".
Definition whoisRecordURL (domain : string) : string := whoisBaseURL +:+ domain.
Definition reverseWhoisByNSURL (ns : list string) : string :=
  whoisBaseURL +:+ "nameservers?nameServerList=" +:+ strings.Join ns ",".
Definition reverseWhoisByEmailURL (emails : list string) : string :=
  whoisBaseURL +:+ "emails?emailList=" +:+ strings.Join emails ",".
Definition restAddrToASNURL (addr : string) : string :=
  "https://investigate.api.umbrella.com/bgp_routes/ip/" +:+ addr +:+ "/as_for_ip.json".
Definition restASNToCIDRsURL (asn : Z) : string :=
  "https://investigate.api.umbrella.com/bgp_routes/asn/" +:+ strconv.Itoa asn
    +:+ "/prefixes_for_asn.json".

Definition fetch (u : string) : M (option Page) :=
  RequestWebPage serve (GET u restHeaders).

Definition registry_name (ir : Z) : string :=
  if ir =? 1 then "AfriNIC"
  else if ir =? 2 then "APNIC"
  else if ir =? 3 then "ARIN"
  else if ir =? 4 then "LACNIC"
  else if ir =? 5 then "RIPE NCC"
  else "N/A".

(** The first loop of [executeASNQuery] over the netblocks. *)
Definition collect (req : ASNRequest) (nb : NetblockRecord) : ASNRequest :=
  let req := set_Netblocks (Netblocks req ++ [strings.TrimSpace (nb_CIDR nb)]) req in
  if bool_decide (nb_CIDR nb = Prefix req) then set_CC (nb_CountryCode nb) req else req.

(** Its last loop: the country of the first netblock that is the
    prefix. *)
Fixpoint finish (netblock : list NetblockRecord) (req : ASNRequest) : ASNRequest :=
  match netblock with
  | [] => req
  | nb :: rest =>
      if bool_decide (nb_CIDR nb = Prefix req) then set_CC (nb_CountryCode nb) req
      else finish rest req
  end.

(** The two directions of the resolution call each other; [fuel]
    bounds the depth of the calls. Both work on the request the
    caller owns and the result is the request as they leave it. *)
Fixpoint executeASNAddrQuery (fuel : nat) (req : ASNRequest) : M ASNRequest :=
  match fuel with
  | O => spin
  | S fuel' =>
      page ← fetch (restAddrToASNURL (Address req));
      match page ≫= unmarshal_as with
      | None | Some [] => mret req
      | Some (as0 :: _) =>
          match parseDate (as_Date as0) with
          | None => mret req
          | Some created =>
              let req :=
                {| Address := Address req; ASN := as_ASN as0; Prefix := as_CIDR as0;
                   CC := CC req; Registry := registry_name (as_Registry as0);
                   AllocationDate := Some created; Description := as_Description as0;
                   Netblocks := Netblocks req; Tag := SourceType; Source := String |} in
              req ← (if Nat.eqb (length (Netblocks req)) 0
                     then
                       let req := set_Netblocks [strings.TrimSpace (Prefix req)] req in
                       CheckRateLimit;;
                       executeASNQuery fuel' req
                     else mret req);
              Update req;;
              mret req
          end
      end
  end
with executeASNQuery (fuel : nat) (req : ASNRequest) : M ASNRequest :=
  match fuel with
  | O => spin
  | S fuel' =>
      page ← fetch (restASNToCIDRsURL (ASN req));
      match page ≫= unmarshal_netblock with
      | None | Some [] => mret req
      | Some ((nb0 :: _) as netblock) =>
          let req := foldl collect req netblock in
          let probe :=
            if bool_decide (Prefix req = EmptyString)
            then fst <$> net.ParseCIDR (nb_CIDR nb0) else None in
          match probe with
          | Some addr =>
              let req := set_CC (nb_CountryCode nb0) (set_Address (net.IP_String addr) req) in
              CheckRateLimit;;
              executeASNAddrQuery fuel' req
          | None => mret (finish netblock req)
          end
      end
  end.

Definition asnRequest (fuel : nat) (req : ASNRequest) : M ASNRequest :=
  if no_key creds then mret req
  else if (bool_decide (Address req = EmptyString) && (ASN req =? 0))%bool then mret req
  else if negb (bool_decide (Address req = EmptyString)) then executeASNAddrQuery fuel req
  else executeASNQuery fuel req.

Definition validateScope (input : string) : bool :=
  (negb (bool_decide (input = EmptyString)) && IsDomainInScope input)%bool.

Definition collateEmails (record : whoisRecord) : list string :=
  let add (e : string) (emails : stringset.Set_) :=
    if validateScope e then stringset.InsertMany [e] emails else emails in
  stringset.Slice
    (add (ZoneContactEmail record)
       (add (TechContactEmail record)
          (add (RegistrantEmail record)
             (add (BillingContactEmail record)
                (add (AdminContactEmail record) stringset.New))))).

Definition queryWhois (domain : string) : M (option whoisRecord) :=
  CheckRateLimit;;
  record ← fetch (whoisRecordURL domain);
  mret (record ≫= unmarshal_whois).

(** The body of the loop over the entries of [whois]. *)
Definition gather (acc : stringset.Set_ * bool) (kv : string * rWhoisResponse)
  : stringset.Set_ * bool :=
  let result := snd kv in
  let domains :=
    if 0 <? TotalResults result
    then foldl (λ ds d, if Current d then stringset.Insert (rw_Domain d) ds else ds)
           (fst acc) (Domains result)
    else fst acc in
  (domains, if (MoreData result && negb (snd acc))%bool then true else snd acc).

(** One turn of the loop of [queryReverseWhois] and those after it;
    [fuel] bounds the number of pages asked for. *)
Fixpoint reverse_pages (fuel : nat) (apiURL : string) (count : Z)
    (whois : gmap string rWhoisResponse) (domains : stringset.Set_) : M (list string) :=
  match fuel with
  | O => spin
  | S fuel' =>
      CheckRateLimit;;
      record ← fetch (apiURL +:+ "&offset=" +:+ strconv.Itoa count);
      match record with
      | None => mret (stringset.Slice domains)
      | Some page =>
          match unmarshal_reverse page whois with
          | None => mret (stringset.Slice domains)
          | Some whois =>
              let '(domains, more) := foldl gather (domains, false) (map_to_list whois) in
              if more
              then reverse_pages fuel' apiURL (int_wrap (count + 500)) whois domains
              else mret (stringset.Slice domains)
          end
      end
  end.

Definition queryReverseWhois (fuel : nat) (apiURL : string) : M (list string) :=
  reverse_pages fuel apiURL 0 ∅ stringset.New.

(** [for _, d := range ... { if !IsDomainInScope(d) { domains.Insert(d) } }] *)
Definition novel (domains : stringset.Set_) (ds : list string) : stringset.Set_ :=
  foldl (λ acc d, if negb (IsDomainInScope d) then stringset.Insert d acc else acc) domains ds.

Definition whoisRequest (fuel : nat) (req : WhoisRequest) : M unit :=
  if no_key creds then mret tt
  else if negb (IsDomainInScope (Domain req)) then mret tt
  else
    record ← queryWhois (Domain req);
    match record with
    | None => mret tt
    | Some record =>
        let domains := stringset.New in
        let emails := collateEmails record in
        domains ← (if Nat.ltb 0 (length emails)
                   then ds ← queryReverseWhois fuel (reverseWhoisByEmailURL emails);
                        mret (novel domains ds)
                   else mret domains);
        let nameservers := filter (λ ns, validateScope ns = true) (NameServers record) in
        domains ← (if Nat.ltb 0 (length nameservers)
                   then ds ← queryReverseWhois fuel (reverseWhoisByNSURL nameservers);
                        mret (novel domains ds)
                   else mret domains);
        if Nat.ltb 0 (stringset.Len domains)
        then send {| Domain := Domain req; NewDomains := stringset.Slice domains;
                     WhoisTag := SourceType; WhoisSource := String |}
        else mret tt
    end.

(** The requests the model of the dispatch loop covers. *)
Inductive Request : Type :=
| ASNReq (req : ASNRequest)
| WhoisReq (req : WhoisRequest).

(** One turn of the loop of [requests] that received [in_]. *)
Definition requests (fuel : nat) (in_ : Request) : M unit :=
  match in_ with
  | ASNReq req => CheckRateLimit;; asnRequest fuel req;; mret tt
  | WhoisReq req => CheckRateLimit;; whoisRequest fuel req
  end.

End service.

End Umbrella.

(** ** [datasrcs/networksdb.go] *)
Module NetworksDB.

Import regexp.

Definition networksdbBaseURL : string := "https://networksdb.io".
Definition networksdbAPIPATH : string := "/api/v1".

Definition networksdbASNLinkRE : Regexp :=
  [Lit ("Announcing ASN:</b> <a class=" +:+ dq +:+ "link_sm" +:+ dq +:+ " href=" +:+ dq);
   Open; Rep any 0; Close; Lit dq].
Definition networksdbIPLinkRE : Regexp :=
  [Lit ("<a class=" +:+ dq +:+ "link_sm" +:+ dq +:+ " href=" +:+ dq);
   Open; Lit "/ip/"; Rep iplink 1; Close; Lit (dq +:+ ">")].
Definition networksdbASNRE : Regexp :=
  [Lit "AS Number:</b> "; Open; Rep digit 0; Close; Lit "<br>"].
Definition networksdbCIDRRE : Regexp :=
  [Lit "CIDR:</b>"; Open; Rep any 0; Close; Lit "<br>"].
Definition networksdbIPPageCIDRRE : Regexp :=
  [Lit "<b>Network:"; Rep any 0; Lit (" href=" +:+ dq); Rep any 0; Lit dq; Rep any 0;
   Lit ("href=" +:+ dq); Rep any 0; Lit (dq +:+ ">"); Open; Rep any 0; Close; Lit "</a>"].
Definition networksdbASNameRE : Regexp :=
  [Lit "AS Name:</b>"; Open; Rep any 0; Close; Lit "<br>"].
Definition networksdbCCRE : Regexp :=
  [Lit "Location:</b>"; Rep any 0; Lit ("href=" +:+ dq +:+ "/country/");
   Open; Rep any 0; Close; Lit (dq +:+ ">")].
Definition networksdbDomainsRE : Regexp := [Lit "Domains in network"].
Definition networksdbTableRE : Regexp := [Lit "<table class"].

(** The answers of the API: an envelope around the results. *)
Record Envelope (R : Type) : Type := { Error : string; Total : Z; Results : list R }.
Arguments Error {R} _.
Arguments Total {R} _.
Arguments Results {R} _.

Record IPResult : Type := { Org_ID : string; Network_CIDR : string }.
Record OrgResult : Type := { ASNs : list Z }.
Record ASResult : Type := {
  r_ASN : Z;
  ASName : string;
  r_Description : string;
  CountryCode : string;
  Country : string;
}.
Record NetResult : Type := { CIDR : string }.

(** A page of the API, as [json.Unmarshal] reads it. *)
Inductive ApiPage : Type :=
| Null
| IPPage (m : Envelope IPResult)
| OrgPage (m : Envelope OrgResult)
| ASInfoPage (m : Envelope ASResult)
| NetPage (m : Envelope NetResult)
| Malformed.

Definition zero {R : Type} : Envelope R :=
  {| Error := EmptyString; Total := 0; Results := [] |}.

Definition unmarshal_ip (p : ApiPage) : option (Envelope IPResult) :=
  match p with Null => Some zero | IPPage m => Some m | _ => None end.
Definition unmarshal_org (p : ApiPage) : option (Envelope OrgResult) :=
  match p with Null => Some zero | OrgPage m => Some m | _ => None end.
Definition unmarshal_asinfo (p : ApiPage) : option (Envelope ASResult) :=
  match p with Null => Some zero | ASInfoPage m => Some m | _ => None end.
Definition unmarshal_net (p : ApiPage) : option (Envelope NetResult) :=
  match p with Null => Some zero | NetPage m => Some m | _ => None end.

Definition String : string := "NetworksDB".

(** [l[1]] *)
Definition second (l : list string) : M string :=
  match l !! 1%nat with
  | Some x => mret x
  | None => panic
  end.

Section service.
Context `{Library}.
(** The site and its API, the scope of the enumeration and the
    credentials that [OnStart] found. *)
Variable web : nat → Call → option string.
Variable api : nat → Call → option ApiPage.
Variable IsDomainInScope : string → bool.
Variable creds : option Credentials.
(** Package [net/dns] and [FirstLast] of package [net] of the
    repository are not among the sources:
    [dns.AnySubdomainRegex().FindAllString(s, -1)] and the first and
    last address of a network. *)
Variable AnySubdomain : string → list string.
Variable FirstLast : net.IPNet → net.IP * net.IP.

(** The fields [OnStart] derives from the credentials. *)
Definition hasAPIKey : bool := negb (no_key creds).
Definition SourceType : string := if hasAPIKey then API else SCRAPE.

Definition getHeaders : list (string * string) :=
  if negb hasAPIKey then []
  else [("X-Api-Key", default EmptyString (Key <$> creds));
        ("Content-Type", "application/x-www-form-urlencoded")].

Definition getIPURL (addr : string) : string := networksdbBaseURL +:+ "/ip/" +:+ addr.
Definition getASNURL (asn : Z) : string :=
  networksdbBaseURL +:+ "/autonomous-system/AS" +:+ strconv.Itoa asn.
Definition getAPIIPURL : string := networksdbBaseURL +:+ networksdbAPIPATH +:+ "/ip/info".
Definition getAPIOrgInfoURL : string := networksdbBaseURL +:+ networksdbAPIPATH +:+ "/org/info".
Definition getAPIASNInfoURL : string := networksdbBaseURL +:+ networksdbAPIPATH +:+ "/as/info".
Definition getAPINetblocksURL : string :=
  networksdbBaseURL +:+ networksdbAPIPATH +:+ "/as/networks".
Definition getDomainToIPURL (domain : string) : string :=
  networksdbBaseURL +:+ "/domain-to-ips/" +:+ domain.
Definition getDomainsInNetworkURL (first last : string) : string :=
  networksdbBaseURL +:+ "/domains-in-network/" +:+ first +:+ "/" +:+ last.

Definition page_of (u : string) : M (option string) := RequestWebPage web (GET u []).

(** [for _, match := range networksdbCIDRRE.FindAllStringSubmatch(page, -1)] *)
Definition insert_cidrs (page : string) (netblocks : stringset.Set_) : stringset.Set_ :=
  foldl (λ acc m, if Nat.leb 2 (length m)
                  then stringset.Insert (strings.TrimSpace (default EmptyString (m !! 1%nat))) acc
                  else acc)
    netblocks (FindAllStringSubmatch networksdbCIDRRE page).

(** [_, ipnet, err := net.ParseCIDR(cidr); err == nil && ipnet.Contains(ip)] *)
Definition covers (ip : net.IP) (cidr : string) : bool :=
  match net.ParseCIDR cidr with
  | Some (_, ipnet) => net.Contains ipnet ip
  | None => false
  end.

(** The loop that looks for the prefix of the address: the first
    netblock that parses and contains it, or the empty string. *)
Fixpoint select_prefix (ip : net.IP) (cidrs : list string) : string :=
  match cidrs with
  | [] => EmptyString
  | cidr :: rest => if covers ip cidr then cidr else select_prefix ip rest
  end.

Definition prefix_for (addr : string) (netblocks : stringset.Set_) : string :=
  if negb (bool_decide (addr = EmptyString))
  then select_prefix (net.ParseIP addr) (stringset.Slice netblocks)
  else EmptyString.

Definition executeASNQuery (asn : Z) (addr : string) (netblocks : stringset.Set_) : M unit :=
  numRateLimitChecks 3;;
  page ← page_of (getASNURL asn);
  match page with
  | None => mret tt
  | Some page =>
      match FindStringSubmatch networksdbASNameRE page with
      | None => mret tt
      | Some matches =>
          if Nat.ltb (length matches) 2 then mret tt
          else
            m1 ← second matches;
            let name := strings.TrimSpace m1 in
            match FindStringSubmatch networksdbCCRE page with
            | None => mret tt
            | Some matches =>
                if Nat.ltb (length matches) 2 then mret tt
                else
                  m1 ← second matches;
                  let cc := strings.TrimSpace m1 in
                  let netblocks := insert_cidrs page netblocks in
                  let prefix := prefix_for addr netblocks in
                  prefix ← (if (bool_decide (prefix = EmptyString)
                                && Nat.ltb 0 (stringset.Len netblocks))%bool
                            then match stringset.Slice netblocks with
                                 | first :: _ => mret first
                                 | [] => panic
                                 end
                            else mret prefix);
                  Update {| Address := addr; ASN := asn; Prefix := prefix; CC := cc;
                            Registry := EmptyString; AllocationDate := None;
                            Description := name +:+ ", " +:+ cc;
                            Netblocks := stringset.Slice netblocks;
                            Tag := SourceType; Source := String |}
            end
      end
  end.

Definition executeASNAddrQuery (addr : string) : M unit :=
  page ← page_of (getIPURL addr);
  match page with
  | None => mret tt
  | Some page =>
      match FindStringSubmatch networksdbASNLinkRE page with
      | None => mret tt
      | Some matches =>
          if Nat.ltb (length matches) 2 then mret tt
          else
            numRateLimitChecks 3;;
            m1 ← second matches;
            page ← page_of (networksdbBaseURL +:+ m1);
            match page with
            | None => mret tt
            | Some page =>
                let netblocks := insert_cidrs page stringset.New in
                match FindStringSubmatch networksdbASNRE page with
                | None => mret tt
                | Some matches =>
                    if Nat.ltb (length matches) 2 then mret tt
                    else
                      m1 ← second matches;
                      match strconv.Atoi (strings.TrimSpace m1) with
                      | None => mret tt
                      | Some asn => executeASNQuery asn addr netblocks
                      end
                end
            end
      end
  end.

Definition ask (u : string) (form : list (string * string)) : M (option ApiPage) :=
  RequestWebPage api (POST u form getHeaders).

Definition apiIPQuery (addr : string) : M (string * string) :=
  numRateLimitChecks 3;;
  page ← ask getAPIIPURL [("ip", addr)];
  match page ≫= unmarshal_ip with
  | None => mret (EmptyString, EmptyString)
  | Some m =>
      if negb (bool_decide (Error m = EmptyString)) then mret (EmptyString, EmptyString)
      else if ((Total m =? 0) || Nat.eqb (length (Results m)) 0)%bool
           then mret (EmptyString, EmptyString)
           else match Results m with
                | r0 :: _ => mret (Network_CIDR r0, Org_ID r0)
                | [] => panic
                end
  end.

Definition apiOrgInfoQuery (id : string) : M (list Z) :=
  numRateLimitChecks 3;;
  page ← ask getAPIOrgInfoURL [("id", id)];
  match page ≫= unmarshal_org with
  | None => mret []
  | Some m =>
      if negb (bool_decide (Error m = EmptyString)) then mret []
      else if Total m =? 0 then mret []
      else match Results m with
           | r0 :: _ => if Nat.eqb (length (ASNs r0)) 0 then mret [] else mret (ASNs r0)
           | [] => panic
           end
  end.

Definition apiASNInfoQuery (asn : Z) : M (option ASNRequest) :=
  numRateLimitChecks 3;;
  page ← ask getAPIASNInfoURL [("asn", strconv.Itoa asn)];
  match page ≫= unmarshal_asinfo with
  | None => mret None
  | Some m =>
      if negb (bool_decide (Error m = EmptyString)) then mret None
      else if ((Total m =? 0) || Nat.eqb (length (Results m)) 0)%bool then mret None
      else match Results m with
           | r0 :: _ =>
               mret (Some {| Address := EmptyString; ASN := r_ASN r0; Prefix := EmptyString;
                             CC := CountryCode r0; Registry := EmptyString;
                             AllocationDate := None;
                             Description := r_Description r0 +:+ ", " +:+ CountryCode r0;
                             Netblocks := []; Tag := SourceType; Source := String |})
           | [] => panic
           end
  end.

Definition apiNetblocksQuery (asn : Z) : M stringset.Set_ :=
  let netblocks := stringset.New in
  numRateLimitChecks 3;;
  page ← ask getAPINetblocksURL [("asn", strconv.Itoa asn)];
  match page ≫= unmarshal_net with
  | None => mret netblocks
  | Some m =>
      if negb (bool_decide (Error m = EmptyString)) then mret netblocks
      else if ((Total m =? 0) || Nat.eqb (length (Results m)) 0)%bool then mret netblocks
      else mret (foldl (λ acc block, stringset.Insert (CIDR block) acc) netblocks (Results m))
  end.

Definition executeAPIASNQuery (asn : Z) (addr : string) (netblocks : option stringset.Set_)
  : M unit :=
  let netblocks := default stringset.New netblocks in
  filled ← (if Nat.eqb (stringset.Len netblocks) 0
            then set ← apiNetblocksQuery asn; mret (stringset.Union netblocks set)
            else mret netblocks);
  let netblocks := filled in
  if Nat.eqb (stringset.Len netblocks) 0 then mret tt
  else
    let prefix := prefix_for addr netblocks in
    prefix ← (if bool_decide (prefix = EmptyString)
              then match stringset.Slice netblocks with
                   | first :: _ => mret first
                   | [] => panic
                   end
              else mret prefix);
    numRateLimitChecks 3;;
    req ← apiASNInfoQuery asn;
    match req with
    | None => mret tt
    | Some req =>
        let req := if negb (bool_decide (addr = EmptyString)) then set_Address addr req else req in
        let req := set_Prefix prefix req in
        let req := set_Netblocks (stringset.Slice netblocks) req in
        Update req
    end.

(** The labelled loop of [executeAPIASNAddrQuery] over the candidate
    AS numbers; [asn] and [cidrs] are the variables it assigns. *)
Fixpoint candidates (ip : net.IP) (asns : list Z) (asn : Z) (cidrs : stringset.Set_)
  : M (Z * stringset.Set_) :=
  match asns with
  | [] => mret (asn, cidrs)
  | a :: rest =>
      numRateLimitChecks 3;;
      cidrs ← apiNetblocksQuery a;
      if existsb (covers ip) (stringset.Slice cidrs)
      then mret (a, cidrs)
      else candidates ip rest asn cidrs
  end.

Definition executeAPIASNAddrQuery (addr : string) : M unit :=
  '(_, id) ← apiIPQuery addr;
  if bool_decide (id = EmptyString) then mret tt
  else
    numRateLimitChecks 3;;
    asns ← apiOrgInfoQuery id;
    if Nat.eqb (length asns) 0 then mret tt
    else
      '(asn, cidrs) ← candidates (net.ParseIP addr) asns 0 stringset.New;
      if asn =? 0 then mret tt
      else executeAPIASNQuery asn addr (Some cidrs).

Definition asnRequest (req : ASNRequest) : M unit :=
  if (bool_decide (Address req = EmptyString) && (ASN req =? 0))%bool then mret tt
  else
    numRateLimitChecks 2;;
    if hasAPIKey then
      if negb (bool_decide (Address req = EmptyString))
      then executeAPIASNAddrQuery (Address req)
      else executeAPIASNQuery (ASN req) EmptyString None
    else
      if negb (bool_decide (Address req = EmptyString))
      then executeASNAddrQuery (Address req)
      else executeASNQuery (ASN req) EmptyString stringset.New.

(** The region of the page that is searched for names, [page[start:end]]
    with the ends of the first match of each marker. *)
Definition domains_region (page : string) (domainsPos tablePos : list nat) : M string :=
  match domainsPos !! 1%nat, tablePos !! 1%nat with
  | Some start, Some end_ =>
      match strings.slice page start end_ with
      | Some region => mret region
      | None => panic
      end
  | _, _ => panic
  end.

(** The body of the loop of [whoisRequest] over the links to the
    address pages; a [continue] goes on with the remaining links. *)
Fixpoint harvest (matches : list (list string)) (newdomains : stringset.Set_)
  : M stringset.Set_ :=
  match matches with
  | [] => mret newdomains
  | match_ :: rest =>
      if Nat.ltb (length match_) 2 then harvest rest newdomains
      else
        numRateLimitChecks 3;;
        m1 ← second match_;
        page ← page_of (networksdbBaseURL +:+ m1);
        match page ≫= FindStringSubmatch networksdbIPPageCIDRRE with
        | None => harvest rest newdomains
        | Some cidrMatch =>
            if Nat.ltb (length cidrMatch) 2 then harvest rest newdomains
            else
              c1 ← second cidrMatch;
              match net.ParseCIDR c1 with
              | None => harvest rest newdomains
              | Some (_, cidr) =>
                  numRateLimitChecks 3;;
                  let '(first, last) := FirstLast cidr in
                  page ← page_of (getDomainsInNetworkURL (net.IP_String first)
                                    (net.IP_String last));
                  match page with
                  | None => harvest rest newdomains
                  | Some page =>
                      match FindStringIndex networksdbDomainsRE page,
                            FindStringIndex networksdbTableRE page with
                      | Some domainsPos, Some tablePos =>
                          if (Nat.ltb (length domainsPos) 2 || Nat.ltb (length tablePos) 2)%bool
                          then harvest rest newdomains
                          else
                            region ← domains_region page domainsPos tablePos;
                            harvest rest
                              (foldl (λ acc d, stringset.Insert (strings.TrimSpace d) acc)
                                 newdomains (AnySubdomain region))
                      | _, _ => harvest rest newdomains
                      end
                  end
              end
        end
  end.

Definition whoisRequest (req : WhoisRequest) : M unit :=
  if negb (IsDomainInScope (Domain req)) then mret tt
  else
    numRateLimitChecks 2;;
    page ← page_of (getDomainToIPURL (Domain req));
    match page with
    | None => mret tt
    | Some page =>
        match FindAllStringSubmatch networksdbIPLinkRE page with
        | [] => mret tt
        | matches =>
            newdomains ← harvest matches stringset.New;
            if Nat.ltb 0 (length (stringset.Slice newdomains))
            then send {| Domain := Domain req; NewDomains := stringset.Slice newdomains;
                         WhoisTag := SourceType; WhoisSource := String |}
            else mret tt
        end
    end.

Inductive Request : Type :=
| ASNReq (req : ASNRequest)
| WhoisReq (req : WhoisRequest).

(** One turn of the loop of [requests] that received [in_]. *)
Definition requests (in_ : Request) : M unit :=
  match in_ with
  | ASNReq req => CheckRateLimit;; asnRequest req
  | WhoisReq req => CheckRateLimit;; whoisRequest req
  end.

End service.

End NetworksDB.

(** ** Reasoning about runs

    [wp m Q X w]: the run of [m] from [w] ends normally with a result and
    a world in [Q], or ends in a panic or without fuel in a world in [X]. *)
Definition wp {A : Type} (m : M A) (Q : A → World → Prop) (X : World → Prop) (w : World) : Prop :=
  match m w with
  | Ok a w' => Q a w'
  | Panic w' => X w'
  | Spin w' => X w'
  end.

(** [returns m Q F w]: the run of [m] from [w] does not panic; it ends
    normally with a result and a world in [Q], or it runs out of fuel in
    a world in [F]. *)
Definition returns {A : Type} (m : M A) (Q : A → World → Prop) (F : World → Prop) (w : World)
  : Prop :=
  match m w with
  | Ok a w' => Q a w'
  | Panic _ => False
  | Spin w' => F w'
  end.

(** The world after each effect. *)
Definition charged (w : World) : World :=
  {| sent := sent w; checks := S (checks w); cache := cache w; output := output w;
     stamps := stamps w |}.
Definition called (c : Call) (w : World) : World :=
  {| sent := sent w ++ [c]; checks := checks w; cache := cache w; output := output w;
     stamps := stamps w ++ [checks w] |}.
Definition cached (r : ASNRequest) (w : World) : World :=
  {| sent := sent w; checks := checks w; cache := cache w ++ [r]; output := output w;
     stamps := stamps w |}.
Definition emitted (ev : WhoisRequest) (w : World) : World :=
  {| sent := sent w; checks := checks w; cache := cache w; output := output w ++ [ev];
     stamps := stamps w |}.


(** ** A concrete library, for running the model

    An implementation of [Library] that folds ASCII letters to lower
    case, lists a set in the order of [elements], reads no IPv6 text and
    reads a date as its digits. *)
Module Example.

Definition lower (c : ascii) : ascii :=
  if strings.byte_in 65 90 c then ascii_of_nat (nat_of_ascii c + 32) else c.

Fixpoint ToLower (s : string) : string :=
  match s with
  | String c s' => String (lower c) (ToLower s')
  | EmptyString => EmptyString
  end.

(** [2006-01-02]: four digits, two digits, two digits. *)
Definition date (s : string) : option Z :=
  if (Nat.eqb (String.length s) 10
      && bool_decide (String.substring 4 1 s = "-")
      && bool_decide (String.substring 7 1 s = "-"))%bool
  then
    y ← strconv.digits 0 (String.substring 0 4 s);
    m ← strconv.digits 0 (String.substring 5 2 s);
    d ← strconv.digits 0 (String.substring 8 2 s);
    if ((1 <=? m) && (m <=? 12) && (1 <=? d) && (d <=? 31))%bool
    then Some (y * 10000 + m * 100 + d) else None
  else None.

Definition library : Library :=
  {| set_key := ToLower;
     set_key_idem := ltac:(
       intros s; induction s as [|c s IH]; simpl;
       [reflexivity
       |f_equal; [destruct c as [[] [] [] [] [] [] [] []]; reflexivity | exact IH]]);
     set_order := elements;
     set_order_perm := λ s, reflexivity (elements s);
     parseIPv6 := λ _, None;
     parseIPv6_bytes := ltac:(intros s ip E; discriminate E);
     formatIPv6 := λ _, "?";
     parseDate := date |}.

End Example.

(** ** Notions used in the statements *)

(** The registries [executeASNAddrQuery] names. *)
Definition registries : list string := ["AfriNIC"; "APNIC"; "ARIN"; "LACNIC"; "RIPE NCC"].

(** Since the world [w0], the cache only received facts that satisfy [P]. *)
Definition cache_grew (P : ASNRequest → Prop) (w0 w : World) : Prop :=
  ∃ new, cache w = cache w0 ++ new ∧ Forall P new.

(** *** Networks as ranges of numbers

    The reading of a CIDR in the words of the spec: an address belongs
    to it iff it lies within its network range. *)

(** The number a sequence of bytes denotes, most significant first. *)
Fixpoint be (p : list Z) : Z :=
  match p with
  | [] => 0
  | b :: p' => b * 256 ^ Z.of_nat (length p') + be p'
  end.

Inductive family : Type := V4 | V6.

(** An address as a number of its family; an IPv4 address written as
    an IPv4-mapped IPv6 address is the IPv4 address. *)
Definition number (ip : net.IP) : option (family * Z) :=
  match net.To4 ip with
  | [] => if Nat.eqb (length ip) 16 then Some (V6, be ip) else None
  | p4 => Some (V4, be p4)
  end.

(** The address [Contains] compares: the IPv4 form when there is one. *)
Definition norm (ip : net.IP) : net.IP :=
  match net.To4 ip with [] => ip | x => x end.

(** First and last number of the network of [v] with a prefix of [ones]
    bits out of [bits]. *)
Definition first_address (v ones bits : Z) : Z := v - v mod 2 ^ (bits - ones).
Definition last_address (v ones bits : Z) : Z := first_address v ones bits + 2 ^ (bits - ones) - 1.

(** The range of the CIDR [address/ones]: its family and its first and
    last number. A prefix of 96 bits or more on an IPv4-mapped address
    denotes the IPv4 network of the remaining bits. *)
Definition cidr_range `{Library} (s : string) : option (family * Z * Z) :=
  match net.index_byte "/" s 0 with
  | None => None
  | Some i =>
      let addr := String.substring 0 i s in
      let ones := fst (fst (net.dtoi (strings.drop (S i) s))) in
      match net.parseIPv4 addr with
      | Some ip =>
          let v := be (drop 12 ip) in
          Some (V4, first_address v ones 32, last_address v ones 32)
      | None =>
          match parseIPv6 addr with
          | Some ip =>
              if (bool_decide (take 12 ip = net.v4InV6Prefix) && (96 <=? ones))%bool
              then
                let v := be (drop 12 ip) in
                Some (V4, first_address v (ones - 96) 32, last_address v (ones - 96) 32)
              else Some (V6, first_address (be ip) ones 128, last_address (be ip) ones 128)
          | None => None
          end
      end
  end.

(** [a] lies within the range [r]. *)
Definition within (r : family * Z * Z) (a : net.IP) : Prop :=
  ∃ v, number a = Some (fst (fst r), v) ∧ snd (fst r) ≤ v ≤ snd r.

Definition is_byte (b : Z) : Prop := 0 ≤ b < 256.

(** A fact whose registry is one of the names [executeASNAddrQuery] writes. *)
Definition named (f : ASNRequest) : Prop := Registry f ∈ registries ++ ["N/A"].

(** The invariant of a fact in the words of the spec: the netblocks
    are a set, and a prefix that is not empty is one of them. *)
Definition sound_fact (f : ASNRequest) : Prop :=
  NoDup (Netblocks f) ∧ (Prefix f ≠ EmptyString → Prefix f ∈ Netblocks f).

(** The two outbound requests of Umbrella's resolution: from an address
    to its AS number, and from an AS number to its netblocks. *)
Definition to_asn (creds : option Credentials) (addr : string) : Call :=
  GET (Umbrella.restAddrToASNURL addr) (Umbrella.restHeaders creds).
Definition to_cidrs (creds : option Credentials) (asn : Z) : Call :=
  GET (Umbrella.restASNToCIDRsURL asn) (Umbrella.restHeaders creds).

(** The sequences of requests with at most one hop from the address
    direction to the AS-number direction and at most one hop back. *)
Inductive one_hop_each (creds : option Credentials) : list Call → Prop :=
| no_query : one_hop_each creds []
| addr_only a : one_hop_each creds [to_asn creds a]
| addr_asn a n : one_hop_each creds [to_asn creds a; to_cidrs creds n]
| addr_asn_addr a n a' : one_hop_each creds [to_asn creds a; to_cidrs creds n; to_asn creds a']
| asn_only n : one_hop_each creds [to_cidrs creds n]
| asn_addr n a : one_hop_each creds [to_cidrs creds n; to_asn creds a].

(** ** Providers and requests of the worked examples *)
Module Scenario.

Definition key : option Credentials := Some {| Key := "secret" |}.

(** A provider that answers by the URL alone. *)
Fixpoint at_url {D : Type} (table : list (string * D)) (k : nat) (c : Call) : option D :=
  match table with
  | [] => None
  | (u, d) :: rest => if bool_decide (u = url c) then Some d else at_url rest k c
  end.

Definition google (ir : Z) : Umbrella.ASRecord :=
  {| Umbrella.as_Date := "2000-03-30"; Umbrella.as_Registry := ir;
     Umbrella.as_Description := "GOOGLE"; Umbrella.as_ASN := 15169;
     Umbrella.as_CIDR := "8.8.8.0/24" |}.

Definition block (cidr : string) : Umbrella.NetblockRecord :=
  {| Umbrella.nb_CIDR := cidr; Umbrella.nb_CountryName := "United States";
     Umbrella.nb_CountryCode := "US" |}.

(** Umbrella answering for [8.8.8.8] and AS 15169, with registry [ir]. *)
Definition umbrella (ir : Z) : nat → Call → option Umbrella.Page :=
  at_url
    [("https://investigate.api.umbrella.com/bgp_routes/ip/8.8.8.8/as_for_ip.json",
      Umbrella.ASPage [google ir]);
     ("https://investigate.api.umbrella.com/bgp_routes/asn/15169/prefixes_for_asn.json",
      Umbrella.NetblockPage [block "8.8.8.0/24"; block "8.8.4.0/24"])].

Definition for_address (addr : string) : ASNRequest := set_Address addr ASNRequest_zero.

Definition whois_for (domain : string) : WhoisRequest :=
  {| Domain := domain; NewDomains := []; WhoisTag := EmptyString; WhoisSource := EmptyString |}.

End Scenario.

(** ** Notions for the API resolution of NetworksDB *)
Section api_notions.
Context `{Library}.
Variable api : nat → Call → option NetworksDB.ApiPage.
Variable creds : option Credentials.

(** The netblock set the API answers for the AS number [a] when it is
    asked in the world [w]. *)
Definition queried_netblocks (a : Z) (w : World) : stringset.Set_ :=
  match NetworksDB.apiNetblocksQuery api creds a w with
  | Ok s _ => s
  | _ => ∅
  end.

(** That set has a netblock that parses and contains the address. *)
Definition announces (ip : net.IP) (a : Z) (w : World) : bool :=
  existsb (NetworksDB.covers ip) (stringset.Slice (queried_netblocks a w)).

(** The candidate AS numbers of an address: what the organisation query
    yields after the address query, and the world after both; [None]
    when the resolution ends before the candidates are looked at. *)
Definition candidate_list (addr : string) (w : World) : option (list Z * World) :=
  match NetworksDB.apiIPQuery api creds addr w with
  | Ok (_, id) w1 =>
      if bool_decide (id = EmptyString) then None
      else
        match (numRateLimitChecks 3;; NetworksDB.apiOrgInfoQuery api creds id) w1 with
        | Ok asns w2 => if Nat.eqb (length asns) 0 then None else Some (asns, w2)
        | _ => None
        end
  | _ => None
  end.

End api_notions.

(** ** The API of NetworksDB in the worked examples *)
Module Networks.

(** A provider that answers by the URL and the form alone. *)
Fixpoint at_call {D : Type} (table : list (string * list (string * string) * D))
    (k : nat) (c : Call) : option D :=
  match table with
  | [] => None
  | (u, form, d) :: rest =>
      if bool_decide (u = url c ∧ form = body c) then Some d else at_call rest k c
  end.

Definition one {R : Type} (r : R) : NetworksDB.Envelope R :=
  {| NetworksDB.Error := EmptyString; NetworksDB.Total := 1; NetworksDB.Results := [r] |}.

Definition blocks (cidrs : list string) : NetworksDB.Envelope NetworksDB.NetResult :=
  {| NetworksDB.Error := EmptyString; NetworksDB.Total := Z.of_nat (length cidrs);
     NetworksDB.Results := (λ c, {| NetworksDB.CIDR := c |}) <$> cidrs |}.

(** The organisation of [8.8.8.8] has two AS numbers; only the second
    announces a netblock with the address. *)
Definition api : nat → Call → option NetworksDB.ApiPage :=
  at_call
    [("https://networksdb.io/api/v1/ip/info", [("ip", "8.8.8.8")],
      NetworksDB.IPPage (one {| NetworksDB.Org_ID := "google";
                                NetworksDB.Network_CIDR := "8.8.8.0/24" |}));
     ("https://networksdb.io/api/v1/org/info", [("id", "google")],
      NetworksDB.OrgPage (one {| NetworksDB.ASNs := [36040; 15169] |}));
     ("https://networksdb.io/api/v1/as/networks", [("asn", "36040")],
      NetworksDB.NetPage (blocks ["74.125.0.0/16"; "not a cidr"]));
     ("https://networksdb.io/api/v1/as/networks", [("asn", "15169")],
      NetworksDB.NetPage (blocks ["8.8.4.0/24"; "8.8.8.0/24"]));
     ("https://networksdb.io/api/v1/as/info", [("asn", "15169")],
      NetworksDB.ASInfoPage
        (one {| NetworksDB.r_ASN := 15169; NetworksDB.ASName := "GOOGLE";
                NetworksDB.r_Description := "Google LLC"; NetworksDB.CountryCode := "US";
                NetworksDB.Country := "United States" |}))].

(** The world after the address and the organisation query. *)
Definition asked : World :=
  default World_zero
    (snd <$> candidate_list api Scenario.key "8.8.8.8" World_zero).

End Networks.

(** ** The site of NetworksDB in the worked examples *)
Module Site.

Definition nl : string := String (ascii_of_nat 10) EmptyString.

(** First and last address of a network: the network number, and the
    network number with the bits outside the mask set. *)
Definition FirstLast (n : net.IPNet) : net.IP * net.IP :=
  (net.IPNet_IP n,
   zip_with (λ b m, Z.lor b (Z.lxor 255 m)) (net.IPNet_IP n) (net.IPNet_Mask n)).

(** The words of a text that contain a dot stand in for the names
    [dns.AnySubdomainRegex] finds. *)
Fixpoint words (s : string) (cur : string) : list string :=
  match s with
  | EmptyString => [cur]
  | String c s' =>
      if Ascii.eqb c " " then cur :: words s' EmptyString
      else words s' (cur +:+ String c EmptyString)
  end.

Definition names (s : string) : list string :=
  filter (λ word, net.has_byte "." word = true) (words s EmptyString).

Definition link (href text : string) : string :=
  "<a class=" +:+ dq +:+ "link_sm" +:+ dq +:+ " href=" +:+ dq +:+ href +:+ dq +:+ ">"
    +:+ text +:+ "</a>".

(** The page of a domain links to the page of its address. *)
Definition domain_page : string := "<b>IPs:</b> " +:+ link "/ip/8.8.8.8" "8.8.8.8" +:+ nl.

(** The page of the address names its network. *)
Definition address_page : string :=
  "<b>Network:</b> " +:+ link "/org/google" "Google" +:+ " "
    +:+ link "/ip/8.8.8.0" "8.8.8.0/24" +:+ nl.

(** A page of the domains in a network, with the section of the
    domains before the first table. *)
Definition listing : string :=
  "<h2>Domains in network</h2> dns.google resolver.example.net <table class=" +:+ dq
    +:+ "list" +:+ dq +:+ ">" +:+ nl.

(** The same page with a table before the section of the domains. *)
Definition listing_after_table : string :=
  "<table class=" +:+ dq +:+ "menu" +:+ dq +:+ "></table>" +:+ nl
    +:+ "<h2>Domains in network</h2> dns.google" +:+ nl.

Definition web (last : string) : nat → Call → option string :=
  Scenario.at_url
    [("https://networksdb.io/domain-to-ips/example.com", domain_page);
     ("https://networksdb.io/ip/8.8.8.8", address_page);
     ("https://networksdb.io/domains-in-network/8.8.8.0/8.8.8.255", last)].

Definition in_scope (d : string) : bool := bool_decide (d = "example.com").

End Site.

(** ** Notions for the reverse-WHOIS aggregation of Umbrella *)
Section whois_notions.
Context `{Library}.
Variable serve : nat → Call → option Umbrella.Page.

(** [r] is an entry of a reverse-WHOIS page that the provider served
    for one of the requests that [w] records from position [from] on. *)
Definition entry_seen (from : nat) (w : World) (r : Umbrella.rWhoisResponse) : Prop :=
  ∃ k c pg key,
    (from ≤ k)%nat ∧ sent w !! k = Some c
    ∧ serve k c = Some (Umbrella.ReversePage pg) ∧ pg !! key = Some r.

(** [d] is the key under which the set holds a domain that the entry
    [r], with a positive total, marks current. *)
Definition names_of (r : Umbrella.rWhoisResponse) (d : string) : Prop :=
  0 < Umbrella.TotalResults r
  ∧ ∃ rd, rd ∈ Umbrella.Domains r ∧ Umbrella.Current rd = true
          ∧ d = set_key (Umbrella.rw_Domain rd).

(** [d] is retained from the pages served from position [from] on. *)
Definition retained (from : nat) (w : World) (d : string) : Prop :=
  ∃ r, entry_seen from w r ∧ names_of r d.

End whois_notions.

(** The request for the page at the [k]-th offset of a reverse-WHOIS
    query. *)
Definition page_call (creds : option Credentials) (apiURL : string) (k : nat) : Call :=
  GET (apiURL +:+ "&offset=" +:+ strconv.Itoa (500 * Z.of_nat k)) (Umbrella.restHeaders creds).

(** ** Umbrella's WHOIS service in the worked examples *)
Module Reverse.

Definition entry (total : Z) (more : bool) (domains : list (string * bool))
  : Umbrella.rWhoisResponse :=
  {| Umbrella.TotalResults := total; Umbrella.MoreData := more; Umbrella.Limit := 500;
     Umbrella.Domains :=
       (λ d, {| Umbrella.rw_Domain := fst d; Umbrella.Current := snd d |}) <$> domains |}.

Definition contact : string := "hostmaster@example.com".

Definition by_email : string :=
  "https://investigate.api.umbrella.com/whois/emails?emailList=hostmaster@example.com".

(** Three pages: the flag is set at the offsets 0 and 500. *)
Definition page0 : gmap string Umbrella.rWhoisResponse :=
  {[ contact := entry 1200 true
       [("a.example", true); ("old.example", false); ("b.example", true)] ]}.
Definition page1 : gmap string Umbrella.rWhoisResponse :=
  {[ contact := entry 1200 true [("B.example", true); ("c.example", true)] ]}.
Definition page2 : gmap string Umbrella.rWhoisResponse :=
  {[ contact := entry 1200 false [("d.example", true); ("a.example", true)] ]}.

Definition three_pages : nat → Call → option Umbrella.Page :=
  Scenario.at_url
    [(by_email +:+ "&offset=0", Umbrella.ReversePage page0);
     (by_email +:+ "&offset=500", Umbrella.ReversePage page1);
     (by_email +:+ "&offset=1000", Umbrella.ReversePage page2)].

(** A first page that reports zero total results and has the flag set,
    and a second page without the flag. *)
Definition empty_then_one : nat → Call → option Umbrella.Page :=
  Scenario.at_url
    [(by_email +:+ "&offset=0",
      Umbrella.ReversePage {[ contact := entry 0 true [("zero.example", true)] ]});
     (by_email +:+ "&offset=500",
      Umbrella.ReversePage {[ contact := entry 1 false [("one.example", true)] ]})].

(** The scope of the example: the names under [example.com]. *)
Definition in_scope (d : string) : bool :=
  let n := String.length d in
  (Nat.leb 11 n && bool_decide (String.substring (n - 11) 11 d = "example.com"))%bool.

Definition record : Umbrella.whoisRecord :=
  {| Umbrella.NameServers := ["ns.registrar.net"]; Umbrella.AdminContactEmail := contact;
     Umbrella.BillingContactEmail := EmptyString; Umbrella.RegistrantEmail := contact;
     Umbrella.TechContactEmail := "noc@registrar.net";
     Umbrella.ZoneContactEmail := EmptyString |}.

(** The contact of [example.com] registered two more domains. *)
Definition sibling_domains : nat → Call → option Umbrella.Page :=
  Scenario.at_url
    [("https://investigate.api.umbrella.com/whois/example.com", Umbrella.WhoisPage record);
     (by_email +:+ "&offset=0",
      Umbrella.ReversePage
        {[ contact := entry 3 false
             [("example.com", true); ("Example.ORG", true); ("example.net", true);
              ("gone.example", false)] ]})].

(** Scenario D of the spec: the two current domains are in scope. *)
Definition known_domains : nat → Call → option Umbrella.Page :=
  Scenario.at_url
    [("https://investigate.api.umbrella.com/whois/example.com", Umbrella.WhoisPage record);
     (by_email +:+ "&offset=0",
      Umbrella.ReversePage
        {[ contact := entry 2 false
             [("www.example.com", true); ("mail.example.com", true)] ]})].

End Reverse.

(** ** Rate-limit admissions against outbound requests *)

(** The number of requests and of admissions between two worlds. *)
Definition requests_made (w0 w : World) : nat := length (sent w) - length (sent w0).
Definition admissions (w0 w : World) : nat := checks w - checks w0.

(** Since [w0], the service was admitted by the rate limiter, and at
    least [credit] times more often than it made a request. *)
Definition paid (w0 w : World) (credit : nat) : Prop :=
  (checks w0 < checks w
   ∧ length (sent w) + checks w0 + credit ≤ checks w + length (sent w0))%nat.

(** The same with equality: every admission but [credit] of them was
    followed by one request. *)
Definition paid_exactly (w0 w : World) (credit : nat) : Prop :=
  (checks w0 < checks w ∧ length (sent w0) ≤ length (sent w)
   ∧ length (sent w) + checks w0 + credit = checks w + length (sent w0))%nat.

(** The numbers of admissions at which requests went out rise along
    [gs]: the first lies above [from], each next one above the one
    before it, and [to] lies [spare] or more above the last of them
    (above [from] when there is none). *)
Fixpoint climbs (from : nat) (gs : list nat) (spare to : nat) : Prop :=
  match gs with
  | [] => (from + spare ≤ to)%nat
  | g :: gs' => (from < g)%nat ∧ climbs g gs' spare to
  end.

(** Since [w0] every request went out after an admission of its own:
    each request made since [w0] has its entry in [stamps], the service
    had been admitted since [w0] when the first of them went out, and
    again since the request before when each later one did. In [w] the
    service has been admitted [spare] times or more since its last
    request (since [w0] when it made none). *)
Definition paced (w0 w : World) (spare : nat) : Prop :=
  ∃ cs gs, sent w = sent w0 ++ cs ∧ stamps w = stamps w0 ++ gs ∧ length cs = length gs
           ∧ climbs (checks w0) gs spare (checks w).

(** *** Netblocks that contain an address *)

(** The netblock [c] contains the address [a]: [net.ParseCIDR] accepts
    [c], and [a] is an address of the family of its network within its
    range. *)
Definition in_network `{Library} (c : string) (a : net.IP) : Prop :=
  is_Some (net.ParseCIDR c) ∧ ∃ r, cidr_range c = Some r ∧ within r a.

(** The library of the examples with a [net] that reads two IPv6
    texts: [::], sixteen zero bytes, and the IPv4-mapped address
    [::ffff:1.2.3.4]. *)
Definition reads_ipv6 : Library :=
  {| set_key := Example.ToLower;
     set_key_idem := @set_key_idem Example.library;
     set_order := elements;
     set_order_perm := λ s, reflexivity (elements s);
     parseIPv6 := λ s, if bool_decide (s = "::") then Some (replicate 16 0)
                       else if bool_decide (s = "::ffff:1.2.3.4")
                            then Some (net.v4InV6Prefix ++ [1; 2; 3; 4])
                            else None;
     parseIPv6_bytes := ltac:(
       intros s ip E; cbv beta in E; destruct (bool_decide (s = "::"));
       [|destruct (bool_decide (s = "::ffff:1.2.3.4"))]; cbv beta iota in E;
       try discriminate E; injection E as <-; (split; [reflexivity | repeat (constructor; [lia|]); constructor]));
     formatIPv6 := λ _, "?";
     parseDate := Example.date |}.

(** ** [cmd/amass/help.go] *)
Module Help.

(** What [RunHelpCommand] goes on with: the usage text of the
    program, [CommandUsage(mainUsageMsg, helpCommand, helpBuf)] with
    the empty flag set and buffer it has just made, or one of the
    sub-commands with the arguments it passes. *)
Inductive Ran : Type :=
| CommandUsage
| RunDBCommand (args : list string)
| RunEnumCommand (args : list string)
| RunIntelCommand (args : list string)
| RunTrackCommand (args : list string)
| RunVizCommand (args : list string).

Definition RunHelpCommand (clArgs : list string) : Ran :=
  let help := ["-help"] in
  if Nat.ltb (length clArgs) 1 then CommandUsage
  else
    match clArgs with
    | [] => CommandUsage
    | c :: _ =>
        if bool_decide (c = "db") then RunDBCommand help
        else if bool_decide (c = "enum") then RunEnumCommand help
        else if bool_decide (c = "intel") then RunIntelCommand help
        else if bool_decide (c = "track") then RunTrackCommand help
        else if bool_decide (c = "viz") then RunVizCommand help
        else CommandUsage
    end.

(** The sub-command a run goes on with and its arguments. *)
Definition sub_command (r : Ran) : option (string * list string) :=
  match r with
  | CommandUsage => None
  | RunDBCommand args => Some ("db", args)
  | RunEnumCommand args => Some ("enum", args)
  | RunIntelCommand args => Some ("intel", args)
  | RunTrackCommand args => Some ("track", args)
  | RunVizCommand args => Some ("viz", args)
  end.

Definition commands : list string := ["db"; "enum"; "intel"; "track"; "viz"].

End Help.

(** ** Package [path/filepath], on a system whose separator is the slash *)
Module filepath.

Definition IsPathSeparator (c : Ascii.ascii) : bool := Ascii.eqb c "/"%char.

(** The loop of [Ext],
    [for i := len(path) - 1; i >= 0 && !os.IsPathSeparator(path[i]); i--],
    with the bytes up to [path[i]] in reverse and [path[i+1:]]. *)
Fixpoint ext_loop (upto : list Ascii.ascii) (after : string) : string :=
  match upto with
  | [] => EmptyString
  | c :: upto' =>
      if IsPathSeparator c then EmptyString
      else if Ascii.eqb c "."%char then String c after
      else ext_loop upto' (String c after)
  end.

Definition Ext (path : string) : string :=
  ext_loop (rev (String.list_ascii_of_string path)) EmptyString.

End filepath.

(** ** [AcquireScripts] of package [config] *)
Module config.

(** The file tree below a path, as [filepath.Walk] and the function it
    is given see it. A file has the name [Lstat] reports and the
    content [ioutil.ReadFile] returns, [None] when reading fails; a
    directory has its entries in the order of their names, which is the
    order [Walk] visits them in, [None] when the directory cannot be
    listed; [Missing] is a path for which [Lstat] fails. *)
Inductive Node : Type :=
| File (name : string) (data : option string)
| Directory (name : string) (entries : option (list Node))
| Missing.

(** What [os.Stat] answers for the output directory. *)
Inductive Stat : Type :=
| IsDir (dir : bool)
| NotExist
| Failed.

(** The function literal handed to [Walk]: the scripts as it leaves
    them and whether it returns an error. [err] is the error [Walk]
    passes in. The errors it can return come from [Lstat], from listing
    a directory and from [ReadFile]; none of them is [SkipDir]. *)
Definition walkFn (n : Node) (err : bool) (scripts : list string) : list string * bool :=
  if err then (scripts, true)
  else
    match n with
    | Directory _ _ => (scripts, false)
    | File name data =>
        if negb (bool_decide (filepath.Ext name = ".ads")) then (scripts, false)
        else
          match data with
          | None => (scripts, true)
          | Some d => (scripts ++ [d], false)
          end
    | Missing => (scripts, true)
    end.

(** [walk] of [path/filepath]: the function is called on the node
    first; the entries of a directory follow unless the listing or the
    function failed, and the first error ends the walk. *)
Fixpoint walk (n : Node) (scripts : list string) : list string * bool :=
  match n with
  | Directory _ entries =>
      let '(scripts, err1) := walkFn n (bool_decide (entries = None)) scripts in
      match entries with
      | None => (scripts, err1)
      | Some names =>
          if err1 then (scripts, err1)
          else
            (fix each (names : list Node) (scripts : list string) : list string * bool :=
               match names with
               | [] => (scripts, false)
               | Missing :: rest =>
                   let '(scripts, err) := walkFn Missing true scripts in
                   if err then (scripts, err) else each rest scripts
               | child :: rest =>
                   let '(scripts, err) := walk child scripts in
                   if err then (scripts, err) else each rest scripts
               end) names scripts
      end
  | File _ _ => walkFn n false scripts
  | Missing => walkFn n true scripts
  end.

(** The loop of [walk] over the entries of a directory. *)
Fixpoint walk_each (names : list Node) (scripts : list string) : list string * bool :=
  match names with
  | [] => (scripts, false)
  | child :: rest =>
      let '(scripts, err) := walk child scripts in
      if err then (scripts, err) else walk_each rest scripts
  end.

Section acquire.
(** [resources.GetDefaultScripts()] and [OutputDirectory] belong to
    files that are not among the sources and [filepath.Join] is taken as
    given; the file system answers [os.Stat] for a path and holds the
    tree below one. *)
Variable GetDefaultScripts : list string * option string.
Variable OutputDirectory : string → string.
Variable Join : string → string → string.
Variable stat : string → Stat.
Variable tree : string → Node.

(** The fields of [Config] that are read. *)
Record Config : Type := { Dir : string; ScriptsDirectory : string }.

(** How a call ends: with the values returned, or in the run-time
    panic of a method call on a nil [os.FileInfo]. *)
Inductive Outcome : Type :=
| Returns (scripts : list string) (err : option string)
| NilDereference.

(** [filepath.Walk(path, ...)], whose error is dropped. *)
Definition Walk (root : string) (scripts : list string) : list string :=
  fst (walk (tree root) scripts).

Definition AcquireScripts (c : Config) : Outcome :=
  let '(scripts, err) := GetDefaultScripts in
  match err with
  | Some e => Returns scripts (Some e)
  | None =>
      let dir := OutputDirectory (Dir c) in
      if bool_decide (dir = EmptyString) then Returns scripts None
      else
        let refused :=
          Returns scripts
            (Some "the output directory does not exist or is not a directory") in
        match stat dir with
        | NotExist => refused
        | Failed => NilDereference
        | IsDir false => refused
        | IsDir true =>
            let paths := [Join dir "scripts"]
                           ++ (if negb (bool_decide (ScriptsDirectory c = EmptyString))
                               then [ScriptsDirectory c] else []) in
            Returns (foldl (λ scripts path, Walk path scripts) scripts paths) None
        end
  end.

End acquire.

(** *** Notions for the statements *)

(** The contents of the readable files below a node whose names end
    in [.ads], in the order of the walk. *)
Fixpoint ads_files (n : Node) : list string :=
  match n with
  | File name (Some d) => if bool_decide (filepath.Ext name = ".ads") then [d] else []
  | File _ None => []
  | Directory _ (Some names) => flat_map ads_files names
  | Directory _ None => []
  | Missing => []
  end.

(** Nothing below the node fails: every path has its [Lstat], every
    directory can be listed and every file named [.ads] can be read. *)
Fixpoint healthy (n : Node) : bool :=
  match n with
  | File name data =>
      if bool_decide (filepath.Ext name = ".ads") then bool_decide (data ≠ None) else true
  | Directory _ (Some names) => forallb healthy names
  | Directory _ None => false
  | Missing => false
  end.

(** A tree for the examples: two scripts, a note and a sub-directory
    that cannot be listed between them. *)
Definition sample : Node :=
  Directory "scripts"
    (Some [File "a.ads" (Some "first"); File "notes.txt" (Some "text");
           Directory "private" None; File "z.ads" (Some "last")]).

Definition plain : Node :=
  Directory "more" (Some [File "b.ads" (Some "second"); File ".ads" (Some "hidden")]).

End config.

(** ** [datasrcs/umbrella.go]: the handlers that raise name events *)
Module UmbrellaNames.

(** The fields of [requests.DNSRequest] and [requests.AddrRequest]
    that the handlers read. *)
Record DNSRequest : Type := { dns_Domain : string }.
Record AddrRequest : Type := { addr_Address : string }.

(** A page of the provider, as [json.Unmarshal] reads it into the
    structs of the two handlers: JSON [null], an object with the names
    of its [matches] and the [rr] of its [records] (a field that is
    absent is an empty list), or text that does not decode. *)
Inductive Page : Type :=
| Null
| Object (matches : list string) (records : list string)
| Malformed.

Definition unmarshal_subs (p : Page) : option (list string) :=
  match p with Null => Some [] | Object matches _ => Some matches | Malformed => None end.

Definition unmarshal_ip (p : Page) : option (list string) :=
  match p with Null => Some [] | Object _ records => Some records | Malformed => None end.

Section service.
Variable serve : nat → Call → option Page.
Variable IsDomainInScope : string → bool.
Variable creds : option Credentials.
(** [resolve.RemoveLastDot] of package [caffix/resolve], taken as given. *)
Variable RemoveLastDot : string → string.

Definition restDNSURL (domain : string) : string :=
  "https://investigate.api.umbrella.com/search/.*[.]" +:+ domain +:+ "?start=-30days&limit=1000".
Definition restAddrURL (addr : string) : string :=
  "https://investigate.api.umbrella.com/pdns/ip/" +:+ addr +:+ "?recordType=A,AAAA".

(** The handlers hand names to [genNewNameEvent], which belongs to a
    file that is not among the sources; the result is the list of the
    names handed over, in the order of the calls. What
    [genNewNameEvent] does with a name is not modelled: the world of a
    run records the requests and the admissions of the handler
    itself. *)
Definition dnsRequest (req : DNSRequest) : M (list string) :=
  if no_key creds then mret []
  else if negb (IsDomainInScope (dns_Domain req)) then mret []
  else
    page ← RequestWebPage serve (GET (restDNSURL (dns_Domain req)) (Umbrella.restHeaders creds));
    match page ≫= unmarshal_subs with
    | None => mret []
    | Some matches => mret matches
    end.

Definition addrRequest (req : AddrRequest) : M (list string) :=
  if no_key creds then mret []
  else if bool_decide (addr_Address req = EmptyString) then mret []
  else
    page ← RequestWebPage serve (GET (restAddrURL (addr_Address req)) (Umbrella.restHeaders creds));
    match page ≫= unmarshal_ip with
    | None => mret []
    | Some records =>
        mret (filter (λ name, name ≠ EmptyString) (RemoveLastDot <$> records))
    end.

Inductive Request : Type :=
| DNSReq (req : DNSRequest)
| AddrReq (req : AddrRequest).

(** One turn of the loop of [requests] that received a DNS or an
    address request. *)
Definition requests (in_ : Request) : M (list string) :=
  match in_ with
  | DNSReq req => CheckRateLimit;; dnsRequest req
  | AddrReq req => CheckRateLimit;; addrRequest req
  end.

End service.

End UmbrellaNames.

(** ** Notions for the requests a service makes *)

(** Since the world [w0], only requests that satisfy [P] were made. *)
Definition sent_grew (P : Call → Prop) (w0 w : World) : Prop :=
  ∃ new, sent w = sent w0 ++ new ∧ Forall P new.

Definition umbrellaHost : string := "https://investigate.api.umbrella.com/".

(** A request to the host of Umbrella without a body, with the
    content type and the key of the service in its headers. *)
Definition authorised (creds : option Credentials) (c : Call) : Prop :=
  ∃ key, creds = Some {| Key := key |} ∧ key ≠ EmptyString
         ∧ body c = []
         ∧ headers c = [("Content-Type", "application/json");
                        ("Authorization", "Bearer " +:+ key)]
         ∧ String.prefix umbrellaHost (url c) = true.

(** The facts of a resolution by Umbrella name the service and have an
    allocation date. *)
Definition from_umbrella (f : ASNRequest) : Prop :=
  Tag f = Umbrella.SourceType ∧ Source f = Umbrella.String ∧ is_Some (AllocationDate f).

(** The contact addresses of a WHOIS record, in the order
    [collateEmails] looks at them. *)
Definition contacts (record : Umbrella.whoisRecord) : list string :=
  [Umbrella.AdminContactEmail record; Umbrella.BillingContactEmail record;
   Umbrella.RegistrantEmail record; Umbrella.TechContactEmail record;
   Umbrella.ZoneContactEmail record].

(** The facts cached since [w] are at most [n], each the request [r]
    and from Umbrella. *)
Definition cached_final (n : nat) (w : World) (r : ASNRequest) (w' : World) : Prop :=
  ∃ new, cache w' = cache w ++ new ∧ (length new ≤ n)%nat
         ∧ Forall (λ f, f = r ∧ from_umbrella f) new.

(** ** Notions for the requests and facts of NetworksDB *)

(** A request to the site without a body and without headers. *)
Definition scrape_call (c : Call) : Prop :=
  body c = [] ∧ headers c = []
  ∧ String.prefix NetworksDB.networksdbBaseURL (url c) = true.

Definition api_urls : list string :=
  [NetworksDB.getAPIIPURL; NetworksDB.getAPIOrgInfoURL; NetworksDB.getAPIASNInfoURL;
   NetworksDB.getAPINetblocksURL].

(** A request to one of the four endpoints of the API, with one form
    value and the key of the service in its headers. *)
Definition api_call (creds : option Credentials) (c : Call) : Prop :=
  ∃ key, creds = Some {| Key := key |} ∧ key ≠ EmptyString
         ∧ headers c = [("X-Api-Key", key);
                        ("Content-Type", "application/x-www-form-urlencoded")]
         ∧ url c ∈ api_urls
         ∧ length (body c) = 1%nat.

(** A fact for the address [addr] ([EmptyString] when the request
    named only an AS number): it carries the address and the provenance
    of the service, and its prefix contains the address when one of its
    netblocks does. *)
Definition located `{Library} (creds : option Credentials) (addr : string) (f : ASNRequest)
  : Prop :=
  Address f = addr
  ∧ Tag f = NetworksDB.SourceType creds ∧ Source f = NetworksDB.String
  ∧ (addr ≠ EmptyString →
     (∃ nb, nb ∈ Netblocks f ∧ NetworksDB.covers (net.ParseIP addr) nb = true) →
     NetworksDB.covers (net.ParseIP addr) (Prefix f) = true).

(** The fact has a prefix that contains the address. *)
Definition pinned `{Library} (addr : string) (f : ASNRequest) : Prop :=
  NetworksDB.covers (net.ParseIP addr) (Prefix f) = true.

(** The answer of the organisation query that makes it index an empty
    list: it decodes, reports no error and a total that is not zero,
    and has no results. *)
Definition empty_org_answer (page : option NetworksDB.ApiPage) : Prop :=
  ∃ m, page ≫= NetworksDB.unmarshal_org = Some m
       ∧ NetworksDB.Error m = EmptyString ∧ NetworksDB.Total m ≠ 0
       ∧ NetworksDB.Results m = [].

(** An API whose organisation answer announces one result and has
    none. *)
Definition api_without_results : nat → Call → option NetworksDB.ApiPage :=
  Networks.at_call
    [("https://networksdb.io/api/v1/ip/info", [("ip", "8.8.8.8")],
      NetworksDB.IPPage (Networks.one {| NetworksDB.Org_ID := "google";
                                         NetworksDB.Network_CIDR := "8.8.8.0/24" |}));
     ("https://networksdb.io/api/v1/org/info", [("id", "google")],
      NetworksDB.OrgPage {| NetworksDB.Error := EmptyString; NetworksDB.Total := 1;
                            NetworksDB.Results := [] |})].

(** The page has both markers of the section of the domains, and the
    first [<table class] ends before the first [Domains in network]
    does. *)
Definition markers_out_of_order (page : string) : Prop :=
  ∃ s e s' e',
    regexp.FindStringIndex NetworksDB.networksdbDomainsRE page = Some [s; e]
    ∧ regexp.FindStringIndex NetworksDB.networksdbTableRE page = Some [s'; e']
    ∧ (e' < e)%nat.

(** The last request of the world was answered with such a page. *)
Definition stopped_at_page (web : nat → Call → option string) (w : World) : Prop :=
  ∃ c page, last (sent w) = Some c
            ∧ web (length (sent w) - 1)%nat c = Some page
            ∧ markers_out_of_order page.

(** The event of a WHOIS request of NetworksDB. *)
Definition whois_event (creds : option Credentials) (req ev : WhoisRequest) : Prop :=
  Domain ev = Domain req ∧ NewDomains ev ≠ [] ∧ NoDup (NewDomains ev)
  ∧ WhoisTag ev = NetworksDB.SourceType creds ∧ WhoisSource ev = NetworksDB.String.

(** A provider whose first page has the flag under one contact and
    whose later pages list another contact only. *)
Definition stale_flag : nat → Call → option Umbrella.Page :=
  λ n _, Some (Umbrella.ReversePage
                 (if Nat.eqb n 0
                  then {[ Reverse.contact := Reverse.entry 1 true [("a.example", true)] ]}
                  else {[ "registrar@example.net" :=
                            Reverse.entry 1 false [("b.example", true)] ]})).

(** A request without body and headers to a path of the site, so to
    the host [networksdb.io]. *)
Definition on_site (c : Call) : Prop :=
  body c = [] ∧ headers c = []
  ∧ String.prefix (NetworksDB.networksdbBaseURL +:+ "/") (url c) = true.

(** A page of an address whose link to the AS names another host. *)
Definition foreign_link : nat → Call → option string :=
  Scenario.at_url
    [("https://networksdb.io/ip/8.8.8.8",
      "<b>Announcing ASN:</b> " +:+ Site.link ".evil.example/as" "AS15169" +:+ Site.nl)].

(** The pages of an address and of its AS. *)
Definition as_pages : nat → Call → option string :=
  Scenario.at_url
    [("https://networksdb.io/ip/8.8.8.8",
      "<b>Announcing ASN:</b> " +:+ Site.link "/autonomous-system/AS15169" "AS15169"
        +:+ Site.nl);
     ("https://networksdb.io/autonomous-system/AS15169",
      "<b>AS Number:</b> 15169<br>" +:+ Site.nl
        +:+ "<b>AS Name:</b> GOOGLE<br>" +:+ Site.nl
        +:+ "<b>Location:</b> <a href=" +:+ dq +:+ "/country/US" +:+ dq +:+ ">United States</a>"
        +:+ Site.nl
        +:+ "<b>CIDR:</b> 8.8.8.0/24<br>" +:+ Site.nl)].

(** * Properties *)

(** ** Rules for runs *)

Lemma wp_ret {A : Type} (a : A) Q X w : Q a w → wp (mret a) Q X w.
Proof. intros HQ. exact HQ. Qed.

Lemma wp_bind {A B : Type} (m : M A) (k : A → M B) Q X w :
  wp m (λ a w', wp (k a) Q X w') X w → wp (m ≫= k) Q X w.
Proof.
  unfold wp, mbind, M_bind, bind. destruct (m w); auto.
Qed.

Lemma wp_mono {A : Type} (m : M A) (Q Q' : A → World → Prop) (X X' : World → Prop) w :
  wp m Q X w → (∀ a w', Q a w' → Q' a w') → (∀ w', X w' → X' w') → wp m Q' X' w.
Proof.
  unfold wp. destruct (m w); auto.
Qed.

Lemma wp_final {A : Type} (m : M A) (I : World → Prop) w :
  wp m (λ _ w', I w') I w ↔ I (final (m w)).
Proof. unfold wp, final. destruct (m w); reflexivity. Qed.

Lemma wp_panic {A : Type} (Q : A → World → Prop) (X : World → Prop) w : X w → wp panic Q X w.
Proof. intros HX. exact HX. Qed.

Lemma wp_spin {A : Type} (Q : A → World → Prop) (X : World → Prop) w : X w → wp spin Q X w.
Proof. intros HX. exact HX. Qed.

Lemma wp_check Q X w : Q tt (charged w) → wp CheckRateLimit Q X w.
Proof. intros HQ. exact HQ. Qed.

Lemma wp_request {D : Type} (serve : nat → Call → option D) c Q X w :
  Q (serve (length (sent w)) c) (called c w) → wp (RequestWebPage serve c) Q X w.
Proof. intros HQ. exact HQ. Qed.

Lemma wp_update r Q X w : Q tt (cached r w) → wp (Update r) Q X w.
Proof. intros HQ. exact HQ. Qed.

Lemma wp_send ev Q X w : Q tt (emitted ev w) → wp (send ev) Q X w.
Proof. intros HQ. exact HQ. Qed.

Lemma wp_checks num Q X w :
  Q tt {| sent := sent w; checks := num + checks w; cache := cache w;
          output := output w; stamps := stamps w |}
  → wp (numRateLimitChecks num) Q X w.
Proof.
  revert w. induction num as [|num IH]; intros w HQ.
  - destruct w. exact HQ.
  - simpl. apply wp_bind, wp_check, IH. simpl.
    replace (num + S (checks w))%nat with (S num + checks w)%nat by lia. exact HQ.
Qed.

(** Steps of a run that leave the cache and the output alone. *)
Ltac wp_step :=
  lazymatch goal with
  | |- wp (mret _) _ _ _ => apply wp_ret
  | |- wp (_ ≫= _) _ _ _ => apply wp_bind
  | |- wp CheckRateLimit _ _ _ => apply wp_check
  | |- wp (numRateLimitChecks _) _ _ _ => apply wp_checks
  | |- wp (RequestWebPage _ _) _ _ _ => apply wp_request
  | |- wp (Update _) _ _ _ => apply wp_update
  | |- wp (send _) _ _ _ => apply wp_send
  | |- wp panic _ _ _ => apply wp_panic
  | |- wp spin _ _ _ => apply wp_spin
  end.

(** ** Umbrella: unfolding the two directions of the resolution *)
Section umbrella_equations.
Context `{Library}.
Variable serve : nat → Call → option Umbrella.Page.
Variable creds : option Credentials.

Lemma executeASNAddrQuery_S fuel req :
  Umbrella.executeASNAddrQuery serve creds (S fuel) req =
  (page ← Umbrella.fetch serve creds (Umbrella.restAddrToASNURL (Address req));
   match page ≫= Umbrella.unmarshal_as with
   | None | Some [] => mret req
   | Some (as0 :: _) =>
       match parseDate (Umbrella.as_Date as0) with
       | None => mret req
       | Some created =>
           let req :=
             {| Address := Address req; ASN := Umbrella.as_ASN as0;
                Prefix := Umbrella.as_CIDR as0;
                CC := CC req; Registry := Umbrella.registry_name (Umbrella.as_Registry as0);
                AllocationDate := Some created; Description := Umbrella.as_Description as0;
                Netblocks := Netblocks req; Tag := Umbrella.SourceType;
                Source := Umbrella.String |} in
           req ← (if Nat.eqb (length (Netblocks req)) 0
                  then
                    let req := set_Netblocks [strings.TrimSpace (Prefix req)] req in
                    CheckRateLimit;;
                    Umbrella.executeASNQuery serve creds fuel req
                  else mret req);
           Update req;;
           mret req
       end
   end).
Proof. reflexivity. Qed.

Lemma executeASNQuery_S fuel req :
  Umbrella.executeASNQuery serve creds (S fuel) req =
  (page ← Umbrella.fetch serve creds (Umbrella.restASNToCIDRsURL (ASN req));
   match page ≫= Umbrella.unmarshal_netblock with
   | None | Some [] => mret req
   | Some ((nb0 :: _) as netblock) =>
       let req := foldl Umbrella.collect req netblock in
       let probe :=
         if bool_decide (Prefix req = EmptyString)
         then fst <$> net.ParseCIDR (Umbrella.nb_CIDR nb0) else None in
       match probe with
       | Some addr =>
           let req := set_CC (Umbrella.nb_CountryCode nb0)
                        (set_Address (net.IP_String addr) req) in
           CheckRateLimit;;
           Umbrella.executeASNAddrQuery serve creds fuel req
       | None => mret (Umbrella.finish netblock req)
       end
   end).
Proof. reflexivity. Qed.

End umbrella_equations.

(** ** Facts handed to the cache *)
Section cache_facts.
Variable P : ASNRequest → Prop.
Variable w0 : World.

Lemma cache_grew_refl : cache_grew P w0 w0.
Proof. exists []. split; [by rewrite app_nil_r | constructor]. Qed.

Lemma cache_grew_charged w : cache_grew P w0 w → cache_grew P w0 (charged w).
Proof. intros Hw. exact Hw. Qed.

Lemma cache_grew_checks n w :
  cache_grew P w0 w →
  cache_grew P w0 {| sent := sent w; checks := n; cache := cache w;
                     output := output w; stamps := stamps w |}.
Proof. intros Hw. exact Hw. Qed.

Lemma cache_grew_called c w : cache_grew P w0 w → cache_grew P w0 (called c w).
Proof. intros Hw. exact Hw. Qed.

Lemma cache_grew_emitted ev w : cache_grew P w0 w → cache_grew P w0 (emitted ev w).
Proof. intros Hw. exact Hw. Qed.

Lemma cache_grew_cached r w : P r → cache_grew P w0 w → cache_grew P w0 (cached r w).
Proof.
  intros Hr (new & Hc & Hnew). exists (new ++ [r]). split.
  - simpl. rewrite Hc. by rewrite app_assoc.
  - apply Forall_app. split; [exact Hnew | by constructor].
Qed.
End cache_facts.

Create HintDb grew.
#[local] Hint Resolve cache_grew_refl cache_grew_charged cache_grew_checks cache_grew_called
  cache_grew_emitted cache_grew_cached : grew.

(** ** Umbrella: the registry of a resolved fact *)
Section umbrella_registry.
Context `{Library}.
Variable serve : nat → Call → option Umbrella.Page.
Variable creds : option Credentials.

Lemma registry_name_cases ir :
  Umbrella.registry_name ir ∈ registries ++ ["N/A"].
Proof.
  unfold Umbrella.registry_name, registries.
  repeat case_match; set_solver.
Qed.

Lemma collect_Registry req nb : Registry (Umbrella.collect req nb) = Registry req.
Proof. unfold Umbrella.collect. case_bool_decide; reflexivity. Qed.

Lemma foldl_collect_Registry l req : Registry (foldl Umbrella.collect req l) = Registry req.
Proof.
  revert req. induction l as [|nb l IH]; intros req; simpl; [reflexivity|].
  by rewrite IH, collect_Registry.
Qed.

Lemma finish_Registry l req : Registry (Umbrella.finish l req) = Registry req.
Proof.
  induction l as [|nb l IH]; simpl; [reflexivity|]. case_bool_decide; [reflexivity | exact IH].
Qed.

Lemma registry_invariant w0 fuel :
  (∀ req w, cache_grew named w0 w →
     wp (Umbrella.executeASNAddrQuery serve creds fuel req)
        (λ r w', cache_grew named w0 w' ∧ (named req → named r)) (cache_grew named w0) w)
  ∧ (∀ req w, cache_grew named w0 w → named req →
     wp (Umbrella.executeASNQuery serve creds fuel req)
        (λ r w', cache_grew named w0 w' ∧ named r) (cache_grew named w0) w).
Proof.
  induction fuel as [|fuel [IHa IHn]].
  { split; intros; simpl; wp_step; assumption. }
  split.
  - intros req w Hw. rewrite executeASNAddrQuery_S.
    wp_step. unfold Umbrella.fetch. wp_step.
    destruct (serve _ _ ≫= Umbrella.unmarshal_as) as [[|as0 rest]|];
      try (wp_step; auto with grew).
    destruct (parseDate _) as [created|]; [|wp_step; auto with grew].
    cbv zeta. wp_step.
    set (req1 := Build_ASNRequest _ _ _ _ _ _ _ _ _ _).
    assert (Hreq1 : named req1) by apply registry_name_cases.
    destruct (Nat.eqb _ _).
    + wp_step. wp_step. 
      eapply wp_mono; [apply IHn; [auto with grew | exact Hreq1] | | auto].
      intros r w' [Hw' Hr]. simpl. wp_step. wp_step. wp_step. split; [auto with grew | auto].
    + wp_step. wp_step. wp_step. wp_step. split; [auto with grew | auto].
  - intros req w Hw Hreq. rewrite executeASNQuery_S.
    wp_step. unfold Umbrella.fetch. wp_step.
    destruct (serve _ _ ≫= Umbrella.unmarshal_netblock) as [[|nb0 rest]|];
      try (wp_step; auto with grew).
    cbv zeta.
    set (req1 := foldl Umbrella.collect req (nb0 :: rest)).
    assert (Hreq1 : named req1).
    { unfold named, req1. by rewrite foldl_collect_Registry. }
    destruct (if bool_decide _ then _ else _) as [addr|].
    + wp_step. wp_step.
      eapply wp_mono; [apply IHa; auto with grew | | auto].
      intros r w' [Hw' Hr]. split; [exact Hw' | apply Hr, Hreq1].
    + wp_step. split; [auto with grew|]. unfold named. by rewrite finish_Registry.
Qed.

End umbrella_registry.

Lemma wp_ok {A : Type} (m : M A) (Q : A → World → Prop) w :
  wp m Q (λ _, False) w → ∃ a w', m w = Ok a w' ∧ Q a w'.
Proof. unfold wp. destruct (m w); [eauto | tauto | tauto]. Qed.

(** ** Umbrella: the resolution makes one hop in each direction at most *)
Section umbrella_hops.
Context `{Library}.
Variable serve : nat → Call → option Umbrella.Page.
Variable creds : option Credentials.

Lemma foldl_collect_Netblocks l req :
  Netblocks (foldl Umbrella.collect req l)
  = Netblocks req ++ ((λ nb, strings.TrimSpace (Umbrella.nb_CIDR nb)) <$> l).
Proof.
  revert req. induction l as [|nb l IH]; intros req; simpl; [by rewrite app_nil_r|].
  rewrite IH. unfold Umbrella.collect. case_bool_decide; simpl; by rewrite <- app_assoc.
Qed.

Lemma foldl_collect_ASN l req : ASN (foldl Umbrella.collect req l) = ASN req.
Proof.
  revert req. induction l as [|nb l IH]; intros req; simpl; [reflexivity|].
  rewrite IH. unfold Umbrella.collect. case_bool_decide; reflexivity.
Qed.

(** With netblocks already known, the address direction asks once and
    does not call the other direction. *)
Lemma addr_query_leaf fuel req w :
  Netblocks req ≠ [] →
  wp (Umbrella.executeASNAddrQuery serve creds (S fuel) req)
     (λ _ w', sent w' = sent w ++ [to_asn creds (Address req)]) (λ _, False) w.
Proof.
  intros Hnb. rewrite executeASNAddrQuery_S.
  wp_step. unfold Umbrella.fetch. wp_step.
  destruct (serve _ _ ≫= Umbrella.unmarshal_as) as [[|as0 rest]|]; try (wp_step; reflexivity).
  destruct (parseDate _); [|wp_step; reflexivity].
  cbv zeta. wp_step. simpl Netblocks.
  destruct (Netblocks req) as [|nb nbs]; [done|]. simpl.
  wp_step. wp_step. wp_step. wp_step. reflexivity.
Qed.

(** The AS-number direction asks once and hops to the address
    direction at most once, which then does not hop back. *)
Lemma asn_query_hops fuel req w :
  wp (Umbrella.executeASNQuery serve creds (S (S fuel)) req)
     (λ _ w', sent w' = sent w ++ [to_cidrs creds (ASN req)]
              ∨ ∃ a, sent w' = sent w ++ [to_cidrs creds (ASN req); to_asn creds a])
     (λ _, False) w.
Proof.
  rewrite executeASNQuery_S.
  wp_step. unfold Umbrella.fetch. wp_step.
  destruct (serve _ _ ≫= Umbrella.unmarshal_netblock) as [[|nb0 rest]|];
    try (wp_step; left; reflexivity).
  cbv zeta.
  set (req1 := foldl Umbrella.collect req (nb0 :: rest)).
  assert (Hnb : Netblocks req1 ≠ []).
  { unfold req1. rewrite foldl_collect_Netblocks. simpl. by destruct (Netblocks req). }
  assert (Hasn : ASN req1 = ASN req) by apply foldl_collect_ASN.
  destruct (if bool_decide _ then _ else _) as [addr|].
  - wp_step. wp_step.
    eapply wp_mono; [apply addr_query_leaf; exact Hnb | | auto].
    intros r w' Hw'. simpl in Hw'. right. eexists. rewrite Hw'. simpl.
    rewrite <- app_assoc. reflexivity.
  - wp_step. left. reflexivity.
Qed.

Lemma addr_query_hops fuel req w :
  wp (Umbrella.executeASNAddrQuery serve creds (S (S (S fuel))) req)
     (λ _ w', ∃ calls, sent w' = sent w ++ calls ∧ one_hop_each creds calls)
     (λ _, False) w.
Proof.
  rewrite executeASNAddrQuery_S.
  wp_step. unfold Umbrella.fetch. wp_step.
  destruct (serve _ _ ≫= Umbrella.unmarshal_as) as [[|as0 rest]|];
    try (wp_step; eexists; split; [reflexivity | apply addr_only]).
  destruct (parseDate _); [|wp_step; eexists; split; [reflexivity | apply addr_only]].
  cbv zeta. wp_step.
  destruct (Nat.eqb _ _).
  - wp_step. wp_step.
    eapply wp_mono; [apply asn_query_hops | | auto].
    intros r w' Hw'. simpl in Hw'. simpl. wp_step. wp_step. wp_step. simpl.
    destruct Hw' as [Hw'|[a Hw']]; rewrite Hw', <- app_assoc; simpl;
      eexists; (split; [reflexivity|]); constructor.
  - wp_step. wp_step. wp_step. wp_step. eexists. split; [reflexivity | apply addr_only].
Qed.

End umbrella_hops.

(** C2. For every request, provider and credentials, a run of
    [Umbrella.asnRequest] with fuel for three nested calls ends normally:
    the mutual recursion of [executeASNAddrQuery] and [executeASNQuery]
    never asks for a fourth. The requests it makes are one of: none; one
    address query; an address query and a netblock query; those two and
    one more address query; one netblock query; a netblock query and an
    address query. So there is at most one hop from the address direction
    to the AS-number direction and at most one hop back. *)
Theorem umbrella_resolution_terminates `{Library}
    (serve : nat → Call → option Umbrella.Page) (creds : option Credentials)
    (fuel : nat) (req : ASNRequest) (w : World) :
  (3 ≤ fuel)%nat →
  ∃ req' w' calls,
    Umbrella.asnRequest serve creds fuel req w = Ok req' w'
    ∧ sent w' = sent w ++ calls
    ∧ one_hop_each creds calls.
Proof.
  intros Hfuel.
  destruct fuel as [|[|[|fuel]]]; try lia.
  unfold Umbrella.asnRequest.
  destruct (no_key creds).
  { exists req, w, []. rewrite app_nil_r. repeat split. constructor. }
  destruct (_ && _)%bool.
  { exists req, w, []. rewrite app_nil_r. repeat split. constructor. }
  destruct (negb _).
  - destruct (wp_ok _ _ _ (addr_query_hops serve creds fuel req w)) as (r & w' & Hrun & calls & Hs & Hc).
    exists r, w', calls. auto.
  - destruct (wp_ok _ _ _ (asn_query_hops serve creds (S fuel) req w)) as (r & w' & Hrun & Hs).
    destruct Hs as [Hs|[a Hs]]; eexists r, w', _; (split; [exact Hrun|]); (split; [exact Hs|]);
      constructor.
Qed.

Lemma umbrella_resolution_terminates_witness :
  ∃ req' w' calls,
    Umbrella.asnRequest (H := Example.library) (Scenario.umbrella 3) Scenario.key 3
      (Scenario.for_address "8.8.8.8") World_zero = Ok req' w'
    ∧ sent w' = sent World_zero ++ calls
    ∧ one_hop_each Scenario.key calls.
Proof.
  apply (umbrella_resolution_terminates (H := Example.library)). lia.
Defined.

(** C9 (as amended). Every fact that a run of [Umbrella.asnRequest]
    hands to the cache carries as its registry one of AfriNIC, APNIC,
    ARIN, LACNIC, RIPE NCC or the string N/A: the indexes 1 to 5 of the
    provider name the five registries in this order and every other
    index gives N/A. *)
Theorem umbrella_registry_enumerated `{Library}
    (serve : nat → Call → option Umbrella.Page) (creds : option Credentials)
    (fuel : nat) (req : ASNRequest) (w : World) :
  cache_grew named w (final (Umbrella.asnRequest serve creds fuel req w))
  ∧ (∀ ir, 1 ≤ ir ≤ 5 → registries !! Z.to_nat (ir - 1) = Some (Umbrella.registry_name ir))
  ∧ (∀ ir, ¬ 1 ≤ ir ≤ 5 → Umbrella.registry_name ir = "N/A").
Proof.
  split; [|split].
  - apply (wp_final _ (cache_grew named w)).
    unfold Umbrella.asnRequest.
    destruct (no_key creds); [wp_step; auto with grew|].
    destruct (_ && _)%bool eqn:Hzero; [wp_step; auto with grew|].
    destruct (registry_invariant serve creds w fuel) as [Ha Hn].
    destruct (negb _) eqn:Haddr.
    + eapply wp_mono; [apply Ha; auto with grew | | auto]. by intros r w' [Hw' _].
    + (* the AS-number direction: the registry of the request itself is not
         looked at before the address direction has written it *)
      destruct fuel as [|fuel]; [simpl; wp_step; auto with grew|].
      rewrite executeASNQuery_S.
      wp_step. unfold Umbrella.fetch. wp_step.
      destruct (serve _ _ ≫= Umbrella.unmarshal_netblock) as [[|nb0 rest]|];
        try (wp_step; auto with grew).
      cbv zeta.
      destruct (if bool_decide _ then _ else _) as [addr|]; [|wp_step; auto with grew].
      wp_step. wp_step.
      destruct (registry_invariant serve creds w fuel) as [Ha' _].
      eapply wp_mono; [apply Ha'; auto with grew | | auto]. by intros r w' [Hw' _].
  - intros ir Hir. unfold Umbrella.registry_name, registries.
    assert (ir = 1 ∨ ir = 2 ∨ ir = 3 ∨ ir = 4 ∨ ir = 5) as [->|[->|[->|[->| ->]]]] by lia;
      reflexivity.
  - intros ir Hir. unfold Umbrella.registry_name.
    repeat case_match; try reflexivity; lia.
Qed.

(** C9, as stated, fails: for the registry index 0 the fact in the cache
    has the registry N/A, which is neither one of the five names nor
    the string unknown. *)
Lemma umbrella_registry_unknown_refuted :
  ∃ f, f ∈ cache (final (Umbrella.asnRequest (H := Example.library)
                           (Scenario.umbrella 0) Scenario.key 3
                           (Scenario.for_address "8.8.8.8") World_zero))
       ∧ Registry f = "N/A"
       ∧ Registry f ∉ registries ++ ["unknown"].
Proof.
  eexists. split; [vm_compute; apply list_elem_of_here|].
  split; [reflexivity|].
  refine (bool_decide_unpack _ _). vm_compute. exact I.
Qed.

(** C10. A WHOIS request for a domain outside the scope is a no-op in
    both services: the handler returns the world it was given, so there
    is no outbound request, no cache update and no event, and the turn of
    the dispatch loop only pays its one rate-limit check. *)
Theorem whois_out_of_scope_noop `{Library}
    (umbrella : nat → Call → option Umbrella.Page)
    (web : nat → Call → option string)
    (IsDomainInScope : string → bool)
    (ucreds ncreds : option Credentials)
    (AnySubdomain : string → list string) (FirstLast : net.IPNet → net.IP * net.IP)
    (fuel : nat) (req : WhoisRequest) (w : World) :
  IsDomainInScope (Domain req) = false →
  Umbrella.whoisRequest umbrella IsDomainInScope ucreds fuel req w = Ok tt w
  ∧ NetworksDB.whoisRequest web IsDomainInScope ncreds AnySubdomain FirstLast req w = Ok tt w
  ∧ Umbrella.requests umbrella IsDomainInScope ucreds fuel (Umbrella.WhoisReq req) w
    = Ok tt (charged w)
  ∧ ∀ api, NetworksDB.requests web api IsDomainInScope ncreds AnySubdomain FirstLast
      (NetworksDB.WhoisReq req) w = Ok tt (charged w).
Proof.
  intros Hscope.
  assert (Hu : Umbrella.whoisRequest umbrella IsDomainInScope ucreds fuel req w = Ok tt w).
  { unfold Umbrella.whoisRequest. rewrite Hscope. simpl. by destruct (no_key ucreds). }
  assert (Hn : ∀ w, NetworksDB.whoisRequest web IsDomainInScope ncreds AnySubdomain FirstLast req w
               = Ok tt w).
  { intros w1. unfold NetworksDB.whoisRequest. by rewrite Hscope. }
  split; [exact Hu|]. split; [apply Hn|]. split.
  - unfold Umbrella.requests, Umbrella.whoisRequest. rewrite Hscope. simpl.
    by destruct (no_key ucreds).
  - intros api. unfold NetworksDB.requests.
    unfold mbind, M_bind, bind. simpl. apply Hn.
Qed.

Lemma whois_out_of_scope_noop_witness :
  let scope := λ d : string, bool_decide (d = "example.com") in
  let req := Scenario.whois_for "elsewhere.org" in
  Umbrella.whoisRequest (H := Example.library) (Scenario.umbrella 3) scope Scenario.key 3 req
    World_zero = Ok tt World_zero
  ∧ NetworksDB.whoisRequest (H := Example.library) (λ _ _, None) scope None (λ _, [])
      (λ n, ([], [])) req World_zero = Ok tt World_zero
  ∧ Umbrella.requests (H := Example.library) (Scenario.umbrella 3) scope Scenario.key 3
      (Umbrella.WhoisReq req) World_zero = Ok tt (charged World_zero)
  ∧ ∀ api, NetworksDB.requests (H := Example.library) (λ _ _, None) api scope None (λ _, [])
      (λ n, ([], [])) (NetworksDB.WhoisReq req) World_zero = Ok tt (charged World_zero).
Proof.
  intros scope req.
  apply (whois_out_of_scope_noop (H := Example.library)). reflexivity.
Defined.

(** ** Sets of strings *)
Section stringset_facts.
Context `{Library}.

Lemma Slice_NoDup s : NoDup (stringset.Slice s).
Proof.
  unfold stringset.Slice. rewrite set_order_perm. apply NoDup_elements.
Qed.

Lemma Slice_elem x s : x ∈ stringset.Slice s ↔ x ∈ s.
Proof.
  unfold stringset.Slice. rewrite set_order_perm. apply elem_of_elements.
Qed.

Lemma Slice_length s : length (stringset.Slice s) = stringset.Len s.
Proof.
  unfold stringset.Slice, stringset.Len. by rewrite set_order_perm.
Qed.

Lemma Insert_elem x e s : x ∈ stringset.Insert e s ↔ x = set_key e ∨ x ∈ s.
Proof. unfold stringset.Insert. set_solver. Qed.

Lemma InsertMany_elem x es s :
  x ∈ stringset.InsertMany es s ↔ (∃ e, e ∈ es ∧ x = set_key e) ∨ x ∈ s.
Proof.
  unfold stringset.InsertMany. revert s.
  induction es as [|e es IH]; intros s; simpl.
  - set_solver.
  - rewrite IH, Insert_elem. set_solver.
Qed.

End stringset_facts.

(** Runs a computation symbolically as far as its primitives go. *)
Ltac wp_run :=
  repeat first
    [ wp_step
    | lazymatch goal with
      | |- wp (match ?x with _ => _ end) _ _ _ => destruct x eqn:?
      end
    | progress cbv beta iota zeta ].

Lemma wp_seq {A B : Type} (I : World → Prop) (m : M A) (k : A → M B) Q w :
  wp m (λ _ w', I w') I w →
  (∀ a w', I w' → wp (k a) Q I w') →
  wp (m ≫= k) Q I w.
Proof.
  intros Hm Hk. apply wp_bind. eapply wp_mono; [exact Hm | | auto].
  intros a w' Hw'. by apply Hk.
Qed.

(** ** NetworksDB: the facts handed to the cache *)
Section networksdb_cache.
Context `{Library}.
Variable web : nat → Call → option string.
Variable api : nat → Call → option NetworksDB.ApiPage.
Variable creds : option Credentials.
Variable w0 : World.

#[local] Abbreviation I := (cache_grew sound_fact w0).

Lemma sound_fact_of f s :
  Netblocks f = stringset.Slice s →
  Prefix f = EmptyString ∨ Prefix f ∈ stringset.Slice s →
  sound_fact f.
Proof.
  intros Hn Hp. unfold sound_fact. rewrite Hn.
  split; [apply Slice_NoDup|]. intros Hne. by destruct Hp.
Qed.

Lemma select_prefix_elem ip cidrs :
  NetworksDB.select_prefix ip cidrs = EmptyString ∨ NetworksDB.select_prefix ip cidrs ∈ cidrs.
Proof.
  induction cidrs as [|cidr rest IH]; simpl; [by left|].
  destruct (NetworksDB.covers ip cidr); [right; apply list_elem_of_here|].
  destruct IH as [IH|IH]; [by left | right; by apply list_elem_of_further].
Qed.

Lemma prefix_for_elem addr s :
  NetworksDB.prefix_for addr s = EmptyString
  ∨ NetworksDB.prefix_for addr s ∈ stringset.Slice s.
Proof.
  unfold NetworksDB.prefix_for. destruct (negb _); [apply select_prefix_elem | by left].
Qed.

Lemma scrape_asn_query_cache asn addr netblocks w :
  I w → wp (NetworksDB.executeASNQuery web creds asn addr netblocks) (λ _ w', I w') I w.
Proof.
  intros Hw. unfold NetworksDB.executeASNQuery, NetworksDB.page_of, NetworksDB.second.
  wp_run; auto with grew.
  - apply cache_grew_cached; [|auto with grew].
    match goal with E : stringset.Slice _ = _ :: _ |- _ =>
      eapply sound_fact_of; [symmetry; exact E | right; rewrite E; apply list_elem_of_here]
    end.
  - apply cache_grew_cached; [|auto with grew].
    eapply sound_fact_of; [reflexivity|]. apply prefix_for_elem.
Qed.

Lemma scrape_addr_query_cache addr w :
  I w → wp (NetworksDB.executeASNAddrQuery web creds addr) (λ _ w', I w') I w.
Proof.
  intros Hw. unfold NetworksDB.executeASNAddrQuery, NetworksDB.page_of, NetworksDB.second.
  wp_run; auto with grew.
  apply scrape_asn_query_cache. auto with grew.
Qed.

Lemma api_netblocks_cache asn w Q :
  (∀ s w', I w' → Q s w') →
  I w → wp (NetworksDB.apiNetblocksQuery api creds asn) Q I w.
Proof.
  intros HQ Hw. unfold NetworksDB.apiNetblocksQuery, NetworksDB.ask.
  wp_run; apply HQ; auto with grew.
Qed.

Lemma api_asn_info_cache asn w Q :
  (∀ r w', I w' → Q r w') →
  I w → wp (NetworksDB.apiASNInfoQuery api creds asn) Q I w.
Proof.
  intros HQ Hw. unfold NetworksDB.apiASNInfoQuery, NetworksDB.ask.
  wp_run; try apply HQ; auto with grew.
Qed.

Lemma api_asn_query_cache asn addr netblocks w :
  I w → wp (NetworksDB.executeAPIASNQuery api creds asn addr netblocks) (λ _ w', I w') I w.
Proof.
  intros Hw. unfold NetworksDB.executeAPIASNQuery.
  cbv zeta. wp_step.
  assert (Hrest : ∀ filled w1, I w1 →
    wp (if Nat.eqb (stringset.Len filled) 0 then mret tt
        else
          prefix ← (if bool_decide (NetworksDB.prefix_for addr filled = EmptyString)
                    then match stringset.Slice filled with
                         | first :: _ => mret first
                         | [] => panic
                         end
                    else mret (NetworksDB.prefix_for addr filled));
          numRateLimitChecks 3;;
          req ← NetworksDB.apiASNInfoQuery api creds asn;
          match req with
          | None => mret tt
          | Some req =>
              Update (set_Netblocks (stringset.Slice filled)
                        (set_Prefix prefix
                           (if negb (bool_decide (addr = EmptyString))
                            then set_Address addr req else req)))
          end) (λ _ w', I w') I w1).
  { intros filled w1 Hw1.
    destruct (Nat.eqb _ _); [wp_step; done|].
    wp_step.
    assert (Hupd : ∀ p w2, (p = EmptyString ∨ p ∈ stringset.Slice filled) → I w2 →
      wp (numRateLimitChecks 3;;
          req ← NetworksDB.apiASNInfoQuery api creds asn;
          match req with
          | None => mret tt
          | Some req =>
              Update (set_Netblocks (stringset.Slice filled)
                        (set_Prefix p
                           (if negb (bool_decide (addr = EmptyString))
                            then set_Address addr req else req)))
          end) (λ _ w', I w') I w2).
    { intros p w2 Hp Hw2. wp_step. wp_step. wp_step.
      apply api_asn_info_cache; [|auto with grew].
      intros [r|] w3 Hw3; [|wp_step; done].
      wp_step. apply cache_grew_cached; [|done].
      eapply sound_fact_of; [reflexivity | exact Hp]. }
    destruct (bool_decide (NetworksDB.prefix_for addr filled = EmptyString)).
    - destruct (stringset.Slice filled) as [|first rest] eqn:Hs; cbv beta iota;
        [wp_step; done|].
      wp_step. apply Hupd; [|done]. right. apply list_elem_of_here.
    - wp_step. apply Hupd; [|done]. apply prefix_for_elem. }
  destruct (Nat.eqb _ _).
  - wp_step. apply api_netblocks_cache; [|done].
    intros s w' Hw'. wp_step. by apply Hrest.
  - wp_step. by apply Hrest.
Qed.

Lemma candidates_cache ip asns asn cidrs w Q :
  (∀ r w', I w' → Q r w') →
  I w → wp (NetworksDB.candidates api creds ip asns asn cidrs) Q I w.
Proof.
  intros HQ. revert cidrs w.
  induction asns as [|a rest IH]; intros cidrs w Hw; cbn [NetworksDB.candidates].
  - wp_step. by apply HQ.
  - wp_step. wp_step. wp_step. apply api_netblocks_cache; [|auto with grew].
    intros s w' Hw'. destruct (existsb _ _); [wp_step; by apply HQ | by apply IH].
Qed.

Lemma api_addr_query_cache addr w :
  I w → wp (NetworksDB.executeAPIASNAddrQuery api creds addr) (λ _ w', I w') I w.
Proof.
  intros Hw. unfold NetworksDB.executeAPIASNAddrQuery.
  wp_step.
  assert (Hip : wp (NetworksDB.apiIPQuery api creds addr) (λ _ w', I w') I w).
  { unfold NetworksDB.apiIPQuery, NetworksDB.ask. wp_run; auto with grew. }
  eapply wp_mono; [exact Hip | | auto].
  intros [cidr id] w1 Hw1. destruct (bool_decide _); [wp_step; done|].
  wp_step. wp_step. wp_step.
  assert (Horg : ∀ w, I w → wp (NetworksDB.apiOrgInfoQuery api creds id) (λ _ w', I w') I w).
  { intros w2 Hw2. unfold NetworksDB.apiOrgInfoQuery, NetworksDB.ask. wp_run; auto with grew. }
  eapply wp_mono; [apply Horg; auto with grew | | auto].
  intros asns w2 Hw2. destruct (Nat.eqb _ _); [wp_step; done|].
  wp_step. apply candidates_cache; [|done].
  intros [asn cidrs] w3 Hw3. destruct (asn =? 0); [wp_step; done|].
  by apply api_asn_query_cache.
Qed.

End networksdb_cache.

(** C1 (as amended). Every fact that NetworksDB hands to the cache, on
    the API path and on the scrape path, has netblocks without
    duplicates and a prefix that is empty or one of the netblocks. *)
Theorem networksdb_facts_sound `{Library}
    (web : nat → Call → option string) (api : nat → Call → option NetworksDB.ApiPage)
    (creds : option Credentials) (req : ASNRequest) (w : World) :
  cache_grew sound_fact w (final (NetworksDB.asnRequest web api creds req w)).
Proof.
  apply (wp_final _ (cache_grew sound_fact w)).
  unfold NetworksDB.asnRequest.
  destruct (_ && _)%bool; [wp_step; auto with grew|].
  wp_step. wp_step.
  destruct (NetworksDB.hasAPIKey creds), (negb _).
  - apply api_addr_query_cache. auto with grew.
  - apply api_asn_query_cache. auto with grew.
  - apply scrape_addr_query_cache. auto with grew.
  - apply scrape_asn_query_cache. auto with grew.
Qed.

(** C1, as stated, fails for Umbrella: for the address [8.8.8.8], whose
    prefix is also the first netblock of its AS, the fact in the cache
    lists that netblock twice. *)
Lemma umbrella_netblocks_duplicated :
  ∃ f, f ∈ cache (final (Umbrella.requests (H := Example.library)
                           (Scenario.umbrella 3) (λ _, true) Scenario.key 3
                           (Umbrella.ASNReq (Scenario.for_address "8.8.8.8")) World_zero))
       ∧ Netblocks f = ["8.8.8.0/24"; "8.8.8.0/24"; "8.8.4.0/24"]
       ∧ ¬ NoDup (Netblocks f).
Proof.
  eexists. split; [vm_compute; apply list_elem_of_here|].
  split; [reflexivity|].
  refine (bool_decide_unpack _ _). vm_compute. exact I.
Qed.

(** ** Package [net]: containment is membership in the network range *)

Lemma forallb_below (P : nat → bool) (n : nat) :
  forallb P (seq 0 n) = true → ∀ k, (k < n)%nat → P k = true.
Proof.
  intros Hall k Hk. rewrite forallb_forall in Hall. apply Hall.
  apply in_seq. lia.
Qed.

(** The mask of the byte that holds the end of the prefix keeps its
    [ones] upper bits. *)
Lemma partial_mask (ones b : Z) :
  0 ≤ ones < 8 → is_byte b →
  Z.land b (Z.lxor 255 (Z.shiftr 255 ones)) = 2 ^ (8 - ones) * (b / 2 ^ (8 - ones)).
Proof.
  intros Hones Hb.
  pose (P := λ n m : nat,
    Z.land (Z.of_nat m) (Z.lxor 255 (Z.shiftr 255 (Z.of_nat n)))
    =? 2 ^ (8 - Z.of_nat n) * (Z.of_nat m / 2 ^ (8 - Z.of_nat n))).
  assert (Hall : forallb (λ n, forallb (P n) (seq 0 256)) (seq 0 8) = true)
    by (vm_compute; reflexivity).
  pose proof (forallb_below _ _ Hall (Z.to_nat ones) ltac:(lia)) as Hn.
  pose proof (forallb_below _ _ Hn (Z.to_nat b) ltac:(unfold is_byte in Hb; lia)) as Hm.
  unfold P in Hm. apply Z.eqb_eq in Hm.
  unfold is_byte in Hb. rewrite !Z2Nat.id in Hm by lia. exact Hm.
Qed.

Lemma full_mask (b : Z) : is_byte b → Z.land b 255 = b.
Proof.
  intros Hb. change 255 with (Z.ones 8). rewrite Z.land_ones by lia.
  unfold is_byte in Hb. apply Z.mod_small. lia.
Qed.

Lemma be_bounds (p : list Z) : Forall is_byte p → 0 ≤ be p < 256 ^ Z.of_nat (length p).
Proof.
  induction 1 as [|b p Hb Hp IH]; simpl be; simpl length; [lia|].
  rewrite Nat2Z.inj_succ, Z.pow_succ_r by lia.
  unfold is_byte in Hb. nia.
Qed.

Lemma mask_bytes_zero (l : nat) : net.mask_bytes l 0 = replicate l 0.
Proof. induction l as [|l IH]; simpl; [reflexivity | by rewrite IH]. Qed.

Lemma same_network_zero (nn a : list Z) (l : nat) :
  net.same_network nn (replicate l 0) a = true.
Proof.
  revert nn a. induction l as [|l IH]; intros nn a; destruct a, nn; simpl; try reflexivity.
  rewrite !Z.land_0_r. simpl. apply IH.
Qed.

Lemma range_quotient (v x ones bits : Z) :
  0 ≤ bits - ones →
  first_address v ones bits ≤ x ≤ last_address v ones bits
  ↔ x / 2 ^ (bits - ones) = v / 2 ^ (bits - ones).
Proof.
  intros Hh. unfold last_address, first_address.
  set (h := bits - ones) in *.
  assert (Hpos : 0 < 2 ^ h) by (apply Z.pow_pos_nonneg; lia).
  pose proof (Z.div_mod v (2 ^ h) ltac:(lia)) as Hv.
  pose proof (Z.mod_pos_bound v (2 ^ h) Hpos) as Hvm.
  pose proof (Z.div_mod x (2 ^ h) ltac:(lia)) as Hx.
  pose proof (Z.mod_pos_bound x (2 ^ h) Hpos) as Hxm.
  split.
  - intros Hr. nia.
  - intros Heq. rewrite Heq in Hx. nia.
Qed.

(** The comparison loop of [Contains] on a network number masked by a
    prefix mask: the address has the same quotient by the size of the
    network. *)
Lemma same_network_quotient (p : list Z) :
  ∀ (a : list Z) (ones : Z),
    length a = length p → Forall is_byte p → Forall is_byte a →
    0 ≤ ones ≤ 8 * Z.of_nat (length p) →
    net.same_network (net.and_bytes p (net.mask_bytes (length p) ones))
      (net.mask_bytes (length p) ones) a = true
    ↔ be a / 2 ^ (8 * Z.of_nat (length p) - ones) = be p / 2 ^ (8 * Z.of_nat (length p) - ones).
Proof.
  induction p as [|b p IH]; intros a ones Hlen Hp Ha Hones.
  { destruct a; [|discriminate Hlen]. simpl. tauto. }
  destruct a as [|c a]; [discriminate Hlen|].
  injection Hlen as Hlen.
  apply Forall_cons in Hp as [Hb Hp]. apply Forall_cons in Ha as [Hc Ha].
  pose proof (be_bounds p Hp) as Hbp. pose proof (be_bounds a Ha) as Hba.
  rewrite Hlen in Hba.
  cbn [length] in Hones. cbn [length net.mask_bytes be]. rewrite Hlen.
  set (L := Z.of_nat (length p)) in *.
  replace (Z.of_nat (S (length p))) with (L + 1) in * by lia.
  assert (HL : 0 ≤ L) by lia.
  destruct (8 <=? ones) eqn:Hfull.
  - apply Z.leb_le in Hfull.
    cbn [net.and_bytes net.same_network].
    rewrite !(full_mask b Hb), (full_mask c Hc).
    remember (8 * (L + 1) - ones) as h eqn:Hhdef.
    assert (Hh : 0 ≤ h ≤ 8 * L) by lia.
    specialize (IH a (ones - 8) Hlen Hp Ha ltac:(lia)).
    replace (8 * L - (ones - 8)) with h in IH by lia.
    assert (Hsplit : 256 ^ L = 2 ^ h * 2 ^ (8 * L - h)).
    { rewrite <- Z.pow_add_r by lia. replace (h + (8 * L - h)) with (8 * L) by lia.
      change 256 with (2 ^ 8). by rewrite <- Z.pow_mul_r by lia. }
    assert (Hpos : 0 < 2 ^ h) by (apply Z.pow_pos_nonneg; lia).
    assert (HK : 0 < 2 ^ (8 * L - h)) by (apply Z.pow_pos_nonneg; lia).
    remember (2 ^ (8 * L - h)) as K eqn:HKdef.
    assert (Hdiv : ∀ d x, (d * 256 ^ L + x) / 2 ^ h = d * K + x / 2 ^ h).
    { intros d x. rewrite Hsplit.
      replace (d * (2 ^ h * K) + x) with (x + d * K * 2 ^ h) by lia.
      rewrite Z.div_add by lia. lia. }
    rewrite !Hdiv.
    assert (Hqp : 0 ≤ be p / 2 ^ h < K).
    { split; [apply Z.div_pos; lia|]. apply Z.div_lt_upper_bound; lia. }
    assert (Hqa : 0 ≤ be a / 2 ^ h < K).
    { split; [apply Z.div_pos; lia|]. apply Z.div_lt_upper_bound; lia. }
    destruct (b =? c) eqn:Hbc; simpl.
    + apply Z.eqb_eq in Hbc. subst c. rewrite IH. lia.
    + apply Z.eqb_neq in Hbc. split; [discriminate|]. intros Heq. exfalso. nia.
  - apply Z.leb_gt in Hfull.
    cbn [net.and_bytes net.same_network].
    rewrite mask_bytes_zero, same_network_zero.
    rewrite <- Z.land_assoc, Z.land_diag.
    rewrite !partial_mask by (done || lia).
    remember (8 - ones) as k eqn:Hkdef.
    assert (Hk : 0 < k ≤ 8) by lia.
    replace (8 * (L + 1) - ones) with (8 * L + k) by lia.
    assert (Hpow : 2 ^ (8 * L + k) = 256 ^ L * 2 ^ k).
    { rewrite Z.pow_add_r by lia. change 256 with (2 ^ 8).
      by rewrite <- Z.pow_mul_r by lia. }
    assert (HM : 0 < 256 ^ L) by (apply Z.pow_pos_nonneg; lia).
    assert (Hpk : 0 < 2 ^ k) by (apply Z.pow_pos_nonneg; lia).
    assert (Hdiv : ∀ d x, 0 ≤ x < 256 ^ L → (d * 256 ^ L + x) / 2 ^ (8 * L + k) = d / 2 ^ k).
    { intros d x Hx. rewrite Hpow, <- Z.div_div by lia.
      replace (d * 256 ^ L + x) with (x + d * 256 ^ L) by lia.
      rewrite Z.div_add by lia. rewrite (Z.div_small x) by lia. reflexivity. }
    rewrite !Hdiv by lia.
    destruct (_ =? _) eqn:Heq; simpl.
    + apply Z.eqb_eq in Heq. split; [intros _; nia | reflexivity].
    + apply Z.eqb_neq in Heq. split; [discriminate|]. intros Hq. exfalso. apply Heq.
      by rewrite Hq.
Qed.

Lemma mask_bytes_length (l : nat) (ones : Z) : length (net.mask_bytes l ones) = l.
Proof.
  revert ones. induction l as [|l IH]; intros ones; simpl; [reflexivity|].
  destruct (8 <=? ones); simpl; by rewrite IH.
Qed.

Lemma and_bytes_length (p m : list Z) :
  length p = length m → length (net.and_bytes p m) = length p.
Proof.
  revert m. induction p as [|b p IH]; intros [|c m] Hlen; simpl; try done.
  injection Hlen as Hlen. by rewrite IH.
Qed.

Lemma mask_bytes_full (k l : nat) (ones : Z) :
  8 * Z.of_nat k ≤ ones →
  net.mask_bytes (k + l) ones = replicate k 255 ++ net.mask_bytes l (ones - 8 * Z.of_nat k).
Proof.
  revert ones. induction k as [|k IH]; intros ones Hones.
  - simpl. f_equal. lia.
  - cbn [Nat.add net.mask_bytes replicate app].
    destruct (8 <=? ones) eqn:Hfull; [|apply Z.leb_gt in Hfull; lia].
    rewrite IH by lia.
    replace (ones - 8 - 8 * Z.of_nat k) with (ones - 8 * Z.of_nat (S k)) by lia. reflexivity.
Qed.

Lemma and_bytes_app (p1 p2 m1 m2 : list Z) :
  length p1 = length m1 →
  net.and_bytes (p1 ++ p2) (m1 ++ m2) = net.and_bytes p1 m1 ++ net.and_bytes p2 m2.
Proof.
  revert m1. induction p1 as [|b p1 IH]; intros [|c m1] Hlen; simpl; try done.
  injection Hlen as Hlen. by rewrite IH.
Qed.

Lemma and_bytes_full (p : list Z) :
  Forall is_byte p → net.and_bytes p (replicate (length p) 255) = p.
Proof.
  induction 1 as [|b p Hb Hp IH]; simpl; [reflexivity|]. by rewrite full_mask, IH.
Qed.

(** The byte of the mask after the last full one is not [0xff], so the
    masked address has a byte that is not [0xff] there. *)
Lemma mask_bytes_short (l : nat) :
  ∀ (i : nat) (ones : Z) (p : list Z),
    0 ≤ ones < 8 * (Z.of_nat i + 1) → (i < l)%nat → length p = l → Forall is_byte p →
    net.and_bytes p (net.mask_bytes l ones) !! i ≠ Some 255.
Proof.
  induction l as [|l IH]; intros i ones p Hones Hi Hlen Hp; [lia|].
  destruct p as [|b p]; [discriminate Hlen|]. injection Hlen as Hlen.
  apply Forall_cons in Hp as [Hb Hp].
  cbn [net.mask_bytes].
  destruct (8 <=? ones) eqn:Hfull.
  - apply Z.leb_le in Hfull. destruct i as [|i]; [lia|].
    cbn [net.and_bytes]. simpl. apply IH; [lia | lia | done | done].
  - apply Z.leb_gt in Hfull. cbn [net.and_bytes].
    destruct i as [|i].
    + simpl. rewrite partial_mask by (done || lia).
      intros Heq. injection Heq as Heq.
      assert (Hk : 2 ^ (8 - ones) = 2 * 2 ^ (8 - ones - 1)).
      { rewrite <- Z.pow_succ_r by lia. f_equal. lia. }
      rewrite Hk in Heq. lia.
    + simpl. apply IH; [lia | lia | done | done].
Qed.

(** *** The shapes of [To4] *)

Lemma To4_four (ip : list Z) : length ip = 4%nat → net.To4 ip = ip.
Proof. intros Hlen. unfold net.To4. by rewrite Hlen. Qed.

Lemma To4_mapped (p : list Z) :
  length p = 4%nat → net.To4 (net.v4InV6Prefix ++ p) = p.
Proof.
  intros Hlen. do 5 (destruct p as [|? p]; try discriminate Hlen). reflexivity.
Qed.

Lemma To4_sixteen (ip : list Z) :
  length ip = 16%nat →
  (take 12 ip = net.v4InV6Prefix ∧ net.To4 ip = drop 12 ip)
  ∨ (take 12 ip ≠ net.v4InV6Prefix ∧ net.To4 ip = []).
Proof.
  intros Hlen.
  do 17 (destruct ip as [|? ip]; try discriminate Hlen).
  unfold net.To4, net.v4InV6Prefix. cbn [length Nat.eqb net.IPv4len net.IPv6len take].
  destruct (decide ([z; z0; z1; z2; z3; z4; z5; z6; z7; z8; z9; z10]
                    = [0; 0; 0; 0; 0; 0; 0; 0; 0; 0; 255; 255])) as [Heq|Hne].
  - left. split; [exact Heq|]. injection Heq as -> -> -> -> -> -> -> -> -> -> -> ->. reflexivity.
  - right. split; [exact Hne|].
    destruct (_ && _)%bool eqn:Hc; [|reflexivity].
    exfalso. apply Hne.
    repeat (apply andb_prop in Hc as [Hc ?]).
    simpl in *. repeat case_bool_decide; try done.
    repeat match goal with E : (_ && _)%bool = true |- _ => apply andb_prop in E as [? ?] end.
    repeat match goal with
           | E : context [match ?x with _ => _ end] |- _ =>
               is_var x; destruct x; try discriminate E; clear E
           end.
    simplify_eq.
Qed.

Lemma To4_other (ip : list Z) :
  length ip ≠ 4%nat → length ip ≠ 16%nat → net.To4 ip = [].
Proof.
  intros H4 H16. unfold net.To4.
  destruct (Nat.eqb_spec (length ip) net.IPv4len) as [E|_]; [done|].
  destruct (Nat.eqb_spec (length ip) net.IPv6len) as [E|_]; [done|]. reflexivity.
Qed.

Lemma address_cases (a : list Z) :
  Forall is_byte a →
  (∃ q, length q = 4%nat ∧ Forall is_byte q ∧ norm a = q ∧ number a = Some (V4, be q))
  ∨ (length a = 16%nat ∧ norm a = a ∧ number a = Some (V6, be a))
  ∨ (length a ≠ 4%nat ∧ length a ≠ 16%nat ∧ norm a = a ∧ number a = None).
Proof.
  intros Ha. unfold norm, number.
  destruct (decide (length a = 4%nat)) as [H4|H4].
  { left. exists a. rewrite (To4_four a H4).
    destruct a as [|b a]; [discriminate H4|]. auto. }
  destruct (decide (length a = 16%nat)) as [H16|H16].
  - destruct (To4_sixteen a H16) as [[Hm ->]|[Hm ->]].
    + left. exists (drop 12 a).
      assert (Hl : length (drop 12 a) = 4%nat) by (rewrite length_drop; lia).
      destruct (drop 12 a) as [|b q] eqn:Hq; [discriminate Hl|].
      repeat split; try done. rewrite <- Hq. by apply Forall_drop.
    + right. left. rewrite H16. auto.
  - right. right. rewrite (To4_other a H4 H16).
    destruct (Nat.eqb_spec (length a) 16); [done|]. auto.
Qed.

Lemma contains_unfold (n : net.IPNet) (a : list Z) :
  net.Contains n a =
  (let '(nn, m) := net.networkNumberAndMask n in
   if negb (Nat.eqb (length (norm a)) (length nn)) then false
   else net.same_network nn m (norm a)).
Proof. reflexivity. Qed.

(** Containment in a network of [bits = 8 * length p] bits. *)
Lemma contains_range (fam : family) (n : net.IPNet) (p : list Z) (ones : Z) (a : list Z) :
  (length p = 4%nat ∧ fam = V4) ∨ (length p = 16%nat ∧ fam = V6) →
  Forall is_byte p → 0 ≤ ones ≤ 8 * Z.of_nat (length p) →
  net.networkNumberAndMask n
  = (net.and_bytes p (net.mask_bytes (length p) ones), net.mask_bytes (length p) ones) →
  Forall is_byte a →
  net.Contains n a = true
  ↔ within (fam, first_address (be p) ones (8 * Z.of_nat (length p)),
            last_address (be p) ones (8 * Z.of_nat (length p))) a.
Proof.
  intros Hfam Hp Hones Hnn Ha.
  rewrite contains_unfold, Hnn.
  rewrite and_bytes_length by (by rewrite mask_bytes_length).
  unfold within. cbn [fst snd].
  assert (Hq : ∀ q, length q = length p → Forall is_byte q →
    net.same_network (net.and_bytes p (net.mask_bytes (length p) ones))
      (net.mask_bytes (length p) ones) q = true
    ↔ first_address (be p) ones (8 * Z.of_nat (length p)) ≤ be q
      ≤ last_address (be p) ones (8 * Z.of_nat (length p))).
  { intros q Hlen Hqb. rewrite same_network_quotient by done.
    symmetry. apply range_quotient. lia. }
  destruct (address_cases a Ha) as [(q & Hl & Hqb & -> & ->)|[(Hl & -> & ->)|(H4 & H16 & -> & ->)]].
  - destruct Hfam as [[Hlp ->]|[Hlp ->]].
    + rewrite Hl, Hlp. simpl negb. cbv iota. rewrite <- Hlp, Hq by (done || lia).
      split; [intros Hr; eauto | intros (v & [= <-] & Hr); exact Hr].
    + rewrite Hl, Hlp. simpl. split; [discriminate | intros (v & [=] & _)].
  - destruct Hfam as [[Hlp ->]|[Hlp ->]].
    + rewrite Hl, Hlp. simpl. split; [discriminate | intros (v & [=] & _)].
    + rewrite Hl, Hlp. simpl negb. cbv iota. rewrite <- Hlp, Hq by (done || lia).
      split; [intros Hr; eauto | intros (v & [= <-] & Hr); exact Hr].
  - assert (Hne : Nat.eqb (length a) (length p) = false).
    { apply Nat.eqb_neq. destruct Hfam as [[-> _]|[-> _]]; done. }
    rewrite Hne. simpl. split; [discriminate | intros (v & [=] & _)].
Qed.

Lemma contains_range_4 (n : net.IPNet) (p : list Z) (ones : Z) (a : list Z) :
  length p = 4%nat → Forall is_byte p → 0 ≤ ones ≤ 32 →
  net.networkNumberAndMask n
  = (net.and_bytes p (net.mask_bytes 4 ones), net.mask_bytes 4 ones) →
  Forall is_byte a →
  net.Contains n a = true
  ↔ within (V4, first_address (be p) ones 32, last_address (be p) ones 32) a.
Proof.
  intros Hlen Hp Hones Hnn Ha.
  pose proof (contains_range V4 n p ones a) as Hr. rewrite Hlen in Hr.
  apply Hr; auto.
Qed.

Lemma contains_range_16 (n : net.IPNet) (p : list Z) (ones : Z) (a : list Z) :
  length p = 16%nat → Forall is_byte p → 0 ≤ ones ≤ 128 →
  net.networkNumberAndMask n
  = (net.and_bytes p (net.mask_bytes 16 ones), net.mask_bytes 16 ones) →
  Forall is_byte a →
  net.Contains n a = true
  ↔ within (V6, first_address (be p) ones 128, last_address (be p) ones 128) a.
Proof.
  intros Hlen Hp Hones Hnn Ha.
  pose proof (contains_range V6 n p ones a) as Hr. rewrite Hlen in Hr.
  apply Hr; auto.
Qed.

(** *** The networks [ParseCIDR] builds *)

Lemma number_and_mask_v4 (p m : list Z) :
  length p = 4%nat → length m = 4%nat →
  net.networkNumberAndMask {| net.IPNet_IP := net.and_bytes p m; net.IPNet_Mask := m |}
  = (net.and_bytes p m, m).
Proof.
  intros Hp Hm. unfold net.networkNumberAndMask. cbn [net.IPNet_IP net.IPNet_Mask].
  assert (Hl : length (net.and_bytes p m) = 4%nat) by (rewrite and_bytes_length; lia).
  rewrite (To4_four _ Hl).
  destruct (net.and_bytes p m) as [|b nn] eqn:Hnn; [discriminate Hl|].
  rewrite Hm, Hl. reflexivity.
Qed.

Lemma number_and_mask_v6 (ip m : list Z) :
  length ip = 16%nat → length m = 16%nat → net.To4 (net.and_bytes ip m) = [] →
  net.networkNumberAndMask {| net.IPNet_IP := net.and_bytes ip m; net.IPNet_Mask := m |}
  = (net.and_bytes ip m, m).
Proof.
  intros Hip Hm Hnil. unfold net.networkNumberAndMask. cbn [net.IPNet_IP net.IPNet_Mask].
  rewrite Hnil, Hm, and_bytes_length by lia. rewrite Hip. reflexivity.
Qed.

Lemma number_and_mask_mapped (p m4 : list Z) :
  length p = 4%nat → length m4 = 4%nat →
  net.networkNumberAndMask
    {| net.IPNet_IP := net.v4InV6Prefix ++ net.and_bytes p m4;
       net.IPNet_Mask := replicate 12 255 ++ m4 |}
  = (net.and_bytes p m4, m4).
Proof.
  intros Hp Hm. unfold net.networkNumberAndMask. cbn [net.IPNet_IP net.IPNet_Mask].
  assert (Hl : length (net.and_bytes p m4) = 4%nat) by (rewrite and_bytes_length; lia).
  rewrite (To4_mapped _ Hl).
  destruct (net.and_bytes p m4) as [|b nn] eqn:Hnn; [discriminate Hl|].
  rewrite length_app, length_replicate, Hm, Hl. reflexivity.
Qed.

(** *** What the parsers return *)

Lemma digit_bounds (c : ascii) (d : Z) : strconv.digit c = Some d → 0 ≤ d ≤ 9.
Proof.
  unfold strconv.digit, strings.byte_in.
  destruct (_ && _)%bool eqn:Hc; [|discriminate].
  apply andb_prop in Hc as [Hlo Hhi].
  apply Nat.leb_le in Hlo. apply Nat.leb_le in Hhi.
  intros [= <-]. lia.
Qed.

Lemma dtoi_from_nonneg (s : string) :
  ∀ (n : Z) (i : nat) (r : Z) (c : nat) (ok : bool),
    0 ≤ n → net.dtoi_from s n i = (r, c, ok) → 0 ≤ r.
Proof.
  induction s as [|ch s IH]; intros n i r c ok Hn; simpl.
  - destruct (Nat.eqb i 0); intros [= <- _ _]; lia.
  - destruct (strconv.digit ch) as [d|] eqn:Hd.
    + apply digit_bounds in Hd.
      destruct (net.big <=? n * 10 + d).
      * intros [= <- _ _]. unfold net.big. lia.
      * apply IH. lia.
    + destruct (Nat.eqb i 0); intros [= <- _ _]; lia.
Qed.

Lemma parseIPv4_loop_shape (todo : nat) :
  ∀ (i : nat) (s : string) (acc ip : list Z),
    Forall is_byte acc →
    net.parseIPv4_loop todo i s acc = Some ip →
    ∃ q, ip = net.v4InV6Prefix ++ acc ++ q ∧ length q = todo ∧ Forall is_byte q.
Proof.
  induction todo as [|todo IH]; intros i s acc ip Hacc; cbn [net.parseIPv4_loop].
  - destruct s; [|discriminate]. intros [= <-]. exists []. by rewrite app_nil_r.
  - destruct s as [|ch s]; [discriminate|].
    destruct (if Nat.ltb 0 i then _ else _) as [s1|]; [|discriminate].
    destruct (net.dtoi s1) as [[n c] ok] eqn:Hd.
    destruct (negb ok || (255 <? n))%bool eqn:Hbad; [discriminate|].
    destruct (_ && _)%bool; [discriminate|].
    intros Hrec.
    apply orb_false_elim in Hbad as [_ Hn]. apply Z.ltb_ge in Hn.
    pose proof (dtoi_from_nonneg _ _ _ _ _ _ (Z.le_refl 0) Hd) as Hn0.
    apply IH in Hrec as (q & -> & Hlen & Hq).
    + exists (n :: q). rewrite <- app_assoc. simpl. repeat split; [by rewrite Hlen|].
      constructor; [unfold is_byte; lia | exact Hq].
    + apply Forall_app. split; [exact Hacc|]. constructor; [unfold is_byte; lia | constructor].
Qed.

Lemma parseIPv4_shape (s : string) (ip : list Z) :
  net.parseIPv4 s = Some ip →
  ∃ p, ip = net.v4InV6Prefix ++ p ∧ length p = 4%nat ∧ Forall is_byte p.
Proof.
  intros Hp. apply parseIPv4_loop_shape in Hp as (q & -> & Hl & Hq); [|constructor].
  exists q. auto.
Qed.

Lemma prefix_is_byte : Forall is_byte net.v4InV6Prefix.
Proof. unfold net.v4InV6Prefix. repeat constructor; unfold is_byte; lia. Qed.

Lemma ParseIP_bytes `{Library} (t : string) : Forall is_byte (net.ParseIP t).
Proof.
  unfold net.ParseIP. destruct (net.family t) as [[|]|]; [| |constructor].
  - destruct (net.parseIPv4 t) as [ip|] eqn:Hp; [|constructor].
    apply parseIPv4_shape in Hp as (p & -> & _ & Hb). cbn [default].
    apply Forall_app. split; [apply prefix_is_byte | exact Hb].
  - destruct (parseIPv6 t) as [ip|] eqn:Hp; [|constructor].
    by apply parseIPv6_bytes in Hp as [_ Hb].
Qed.

Lemma Mask_v4 (p m : list Z) :
  length p = 4%nat → length m = 4%nat →
  net.Mask (net.v4InV6Prefix ++ p) m = net.and_bytes p m.
Proof.
  intros Hp Hm.
  do 5 (destruct p as [|? p]; try discriminate Hp).
  do 5 (destruct m as [|? m]; try discriminate Hm).
  reflexivity.
Qed.

Lemma Mask_v6 (ip m : list Z) :
  length ip = 16%nat → length m = 16%nat → net.Mask ip m = net.and_bytes ip m.
Proof.
  intros Hip Hm. unfold net.Mask, net.IPv4len, net.IPv6len.
  rewrite Hm, Hip. cbn [Nat.eqb andb]. rewrite ?Hm. cbn [Nat.eqb andb].
  rewrite ?Hm, ?Hip. reflexivity.
Qed.

Lemma CIDRMask_bytes (n : Z) (iplen : nat) :
  iplen = 4%nat ∨ iplen = 16%nat → 0 ≤ n ≤ 8 * Z.of_nat iplen →
  net.CIDRMask n (8 * Z.of_nat iplen) = net.mask_bytes iplen n.
Proof.
  intros Hlen Hn. unfold net.CIDRMask.
  destruct (Z.ltb_spec n 0); [lia|].
  destruct (Z.ltb_spec (8 * Z.of_nat iplen) n); [lia|].
  by destruct Hlen as [-> | ->].
Qed.

Lemma masked_not_mapped (ip : list Z) (ones : Z) :
  length ip = 16%nat → Forall is_byte ip → 0 ≤ ones ≤ 128 →
  ¬ (take 12 ip = net.v4InV6Prefix ∧ 96 ≤ ones) →
  net.To4 (net.and_bytes ip (net.mask_bytes 16 ones)) = [].
Proof.
  intros Hlen Hb Hones Hnot.
  assert (Hl : length (net.and_bytes ip (net.mask_bytes 16 ones)) = 16%nat).
  { rewrite and_bytes_length; by rewrite ?mask_bytes_length. }
  destruct (To4_sixteen _ Hl) as [[Hm _]|[_ Hnil]]; [exfalso|exact Hnil].
  destruct (Z.lt_ge_cases ones 96) as [Hlt|Hge].
  - pose proof (mask_bytes_short 16 11 ones ip ltac:(lia) ltac:(lia) Hlen Hb) as Hne.
    apply Hne. rewrite <- (lookup_take_lt _ 12) by lia. by rewrite Hm.
  - apply Hnot. split; [|exact Hge].
    assert (Ht : length (take 12 ip) = 12%nat) by (rewrite length_take; lia).
    assert (Hmask : net.and_bytes ip (net.mask_bytes 16 ones)
                    = take 12 ip ++ net.and_bytes (drop 12 ip) (net.mask_bytes 4 (ones - 96))).
    { rewrite <- (take_drop 12 ip) at 1.
      change 16%nat with (12 + 4)%nat. rewrite (mask_bytes_full 12 4) by lia.
      rewrite and_bytes_app by (by rewrite length_replicate).
      rewrite <- Ht at 2. rewrite and_bytes_full by (by apply Forall_take). reflexivity. }
    rewrite Hmask, take_app_length' in Hm by (by rewrite Ht). exact Hm.
Qed.

Lemma masked_mapped (p : list Z) (ones : Z) :
  length p = 4%nat → 96 ≤ ones →
  net.and_bytes (net.v4InV6Prefix ++ p) (net.mask_bytes 16 ones)
  = net.v4InV6Prefix ++ net.and_bytes p (net.mask_bytes 4 (ones - 96))
  ∧ net.mask_bytes 16 ones = replicate 12 255 ++ net.mask_bytes 4 (ones - 96).
Proof.
  intros Hp Hones.
  change 16%nat with (12 + 4)%nat. rewrite (mask_bytes_full 12 4) by lia.
  change (8 * Z.of_nat 12) with 96. split; [|reflexivity].
  rewrite and_bytes_app by reflexivity. reflexivity.
Qed.

#[local] Opaque net.mask_bytes.

(** Containment in a network that [ParseCIDR] built is membership in
    the range of the CIDR. *)
Lemma parsed_cidr_contains `{Library} (s : string) (ip : net.IP) (n : net.IPNet) :
  net.ParseCIDR s = Some (ip, n) →
  ∃ r, cidr_range s = Some r
       ∧ ∀ a, Forall is_byte a → net.Contains n a = true ↔ within r a.
Proof.
  unfold net.ParseCIDR, cidr_range.
  destruct (net.index_byte "/" s 0) as [i|]; [|discriminate].
  cbv zeta.
  destruct (net.dtoi (strings.drop (S i) s)) as [[ones j] ok] eqn:Hd. cbn [fst].
  destruct (net.parseIPv4 (String.substring 0 i s)) as [ip4|] eqn:Hv4.
  - apply parseIPv4_shape in Hv4 as (p & -> & Hlen & Hb).
    destruct (_ || _)%bool eqn:Hbad; [discriminate|].
    repeat (apply orb_false_elim in Hbad as [Hbad ?]).
    assert (Hones : 0 ≤ ones ≤ 8 * Z.of_nat net.IPv4len).
    { split; [by apply Z.ltb_ge | by apply Z.ltb_ge]. }
    rewrite CIDRMask_bytes by (auto || done).
    rewrite Mask_v4 by (by rewrite ?mask_bytes_length).
    intros [= <- <-]. eexists. split; [reflexivity|].
    intros a Ha. rewrite drop_app_length' by reflexivity.
    apply contains_range_4; [done | done | exact Hones | | done].
    apply number_and_mask_v4; by rewrite ?mask_bytes_length.
  - destruct (parseIPv6 (String.substring 0 i s)) as [ip6|] eqn:Hv6; [|discriminate].
    apply parseIPv6_bytes in Hv6 as [Hlen Hb].
    destruct (_ || _)%bool eqn:Hbad; [discriminate|].
    repeat (apply orb_false_elim in Hbad as [Hbad ?]).
    assert (Hones : 0 ≤ ones ≤ 8 * Z.of_nat net.IPv6len).
    { split; [by apply Z.ltb_ge | by apply Z.ltb_ge]. }
    rewrite CIDRMask_bytes by (auto || done).
    rewrite Mask_v6 by (by rewrite ?mask_bytes_length).
    intros [= <- <-].
    destruct (bool_decide _ && _)%bool eqn:Hmapped.
    + apply andb_prop in Hmapped as [Hpre H96].
      apply bool_decide_eq_true in Hpre. apply Z.leb_le in H96.
      eexists. split; [reflexivity|]. intros a Ha.
      assert (Hp : length (drop 12 ip6) = 4%nat) by (rewrite length_drop; lia).
      assert (Hpb : Forall is_byte (drop 12 ip6)) by (by apply Forall_drop).
      assert (Hip : ip6 = net.v4InV6Prefix ++ drop 12 ip6).
      { rewrite <- Hpre. symmetry. apply take_drop. }
      remember (drop 12 ip6) as p eqn:Hpdef. rewrite Hip.
      unfold net.IPv6len. destruct (masked_mapped p ones Hp H96) as [-> ->].
      apply contains_range_4;
        [done | done | unfold net.IPv6len in Hones; lia | | done].
      apply number_and_mask_mapped; by rewrite ?mask_bytes_length.
    + eexists. split; [reflexivity|]. intros a Ha.
      assert (Hnil : net.To4 (net.and_bytes ip6 (net.mask_bytes 16 ones)) = []).
      { apply masked_not_mapped; [done | done | unfold net.IPv6len in Hones; lia |].
        intros [Hpre H96]. apply andb_false_iff in Hmapped as [Hm|Hm].
        - by apply bool_decide_eq_false in Hm.
        - apply Z.leb_gt in Hm. lia. }
      apply contains_range_16; [done | done | exact Hones | | done].
      apply number_and_mask_v6; by rewrite ?mask_bytes_length.
Qed.

#[local] Transparent net.mask_bytes.

(** ** NetworksDB: the loops over netblocks neither stop at a malformed
    CIDR nor panic *)
Section networksdb_skip.
Context `{Library}.

Lemma covers_malformed (ip : net.IP) (c : string) :
  net.ParseCIDR c = None → NetworksDB.covers ip c = false.
Proof. intros Hc. unfold NetworksDB.covers. by rewrite Hc. Qed.

Lemma second_present (l : list string) Q X w :
  Nat.ltb (length l) 2 = false →
  (∀ x, l !! 1%nat = Some x → Q x w) →
  wp (NetworksDB.second l) Q X w.
Proof.
  intros Hlen HQ. apply Nat.ltb_ge in Hlen. unfold NetworksDB.second.
  destruct (l !! 1%nat) as [x|] eqn:Hx.
  - wp_step. by apply HQ.
  - apply lookup_ge_None in Hx. lia.
Qed.

Lemma scrape_asn_query_total web creds asn addr netblocks w :
  wp (NetworksDB.executeASNQuery web creds asn addr netblocks)
     (λ _ _, True) (λ _, False) w.
Proof.
  unfold NetworksDB.executeASNQuery, NetworksDB.page_of.
  wp_step. wp_step. wp_step. wp_step.
  destruct (web _ _) as [page|]; [|by wp_step].
  destruct (regexp.FindStringSubmatch NetworksDB.networksdbASNameRE page) as [m|];
    [|by wp_step].
  destruct (Nat.ltb (length m) 2) eqn:Hm; [by wp_step|].
  wp_step. apply second_present; [exact Hm|]. intros name _.
  destruct (regexp.FindStringSubmatch NetworksDB.networksdbCCRE page) as [m'|];
    [|by wp_step].
  destruct (Nat.ltb (length m') 2) eqn:Hm'; [by wp_step|].
  wp_step. apply second_present; [exact Hm'|]. intros cc _.
  cbv zeta. wp_step.
  destruct (_ && _)%bool eqn:Hc.
  - apply andb_prop in Hc as [_ Hlen]. apply Nat.ltb_lt in Hlen.
    rewrite <- Slice_length in Hlen.
    destruct (stringset.Slice _) as [|first rest]; [simpl in Hlen; lia|].
    wp_step. by wp_step.
  - wp_step. by wp_step.
Qed.

Lemma api_netblocks_total api creds asn w Q :
  (∀ s w', Q s w') → wp (NetworksDB.apiNetblocksQuery api creds asn) Q (λ _, False) w.
Proof.
  intros HQ. unfold NetworksDB.apiNetblocksQuery, NetworksDB.ask.
  wp_run; apply HQ.
Qed.

Lemma candidates_total api creds ip asns asn cidrs w :
  wp (NetworksDB.candidates api creds ip asns asn cidrs) (λ _ _, True) (λ _, False) w.
Proof.
  revert cidrs w. induction asns as [|a rest IH]; intros cidrs w; cbn [NetworksDB.candidates].
  - by wp_step.
  - wp_step. wp_step. wp_step. apply api_netblocks_total.
    intros s w'. destruct (existsb _ _); [by wp_step | apply IH].
Qed.

End networksdb_skip.

Section networksdb_containment.
Context `{Library}.

Lemma covers_in_network (c : string) (a : net.IP) :
  Forall is_byte a → NetworksDB.covers a c = true ↔ in_network c a.
Proof.
  intros Ha. unfold NetworksDB.covers, in_network.
  destruct (net.ParseCIDR c) as [[ip n]|] eqn:Hc.
  - destruct (parsed_cidr_contains c ip n Hc) as (r & Hr & Hin).
    rewrite (Hin a Ha). split.
    + intros Hw. split; [by eexists | by exists r].
    + intros (_ & r' & Hr' & Hw). congruence.
  - split; [discriminate|]. intros ([x Hx] & _). discriminate Hx.
Qed.

Lemma covers_outside (c : string) (a : net.IP) :
  Forall is_byte a → ¬ in_network c a → NetworksDB.covers a c = false.
Proof.
  intros Ha Hout. apply not_true_is_false. intros Hc. by apply Hout, covers_in_network.
Qed.

Lemma select_prefix_first (a : net.IP) (pre : list string) (c : string) (post : list string) :
  Forall is_byte a →
  (∀ x, x ∈ pre → ¬ in_network x a) → in_network c a →
  NetworksDB.select_prefix a (pre ++ c :: post) = c.
Proof.
  intros Ha Hpre Hc. induction pre as [|x pre IH]; cbn [app NetworksDB.select_prefix].
  - by rewrite (proj2 (covers_in_network c a Ha) Hc).
  - rewrite (covers_outside x a Ha) by (apply Hpre; by left).
    apply IH. intros y Hy. apply Hpre. by right.
Qed.

Lemma select_prefix_none (a : net.IP) (cidrs : list string) :
  Forall is_byte a →
  (∀ x, x ∈ cidrs → ¬ in_network x a) →
  NetworksDB.select_prefix a cidrs = EmptyString.
Proof.
  intros Ha Hall. induction cidrs as [|x cidrs IH]; cbn [NetworksDB.select_prefix].
  - reflexivity.
  - rewrite (covers_outside x a Ha) by (apply Hall; by left).
    apply IH. intros y Hy. apply Hall. by right.
Qed.

Lemma some_netblock_covers (a : net.IP) (cidrs : list string) :
  Forall is_byte a →
  existsb (NetworksDB.covers a) cidrs = true ↔ ∃ c, c ∈ cidrs ∧ in_network c a.
Proof.
  intros Ha. rewrite existsb_exists. split.
  - intros (c & Hin & Hc). exists c. split; [by apply list_elem_of_In|].
    by apply covers_in_network.
  - intros (c & Hin & Hc). exists c. split; [by apply list_elem_of_In|].
    by apply covers_in_network.
Qed.

End networksdb_containment.

(** C7 (as amended). For a CIDR that [net.ParseCIDR] accepts and any
    address text, [Contains] on the parsed address is true exactly when
    the address is a number of the family of the network between the
    first and the last number of the network; an IPv4 address, also in
    its IPv4-mapped form, belongs to IPv4 networks only ([cidr_range],
    [within]). The test of the two loops, [covers], is true exactly
    for the netblocks that parse and contain the address in this sense
    ([in_network]): the loop that selects the prefix returns the first
    such netblock of the list, the empty string when there is none, and
    the test of a candidate AS number succeeds exactly when its list
    has such a netblock. A CIDR that [net.ParseCIDR] rejects is skipped
    by both loops: they go on with the remaining netblocks. Both loops
    and the scrape query around the first always end normally, without
    a panic. *)
Theorem cidr_containment_and_skip `{Library} :
  (∀ s ip n, net.ParseCIDR s = Some (ip, n) →
     ∃ r, cidr_range s = Some r
          ∧ ∀ t, net.Contains n (net.ParseIP t) = true ↔ within r (net.ParseIP t))
  ∧ (∀ c t, NetworksDB.covers (net.ParseIP t) c = true ↔ in_network c (net.ParseIP t))
  ∧ (∀ t pre c post,
       (∀ x, x ∈ pre → ¬ in_network x (net.ParseIP t)) → in_network c (net.ParseIP t) →
       NetworksDB.select_prefix (net.ParseIP t) (pre ++ c :: post) = c)
  ∧ (∀ t cidrs,
       (∀ x, x ∈ cidrs → ¬ in_network x (net.ParseIP t)) →
       NetworksDB.select_prefix (net.ParseIP t) cidrs = EmptyString)
  ∧ (∀ t cidrs,
       existsb (NetworksDB.covers (net.ParseIP t)) cidrs = true
       ↔ ∃ c, c ∈ cidrs ∧ in_network c (net.ParseIP t))
  ∧ (∀ c, net.ParseCIDR c = None →
     ∀ ip rest,
       NetworksDB.covers ip c = false
       ∧ NetworksDB.select_prefix ip (c :: rest) = NetworksDB.select_prefix ip rest
       ∧ existsb (NetworksDB.covers ip) (c :: rest) = existsb (NetworksDB.covers ip) rest)
  ∧ (∀ web creds asn addr netblocks w,
       ∃ w', NetworksDB.executeASNQuery web creds asn addr netblocks w = Ok tt w')
  ∧ (∀ api creds ip asns asn cidrs w,
       ∃ r w', NetworksDB.candidates api creds ip asns asn cidrs w = Ok r w').
Proof.
  split; [|split; [|split; [|split; [|split; [|split; [|split]]]]]].
  - intros s ip n Hs. destruct (parsed_cidr_contains s ip n Hs) as (r & Hr & Hc).
    exists r. split; [exact Hr|]. intros t. apply Hc, ParseIP_bytes.
  - intros c t. apply covers_in_network, ParseIP_bytes.
  - intros t pre c post. apply select_prefix_first, ParseIP_bytes.
  - intros t cidrs. apply select_prefix_none, ParseIP_bytes.
  - intros t cidrs. apply some_netblock_covers, ParseIP_bytes.
  - intros c Hc ip rest. pose proof (covers_malformed ip c Hc) as Hcov.
    split; [exact Hcov|]. simpl. by rewrite Hcov.
  - intros web creds asn addr netblocks w.
    destruct (wp_ok _ _ _ (scrape_asn_query_total web creds asn addr netblocks w))
      as ([] & w' & Hrun & _).
    by exists w'.
  - intros api creds ip asns asn cidrs w.
    destruct (wp_ok _ _ _ (candidates_total api creds ip asns asn cidrs w))
      as (r & w' & Hrun & _).
    by exists r, w'.
Qed.

(** The prefix of [8.8.8.8] among three netblocks: the first does not
    contain it, the second does not parse, the third is selected. *)
Lemma cidr_containment_and_skip_witness :
  NetworksDB.select_prefix (H := Example.library) (net.ParseIP (H := Example.library) "8.8.8.8")
    (["8.8.4.0/24"; "8.8.8.0/33"] ++ "8.8.8.0/24" :: ["8.0.0.0/8"])
  = "8.8.8.0/24".
Proof.
  destruct (cidr_containment_and_skip (H := Example.library)) as (_ & _ & Hfirst & _).
  apply Hfirst.
  - intros x Hx (Hsome & r & Hr & v & Hv & Hle).
    apply elem_of_cons in Hx as [->|Hx];
      [|apply list_elem_of_singleton in Hx as ->].
    + vm_compute in Hr, Hv. injection Hr as <-. injection Hv as <-.
      cbn [fst snd] in Hle. lia.
    + vm_compute in Hsome. destruct Hsome as [y Hy]. discriminate Hy.
  - split; [vm_compute; by eexists|].
    eexists. split; [vm_compute; reflexivity|].
    eexists. split; [vm_compute; reflexivity|]. cbn [fst snd]. lia.
Defined.

(** Against claim C7 as it was stated: the network [::/0] is a CIDR
    that [net.ParseCIDR] accepts and its range is every address of
    sixteen bytes; the address [::ffff:1.2.3.4] is one of them, and the
    test answers that the network does not contain it. *)
Lemma mapped_address_outside_ipv6_network :
  is_Some (net.ParseCIDR (H := reads_ipv6) "::/0")
  ∧ cidr_range (H := reads_ipv6) "::/0" = Some (V6, 0, 2 ^ 128 - 1)
  ∧ length (net.ParseIP (H := reads_ipv6) "::ffff:1.2.3.4") = 16%nat
  ∧ 0 ≤ be (net.ParseIP (H := reads_ipv6) "::ffff:1.2.3.4") ≤ 2 ^ 128 - 1
  ∧ NetworksDB.covers (H := reads_ipv6) (net.ParseIP (H := reads_ipv6) "::ffff:1.2.3.4") "::/0"
    = false
  ∧ NetworksDB.select_prefix (H := reads_ipv6) (net.ParseIP (H := reads_ipv6) "::ffff:1.2.3.4")
      ["::/0"]
    = EmptyString.
Proof.
  split; [vm_compute; by eexists|].
  split; [vm_compute; reflexivity|].
  split; [vm_compute; reflexivity|].
  split; [vm_compute; split; discriminate|].
  split; vm_compute; reflexivity.
Qed.

Lemma run_bind {A B : Type} (m : M A) (k : A → M B) w a w1 :
  m w = Ok a w1 → (m ≫= k) w = k a w1.
Proof. unfold mbind, M_bind, bind. by intros ->. Qed.

(** ** NetworksDB: the candidate AS number that is selected *)
Section networksdb_candidates.
Context `{Library}.
Variable api : nat → Call → option NetworksDB.ApiPage.
Variable creds : option Credentials.

Lemma api_netblocks_frame asn w Q :
  (∀ s w', cache w' = cache w → output w' = output w → Q s w') →
  wp (NetworksDB.apiNetblocksQuery api creds asn) Q (λ _, False) w.
Proof.
  intros HQ. unfold NetworksDB.apiNetblocksQuery, NetworksDB.ask.
  wp_run; by apply HQ.
Qed.

Lemma candidates_step ip a rest asn cidrs w :
  ∃ s w', NetworksDB.apiNetblocksQuery api creds a
            {| sent := sent w; checks := 3 + checks w; cache := cache w;
               output := output w; stamps := stamps w |}
          = Ok s w'
          ∧ cache w' = cache w ∧ output w' = output w
          ∧ NetworksDB.candidates api creds ip (a :: rest) asn cidrs w
            = if existsb (NetworksDB.covers ip) (stringset.Slice s)
              then Ok (a, s) w'
              else NetworksDB.candidates api creds ip rest asn s w'.
Proof.
  set (w3 := {| sent := sent w; checks := 3 + checks w; cache := cache w;
                output := output w; stamps := stamps w |}).
  assert (Hf : wp (NetworksDB.apiNetblocksQuery api creds a)
                  (λ _ w', cache w' = cache w ∧ output w' = output w) (λ _, False) w3).
  { apply api_netblocks_frame. intros s w' Hc Ho. split; [exact Hc | exact Ho]. }
  destruct (wp_ok _ _ _ Hf) as (s & w' & Hrun & Hc & Ho).
  exists s, w'. repeat split; try done.
  cbn [NetworksDB.candidates].
  unfold mbind, M_bind, bind at 1.
  assert (Hchk : numRateLimitChecks 3 w = Ok tt w3) by (by destruct w).
  rewrite Hchk. unfold bind. rewrite Hrun.
  by destruct (existsb _ _).
Qed.

(** The loop stops at the first candidate whose netblocks contain the
    address. *)
Lemma candidates_first_match ip pre a post :
  (∀ b w1, b ∈ pre → announces api creds ip b w1 = false) →
  (∀ w1, announces api creds ip a w1 = true) →
  ∀ asn cidrs w,
    ∃ s w', NetworksDB.candidates api creds ip (pre ++ a :: post) asn cidrs w = Ok (a, s) w'
            ∧ existsb (NetworksDB.covers ip) (stringset.Slice s) = true
            ∧ cache w' = cache w ∧ output w' = output w.
Proof.
  intros Hpre Ha. induction pre as [|b pre IH]; intros asn cidrs w.
  - destruct (candidates_step ip a post asn cidrs w) as (s & w' & Hq & Hc & Ho & Hstep).
    cbn [app]. rewrite Hstep.
    specialize (Ha {| sent := sent w; checks := 3 + checks w; cache := cache w;
                      output := output w; stamps := stamps w |}).
    unfold announces, queried_netblocks in Ha. rewrite Hq in Ha. rewrite Ha.
    by exists s, w'.
  - destruct (candidates_step ip b (pre ++ a :: post) asn cidrs w)
      as (s & w' & Hq & Hc & Ho & Hstep).
    cbn [app]. rewrite Hstep.
    pose proof (Hpre b {| sent := sent w; checks := 3 + checks w; cache := cache w;
                          output := output w; stamps := stamps w |} ltac:(left)) as Hb.
    unfold announces, queried_netblocks in Hb. rewrite Hq in Hb. rewrite Hb.
    destruct (IH ltac:(intros; apply Hpre; by right) asn s w')
      as (s' & w'' & Hrun & Hcov & Hc' & Ho').
    exists s', w''. rewrite Hrun. repeat split; congruence.
Qed.

(** Without such a candidate the loop leaves the AS number as it was. *)
Lemma candidates_no_match ip asns :
  (∀ b w1, b ∈ asns → announces api creds ip b w1 = false) →
  ∀ asn cidrs w,
    ∃ s w', NetworksDB.candidates api creds ip asns asn cidrs w = Ok (asn, s) w'
            ∧ cache w' = cache w ∧ output w' = output w.
Proof.
  intros Hall. induction asns as [|b asns IH]; intros asn cidrs w.
  - by exists cidrs, w.
  - destruct (candidates_step ip b asns asn cidrs w) as (s & w' & Hq & Hc & Ho & Hstep).
    rewrite Hstep.
    pose proof (Hall b {| sent := sent w; checks := 3 + checks w; cache := cache w;
                          output := output w; stamps := stamps w |} ltac:(left)) as Hb.
    unfold announces, queried_netblocks in Hb. rewrite Hq in Hb. rewrite Hb.
    destruct (IH ltac:(intros; apply Hall; by right) asn s w') as (s' & w'' & Hrun & Hc' & Ho').
    exists s', w''. rewrite Hrun. repeat split; congruence.
Qed.

Lemma api_ip_query_frame addr w Q :
  (∀ r w', cache w' = cache w → output w' = output w → Q r w') →
  wp (NetworksDB.apiIPQuery api creds addr) Q (λ w', cache w' = cache w ∧ output w' = output w) w.
Proof.
  intros HQ. unfold NetworksDB.apiIPQuery, NetworksDB.ask.
  wp_run; try (by apply HQ); done.
Qed.

Lemma api_org_query_frame id w Q :
  (∀ r w', cache w' = cache w → output w' = output w → Q r w') →
  wp (NetworksDB.apiOrgInfoQuery api creds id) Q
     (λ w', cache w' = cache w ∧ output w' = output w) w.
Proof.
  intros HQ. unfold NetworksDB.apiOrgInfoQuery, NetworksDB.ask.
  wp_run; try (by apply HQ); done.
Qed.

(** Once the candidates are known, the resolution is the loop over
    them followed by the query for the selected AS number. *)
Lemma api_addr_query_candidates addr w asns w2 :
  candidate_list api creds addr w = Some (asns, w2) →
  cache w2 = cache w ∧ output w2 = output w
  ∧ NetworksDB.executeAPIASNAddrQuery api creds addr w
    = ('(asn, cidrs) ← NetworksDB.candidates api creds (net.ParseIP addr) asns 0 stringset.New;
       if asn =? 0 then mret tt
       else NetworksDB.executeAPIASNQuery api creds asn addr (Some cidrs)) w2.
Proof.
  unfold candidate_list.
  destruct (NetworksDB.apiIPQuery api creds addr w) as [[cidr id] w1| |] eqn:Hip;
    try discriminate.
  destruct (bool_decide (id = EmptyString)) eqn:Hid; [discriminate|].
  assert (Hchk : numRateLimitChecks 3 w1
                 = Ok tt {| sent := sent w1; checks := 3 + checks w1; cache := cache w1;
                            output := output w1; stamps := stamps w1 |}) by (by destruct w1).
  rewrite (run_bind _ _ _ _ _ Hchk).
  destruct (NetworksDB.apiOrgInfoQuery api creds id _) as [asns' w2'| |] eqn:Horg;
    try discriminate.
  destruct (Nat.eqb (length asns') 0) eqn:Hn; [discriminate|].
  intros [= -> ->].
  assert (Hf1 : cache w1 = cache w ∧ output w1 = output w).
  { pose proof (api_ip_query_frame addr w
                  (λ _ w', cache w' = cache w ∧ output w' = output w)) as Hf.
    unfold wp in Hf. rewrite Hip in Hf. apply Hf. auto. }
  assert (Hf2 : cache w2 = cache w1 ∧ output w2 = output w1).
  { pose proof (api_org_query_frame id
                  {| sent := sent w1; checks := 3 + checks w1; cache := cache w1;
                     output := output w1; stamps := stamps w1 |}
                  (λ _ w', cache w' = cache w1 ∧ output w' = output w1)) as Hf.
    unfold wp in Hf. rewrite Horg in Hf. apply Hf. auto. }
  destruct Hf1 as [Hc1 Ho1], Hf2 as [Hc2 Ho2].
  split; [congruence|]. split; [congruence|].
  unfold NetworksDB.executeAPIASNAddrQuery.
  rewrite (run_bind _ _ _ _ _ Hip). cbv beta iota. rewrite Hid.
  rewrite (run_bind _ _ _ _ _ Hchk), (run_bind _ _ _ _ _ Horg), Hn. reflexivity.
Qed.

End networksdb_candidates.

(** C4. In the API resolution of an address, once the organisation
    query has yielded the candidate AS numbers, the loop over them
    stops at the first candidate, in the order of the list, whose
    queried netblock set has a netblock that parses and contains the
    parsed address; that candidate and its set are what the resolution
    goes on with (a candidate 0 counts as none found). When no candidate
    has such a netblock the request ends without a cache update and
    without an event. *)
Theorem api_candidate_selection `{Library}
    (api : nat → Call → option NetworksDB.ApiPage) (creds : option Credentials)
    (addr : string) (w : World) (asns : list Z) (w2 : World) :
  candidate_list api creds addr w = Some (asns, w2) →
  (∀ pre a post,
     asns = pre ++ a :: post →
     (∀ b w1, b ∈ pre → announces api creds (net.ParseIP addr) b w1 = false) →
     (∀ w1, announces api creds (net.ParseIP addr) a w1 = true) →
     ∃ cidrs w3,
       NetworksDB.candidates api creds (net.ParseIP addr) asns 0 stringset.New w2
       = Ok (a, cidrs) w3
       ∧ existsb (NetworksDB.covers (net.ParseIP addr)) (stringset.Slice cidrs) = true
       ∧ NetworksDB.executeAPIASNAddrQuery api creds addr w
         = if a =? 0 then Ok tt w3
           else NetworksDB.executeAPIASNQuery api creds a addr (Some cidrs) w3)
  ∧ ((∀ b w1, b ∈ asns → announces api creds (net.ParseIP addr) b w1 = false) →
     ∃ w3, NetworksDB.executeAPIASNAddrQuery api creds addr w = Ok tt w3
           ∧ cache w3 = cache w ∧ output w3 = output w).
Proof.
  intros Hlist.
  destruct (api_addr_query_candidates api creds addr w asns w2 Hlist) as (Hc & Ho & Hrun).
  split.
  - intros pre a post -> Hpre Ha.
    destruct (candidates_first_match api creds (net.ParseIP addr) pre a post Hpre Ha
                0 stringset.New w2) as (s & w3 & Hloop & Hcov & _ & _).
    exists s, w3. split; [exact Hloop|]. split; [exact Hcov|].
    rewrite Hrun, (run_bind _ _ _ _ _ Hloop). cbv beta iota.
    by destruct (a =? 0).
  - intros Hnone.
    destruct (candidates_no_match api creds (net.ParseIP addr) asns Hnone
                0 stringset.New w2) as (s & w3 & Hloop & Hc3 & Ho3).
    exists w3. rewrite Hrun, (run_bind _ _ _ _ _ Hloop). cbv beta iota.
    split; [reflexivity|]. split; congruence.
Qed.

Lemma api_candidate_selection_witness :
  ∃ cidrs w3,
    NetworksDB.candidates (H := Example.library) Networks.api Scenario.key
      (net.ParseIP (H := Example.library) "8.8.8.8") [36040; 15169] 0 stringset.New
      Networks.asked = Ok (15169, cidrs) w3
    ∧ existsb (NetworksDB.covers (H := Example.library)
                 (net.ParseIP (H := Example.library) "8.8.8.8"))
        (stringset.Slice (H := Example.library) cidrs) = true
    ∧ NetworksDB.executeAPIASNAddrQuery (H := Example.library) Networks.api Scenario.key
        "8.8.8.8" World_zero
      = if 15169 =? 0 then Ok tt w3
        else NetworksDB.executeAPIASNQuery (H := Example.library) Networks.api Scenario.key
               15169 "8.8.8.8" (Some cidrs) w3.
Proof.
  assert (Hlist : candidate_list Networks.api Scenario.key "8.8.8.8"
                    World_zero = Some ([36040; 15169], Networks.asked))
    by (vm_compute; reflexivity).
  destruct (api_candidate_selection (H := Example.library) Networks.api Scenario.key
              "8.8.8.8" World_zero [36040; 15169] Networks.asked Hlist) as [Hsel _].
  apply (Hsel [36040] 15169 []); [reflexivity | |].
  - intros b w1 Hb. apply list_elem_of_singleton in Hb as ->. vm_compute. reflexivity.
  - intros w1. vm_compute. reflexivity.
Defined.

(** ** NetworksDB: the region of the page that is searched for names *)

(** The region runs from the end of the first match of the start
    marker to the end of the first match of the end marker. *)
Lemma domains_region_between (page : string) (s e s' e' : nat) (w : World) :
  (e ≤ e')%nat → (e' ≤ String.length page)%nat →
  NetworksDB.domains_region page [s; e] [s'; e'] w
  = Ok (String.substring e (e' - e) page) w.
Proof.
  intros He He'. unfold NetworksDB.domains_region, strings.slice. simpl.
  apply Nat.leb_le in He. apply Nat.leb_le in He'. by rewrite He, He'.
Qed.

(** When the end marker ends before the start marker does, the slice
    expression panics. *)
Lemma domains_region_panics (page : string) (s e s' e' : nat) (w : World) :
  (e' < e)%nat → NetworksDB.domains_region page [s; e] [s'; e'] w = Panic w.
Proof.
  intros He. unfold NetworksDB.domains_region, strings.slice. simpl.
  apply Nat.leb_gt in He. by rewrite He.
Qed.

(** C8, the run that contradicts it. A WHOIS request for a domain in
    scope reaches a page of domains in which a table precedes the
    section of the domains: the start marker ends at offset 51, the end
    marker at offset 12, [page[51:12]] panics and the turn of the
    dispatch loop ends in that panic, after three requests and with
    nothing sent. *)
Theorem networksdb_whois_panics :
  regexp.FindStringIndex NetworksDB.networksdbDomainsRE Site.listing_after_table
  = Some [33%nat; 51%nat]
  ∧ regexp.FindStringIndex NetworksDB.networksdbTableRE Site.listing_after_table
    = Some [0%nat; 12%nat]
  ∧ strings.slice Site.listing_after_table 51 12 = None
  ∧ ∃ w, NetworksDB.requests (H := Example.library) (Site.web Site.listing_after_table)
           (λ _ _, None) Site.in_scope None Site.names Site.FirstLast
           (NetworksDB.WhoisReq (Scenario.whois_for "example.com")) World_zero
         = Panic w
         ∧ length (sent w) = 3%nat ∧ output w = [].
Proof.
  split; [by vm_compute|]. split; [by vm_compute|]. split; [by vm_compute|].
  eexists. split; [vm_compute; reflexivity|]. split; reflexivity.
Qed.

(** ** Umbrella: the pages of a reverse-WHOIS query *)
Section umbrella_reverse.
Context `{Library}.
Variable serve : nat → Call → option Umbrella.Page.
Variable creds : option Credentials.

Lemma current_domains_elem (l : list Umbrella.rWhoisDomain) (D : stringset.Set_) (x : string) :
  x ∈ foldl (λ ds d, if Umbrella.Current d then stringset.Insert (Umbrella.rw_Domain d) ds else ds)
        D l
  ↔ x ∈ D ∨ ∃ rd, rd ∈ l ∧ Umbrella.Current rd = true ∧ x = set_key (Umbrella.rw_Domain rd).
Proof.
  revert D. induction l as [|d l IH]; intros D; simpl.
  - split; [auto | intros [Hx|(rd & Hrd & _)]; [done | by apply not_elem_of_nil in Hrd]].
  - rewrite IH. destruct (Umbrella.Current d) eqn:Hd.
    + rewrite Insert_elem. split.
      * intros [[->|Hx]|(rd & Hrd & Hc & ->)]; [right; exists d | by left | right; exists rd];
          (split; [by constructor | done]).
      * intros [Hx|(rd & Hrd & Hc & ->)]; [by left; right|].
        apply elem_of_cons in Hrd as [->|Hrd]; [by left; left | right; eauto].
    + split.
      * intros [Hx|(rd & Hrd & Hc & ->)]; [by left | right; exists rd].
        split; [by constructor | done].
      * intros [Hx|(rd & Hrd & Hc & ->)]; [by left|].
        apply elem_of_cons in Hrd as [->|Hrd]; [congruence | right; eauto].
Qed.

Lemma foldl_gather (l : list (string * Umbrella.rWhoisResponse)) :
  ∀ (D : stringset.Set_) (m : bool),
    (∀ x, x ∈ fst (foldl Umbrella.gather (D, m) l)
          ↔ x ∈ D ∨ ∃ kv, kv ∈ l ∧ names_of (snd kv) x)
    ∧ (snd (foldl Umbrella.gather (D, m) l) = true
       ↔ m = true ∨ ∃ kv, kv ∈ l ∧ Umbrella.MoreData (snd kv) = true).
Proof.
  induction l as [|kv l IH]; intros D m; simpl.
  - split; [intros x|]; (split; [auto | intros [?|(kv & Hkv & _)]; [done|]]);
      by apply not_elem_of_nil in Hkv.
  - destruct (IH (fst (Umbrella.gather (D, m) kv)) (snd (Umbrella.gather (D, m) kv)))
      as [IHd IHm].
    rewrite <- surjective_pairing in IHd, IHm.
    split.
    + intros x. rewrite IHd. unfold Umbrella.gather at 1. cbn [fst snd].
      unfold names_of.
      destruct (0 <? Umbrella.TotalResults (snd kv)) eqn:Ht.
      * apply Z.ltb_lt in Ht. rewrite current_domains_elem. split.
        -- intros [[Hx|Hrd]|(kv' & Hkv' & Hn)]; [by left | right; exists kv | right; exists kv'];
             (split; [by constructor | done]).
        -- intros [Hx|(kv' & Hkv' & Hn)]; [by left; left|].
           apply elem_of_cons in Hkv' as [->|Hkv']; [left; right; apply Hn | right; eauto].
      * apply Z.ltb_ge in Ht. split.
        -- intros [Hx|(kv' & Hkv' & Hn)]; [by left | right; exists kv'].
           split; [by constructor | done].
        -- intros [Hx|(kv' & Hkv' & Hn)]; [by left|].
           apply elem_of_cons in Hkv' as [->|Hkv']; [lia | right; eauto].
    + rewrite IHm. unfold Umbrella.gather at 1. cbn [fst snd].
      destruct (Umbrella.MoreData (snd kv)) eqn:Hmore, m; simpl; split;
        try (intros [?|(kv' & Hkv' & Hm)]); try (by left);
        try (right; exists kv; split; [by constructor | done]);
        try (right; exists kv'; split; [by constructor | done]);
        try done.
      all: apply elem_of_cons in Hkv' as [->|Hkv']; [congruence | right; eauto].
Qed.

Lemma entry_seen_called from c w r :
  entry_seen serve from (called c (charged w)) r
  ↔ entry_seen serve from w r
    ∨ ((from ≤ length (sent w))%nat
       ∧ ∃ pg key, serve (length (sent w)) c = Some (Umbrella.ReversePage pg)
                   ∧ pg !! key = Some r).
Proof.
  unfold entry_seen. simpl. split.
  - intros (k & c' & pg & key & Hk & Hc & Hs & Hr).
    destruct (decide (k < length (sent w))%nat) as [Hlt|Hge].
    + left. exists k, c', pg, key. rewrite lookup_app_l in Hc by done. auto.
    + right. rewrite lookup_app_r in Hc by lia.
      destruct (k - length (sent w))%nat as [|j] eqn:Hj; [|by destruct j].
      injection Hc as <-. assert (k = length (sent w)) as -> by lia.
      split; [done|]. eauto.
  - intros [(k & c' & pg & key & Hk & Hc & Hs & Hr)|(Hk & pg & key & Hs & Hr)].
    + exists k, c', pg, key. repeat split; try done.
      apply lookup_app_l_Some. exact Hc.
    + exists (length (sent w)), c, pg, key. repeat split; try done.
      rewrite lookup_app_r by lia. by rewrite Nat.sub_diag.
Qed.

Lemma reverse_pages_S fuel apiURL count whois domains :
  Umbrella.reverse_pages serve creds (S fuel) apiURL count whois domains =
  (CheckRateLimit;;
   record ← Umbrella.fetch serve creds (apiURL +:+ "&offset=" +:+ strconv.Itoa count);
   match record with
   | None => mret (stringset.Slice domains)
   | Some page =>
       match Umbrella.unmarshal_reverse page whois with
       | None => mret (stringset.Slice domains)
       | Some whois =>
           let '(domains, more) :=
             foldl Umbrella.gather (domains, false) (map_to_list whois) in
           if more
           then Umbrella.reverse_pages serve creds fuel apiURL (int_wrap (count + 500))
                  whois domains
           else mret (stringset.Slice domains)
       end
   end).
Proof. reflexivity. Qed.

Lemma retained_called_other from c w (D : gset string) :
  (∀ pg, serve (length (sent w)) c ≠ Some (Umbrella.ReversePage pg)) →
  (∀ x, x ∈ D ↔ retained serve from w x) →
  ∀ x, x ∈ D ↔ retained serve from (called c (charged w)) x.
Proof.
  intros Hno HD x. rewrite HD. unfold retained. split.
  - intros (r & Hr & Hn). exists r. split; [|done]. apply entry_seen_called. by left.
  - intros (r & Hr & Hn). exists r. split; [|done].
    apply entry_seen_called in Hr as [Hr|(_ & pg & key & Hs & _)]; [done|].
    by destruct (Hno pg).
Qed.

(** Whatever the provider answers, the names a query returns are the
    names retained from the pages it was served, the cache and the
    output are left alone, and the requests made before remain. *)
Lemma reverse_pages_retained fuel apiURL (from : nat) :
  ∀ count whois domains w,
    (from ≤ length (sent w))%nat →
    (∀ key r, whois !! key = Some r → entry_seen serve from w r) →
    (∀ x, x ∈ domains ↔ retained serve from w x) →
    wp (Umbrella.reverse_pages serve creds fuel apiURL count whois domains)
       (λ l w', (∃ D, l = stringset.Slice D ∧ ∀ x, x ∈ D ↔ retained serve from w' x)
                ∧ sent w `prefix_of` sent w'
                ∧ cache w' = cache w ∧ output w' = output w)
       (λ w', sent w `prefix_of` sent w' ∧ cache w' = cache w ∧ output w' = output w) w.
Proof.
  induction fuel as [|fuel IH]; intros count whois domains w Hfrom Hwhois Hdom.
  { simpl. wp_step. done. }
  rewrite reverse_pages_S. wp_step. wp_step. wp_step. unfold Umbrella.fetch. wp_step.
  set (c := GET _ _).
  assert (Hpre : sent w `prefix_of` sent (called c (charged w))) by (by exists [c]).
  change (length (sent (charged w))) with (length (sent w)).
  assert (Hstop : (∀ pg, serve (length (sent w)) c ≠ Some (Umbrella.ReversePage pg)) →
    (∃ D, stringset.Slice domains = stringset.Slice D
          ∧ ∀ x, x ∈ D ↔ retained serve from (called c (charged w)) x)
    ∧ sent w `prefix_of` sent (called c (charged w))
    ∧ cache (called c (charged w)) = cache w ∧ output (called c (charged w)) = output w).
  { intros Hno. split; [|done]. exists domains. split; [done|].
    by apply retained_called_other. }
  destruct (serve (length (sent w)) c) as [page|] eqn:Hserve; [|wp_step; by apply Hstop].
  destruct page as [|?|?|?|pg|]; simpl Umbrella.unmarshal_reverse; cbv beta iota;
    try (wp_step; by apply Hstop).
  { (* null: the map becomes nil and the loop ends *)
    rewrite map_to_list_empty. simpl. wp_step. by apply Hstop. }
  destruct (foldl_gather (map_to_list (pg ∪ whois)) domains false) as [Hd Hm].
  destruct (foldl Umbrella.gather (domains, false) (map_to_list (pg ∪ whois)))
    as [domains' more] eqn:Hfold.
  cbn [fst snd] in Hd, Hm.
  assert (Hseen : ∀ key r, (pg ∪ whois) !! key = Some r
                           → entry_seen serve from (called c (charged w)) r).
  { intros key r Hr. apply entry_seen_called.
    apply lookup_union_Some_raw in Hr as [Hr|[_ Hr]]; [right | left; eauto].
    split; [done|]. eauto. }
  assert (Hdom' : ∀ x, x ∈ domains' ↔ retained serve from (called c (charged w)) x).
  { intros x. rewrite Hd. unfold retained. split.
    - intros [Hx|([key r] & Hkv & Hn)].
      + apply Hdom in Hx as (r & Hr & Hn). exists r. split; [|done].
        apply entry_seen_called. by left.
      + apply elem_of_map_to_list in Hkv. exists r. split; [by eapply Hseen | done].
    - intros (r & Hr & Hn).
      apply entry_seen_called in Hr as [Hr|(_ & pg' & key & Hs & Hr)].
      + left. apply Hdom. by exists r.
      + right. rewrite Hserve in Hs. injection Hs as <-. exists (key, r). split; [|done].
        apply elem_of_map_to_list. by apply lookup_union_Some_l. }
  destruct more.
  - eapply wp_mono; [apply (IH _ _ _ (called c (charged w))); [simpl; rewrite length_app; lia | done | done] | |].
    + intros l w' (HD & Hp & Hc & Ho). split; [exact HD|].
      split; [by etrans|]. split; [by rewrite Hc | by rewrite Ho].
    + intros w' (Hp & Hc & Ho). split; [by etrans|]. split; [by rewrite Hc | by rewrite Ho].
  - wp_step. split; [|done]. by exists domains'.
Qed.

End umbrella_reverse.

Lemma int_wrap_small (z : Z) : - 2 ^ 63 ≤ z < 2 ^ 63 → int_wrap z = z.
Proof.
  intros Hz. unfold int_wrap. rewrite Z.mod_small by lia. lia.
Qed.

Lemma World_eq (s s' : list Call) (c c' : nat) (ca : list ASNRequest) (o : list WhoisRequest)
    (g g' : list nat) :
  s = s' → c = c' → g = g' →
  {| sent := s; checks := c; cache := ca; output := o; stamps := g |}
  = {| sent := s'; checks := c'; cache := ca; output := o; stamps := g' |}.
Proof. by intros -> -> ->. Qed.

Section umbrella_pagination.
Context `{Library}.
Variable serve : nat → Call → option Umbrella.Page.
Variable creds : option Credentials.
Variable apiURL : string.
Variable last : gmap string Umbrella.rWhoisResponse.

Hypothesis last_unflagged : ∀ key r, last !! key = Some r → Umbrella.MoreData r = false.

Lemma last_page_stops (acc : gmap string Umbrella.rWhoisResponse) (D : stringset.Set_) :
  (∀ key, is_Some (acc !! key) → is_Some (last !! key)) →
  snd (foldl Umbrella.gather (D, false) (map_to_list (last ∪ acc))) = false.
Proof.
  intros Hkeys. apply not_true_is_false. intros Hm.
  apply (foldl_gather (map_to_list (last ∪ acc)) D false) in Hm
    as [Hm|([key r] & Hkv & Hmore)]; [done|].
  apply elem_of_map_to_list, lookup_union_Some_raw in Hkv as [Hkv|[Hnone Hkv]].
  - cbn [snd] in Hmore. by rewrite (last_unflagged key r Hkv) in Hmore.
  - destruct (Hkeys key) as [r' Hr']; [eauto|]. congruence.
Qed.

Lemma flagged_page_continues (pg acc : gmap string Umbrella.rWhoisResponse) (D : stringset.Set_) :
  (∃ key r, pg !! key = Some r ∧ Umbrella.MoreData r = true) →
  snd (foldl Umbrella.gather (D, false) (map_to_list (pg ∪ acc))) = true.
Proof.
  intros (key & r & Hr & Hmore).
  apply (foldl_gather (map_to_list (pg ∪ acc)) D false). right.
  exists (key, r). split; [|done].
  apply elem_of_map_to_list. by apply lookup_union_Some_l.
Qed.

(** The requests of a query whose pages carry the flag up to the last
    one: one request and one rate-limit check per page, at the offsets
    [500 * j], [500 * (j + 1)], ... *)
Lemma reverse_pages_trace (pages : list (gmap string Umbrella.rWhoisResponse)) :
  ∀ (j : nat) (acc : gmap string Umbrella.rWhoisResponse) (D : stringset.Set_)
    (w : World) (fuel : nat),
    (∀ k pg, (pages ++ [last]) !! k = Some pg →
             serve (length (sent w) + k) (page_call creds apiURL (j + k))
             = Some (Umbrella.ReversePage pg)) →
    (∀ pg, pg ∈ pages → ∃ key r, pg !! key = Some r ∧ Umbrella.MoreData r = true) →
    (∀ pg key, pg ∈ pages → is_Some (pg !! key) → is_Some (last !! key)) →
    (∀ key, is_Some (acc !! key) → is_Some (last !! key)) →
    500 * Z.of_nat (j + length pages + 1) < 2 ^ 63 →
    (length pages + 1 ≤ fuel)%nat →
    ∃ l, Umbrella.reverse_pages serve creds fuel apiURL (500 * Z.of_nat j) acc D w
         = Ok l {| sent := sent w ++ (page_call creds apiURL <$> seq j (length pages + 1));
                   checks := checks w + (length pages + 1);
                   cache := cache w; output := output w;
                   stamps := stamps w ++ seq (S (checks w)) (length pages + 1) |}.
Proof.
  induction pages as [|pg pages IH]; intros j acc D w fuel Hserve Hflag Hkeys Hacc Hbound Hfuel.
  - destruct fuel as [|fuel]; [simpl in Hfuel; lia|].
    rewrite reverse_pages_S.
    unfold mbind at 1, M_bind at 1, bind at 1. cbn [CheckRateLimit].
    unfold Umbrella.fetch, mbind, M_bind, bind, RequestWebPage. cbn [sent].
    pose proof (Hserve 0%nat last eq_refl) as Hs.
    rewrite !Nat.add_0_r in Hs. unfold page_call, GET in Hs. unfold GET. rewrite Hs.
    cbn [Umbrella.unmarshal_reverse].
    pose proof (last_page_stops acc D Hacc) as Hstop.
    destruct (foldl Umbrella.gather (D, false) (map_to_list (last ∪ acc))) as [D' more].
    cbn [snd] in Hstop. subst more.
    eexists. unfold mret, M_ret, ret. f_equal.
    apply World_eq; [reflexivity | simpl; lia | reflexivity].
  - destruct fuel as [|fuel]; [simpl in Hfuel; lia|].
    rewrite reverse_pages_S.
    unfold mbind at 1, M_bind at 1, bind at 1. cbn [CheckRateLimit].
    unfold Umbrella.fetch.
    unfold mbind at 1, M_bind at 1, bind at 1. unfold RequestWebPage at 1. cbn [sent].
    pose proof (Hserve 0%nat pg eq_refl) as Hs.
    rewrite !Nat.add_0_r in Hs. unfold page_call, GET in Hs. unfold GET at 1. rewrite Hs.
    cbn [Umbrella.unmarshal_reverse].
    pose proof (flagged_page_continues pg acc D (Hflag pg ltac:(left))) as Hgo.
    destruct (foldl Umbrella.gather (D, false) (map_to_list (pg ∪ acc))) as [D' more].
    cbn [snd] in Hgo. subst more.
    rewrite int_wrap_small by lia.
    replace (500 * Z.of_nat j + 500) with (500 * Z.of_nat (S j)) by lia.
    match goal with
    | |- ∃ l, Umbrella.reverse_pages _ _ _ _ _ _ _ ?w1 = _ =>
        destruct (IH (S j) (pg ∪ acc) D' w1 fuel) as [l Hl]
    end.
    + intros k pg' Hk. cbn [sent]. rewrite length_app. cbn [length].
      replace (length (sent w) + 1 + k)%nat with (length (sent w) + S k)%nat by lia.
      replace (S j + k)%nat with (j + S k)%nat by lia.
      apply Hserve. exact Hk.
    + intros pg' Hpg'. apply Hflag. by right.
    + intros pg' key Hpg'. apply Hkeys. by right.
    + intros key [r Hr].
      apply lookup_union_Some_raw in Hr as [Hr|[_ Hr]]; [|by apply Hacc].
      apply (Hkeys pg key); [by left | eauto].
    + cbn [length] in Hbound. lia.
    + cbn [length] in Hfuel. lia.
    + exists l. rewrite Hl. f_equal.
      apply World_eq; [|simpl; lia|].
      * cbn [sent length]. rewrite <- app_assoc. f_equal.
      * cbn [stamps checks length]. rewrite <- app_assoc. f_equal.
Qed.

End umbrella_pagination.

(** C3 (as amended). When the provider serves the pages of a query in
    order and every page but the last has the more-data flag set on
    some entry, while the last page has it on none and has an entry for
    every key of the earlier pages, [queryReverseWhois] asks for the
    offsets 0, 500, 1000, ... in this order, one request and one
    rate-limit check per page, stops after the last page, and returns
    the set of the domains marked current in the entries with a
    positive total of those pages. The totals play no part in stopping:
    a page whose entries report zero results and carry the flag is
    followed by the next request. *)
Theorem reverse_whois_pagination `{Library}
    (serve : nat → Call → option Umbrella.Page) (creds : option Credentials)
    (apiURL : string) (pages : list (gmap string Umbrella.rWhoisResponse))
    (last : gmap string Umbrella.rWhoisResponse) (w : World) (fuel : nat) :
  (∀ k pg, (pages ++ [last]) !! k = Some pg →
           serve (length (sent w) + k)%nat (page_call creds apiURL k)
           = Some (Umbrella.ReversePage pg)) →
  (∀ pg, pg ∈ pages → ∃ key r, pg !! key = Some r ∧ Umbrella.MoreData r = true) →
  (∀ key r, last !! key = Some r → Umbrella.MoreData r = false) →
  (∀ pg key, pg ∈ pages → is_Some (pg !! key) → is_Some (last !! key)) →
  500 * Z.of_nat (length pages + 1) < 2 ^ 63 →
  (length pages + 1 ≤ fuel)%nat →
  ∃ D, Umbrella.queryReverseWhois serve creds fuel apiURL w
       = Ok (stringset.Slice D)
            {| sent := sent w ++ (page_call creds apiURL <$> seq 0 (length pages + 1));
               checks := (checks w + (length pages + 1))%nat;
               cache := cache w; output := output w;
               stamps := stamps w ++ seq (S (checks w)) (length pages + 1) |}
       ∧ ∀ x, x ∈ D ↔ ∃ pg key r, pg ∈ pages ++ [last] ∧ pg !! key = Some r ∧ names_of r x.
Proof.
  intros Hserve Hflag Hlast Hkeys Hbound Hfuel.
  unfold Umbrella.queryReverseWhois.
  destruct (reverse_pages_trace serve creds apiURL last Hlast pages 0 ∅ stringset.New w fuel)
    as [l Hrun]; try done.
  { intros key [r Hr]. by rewrite lookup_empty in Hr. }
  pose proof (reverse_pages_retained serve creds fuel apiURL (length (sent w))
                0 ∅ stringset.New w (le_n _)) as Hret.
  unfold wp in Hret. change (500 * Z.of_nat 0) with 0 in Hrun. rewrite Hrun in Hret.
  destruct Hret as [(D & -> & HD) _].
  { intros key r Hr. by rewrite lookup_empty in Hr. }
  { intros x. split; [intros Hx; by apply not_elem_of_empty in Hx|].
    intros (r & (k & c & pg & key & Hk & Hc & _) & _).
    apply lookup_lt_Some in Hc. lia. }
  exists D. split; [exact Hrun|].
  intros x. rewrite HD. unfold retained, entry_seen. cbn [sent]. split.
  - intros (r & (k & c & pg & key & Hk & Hc & Hs & Hr) & Hn).
    rewrite lookup_app_r in Hc by lia.
    apply list_lookup_fmap_Some in Hc as (i & -> & Hi).
    apply lookup_seq in Hi as [-> Hi].
    assert (Hlt : (k - length (sent w) < length (pages ++ [last]))%nat)
      by (rewrite length_app; simpl; lia).
    apply lookup_lt_is_Some in Hlt as [pg' Hpg'].
    pose proof (Hserve _ _ Hpg') as Hs'.
    replace (length (sent w) + (k - length (sent w)))%nat with k in Hs' by lia.
    simpl in Hs. rewrite Hs in Hs'. injection Hs' as ->.
    exists pg', key, r. split; [by eapply list_elem_of_lookup_2|done].
  - intros (pg & key & r & Hpg & Hr & Hn).
    apply list_elem_of_lookup in Hpg as [i Hi].
    exists r. split; [|done].
    exists (length (sent w) + i)%nat, (page_call creds apiURL i), pg, key.
    split; [lia|]. split; [|split; [by apply Hserve | done]].
    rewrite lookup_app_r by lia.
    replace (length (sent w) + i - length (sent w))%nat with i by lia.
    apply list_lookup_fmap_Some. exists i. split; [done|].
    apply lookup_seq. split; [done|].
    apply lookup_lt_Some in Hi. rewrite length_app in Hi. simpl in Hi. lia.
Qed.

Lemma reverse_whois_pagination_witness :
  ∃ D, Umbrella.queryReverseWhois (H := Example.library) Reverse.three_pages Scenario.key 3
         Reverse.by_email World_zero
       = Ok (stringset.Slice (H := Example.library) D)
            {| sent := sent World_zero
                       ++ (page_call Scenario.key Reverse.by_email <$> seq 0 (2 + 1));
               checks := (checks World_zero + (2 + 1))%nat;
               cache := cache World_zero; output := output World_zero;
               stamps := stamps World_zero ++ seq (S (checks World_zero)) (2 + 1) |}
       ∧ ∀ x, x ∈ D
              ↔ ∃ pg key r, pg ∈ [Reverse.page0; Reverse.page1] ++ [Reverse.page2]
                            ∧ pg !! key = Some r ∧ names_of (H := Example.library) r x.
Proof.
  apply (reverse_whois_pagination (H := Example.library) Reverse.three_pages Scenario.key
           Reverse.by_email [Reverse.page0; Reverse.page1] Reverse.page2 World_zero 3).
  - intros [|[|[|k]]] pg Hk; simpl in Hk; try discriminate Hk;
      injection Hk as <-; vm_compute; reflexivity.
  - intros pg Hpg. exists Reverse.contact.
    apply elem_of_cons in Hpg as [->|Hpg];
      [|apply list_elem_of_singleton in Hpg as ->];
      eexists; (split; [apply lookup_singleton_eq | reflexivity]).
  - intros key r Hr. unfold Reverse.page2 in Hr.
    apply lookup_singleton_Some in Hr as [_ <-]. reflexivity.
  - intros pg key Hpg [r Hr]. unfold Reverse.page2.
    apply elem_of_cons in Hpg as [->|Hpg];
      [|apply list_elem_of_singleton in Hpg as ->];
      unfold Reverse.page0, Reverse.page1 in Hr;
      apply lookup_singleton_Some in Hr as [<- _]; rewrite lookup_singleton_eq; eauto.
  - simpl. lia.
  - simpl. lia.
Defined.

(** C3, as stated, fails: the first page reports zero total results
    and has the flag set; the loop does not stop there but asks for
    the offset 500, and the domain that the first page marks current is
    not among the names returned. *)
Lemma reverse_whois_zero_total_continues :
  Reverse.empty_then_one 0 (page_call Scenario.key Reverse.by_email 0)
  = Some (Umbrella.ReversePage
            {[ Reverse.contact := Reverse.entry 0 true [("zero.example", true)] ]})
  ∧ Umbrella.queryReverseWhois (H := Example.library) Reverse.empty_then_one Scenario.key 3
      Reverse.by_email World_zero
    = Ok ["one.example"]
         {| sent := [page_call Scenario.key Reverse.by_email 0;
                     page_call Scenario.key Reverse.by_email 1];
            checks := 2; cache := []; output := []; stamps := [1; 2]%nat |}.
Proof.
  split; vm_compute; reflexivity.
Qed.

(** ** Umbrella: what a WHOIS request emits *)
Section umbrella_whois.
Context `{Library}.
Variable serve : nat → Call → option Umbrella.Page.
Variable IsDomainInScope : string → bool.
Variable creds : option Credentials.

Lemma novel_elem (D : stringset.Set_) (l : list string) (x : string) :
  x ∈ Umbrella.novel IsDomainInScope D l
  ↔ x ∈ D ∨ ∃ y, y ∈ l ∧ IsDomainInScope y = false ∧ x = set_key y.
Proof.
  unfold Umbrella.novel. revert D. induction l as [|y l IH]; intros D; simpl.
  - split; [auto | intros [Hx|(y & Hy & _)]; [done | by apply not_elem_of_nil in Hy]].
  - rewrite IH. destruct (IsDomainInScope y) eqn:Hy; simpl.
    + split.
      * intros [Hx|(z & Hz & Hs & ->)]; [by left | right; exists z].
        split; [by constructor | done].
      * intros [Hx|(z & Hz & Hs & ->)]; [by left|].
        apply elem_of_cons in Hz as [->|Hz]; [congruence | right; eauto].
    + rewrite Insert_elem. split.
      * intros [[->|Hx]|(z & Hz & Hs & ->)]; [right; exists y | by left | right; exists z];
          (split; [by constructor | done]).
      * intros [Hx|(z & Hz & Hs & ->)]; [by left; right|].
        apply elem_of_cons in Hz as [->|Hz]; [by left; left | right; eauto].
Qed.

Lemma retained_key from w x : retained serve from w x → set_key x = x.
Proof.
  intros (r & _ & _ & rd & _ & _ & ->). apply set_key_idem.
Qed.

Lemma entry_seen_split from w w' r :
  sent w `prefix_of` sent w' → (from ≤ length (sent w))%nat →
  entry_seen serve from w' r
  ↔ entry_seen serve from w r ∨ entry_seen serve (length (sent w)) w' r.
Proof.
  intros [ext Hext] Hfrom. unfold entry_seen. rewrite Hext. split.
  - intros (k & c & pg & key & Hk & Hc & Hs & Hr).
    destruct (decide (k < length (sent w))%nat) as [Hlt|Hge].
    + left. exists k, c, pg, key. rewrite lookup_app_l in Hc by done. auto.
    + right. exists k, c, pg, key. split; [lia | auto].
  - intros [(k & c & pg & key & Hk & Hc & Hs & Hr)|(k & c & pg & key & Hk & Hc & Hs & Hr)].
    + exists k, c, pg, key. repeat split; try done. by apply lookup_app_l_Some.
    + exists k, c, pg, key. split; [lia | auto].
Qed.

Lemma retained_split from w w' x :
  sent w `prefix_of` sent w' → (from ≤ length (sent w))%nat →
  retained serve from w' x
  ↔ retained serve from w x ∨ retained serve (length (sent w)) w' x.
Proof.
  intros Hp Hfrom. unfold retained. split.
  - intros (r & Hr & Hn). apply (entry_seen_split from w w' r Hp Hfrom) in Hr as [Hr|Hr];
      [left | right]; eauto.
  - intros [(r & Hr & Hn)|(r & Hr & Hn)]; exists r; (split; [|done]);
      apply (entry_seen_split from w w' r Hp Hfrom); auto.
Qed.

Lemma retained_none from w x : (length (sent w) ≤ from)%nat → ¬ retained serve from w x.
Proof.
  intros Hlen (r & (k & c & pg & key & Hk & Hc & _) & _).
  apply lookup_lt_Some in Hc. lia.
Qed.

(** A reverse-WHOIS query, when it is made, adds to the set the names
    it retains that are out of scope. *)
Lemma reverse_step (from : nat) (cond : bool) (fuel : nat) (apiURL : string)
    (domains : stringset.Set_) (w : World) :
  (from ≤ length (sent w))%nat →
  (∀ x, x ∈ domains ↔ retained serve from w x ∧ IsDomainInScope x = false) →
  wp (if cond
      then ds ← Umbrella.queryReverseWhois serve creds fuel apiURL;
           mret (Umbrella.novel IsDomainInScope domains ds)
      else mret domains)
     (λ (domains' : stringset.Set_) w',
        (∀ x, x ∈ domains' ↔ retained serve from w' x ∧ IsDomainInScope x = false)
        ∧ sent w `prefix_of` sent w' ∧ cache w' = cache w ∧ output w' = output w)
     (λ w', cache w' = cache w ∧ output w' = output w) w.
Proof.
  intros Hfrom Hdom. destruct cond; [|wp_step; done].
  wp_step. unfold Umbrella.queryReverseWhois.
  eapply wp_mono;
    [apply (reverse_pages_retained serve creds fuel apiURL (length (sent w)) 0 ∅
              stringset.New w (le_n _)) | |].
  - intros key r Hr. by rewrite lookup_empty in Hr.
  - intros x. split; [intros Hx; by apply not_elem_of_empty in Hx|].
    intros Hx. by apply retained_none in Hx.
  - intros l w' ((D & -> & HD) & Hp & Hc & Ho). wp_step.
    split; [|done]. intros x.
    rewrite novel_elem, Hdom, (retained_split from w w' x Hp Hfrom). split.
    + intros [[Hr Hs]|(y & Hy & Hs & ->)]; [by auto|].
      apply Slice_elem, HD in Hy. rewrite (retained_key _ _ _ Hy). auto.
    + intros [[Hr|Hr] Hs]; [by left|]. right. exists x.
      split; [by apply Slice_elem, HD|]. split; [done|].
      symmetry. by eapply retained_key.
  - intros w' (_ & Hc & Ho). done.
Qed.

Lemma whois_request_emits fuel req w :
  wp (Umbrella.whoisRequest serve IsDomainInScope creds fuel req)
     (λ _ w',
        cache w' = cache w
        ∧ ((output w' = output w
            ∧ ∀ d, retained serve (S (length (sent w))) w' d → IsDomainInScope d = true)
           ∨ ∃ ev, output w' = output w ++ [ev]
                   ∧ Domain ev = Domain req
                   ∧ WhoisTag ev = Umbrella.SourceType ∧ WhoisSource ev = Umbrella.String
                   ∧ NewDomains ev ≠ [] ∧ NoDup (NewDomains ev)
                   ∧ ∀ d, d ∈ NewDomains ev
                          ↔ retained serve (S (length (sent w))) w' d
                            ∧ IsDomainInScope d = false))
     (λ w', cache w' = cache w ∧ output w' = output w) w.
Proof.
  unfold Umbrella.whoisRequest.
  assert (Hidle : ∀ d, retained serve (S (length (sent w))) w d → IsDomainInScope d = true).
  { intros d Hd. apply retained_none in Hd; [done | lia]. }
  destruct (no_key creds); [wp_step; auto|].
  destruct (negb _); [wp_step; auto|].
  wp_step. unfold Umbrella.queryWhois, Umbrella.fetch. wp_step. wp_step. wp_step. wp_step.
  wp_step.
  set (c := GET _ _). set (w1 := called c (charged (charged w))).
  assert (Hlen : length (sent w1) = S (length (sent w))).
  { unfold w1. simpl. rewrite length_app. simpl. lia. }
  assert (Hidle1 : ∀ d, retained serve (S (length (sent w))) (called c (charged w)) d
                        → IsDomainInScope d = true).
  { intros d Hd. apply retained_none in Hd; [done|]. simpl. rewrite length_app. simpl. lia. }
  destruct (_ ≫= Umbrella.unmarshal_whois) as [record|]; [|wp_step; auto].
  cbv zeta. wp_step.
  eapply wp_mono;
    [apply (reverse_step (S (length (sent w))) _ fuel _ stringset.New (called c (charged w)))
    | |].
  - simpl. rewrite length_app. simpl. lia.
  - intros x. split; [intros Hx; by apply not_elem_of_empty in Hx|].
    intros [Hx _]. apply retained_none in Hx; [done|]. simpl. rewrite length_app. simpl. lia.
  - intros domains1 w2 (Hd1 & Hp1 & Hc1 & Ho1). simpl in Hc1, Ho1. wp_step.
    eapply wp_mono;
      [apply (reverse_step (S (length (sent w))) _ fuel _ domains1 w2) | |].
    + destruct Hp1 as [ext ->]. simpl. rewrite !length_app. simpl. lia.
    + exact Hd1.
    + intros domains2 w3 (Hd2 & Hp2 & Hc2 & Ho2).
      destruct (Nat.ltb 0 (stringset.Len domains2)) eqn:Hlen2.
      * wp_step. split; [simpl; congruence|]. right.
        exists {| Domain := Domain req; NewDomains := stringset.Slice domains2;
                  WhoisTag := Umbrella.SourceType; WhoisSource := Umbrella.String |}.
        cbn [Domain NewDomains WhoisTag WhoisSource].
        split; [simpl; by rewrite Ho2, Ho1|].
        split; [reflexivity|]. split; [reflexivity|]. split; [reflexivity|].
        split.
        { apply Nat.ltb_lt in Hlen2. rewrite <- Slice_length in Hlen2.
          intros Hnil. rewrite Hnil in Hlen2. simpl in Hlen2. lia. }
        split; [apply Slice_NoDup|].
        intros d. rewrite Slice_elem. exact (Hd2 d).
      * wp_step. split; [congruence|]. left. split; [congruence|].
        intros d Hd. destruct (IsDomainInScope d) eqn:Hs; [done|].
        assert (Hin : d ∈ domains2) by (by apply Hd2).
        apply Nat.ltb_ge in Hlen2. unfold stringset.Len in Hlen2.
        assert (Hempty : domains2 ≡ ∅) by (apply size_empty_iff; lia).
        rewrite Hempty in Hin. by apply not_elem_of_empty in Hin.
    + intros w3 (Hc2 & Ho2). split; congruence.
  - intros w2 (Hc1 & Ho1). split; [exact Hc1 | exact Ho1].
Qed.

(** *** The handler returns *)

Lemma returns_ret {A : Type} (a : A) Q F w : Q a w → returns (mret a) Q F w.
Proof. intros HQ. exact HQ. Qed.

Lemma returns_bind {A B : Type} (m : M A) (k : A → M B) Q F w :
  returns m (λ a w', returns (k a) Q F w') F w → returns (m ≫= k) Q F w.
Proof.
  unfold returns, mbind, M_bind, bind. destruct (m w); auto.
Qed.

Lemma returns_check Q F w : Q tt (charged w) → returns CheckRateLimit Q F w.
Proof. intros HQ. exact HQ. Qed.

Lemma returns_request {D : Type} (srv : nat → Call → option D) c Q F w :
  Q (srv (length (sent w)) c) (called c w) → returns (RequestWebPage srv c) Q F w.
Proof. intros HQ. exact HQ. Qed.

Lemma returns_send ev Q F w : Q tt (emitted ev w) → returns (send ev) Q F w.
Proof. intros HQ. exact HQ. Qed.

(** A query returns, or it runs out of fuel after one request for
    each unit of it. *)
Lemma reverse_pages_returns fuel apiURL count whois domains w
    (Q : list string → World → Prop) (F : World → Prop) :
  (∀ l w', (length (sent w) ≤ length (sent w'))%nat → Q l w') →
  (∀ w', length (sent w') = (length (sent w) + fuel)%nat → F w') →
  returns (Umbrella.reverse_pages serve creds fuel apiURL count whois domains) Q F w.
Proof.
  revert count whois domains w.
  induction fuel as [|fuel IH]; intros count whois domains w HQ HF.
  { apply HF. lia. }
  rewrite reverse_pages_S.
  apply returns_bind, returns_check, returns_bind. unfold Umbrella.fetch.
  apply returns_request. cbn [charged sent].
  assert (Hlen : length (sent (called (GET (apiURL +:+ "&offset=" +:+ strconv.Itoa count)
                                         (Umbrella.restHeaders creds)) (charged w)))
                 = S (length (sent w))).
  { cbn [called charged sent]. rewrite length_app. simpl. lia. }
  destruct (serve _ _) as [page|]; [|apply returns_ret, HQ; lia].
  destruct (Umbrella.unmarshal_reverse _ _) as [whois'|]; [|apply returns_ret, HQ; lia].
  destruct (foldl _ _ _) as [domains' more].
  destruct more; [|apply returns_ret, HQ; lia].
  apply IH.
  - intros l w' Hw'. apply HQ. lia.
  - intros w' Hw'. apply HF. lia.
Qed.

Lemma whois_request_returns fuel req w :
  returns (Umbrella.whoisRequest serve IsDomainInScope creds fuel req)
    (λ _ _, True) (λ w', (fuel < requests_made w w')%nat) w.
Proof.
  unfold Umbrella.whoisRequest.
  destruct (no_key creds); [by apply returns_ret|].
  destruct (negb _); [by apply returns_ret|].
  apply returns_bind. unfold Umbrella.queryWhois, Umbrella.fetch.
  apply returns_bind, returns_check, returns_bind, returns_request, returns_ret.
  set (w1 := called _ _).
  assert (Hlen : length (sent w1) = S (length (sent w))).
  { unfold w1. cbn [called charged sent]. rewrite length_app. simpl. lia. }
  clearbody w1.
  destruct (_ ≫= Umbrella.unmarshal_whois) as [record|]; [|by apply returns_ret].
  cbv zeta.
  assert (Hquery : ∀ (cond : bool) apiURL (domains : stringset.Set_)
                     (Q : stringset.Set_ → World → Prop) w2,
    (length (sent w1) ≤ length (sent w2))%nat →
    (∀ ds w', (length (sent w1) ≤ length (sent w'))%nat → Q ds w') →
    returns (if cond
             then ds ← Umbrella.queryReverseWhois serve creds fuel apiURL;
                  mret (Umbrella.novel IsDomainInScope domains ds)
             else mret domains) Q (λ w', (fuel < requests_made w w')%nat) w2).
  { intros cond apiURL domains Q w2 Hw2 HQ.
    destruct cond; [|by apply returns_ret, HQ].
    apply returns_bind. unfold Umbrella.queryReverseWhois.
    apply reverse_pages_returns.
    - intros l w' Hw'. apply returns_ret, HQ. lia.
    - intros w' Hw'. unfold requests_made. lia. }
  apply returns_bind, Hquery; [lia|].
  intros domains1 w2 Hw2. apply returns_bind, Hquery; [lia|].
  intros domains2 w3 Hw3.
  destruct (Nat.ltb _ _); [by apply returns_send | by apply returns_ret].
Qed.

End umbrella_whois.

(** At most one event, of the domains retained and out of scope, and
    none exactly when there is no such domain. *)
Lemma whois_event_shape `{Library}
    (serve : nat → Call → option Umbrella.Page) (IsDomainInScope : string → bool)
    (creds : option Credentials) (fuel : nat) (req : WhoisRequest) (w : World) :
  let r := Umbrella.whoisRequest serve IsDomainInScope creds fuel req w in
  let from := S (length (sent w)) in
  cache (final r) = cache w
  ∧ (output (final r) = output w
     ∨ ∃ ev, output (final r) = output w ++ [ev]
             ∧ Domain ev = Domain req
             ∧ WhoisTag ev = Umbrella.SourceType ∧ WhoisSource ev = Umbrella.String
             ∧ NewDomains ev ≠ [] ∧ NoDup (NewDomains ev)
             ∧ ∀ d, d ∈ NewDomains ev
                    ↔ retained serve from (final r) d ∧ IsDomainInScope d = false)
  ∧ (∀ w', r = Ok tt w' →
       (output w' = output w ↔ ∀ d, retained serve from w' d → IsDomainInScope d = true)).
Proof.
  intros r from.
  pose proof (whois_request_emits serve IsDomainInScope creds fuel req w) as Hwp.
  unfold wp in Hwp. fold r in Hwp.
  destruct r as [[] w1|w1|w1]; cbn [final].
  - destruct Hwp as [Hc Hout]. split; [exact Hc|]. split.
    + destruct Hout as [[Ho _]|Hev]; [by left | by right].
    + intros w' [= <-]. split.
      * intros Ho. destruct Hout as [[_ Hall]|(ev & Hev & _)]; [exact Hall|].
        rewrite Ho in Hev. apply (f_equal length) in Hev.
        rewrite length_app in Hev. simpl in Hev. lia.
      * intros Hall. destruct Hout as [[Ho _]|(ev & _ & _ & _ & _ & Hne & _ & Hd)]; [exact Ho|].
        destruct (NewDomains ev) as [|d l] eqn:Hnew; [done|].
        destruct (Hd d) as [[Hr Hs] _]; [by left|].
        rewrite (Hall d Hr) in Hs. discriminate Hs.
  - destruct Hwp as [Hc Ho]. split; [exact Hc|]. split; [by left|]. intros w' [=].
  - destruct Hwp as [Hc Ho]. split; [exact Hc|]. split; [by left|]. intros w' [=].
Qed.

(** C6. What [Umbrella.whoisRequest] sends. The requests after the
    first, which asks for the WHOIS record, are the pages of the
    reverse-WHOIS queries; a name is retained from them when an entry
    with a positive total marks it current ([retained]; the name is the
    key under which the set holds it). The handler never touches the
    cache and sends at most one event. The event carries the domain of
    the request, the tag and the name of the source, and a list of new
    domains that is not empty, has no duplicates and consists exactly of
    the retained names that are out of scope. The handler does not
    panic, and it returns unless one of its queries went on for [fuel]
    pages, so that more than [fuel] requests were made. When it
    returns, nothing is sent exactly when every retained name is in
    scope; and when some retained name is out of scope, the event is
    sent and lists that name. *)
Theorem whois_emits_novel `{Library}
    (serve : nat → Call → option Umbrella.Page) (IsDomainInScope : string → bool)
    (creds : option Credentials) (fuel : nat) (req : WhoisRequest) (w : World) :
  let r := Umbrella.whoisRequest serve IsDomainInScope creds fuel req w in
  let from := S (length (sent w)) in
  cache (final r) = cache w
  ∧ (output (final r) = output w
     ∨ ∃ ev, output (final r) = output w ++ [ev]
             ∧ Domain ev = Domain req
             ∧ WhoisTag ev = Umbrella.SourceType ∧ WhoisSource ev = Umbrella.String
             ∧ NewDomains ev ≠ [] ∧ NoDup (NewDomains ev)
             ∧ ∀ d, d ∈ NewDomains ev
                    ↔ retained serve from (final r) d ∧ IsDomainInScope d = false)
  ∧ (∀ w', r = Ok tt w' →
       (output w' = output w ↔ ∀ d, retained serve from w' d → IsDomainInScope d = true))
  ∧ ((∃ w', r = Ok tt w') ∨ (∃ w', r = Spin w' ∧ (fuel < requests_made w w')%nat))
  ∧ (∀ w' d, r = Ok tt w' → retained serve from w' d → IsDomainInScope d = false →
       ∃ ev, output w' = output w ++ [ev]
             ∧ Domain ev = Domain req
             ∧ WhoisTag ev = Umbrella.SourceType ∧ WhoisSource ev = Umbrella.String
             ∧ d ∈ NewDomains ev).
Proof.
  intros r from.
  destruct (whois_event_shape serve IsDomainInScope creds fuel req w) as (Hc & Hout & Hiff).
  fold r in Hc, Hout, Hiff. fold from in Hout, Hiff.
  split; [exact Hc|]. split; [exact Hout|]. split; [exact Hiff|]. split.
  - pose proof (whois_request_returns serve IsDomainInScope creds fuel req w) as Hret.
    unfold returns in Hret. fold r in Hret.
    destruct r as [[] w1|w1|w1]; [left; by exists w1 | done | right; by exists w1].
  - intros w' d Hrun Hd Hs.
    destruct Hout as [Ho|(ev & Hev & Hdom & Htag & Hsrc & _ & _ & Hnew)].
    + rewrite Hrun in Ho. cbn [final] in Ho.
      pose proof (proj1 (Hiff w' Hrun) Ho d Hd) as Hin. rewrite Hin in Hs. discriminate Hs.
    + rewrite Hrun in Hev, Hnew. cbn [final] in Hev, Hnew.
      exists ev. repeat split; try done. by apply Hnew.
Qed.

(** The contact of [example.com] registered [example.org] as well: the
    handler sends one event, which lists it. *)
Lemma whois_emits_novel_witness :
  ∃ ev, output (final (Umbrella.whoisRequest (H := Example.library) Reverse.sibling_domains
                         Reverse.in_scope Scenario.key 3
                         (Scenario.whois_for "example.com") World_zero))
        = output World_zero ++ [ev]
        ∧ Domain ev = "example.com"
        ∧ WhoisTag ev = Umbrella.SourceType ∧ WhoisSource ev = Umbrella.String
        ∧ "example.org" ∈ NewDomains ev.
Proof.
  destruct (whois_emits_novel (H := Example.library) Reverse.sibling_domains Reverse.in_scope
              Scenario.key 3 (Scenario.whois_for "example.com") World_zero)
    as (_ & _ & _ & _ & Hsend).
  apply (Hsend _ "example.org").
  - vm_compute. reflexivity.
  - exists (Reverse.entry 3 false
              [("example.com", true); ("Example.ORG", true); ("example.net", true);
               ("gone.example", false)]).
    split.
    + exists 1%nat, (page_call Scenario.key Reverse.by_email 0),
        {[ Reverse.contact := Reverse.entry 3 false
             [("example.com", true); ("Example.ORG", true); ("example.net", true);
              ("gone.example", false)] ]}, Reverse.contact.
      split; [cbn; lia|]. split; [vm_compute; reflexivity|].
      split; [vm_compute; reflexivity | apply lookup_singleton_eq].
    + split; [cbn; lia|].
      exists {| Umbrella.rw_Domain := "Example.ORG"; Umbrella.Current := true |}.
      split; [cbn; set_solver|]. split; reflexivity.
  - vm_compute. reflexivity.
Defined.

(** The run of that example: two requests and the event. *)
Example whois_sibling_domains_event :
  Umbrella.whoisRequest (H := Example.library) Reverse.sibling_domains Reverse.in_scope
    Scenario.key 3 (Scenario.whois_for "example.com") World_zero
  = Ok tt {| sent := [GET "https://investigate.api.umbrella.com/whois/example.com"
                        (Umbrella.restHeaders Scenario.key);
                      page_call Scenario.key Reverse.by_email 0];
             checks := 2; cache := [];
             output := [{| Domain := "example.com";
                           NewDomains := ["example.org"; "example.net"];
                           WhoisTag := "api"; WhoisSource := "Umbrella" |}];
             stamps := [1; 2]%nat |}.
Proof. vm_compute. reflexivity. Qed.

(** Scenario D of the spec: the two current domains of the answer are
    in scope, and the handler returns without sending anything. *)
Example whois_known_domains_silent :
  Umbrella.whoisRequest (H := Example.library) Reverse.known_domains Reverse.in_scope
    Scenario.key 3 (Scenario.whois_for "example.com") World_zero
  = Ok tt {| sent := [GET "https://investigate.api.umbrella.com/whois/example.com"
                        (Umbrella.restHeaders Scenario.key);
                      page_call Scenario.key Reverse.by_email 0];
             checks := 2; cache := []; output := []; stamps := [1; 2]%nat |}.
Proof. vm_compute. reflexivity. Qed.


(** ** Rate limiting: every request is paid for by an admission *)

Ltac paid_solve :=
  unfold paid, paid_exactly in *; simpl in *; rewrite ?length_app in *; simpl in *; lia.

Section networksdb_paid.
Context `{Library}.
Variable web : nat → Call → option string.
Variable api : nat → Call → option NetworksDB.ApiPage.
Variable IsDomainInScope : string → bool.
Variable creds : option Credentials.
Variable AnySubdomain : string → list string.
Variable FirstLast : net.IPNet → net.IP * net.IP.
Variable w0 : World.

#[local] Abbreviation P := (λ w, paid w0 w 0).

Lemma second_paid l (Q : string → World → Prop) w :
  (∀ x, Q x w) → P w → wp (NetworksDB.second l) Q P w.
Proof.
  intros HQ Hw. unfold NetworksDB.second. destruct (l !! 1%nat); wp_step; auto.
Qed.

Lemma scrape_asn_query_paid asn addr netblocks w :
  P w → wp (NetworksDB.executeASNQuery web creds asn addr netblocks) (λ _ w', P w') P w.
Proof.
  intros Hw. unfold NetworksDB.executeASNQuery, NetworksDB.page_of, NetworksDB.second.
  wp_run; paid_solve.
Qed.

Lemma scrape_addr_query_paid addr w :
  paid w0 w 1 →
  wp (NetworksDB.executeASNAddrQuery web creds addr) (λ _ w', P w') P w.
Proof.
  intros Hw. unfold NetworksDB.executeASNAddrQuery, NetworksDB.page_of, NetworksDB.second.
  wp_run; try paid_solve.
  apply scrape_asn_query_paid. paid_solve.
Qed.

Lemma api_netblocks_paid asn w Q :
  (∀ s w', P w' → Q s w') → P w → wp (NetworksDB.apiNetblocksQuery api creds asn) Q P w.
Proof.
  intros HQ Hw. unfold NetworksDB.apiNetblocksQuery, NetworksDB.ask.
  wp_run; apply HQ; paid_solve.
Qed.

Lemma api_asn_info_paid asn w Q :
  (∀ r w', P w' → Q r w') → P w → wp (NetworksDB.apiASNInfoQuery api creds asn) Q P w.
Proof.
  intros HQ Hw. unfold NetworksDB.apiASNInfoQuery, NetworksDB.ask.
  wp_run; try apply HQ; paid_solve.
Qed.

Lemma api_ip_paid addr w Q :
  (∀ r w', P w' → Q r w') → P w → wp (NetworksDB.apiIPQuery api creds addr) Q P w.
Proof.
  intros HQ Hw. unfold NetworksDB.apiIPQuery, NetworksDB.ask.
  wp_run; try apply HQ; paid_solve.
Qed.

Lemma api_org_paid id w Q :
  (∀ r w', P w' → Q r w') → P w → wp (NetworksDB.apiOrgInfoQuery api creds id) Q P w.
Proof.
  intros HQ Hw. unfold NetworksDB.apiOrgInfoQuery, NetworksDB.ask.
  wp_run; try apply HQ; paid_solve.
Qed.

Lemma api_asn_query_paid asn addr netblocks w :
  P w → wp (NetworksDB.executeAPIASNQuery api creds asn addr netblocks) (λ _ w', P w') P w.
Proof.
  intros Hw. unfold NetworksDB.executeAPIASNQuery. cbv zeta. wp_step.
  assert (Hrest : ∀ filled w1, P w1 →
    wp (if Nat.eqb (stringset.Len filled) 0 then mret tt
        else
          prefix ← (if bool_decide (NetworksDB.prefix_for addr filled = EmptyString)
                    then match stringset.Slice filled with
                         | first :: _ => mret first
                         | [] => panic
                         end
                    else mret (NetworksDB.prefix_for addr filled));
          numRateLimitChecks 3;;
          req ← NetworksDB.apiASNInfoQuery api creds asn;
          match req with
          | None => mret tt
          | Some req =>
              Update (set_Netblocks (stringset.Slice filled)
                        (set_Prefix prefix
                           (if negb (bool_decide (addr = EmptyString))
                            then set_Address addr req else req)))
          end) (λ _ w', P w') P w1).
  { intros filled w1 Hw1.
    destruct (Nat.eqb _ _); [wp_step; done|].
    wp_step.
    assert (Hupd : ∀ p w2, P w2 →
      wp (numRateLimitChecks 3;;
          req ← NetworksDB.apiASNInfoQuery api creds asn;
          match req with
          | None => mret tt
          | Some req =>
              Update (set_Netblocks (stringset.Slice filled)
                        (set_Prefix p
                           (if negb (bool_decide (addr = EmptyString))
                            then set_Address addr req else req)))
          end) (λ _ w', P w') P w2).
    { intros p w2 Hw2. wp_step. wp_step. wp_step.
      apply api_asn_info_paid; [|paid_solve].
      intros [r|] w3 Hw3; wp_step; paid_solve. }
    destruct (bool_decide (NetworksDB.prefix_for addr filled = EmptyString)).
    - destruct (stringset.Slice filled) as [|first rest] eqn:Hs; cbv beta iota;
        [wp_step; done|].
      wp_step. by apply Hupd.
    - wp_step. by apply Hupd. }
  destruct (Nat.eqb _ _).
  - wp_step. apply api_netblocks_paid; [|done].
    intros s w' Hw'. wp_step. by apply Hrest.
  - wp_step. by apply Hrest.
Qed.

Lemma candidates_paid ip asns asn cidrs w Q :
  (∀ r w', P w' → Q r w') →
  P w → wp (NetworksDB.candidates api creds ip asns asn cidrs) Q P w.
Proof.
  intros HQ. revert cidrs w.
  induction asns as [|a rest IH]; intros cidrs w Hw; cbn [NetworksDB.candidates].
  - wp_step. by apply HQ.
  - wp_step. wp_step. wp_step. apply api_netblocks_paid; [|paid_solve].
    intros s w' Hw'. destruct (existsb _ _); [wp_step; by apply HQ | by apply IH].
Qed.

Lemma api_addr_query_paid addr w :
  P w → wp (NetworksDB.executeAPIASNAddrQuery api creds addr) (λ _ w', P w') P w.
Proof.
  intros Hw. unfold NetworksDB.executeAPIASNAddrQuery.
  wp_step. apply api_ip_paid; [|done].
  intros [cidr id] w1 Hw1. destruct (bool_decide _); [wp_step; done|].
  wp_step. wp_step. wp_step. apply api_org_paid; [|paid_solve].
  intros asns w2 Hw2. destruct (Nat.eqb _ _); [wp_step; done|].
  wp_step. apply candidates_paid; [|done].
  intros [asn cidrs] w3 Hw3. destruct (asn =? 0); [wp_step; done|].
  by apply api_asn_query_paid.
Qed.

Lemma networksdb_asn_paid req w :
  paid w0 w 1 → wp (NetworksDB.asnRequest web api creds req) (λ _ w', P w') P w.
Proof.
  intros Hw. unfold NetworksDB.asnRequest.
  destruct (_ && _)%bool; [wp_step; paid_solve|].
  wp_step. wp_step.
  destruct (NetworksDB.hasAPIKey creds), (negb _).
  - apply api_addr_query_paid. paid_solve.
  - apply api_asn_query_paid. paid_solve.
  - apply scrape_addr_query_paid. paid_solve.
  - apply scrape_asn_query_paid. paid_solve.
Qed.

Lemma harvest_paid matches newdomains w Q :
  (∀ s w', P w' → Q s w') →
  P w → wp (NetworksDB.harvest web AnySubdomain FirstLast matches newdomains) Q P w.
Proof.
  intros HQ. revert newdomains w.
  induction matches as [|m rest IH]; intros newdomains w Hw; cbn [NetworksDB.harvest].
  - wp_step. by apply HQ.
  - unfold NetworksDB.page_of, NetworksDB.second, NetworksDB.domains_region.
    wp_run; try (apply IH; paid_solve); paid_solve.
Qed.

Lemma networksdb_whois_paid req w :
  paid w0 w 1 →
  wp (NetworksDB.whoisRequest web IsDomainInScope creds AnySubdomain FirstLast req)
     (λ _ w', P w') P w.
Proof.
  intros Hw. unfold NetworksDB.whoisRequest, NetworksDB.page_of.
  destruct (negb _); [wp_step; paid_solve|].
  wp_step. wp_step. wp_step. wp_step.
  destruct (web _ _) as [page|]; [|wp_step; paid_solve].
  destruct (regexp.FindAllStringSubmatch _ _) as [|m ms]; [wp_step; paid_solve|].
  wp_step. apply harvest_paid; [|paid_solve].
  intros s w' Hw'. destruct (Nat.ltb _ _); wp_step; paid_solve.
Qed.

End networksdb_paid.

Section umbrella_paid.
Context `{Library}.
Variable serve : nat → Call → option Umbrella.Page.
Variable IsDomainInScope : string → bool.
Variable creds : option Credentials.
Variable w0 : World.

#[local] Abbreviation P := (λ w, paid w0 w 0).

Lemma umbrella_resolution_paid fuel :
  (∀ req w, paid w0 w 1 →
     wp (Umbrella.executeASNAddrQuery serve creds fuel req) (λ _ w', P w') P w)
  ∧ (∀ req w, paid w0 w 1 →
     wp (Umbrella.executeASNQuery serve creds fuel req) (λ _ w', P w') P w).
Proof.
  induction fuel as [|fuel [IHa IHn]].
  { split; intros; simpl; wp_step; paid_solve. }
  split.
  - intros req w Hw. rewrite executeASNAddrQuery_S.
    wp_step. unfold Umbrella.fetch. wp_step.
    destruct (serve _ _ ≫= Umbrella.unmarshal_as) as [[|as0 rest]|];
      try (wp_step; paid_solve).
    destruct (parseDate _) as [created|]; [|wp_step; paid_solve].
    cbv zeta. wp_step.
    destruct (Nat.eqb _ _).
    + wp_step. wp_step.
      eapply wp_mono; [apply IHn; paid_solve | | auto].
      intros r w' Hw'. simpl. wp_step. wp_step. wp_step. paid_solve.
    + wp_step. wp_step. wp_step. wp_step. paid_solve.
  - intros req w Hw. rewrite executeASNQuery_S.
    wp_step. unfold Umbrella.fetch. wp_step.
    destruct (serve _ _ ≫= Umbrella.unmarshal_netblock) as [[|nb0 rest]|];
      try (wp_step; paid_solve).
    cbv zeta.
    destruct (if bool_decide _ then _ else _) as [addr|].
    + wp_step. wp_step. apply IHa. paid_solve.
    + wp_step. paid_solve.
Qed.

(** On the address and AS chain every admission is followed by one
    request, unless the depth of the calls runs out. *)
Lemma umbrella_resolution_exact fuel :
  (∀ req w, paid_exactly w0 w 1 →
     wp (Umbrella.executeASNAddrQuery serve creds fuel req)
        (λ _ w', paid_exactly w0 w' 0) (λ _, True) w)
  ∧ (∀ req w, paid_exactly w0 w 1 →
     wp (Umbrella.executeASNQuery serve creds fuel req)
        (λ _ w', paid_exactly w0 w' 0) (λ _, True) w).
Proof.
  induction fuel as [|fuel [IHa IHn]].
  { split; intros; simpl; wp_step; exact I. }
  split.
  - intros req w Hw. rewrite executeASNAddrQuery_S.
    wp_step. unfold Umbrella.fetch. wp_step.
    destruct (serve _ _ ≫= Umbrella.unmarshal_as) as [[|as0 rest]|];
      try (wp_step; paid_solve).
    destruct (parseDate _) as [created|]; [|wp_step; paid_solve].
    cbv zeta. wp_step.
    destruct (Nat.eqb _ _).
    + wp_step. wp_step.
      eapply wp_mono; [apply IHn; paid_solve | | auto].
      intros r w' Hw'. simpl. wp_step. wp_step. wp_step. paid_solve.
    + wp_step. wp_step. wp_step. wp_step. paid_solve.
  - intros req w Hw. rewrite executeASNQuery_S.
    wp_step. unfold Umbrella.fetch. wp_step.
    destruct (serve _ _ ≫= Umbrella.unmarshal_netblock) as [[|nb0 rest]|];
      try (wp_step; paid_solve).
    cbv zeta.
    destruct (if bool_decide _ then _ else _) as [addr|].
    + wp_step. wp_step. apply IHa. paid_solve.
    + wp_step. paid_solve.
Qed.

(** Each turn of the pagination is admitted once and asks once. *)
Lemma reverse_pages_exact fuel apiURL count whois domains w Q :
  (∀ r w', paid_exactly w0 w' 1 → Q r w') →
  paid_exactly w0 w 1 →
  wp (Umbrella.reverse_pages serve creds fuel apiURL count whois domains)
     Q (λ w', paid_exactly w0 w' 1) w.
Proof.
  intros HQ. revert count whois domains w.
  induction fuel as [|fuel IH]; intros count whois domains w Hw.
  { simpl. wp_step. exact Hw. }
  rewrite reverse_pages_S. wp_step. wp_step. wp_step. unfold Umbrella.fetch. wp_step.
  destruct (serve _ _) as [page|]; [|wp_step; apply HQ; paid_solve].
  destruct (Umbrella.unmarshal_reverse _ _) as [whois'|]; [|wp_step; apply HQ; paid_solve].
  destruct (foldl _ _ _) as [domains' more].
  destruct more; [apply IH; paid_solve | wp_step; apply HQ; paid_solve].
Qed.

Lemma umbrella_whois_exact fuel req w :
  paid_exactly w0 w 1 →
  wp (Umbrella.whoisRequest serve IsDomainInScope creds fuel req)
     (λ _ w', paid_exactly w0 w' 1) (λ w', paid_exactly w0 w' 1) w.
Proof.
  intros Hw. unfold Umbrella.whoisRequest.
  destruct (no_key creds); [wp_step; exact Hw|].
  destruct (negb _); [wp_step; exact Hw|].
  wp_step. unfold Umbrella.queryWhois, Umbrella.fetch.
  wp_step. wp_step. wp_step. wp_step. wp_step.
  destruct (serve _ _ ≫= Umbrella.unmarshal_whois) as [record|]; [|wp_step; paid_solve].
  cbv zeta. wp_step.
  assert (Hsecond : ∀ (domains : stringset.Set_) w1, paid_exactly w0 w1 1 →
    wp (domains ← (if Nat.ltb 0 (length (filter (λ ns, Umbrella.validateScope IsDomainInScope ns = true)
                                            (Umbrella.NameServers record)))
                   then ds ← Umbrella.queryReverseWhois serve creds fuel
                               (Umbrella.reverseWhoisByNSURL
                                  (filter (λ ns, Umbrella.validateScope IsDomainInScope ns = true)
                                     (Umbrella.NameServers record)));
                        mret (Umbrella.novel IsDomainInScope domains ds)
                   else mret domains);
        if Nat.ltb 0 (stringset.Len domains)
        then send {| Domain := Domain req; NewDomains := stringset.Slice domains;
                     WhoisTag := Umbrella.SourceType; WhoisSource := Umbrella.String |}
        else mret tt)
       (λ _ w', paid_exactly w0 w' 1) (λ w', paid_exactly w0 w' 1) w1).
  { intros domains w1 Hw1. wp_step.
    assert (Hlast : ∀ (ds : stringset.Set_) w2, paid_exactly w0 w2 1 →
      wp (if Nat.ltb 0 (stringset.Len ds)
          then send {| Domain := Domain req; NewDomains := stringset.Slice ds;
                       WhoisTag := Umbrella.SourceType; WhoisSource := Umbrella.String |}
          else mret tt)
         (λ _ w', paid_exactly w0 w' 1) (λ w', paid_exactly w0 w' 1) w2).
    { intros ds w2 Hw2. destruct (Nat.ltb _ _); wp_step; paid_solve. }
    destruct (Nat.ltb _ _).
    - wp_step. unfold Umbrella.queryReverseWhois.
      apply reverse_pages_exact; [|exact Hw1].
      intros r w' Hw'. wp_step. by apply Hlast.
    - wp_step. by apply Hlast. }
  destruct (Nat.ltb 0 (length (Umbrella.collateEmails IsDomainInScope record))).
  - wp_step. unfold Umbrella.queryReverseWhois.
    apply reverse_pages_exact; [|paid_solve].
    intros r w' Hw'. wp_step. by apply Hsecond.
  - wp_step. apply Hsecond. paid_solve.
Qed.

End umbrella_paid.

(** *** Every request after an admission of its own *)

Lemma climbs_weaken (from : nat) (gs : list nat) (spare spare' to to' : nat) :
  climbs from gs spare to → (spare' + to ≤ spare + to')%nat → climbs from gs spare' to'.
Proof.
  revert from. induction gs as [|g gs IH]; intros from; simpl.
  - lia.
  - intros [Hg Hrest] Hle. split; [exact Hg | by apply IH].
Qed.

Lemma climbs_snoc (from : nat) (gs : list nat) (spare to : nat) :
  climbs from gs spare to → (1 ≤ spare)%nat → climbs from (gs ++ [to]) 0 to.
Proof.
  revert from. induction gs as [|g gs IH]; intros from; simpl.
  - lia.
  - intros [Hg Hrest] Hle. split; [exact Hg | by apply IH].
Qed.

Lemma climbs_bounds (from : nat) (gs : list nat) (spare to : nat) :
  climbs from gs spare to → (from + length gs + spare ≤ to)%nat.
Proof.
  revert from. induction gs as [|g gs IH]; intros from; simpl.
  - lia.
  - intros [Hg Hrest]. apply IH in Hrest. lia.
Qed.

Section paced_facts.
Variable w0 : World.

Lemma paced_refl : paced w0 w0 0.
Proof.
  exists [], []. cbn [climbs length]. rewrite !app_nil_r. repeat split. lia.
Qed.

Lemma paced_weaken w k k' : paced w0 w k' → (k ≤ k')%nat → paced w0 w k.
Proof.
  intros (cs & gs & Hs & Hg & Hl & Hc) Hle. exists cs, gs.
  repeat split; try done. eapply climbs_weaken; [exact Hc | lia].
Qed.

Lemma paced_charged w k : paced w0 w k → paced w0 (charged w) (S k).
Proof.
  intros (cs & gs & Hs & Hg & Hl & Hc). exists cs, gs.
  cbn [charged sent stamps checks]. repeat split; try done.
  eapply climbs_weaken; [exact Hc | lia].
Qed.

Lemma paced_checks w n k :
  paced w0 w k →
  paced w0 {| sent := sent w; checks := n + checks w; cache := cache w; output := output w;
              stamps := stamps w |} (n + k).
Proof.
  intros (cs & gs & Hs & Hg & Hl & Hc). exists cs, gs.
  cbn [sent stamps checks]. repeat split; try done.
  eapply climbs_weaken; [exact Hc | lia].
Qed.

(** A request uses up the admissions to spare, and needs one. *)
Lemma paced_called c w k : paced w0 w (S k) → paced w0 (called c w) 0.
Proof.
  intros (cs & gs & Hs & Hg & Hl & Hc). exists (cs ++ [c]), (gs ++ [checks w]).
  cbn [called sent stamps checks]. rewrite Hs, Hg, !app_assoc, !length_app, Hl.
  repeat split. eapply climbs_snoc; [exact Hc | lia].
Qed.

Lemma paced_cached r w k : paced w0 w k → paced w0 (cached r w) k.
Proof. intros Hw. exact Hw. Qed.

Lemma paced_emitted ev w k : paced w0 w k → paced w0 (emitted ev w) k.
Proof. intros Hw. exact Hw. Qed.

(** What the order gives in numbers: the admissions since [w0] are at
    least the requests since [w0] and those to spare. *)
Lemma paced_tally w k :
  paced w0 w k → (requests_made w0 w + k ≤ admissions w0 w)%nat.
Proof.
  intros (cs & gs & Hs & Hg & Hl & Hc). apply climbs_bounds in Hc.
  unfold requests_made, admissions. rewrite Hs, length_app. lia.
Qed.

End paced_facts.

Ltac pace_step :=
  lazymatch goal with
  | |- paced _ (called _ _) _ => eapply paced_called; pace_step
  | |- paced _ (charged _) _ => eapply paced_charged; pace_step
  | |- paced _ (cached _ _) _ => eapply paced_cached; pace_step
  | |- paced _ (emitted _ _) _ => eapply paced_emitted; pace_step
  | |- paced _ (Build_World _ (?n + checks ?w) _ _ _) _ =>
      eapply (paced_checks _ w n); pace_step
  | |- paced _ _ _ => first [eassumption | apply paced_refl]
  end.

(** From what is known of an earlier world to a later one, with as
    many admissions to spare as asked for or more. *)
Ltac pace_solve := cbv beta in *; eapply paced_weaken; [pace_step | lia].

Section networksdb_paced.
Context `{Library}.
Variable web : nat → Call → option string.
Variable api : nat → Call → option NetworksDB.ApiPage.
Variable IsDomainInScope : string → bool.
Variable creds : option Credentials.
Variable AnySubdomain : string → list string.
Variable FirstLast : net.IPNet → net.IP * net.IP.
Variable w0 : World.

#[local] Abbreviation P := (λ w, paced w0 w 0).

Lemma second_paced l (Q : string → World → Prop) w :
  (∀ x, Q x w) → P w → wp (NetworksDB.second l) Q P w.
Proof.
  intros HQ Hw. unfold NetworksDB.second. destruct (l !! 1%nat); wp_step; auto.
Qed.

Lemma scrape_asn_query_paced asn addr netblocks w :
  P w → wp (NetworksDB.executeASNQuery web creds asn addr netblocks) (λ _ w', P w') P w.
Proof.
  intros Hw. unfold NetworksDB.executeASNQuery, NetworksDB.page_of, NetworksDB.second.
  wp_run; pace_solve.
Qed.

Lemma scrape_addr_query_paced addr w :
  paced w0 w 1 →
  wp (NetworksDB.executeASNAddrQuery web creds addr) (λ _ w', P w') P w.
Proof.
  intros Hw. unfold NetworksDB.executeASNAddrQuery, NetworksDB.page_of, NetworksDB.second.
  wp_run; try pace_solve.
  apply scrape_asn_query_paced. pace_solve.
Qed.

Lemma api_netblocks_paced asn w Q :
  (∀ s w', P w' → Q s w') → P w → wp (NetworksDB.apiNetblocksQuery api creds asn) Q P w.
Proof.
  intros HQ Hw. unfold NetworksDB.apiNetblocksQuery, NetworksDB.ask.
  wp_run; apply HQ; pace_solve.
Qed.

Lemma api_asn_info_paced asn w Q :
  (∀ r w', P w' → Q r w') → P w → wp (NetworksDB.apiASNInfoQuery api creds asn) Q P w.
Proof.
  intros HQ Hw. unfold NetworksDB.apiASNInfoQuery, NetworksDB.ask.
  wp_run; try apply HQ; pace_solve.
Qed.

Lemma api_ip_paced addr w Q :
  (∀ r w', P w' → Q r w') → P w → wp (NetworksDB.apiIPQuery api creds addr) Q P w.
Proof.
  intros HQ Hw. unfold NetworksDB.apiIPQuery, NetworksDB.ask.
  wp_run; try apply HQ; pace_solve.
Qed.

Lemma api_org_paced id w Q :
  (∀ r w', P w' → Q r w') → P w → wp (NetworksDB.apiOrgInfoQuery api creds id) Q P w.
Proof.
  intros HQ Hw. unfold NetworksDB.apiOrgInfoQuery, NetworksDB.ask.
  wp_run; try apply HQ; pace_solve.
Qed.

Lemma api_asn_query_paced asn addr netblocks w :
  P w → wp (NetworksDB.executeAPIASNQuery api creds asn addr netblocks) (λ _ w', P w') P w.
Proof.
  intros Hw. unfold NetworksDB.executeAPIASNQuery. cbv zeta. wp_step.
  assert (Hrest : ∀ filled w1, P w1 →
    wp (if Nat.eqb (stringset.Len filled) 0 then mret tt
        else
          prefix ← (if bool_decide (NetworksDB.prefix_for addr filled = EmptyString)
                    then match stringset.Slice filled with
                         | first :: _ => mret first
                         | [] => panic
                         end
                    else mret (NetworksDB.prefix_for addr filled));
          numRateLimitChecks 3;;
          req ← NetworksDB.apiASNInfoQuery api creds asn;
          match req with
          | None => mret tt
          | Some req =>
              Update (set_Netblocks (stringset.Slice filled)
                        (set_Prefix prefix
                           (if negb (bool_decide (addr = EmptyString))
                            then set_Address addr req else req)))
          end) (λ _ w', P w') P w1).
  { intros filled w1 Hw1.
    destruct (Nat.eqb _ _); [wp_step; done|].
    wp_step.
    assert (Hupd : ∀ p w2, P w2 →
      wp (numRateLimitChecks 3;;
          req ← NetworksDB.apiASNInfoQuery api creds asn;
          match req with
          | None => mret tt
          | Some req =>
              Update (set_Netblocks (stringset.Slice filled)
                        (set_Prefix p
                           (if negb (bool_decide (addr = EmptyString))
                            then set_Address addr req else req)))
          end) (λ _ w', P w') P w2).
    { intros p w2 Hw2. wp_step. wp_step. wp_step.
      apply api_asn_info_paced; [|pace_solve].
      intros [r|] w3 Hw3; wp_step; pace_solve. }
    destruct (bool_decide (NetworksDB.prefix_for addr filled = EmptyString)).
    - destruct (stringset.Slice filled) as [|first rest] eqn:Hs; cbv beta iota;
        [wp_step; done|].
      wp_step. by apply Hupd.
    - wp_step. by apply Hupd. }
  destruct (Nat.eqb _ _).
  - wp_step. apply api_netblocks_paced; [|done].
    intros s w' Hw'. wp_step. by apply Hrest.
  - wp_step. by apply Hrest.
Qed.

Lemma candidates_paced ip asns asn cidrs w Q :
  (∀ r w', P w' → Q r w') →
  P w → wp (NetworksDB.candidates api creds ip asns asn cidrs) Q P w.
Proof.
  intros HQ. revert cidrs w.
  induction asns as [|a rest IH]; intros cidrs w Hw; cbn [NetworksDB.candidates].
  - wp_step. by apply HQ.
  - wp_step. wp_step. wp_step. apply api_netblocks_paced; [|pace_solve].
    intros s w' Hw'. destruct (existsb _ _); [wp_step; by apply HQ | by apply IH].
Qed.

Lemma api_addr_query_paced addr w :
  P w → wp (NetworksDB.executeAPIASNAddrQuery api creds addr) (λ _ w', P w') P w.
Proof.
  intros Hw. unfold NetworksDB.executeAPIASNAddrQuery.
  wp_step. apply api_ip_paced; [|done].
  intros [cidr id] w1 Hw1. destruct (bool_decide _); [wp_step; done|].
  wp_step. wp_step. wp_step. apply api_org_paced; [|pace_solve].
  intros asns w2 Hw2. destruct (Nat.eqb _ _); [wp_step; done|].
  wp_step. apply candidates_paced; [|done].
  intros [asn cidrs] w3 Hw3. destruct (asn =? 0); [wp_step; done|].
  by apply api_asn_query_paced.
Qed.

Lemma networksdb_asn_paced req w :
  paced w0 w 1 → wp (NetworksDB.asnRequest web api creds req) (λ _ w', P w') P w.
Proof.
  intros Hw. unfold NetworksDB.asnRequest.
  destruct (_ && _)%bool; [wp_step; pace_solve|].
  wp_step. wp_step.
  destruct (NetworksDB.hasAPIKey creds), (negb _).
  - apply api_addr_query_paced. pace_solve.
  - apply api_asn_query_paced. pace_solve.
  - apply scrape_addr_query_paced. pace_solve.
  - apply scrape_asn_query_paced. pace_solve.
Qed.

Lemma harvest_paced matches newdomains w Q :
  (∀ s w', P w' → Q s w') →
  P w → wp (NetworksDB.harvest web AnySubdomain FirstLast matches newdomains) Q P w.
Proof.
  intros HQ. revert newdomains w.
  induction matches as [|m rest IH]; intros newdomains w Hw; cbn [NetworksDB.harvest].
  - wp_step. by apply HQ.
  - unfold NetworksDB.page_of, NetworksDB.second, NetworksDB.domains_region.
    wp_run; try (apply IH; pace_solve); pace_solve.
Qed.

Lemma networksdb_whois_paced req w :
  paced w0 w 1 →
  wp (NetworksDB.whoisRequest web IsDomainInScope creds AnySubdomain FirstLast req)
     (λ _ w', P w') P w.
Proof.
  intros Hw. unfold NetworksDB.whoisRequest, NetworksDB.page_of.
  destruct (negb _); [wp_step; pace_solve|].
  wp_step. wp_step. wp_step. wp_step.
  destruct (web _ _) as [page|]; [|wp_step; pace_solve].
  destruct (regexp.FindAllStringSubmatch _ _) as [|m ms]; [wp_step; pace_solve|].
  wp_step. apply harvest_paced; [|pace_solve].
  intros s w' Hw'. destruct (Nat.ltb _ _); wp_step; pace_solve.
Qed.

End networksdb_paced.

Section umbrella_paced.
Context `{Library}.
Variable serve : nat → Call → option Umbrella.Page.
Variable IsDomainInScope : string → bool.
Variable creds : option Credentials.
Variable w0 : World.

#[local] Abbreviation P := (λ w, paced w0 w 0).

Lemma umbrella_resolution_paced fuel :
  (∀ req w, paced w0 w 1 →
     wp (Umbrella.executeASNAddrQuery serve creds fuel req) (λ _ w', P w') P w)
  ∧ (∀ req w, paced w0 w 1 →
     wp (Umbrella.executeASNQuery serve creds fuel req) (λ _ w', P w') P w).
Proof.
  induction fuel as [|fuel [IHa IHn]].
  { split; intros; simpl; wp_step; pace_solve. }
  split.
  - intros req w Hw. rewrite executeASNAddrQuery_S.
    wp_step. unfold Umbrella.fetch. wp_step.
    destruct (serve _ _ ≫= Umbrella.unmarshal_as) as [[|as0 rest]|];
      try (wp_step; pace_solve).
    destruct (parseDate _) as [created|]; [|wp_step; pace_solve].
    cbv zeta. wp_step.
    destruct (Nat.eqb _ _).
    + wp_step. wp_step.
      eapply wp_mono; [apply IHn; pace_solve | | auto].
      intros r w' Hw'. simpl. wp_step. wp_step. wp_step. pace_solve.
    + wp_step. wp_step. wp_step. wp_step. pace_solve.
  - intros req w Hw. rewrite executeASNQuery_S.
    wp_step. unfold Umbrella.fetch. wp_step.
    destruct (serve _ _ ≫= Umbrella.unmarshal_netblock) as [[|nb0 rest]|];
      try (wp_step; pace_solve).
    cbv zeta.
    destruct (if bool_decide _ then _ else _) as [addr|].
    + wp_step. wp_step. apply IHa. pace_solve.
    + wp_step. pace_solve.
Qed.

(** Each turn of the pagination is admitted before it asks. *)
Lemma reverse_pages_paced fuel apiURL count whois domains w Q :
  (∀ r w', P w' → Q r w') →
  P w →
  wp (Umbrella.reverse_pages serve creds fuel apiURL count whois domains) Q P w.
Proof.
  intros HQ. revert count whois domains w.
  induction fuel as [|fuel IH]; intros count whois domains w Hw.
  { simpl. wp_step. exact Hw. }
  rewrite reverse_pages_S. wp_step. wp_step. wp_step. unfold Umbrella.fetch. wp_step.
  destruct (serve _ _) as [page|]; [|wp_step; apply HQ; pace_solve].
  destruct (Umbrella.unmarshal_reverse _ _) as [whois'|]; [|wp_step; apply HQ; pace_solve].
  destruct (foldl _ _ _) as [domains' more].
  destruct more; [apply IH; pace_solve | wp_step; apply HQ; pace_solve].
Qed.

Lemma umbrella_whois_paced fuel req w :
  P w →
  wp (Umbrella.whoisRequest serve IsDomainInScope creds fuel req) (λ _ w', P w') P w.
Proof.
  intros Hw. unfold Umbrella.whoisRequest.
  destruct (no_key creds); [wp_step; exact Hw|].
  destruct (negb _); [wp_step; exact Hw|].
  wp_step. unfold Umbrella.queryWhois, Umbrella.fetch.
  wp_step. wp_step. wp_step. wp_step. wp_step.
  destruct (serve _ _ ≫= Umbrella.unmarshal_whois) as [record|]; [|wp_step; pace_solve].
  cbv zeta. wp_step.
  assert (Hlast : ∀ (cond : bool) (ev : WhoisRequest) w2, P w2 →
    wp (if cond then send ev else mret tt) (λ _ w', P w') P w2).
  { intros cond ev w2 Hw2. destruct cond; wp_step; pace_solve. }
  assert (Hquery : ∀ (cond : bool) apiURL (domains : stringset.Set_)
                     (Q : stringset.Set_ → World → Prop) w1,
    (∀ ds w', P w' → Q ds w') → P w1 →
    wp (if cond
        then ds ← Umbrella.queryReverseWhois serve creds fuel apiURL;
             mret (Umbrella.novel IsDomainInScope domains ds)
        else mret domains) Q P w1).
  { intros cond apiURL domains Q w1 HQ Hw1. destruct cond; [|wp_step; by apply HQ].
    wp_step. unfold Umbrella.queryReverseWhois.
    apply reverse_pages_paced; [|exact Hw1].
    intros r w' Hw'. wp_step. by apply HQ. }
  apply Hquery; [|pace_solve].
  intros domains1 w1 Hw1. wp_step.
  apply Hquery; [|exact Hw1].
  intros domains2 w2 Hw2. by apply Hlast.
Qed.

Lemma umbrella_asn_paced fuel req w :
  paced w0 w 1 →
  wp (Umbrella.asnRequest serve creds fuel req) (λ _ w', P w') P w.
Proof.
  intros Hw. unfold Umbrella.asnRequest.
  destruct (no_key creds); [wp_step; pace_solve|].
  destruct (_ && _)%bool; [wp_step; pace_solve|].
  destruct (negb _); by apply umbrella_resolution_paced.
Qed.

End umbrella_paced.

Lemma paid_bounds w0 w :
  paid w0 w 0 → (1 ≤ admissions w0 w ∧ requests_made w0 w ≤ admissions w0 w)%nat.
Proof. unfold paid, admissions, requests_made. lia. Qed.

Lemma umbrella_asn_paid `{Library} (serve : nat → Call → option Umbrella.Page)
    (creds : option Credentials) (fuel : nat) (req : ASNRequest) (w0 w : World) :
  paid w0 w 1 →
  wp (Umbrella.asnRequest serve creds fuel req) (λ _ w', paid w0 w' 0) (λ w', paid w0 w' 0) w.
Proof.
  intros Hw. unfold Umbrella.asnRequest.
  destruct (no_key creds); [wp_step; paid_solve|].
  destruct (_ && _)%bool; [wp_step; paid_solve|].
  destruct (negb _); by apply umbrella_resolution_paid.
Qed.

(** A resolution that asked nothing was admitted once, by the dispatch
    loop; one that asked was admitted once for each request. *)
Lemma umbrella_asn_exact `{Library} (serve : nat → Call → option Umbrella.Page)
    (creds : option Credentials) (fuel : nat) (req : ASNRequest) (w0 w : World) :
  paid_exactly w0 w 1 → length (sent w) = length (sent w0) →
  wp (Umbrella.asnRequest serve creds fuel req)
     (λ _ w', admissions w0 w' = Nat.max 1 (requests_made w0 w')) (λ _, True) w.
Proof.
  intros Hw Hsent. unfold Umbrella.asnRequest.
  assert (Hexact : ∀ w', paid_exactly w0 w' 0 →
            admissions w0 w' = Nat.max 1 (requests_made w0 w')).
  { intros w'. unfold paid_exactly, admissions, requests_made. lia. }
  assert (Hnone : admissions w0 w = Nat.max 1 (requests_made w0 w)).
  { unfold paid_exactly, admissions, requests_made in *. lia. }
  destruct (no_key creds); [wp_step; exact Hnone|].
  destruct (_ && _)%bool; [wp_step; exact Hnone|].
  destruct (negb _);
    (eapply wp_mono; [by apply umbrella_resolution_exact | intros ? w'; apply Hexact | auto]).
Qed.

(** Claim C5, as the code has it. For one ASN or WHOIS request taken
    from the queue by the dispatch loop of Umbrella or of NetworksDB,
    however the run ends, every outbound request is preceded by an
    admission of its own: the service had passed the rate limiter since
    the request was taken when its first request went out, and again
    since the request before when each later one did ([paced], which
    reads the number of admissions recorded with each request). So the
    admissions are at least one and at least as many as the requests.
    The two numbers agree only on Umbrella's address and AS chain,
    where a resolution that returns was admitted as often as it asked
    (once when it asked nothing); Umbrella's WHOIS handler is always
    admitted once more than it asks, because the dispatch loop and
    [queryWhois] both pass the limiter before the first request.
    NetworksDB passes the limiter through [numRateLimitChecks], several
    times before each request. *)
Theorem admissions_cover_requests `{Library}
    (serve : nat → Call → option Umbrella.Page)
    (web : nat → Call → option string) (api : nat → Call → option NetworksDB.ApiPage)
    (IsDomainInScope : string → bool) (creds : option Credentials)
    (AnySubdomain : string → list string) (FirstLast : net.IPNet → net.IP * net.IP)
    (fuel : nat) (w : World) :
  (∀ in_,
     let w' := final (Umbrella.requests serve IsDomainInScope creds fuel in_ w) in
     paced w w' 0
     ∧ (1 ≤ admissions w w' ∧ requests_made w w' ≤ admissions w w')%nat)
  ∧ (∀ in_,
       let w' := final (NetworksDB.requests web api IsDomainInScope creds
                          AnySubdomain FirstLast in_ w) in
       paced w w' 0
       ∧ (1 ≤ admissions w w' ∧ requests_made w w' ≤ admissions w w')%nat)
  ∧ (∀ req w',
       Umbrella.requests serve IsDomainInScope creds fuel (Umbrella.ASNReq req) w = Ok tt w' →
       admissions w w' = Nat.max 1 (requests_made w w'))
  ∧ (∀ req,
       let w' := final (Umbrella.requests serve IsDomainInScope creds fuel
                          (Umbrella.WhoisReq req) w) in
       admissions w w' = S (requests_made w w')).
Proof.
  assert (Hstart : paid_exactly w (charged w) 1) by (unfold paid_exactly; simpl; lia).
  assert (Hpaid : paid w (charged w) 1) by (unfold paid; simpl; lia).
  assert (Hpaced : paced w (charged w) 1) by pace_solve.
  assert (Hwhois : ∀ req,
            paid_exactly w
              (final (Umbrella.requests serve IsDomainInScope creds fuel
                        (Umbrella.WhoisReq req) w)) 1).
  { intros req. apply (wp_final _ (λ w', paid_exactly w w' 1)). simpl.
    wp_step. wp_step. by apply umbrella_whois_exact. }
  split; [|split; [|split]].
  - intros [req|req] w'; subst w'; split.
    + apply (wp_final _ (λ w', paced w w' 0)). simpl.
      wp_step. wp_step. wp_step.
      eapply wp_mono; [by apply umbrella_asn_paced | | auto].
      intros a w' Hw'. wp_step. exact Hw'.
    + apply paid_bounds, (wp_final _ (λ w', paid w w' 0)). simpl.
      wp_step. wp_step. wp_step.
      eapply wp_mono; [by apply umbrella_asn_paid | | auto].
      intros a w' Hw'. wp_step. exact Hw'.
    + apply (wp_final _ (λ w', paced w w' 0)). simpl.
      wp_step. wp_step. apply umbrella_whois_paced. pace_solve.
    + specialize (Hwhois req). unfold paid_exactly, admissions, requests_made in *. lia.
  - intros [req|req] w'; subst w'; split.
    + apply (wp_final _ (λ w', paced w w' 0)); simpl; wp_step; wp_step.
      by apply networksdb_asn_paced.
    + apply paid_bounds, (wp_final _ (λ w', paid w w' 0)); simpl; wp_step; wp_step.
      by apply networksdb_asn_paid.
    + apply (wp_final _ (λ w', paced w w' 0)); simpl; wp_step; wp_step.
      by apply networksdb_whois_paced.
    + apply paid_bounds, (wp_final _ (λ w', paid w w' 0)); simpl; wp_step; wp_step.
      by apply networksdb_whois_paid.
  - intros req w' Hrun.
    assert (Hwp : wp (Umbrella.requests serve IsDomainInScope creds fuel (Umbrella.ASNReq req))
                    (λ _ w', admissions w w' = Nat.max 1 (requests_made w w'))
                    (λ _, True) w).
    { simpl. wp_step. wp_step. wp_step.
      eapply wp_mono; [by apply umbrella_asn_exact | | auto].
      intros a w1 Hw1. wp_step. exact Hw1. }
    unfold wp in Hwp. by rewrite Hrun in Hwp.
  - intros req w'; subst w'.
    specialize (Hwhois req). unfold paid_exactly, admissions, requests_made in *. lia.
Qed.

(** The hypothesis of the third part at a resolution of [8.8.8.8]: two
    requests, two admissions. *)
Lemma admissions_cover_requests_witness :
  admissions World_zero
    {| sent := [GET "https://investigate.api.umbrella.com/bgp_routes/ip/8.8.8.8/as_for_ip.json"
                  (Umbrella.restHeaders Scenario.key);
                GET "https://investigate.api.umbrella.com/bgp_routes/asn/15169/prefixes_for_asn.json"
                  (Umbrella.restHeaders Scenario.key)];
       checks := 2;
       cache := cache (final (Umbrella.requests (H := Example.library) (Scenario.umbrella 3)
                                (λ _, true) Scenario.key 3
                                (Umbrella.ASNReq (Scenario.for_address "8.8.8.8")) World_zero));
       output := [];
       stamps := [1; 2]%nat |}
  = Nat.max 1 2.
Proof.
  destruct (admissions_cover_requests (H := Example.library) (Scenario.umbrella 3)
              (λ _ _, None) (λ _ _, None) (λ _, true) Scenario.key (λ _, [])
              Site.FirstLast 3 World_zero) as (_ & _ & Hasn & _).
  apply (Hasn (Scenario.for_address "8.8.8.8")). vm_compute. reflexivity.
Defined.

(** Against claim C5 as it was stated: a WHOIS request for a domain in
    scope, whose record names one contact address with a one-page
    reverse answer, makes two outbound requests and is admitted three
    times. *)
Lemma whois_admitted_once_more :
  let w' := final (Umbrella.requests (H := Example.library) Reverse.known_domains
                     Reverse.in_scope Scenario.key 3
                     (Umbrella.WhoisReq (Scenario.whois_for "example.com")) World_zero) in
  requests_made World_zero w' = 2%nat ∧ admissions World_zero w' = 3%nat
  ∧ admissions World_zero w' ≠ requests_made World_zero w'.
Proof. vm_compute. repeat split; congruence. Qed.

(** The same request: the record was asked for after the second
    admission and the page of the reverse query after the third. *)
Example whois_requests_follow_admissions :
  stamps (final (Umbrella.requests (H := Example.library) Reverse.known_domains
                  Reverse.in_scope Scenario.key 3
                  (Umbrella.WhoisReq (Scenario.whois_for "example.com")) World_zero))
  = [2; 3]%nat.
Proof. vm_compute. reflexivity. Qed.

(** NetworksDB with an API key, resolving [8.8.8.8]: five requests
    (address, organisation, two netblock lists, AS) and thirty
    admissions, six of them before each request, with
    [numRateLimitChecks] as it is modelled. *)
Example networksdb_api_admissions :
  let w' := final (NetworksDB.requests (H := Example.library) (λ _ _, None) Networks.api
                     (λ _, true) Scenario.key (λ _, []) Site.FirstLast
                     (NetworksDB.ASNReq (Scenario.for_address "8.8.8.8")) World_zero) in
  requests_made World_zero w' = 5%nat ∧ admissions World_zero w' = 30%nat
  ∧ stamps w' = [6; 12; 18; 24; 30]%nat.
Proof. vm_compute. repeat split; reflexivity. Qed.

(** ** [RunHelpCommand]: the help of a sub-command *)

(** X1. [RunHelpCommand] looks at its first argument only. It goes on
    with a sub-command exactly when that argument is one of [db],
    [enum], [intel], [track] and [viz], spelled so, and then with that
    sub-command and the single argument [-help], whatever follows on the
    command line; with no argument or any other first argument it
    prints the usage of the program. *)
Theorem help_runs_named_command (clArgs : list string) :
  Help.RunHelpCommand clArgs = Help.RunHelpCommand (take 1 clArgs)
  ∧ (∀ name args,
       Help.sub_command (Help.RunHelpCommand clArgs) = Some (name, args)
       ↔ head clArgs = Some name ∧ name ∈ Help.commands ∧ args = ["-help"])
  ∧ (Help.RunHelpCommand clArgs = Help.CommandUsage
     ↔ ∀ name, head clArgs = Some name → name ∉ Help.commands).
Proof.
  assert (Hin : ∀ c : string, c ∈ Help.commands
            ↔ c = "db" ∨ c = "enum" ∨ c = "intel" ∨ c = "track" ∨ c = "viz").
  { intros c. unfold Help.commands. rewrite !elem_of_cons, elem_of_nil. tauto. }
  destruct clArgs as [|c rest].
  { split; [reflexivity|]. split.
    - intros name args. simpl. split; [discriminate | intros [[=] _]].
    - simpl. split; [intros _ name [=] | reflexivity]. }
  split; [reflexivity|]. split.
  - intros name args. unfold Help.RunHelpCommand. cbn [length Nat.ltb Nat.leb head].
    rewrite Hin.
    repeat case_bool_decide; subst; cbn [Help.sub_command];
      (split; [intros [= <- <-]; repeat split; tauto
              | intros ([= <-] & Hname & ->);
                repeat match goal with
                       | Hn : _ ∨ _ |- _ => destruct Hn as [Hn|Hn]
                       end; try congruence; try discriminate]).
  - unfold Help.RunHelpCommand. cbn [length Nat.ltb Nat.leb head].
    split.
    + intros Hrun name [= <-]. rewrite Hin.
      repeat case_bool_decide; try discriminate Hrun. tauto.
    + intros Hnone. specialize (Hnone c eq_refl). rewrite Hin in Hnone.
      repeat case_bool_decide; subst; try reflexivity; exfalso; apply Hnone; tauto.
Qed.

(** ** [AcquireScripts]: the scripts of the data sources *)

Lemma string_app_assoc (s t u : string) : (s +:+ t) +:+ u = s +:+ (t +:+ u).
Proof.
  induction s as [|c s IH]; [reflexivity|].
  change (String c ((s +:+ t) +:+ u) = String c (s +:+ (t +:+ u))). by rewrite IH.
Qed.

Lemma string_length_app (s t : string) :
  String.length (s +:+ t) = (String.length s + String.length t)%nat.
Proof.
  induction s as [|c s IH]; [reflexivity|].
  change (S (String.length (s +:+ t)) = S (String.length s + String.length t)).
  by rewrite IH.
Qed.

Lemma list_ascii_of_string_app (s t : string) :
  String.list_ascii_of_string (s +:+ t)
  = String.list_ascii_of_string s ++ String.list_ascii_of_string t.
Proof.
  induction s as [|c s IH]; [reflexivity|].
  change (c :: String.list_ascii_of_string (s +:+ t)
          = c :: String.list_ascii_of_string s ++ String.list_ascii_of_string t).
  by rewrite IH.
Qed.

Lemma string_of_list_ascii_app (l k : list Ascii.ascii) :
  String.string_of_list_ascii (l ++ k)
  = String.string_of_list_ascii l +:+ String.string_of_list_ascii k.
Proof.
  induction l as [|c l IH]; [reflexivity|].
  change (String c (String.string_of_list_ascii (l ++ k))
          = String c (String.string_of_list_ascii l +:+ String.string_of_list_ascii k)).
  by rewrite IH.
Qed.

(** The loop of [Ext] returns nothing or a text that starts with a dot
    and is longer than what it has passed. *)
Lemma ext_loop_shape (upto : list Ascii.ascii) (after : string) :
  filepath.ext_loop upto after = EmptyString
  ∨ ∃ pre, filepath.ext_loop upto after = String "."%char (pre +:+ after).
Proof.
  revert after. induction upto as [|c upto IH]; intros after; simpl; [by left|].
  destruct (filepath.IsPathSeparator c); [by left|].
  destruct (Ascii.eqb c "."%char) eqn:Hc.
  - apply Ascii.eqb_eq in Hc as ->. right. by exists EmptyString.
  - destruct (IH (String c after)) as [->|[pre ->]]; [by left|].
    right. exists (pre +:+ String c EmptyString).
    f_equal. by rewrite string_app_assoc.
Qed.

Lemma ext_is_ads (name : string) :
  filepath.Ext name = ".ads" ↔ ∃ base, name = base +:+ ".ads".
Proof.
  unfold filepath.Ext. split.
  - intros Hext.
    assert (Hrev : ∃ front, rev (String.list_ascii_of_string name)
                            = ["s"; "d"; "a"; "."]%char ++ front).
    { destruct (rev (String.list_ascii_of_string name)) as [|c1 [|c2 [|c3 [|c4 front]]]];
        simpl in Hext;
        repeat match type of Hext with
               | context [filepath.IsPathSeparator ?c] =>
                   destruct (filepath.IsPathSeparator c); [discriminate Hext|]
               | context [Ascii.eqb ?c "."%char] =>
                   let E := fresh "E" in
                   destruct (Ascii.eqb c "."%char) eqn:E;
                   [apply Ascii.eqb_eq in E; subst c|]
               end; try discriminate Hext.
      - injection Hext as -> -> ->. by exists front.
      - destruct (ext_loop_shape front (String c4 (String c3 (String c2 (String c1 EmptyString)))))
          as [Hs|[pre Hs]]; rewrite Hs in Hext; [discriminate Hext|].
        exfalso. apply (f_equal String.length) in Hext. simpl in Hext.
        rewrite string_length_app in Hext. simpl in Hext. lia. }
    destruct Hrev as [front Hrev].
    apply (f_equal (@rev _)) in Hrev. rewrite rev_involutive, rev_app_distr in Hrev.
    exists (String.string_of_list_ascii (rev front)).
    rewrite <- (String.string_of_list_ascii_of_string name), Hrev.
    by rewrite string_of_list_ascii_app.
  - intros [base ->]. rewrite list_ascii_of_string_app, rev_app_distr. reflexivity.
Qed.

Lemma walk_each_eq (names : list config.Node) (scripts : list string) :
  (fix each (names : list config.Node) (scripts : list string) : list string * bool :=
     match names with
     | [] => (scripts, false)
     | config.Missing :: rest =>
         let '(scripts, err) := config.walkFn config.Missing true scripts in
         if err then (scripts, err) else each rest scripts
     | child :: rest =>
         let '(scripts, err) := config.walk child scripts in
         if err then (scripts, err) else each rest scripts
     end) names scripts
  = config.walk_each names scripts.
Proof.
  revert scripts. induction names as [|child rest IH]; intros scripts; [reflexivity|].
  destruct child; simpl;
    repeat match goal with
           | |- context [let '(_, _) := ?p in _] => destruct p as [? []]
           end; auto.
Qed.

Lemma walk_directory (name : string) (names : list config.Node) (scripts : list string) :
  config.walk (config.Directory name (Some names)) scripts = config.walk_each names scripts.
Proof. simpl. apply walk_each_eq. Qed.

(** Induction on a tree, with the property for the entries of a
    directory. *)
Lemma Node_induction (P : config.Node → Prop) :
  (∀ name data, P (config.File name data)) →
  (∀ name, P (config.Directory name None)) →
  (∀ name names, Forall P names → P (config.Directory name (Some names))) →
  P config.Missing →
  ∀ n, P n.
Proof.
  intros Hf Hn Hd Hm. fix IH 1. intros [name data|name [names|]|].
  - apply Hf.
  - apply Hd. induction names as [|child rest IHl]; constructor; [apply IH | exact IHl].
  - apply Hn.
  - apply Hm.
Qed.

(** What a walk adds, and whether it ends in an error. *)
Lemma walk_adds (n : config.Node) :
  ∀ scripts, ∃ added,
    config.walk n scripts = (scripts ++ added, negb (config.healthy n))
    ∧ added `prefix_of` config.ads_files n
    ∧ (config.healthy n = true → added = config.ads_files n).
Proof.
  induction n as [name data|name|name names IH|] using Node_induction; intros scripts.
  - cbn [config.walk config.walkFn config.healthy config.ads_files].
    case_bool_decide as Hext; cbn [negb]; destruct data as [d|]; cbn [negb].
    + exists [d]. by rewrite bool_decide_eq_true_2.
    + exists []. rewrite app_nil_r, bool_decide_eq_false_2 by (intros Hd; by apply Hd).
      split; [done|]. split; [apply prefix_nil | done].
    + exists []. rewrite app_nil_r. split; [done|]. split; [apply prefix_nil | done].
    + exists []. rewrite app_nil_r. split; [done|]. split; [apply prefix_nil | done].
  - exists []. rewrite app_nil_r. simpl. split; [done|]. split; [apply prefix_nil | done].
  - rewrite walk_directory. cbn [config.healthy config.ads_files].
    revert scripts. induction IH as [|child rest Hchild _ IHrest]; intros scripts.
    { exists []. rewrite app_nil_r. done. }
    cbn [config.walk_each forallb flat_map].
    destruct (Hchild scripts) as (a1 & -> & Hp1 & Hall1).
    destruct (config.healthy child) eqn:Hh; cbn [negb andb].
    + destruct (IHrest (scripts ++ a1)) as (a2 & -> & Hp2 & Hall2).
      exists (a1 ++ a2). rewrite app_assoc. split; [done|].
      rewrite (Hall1 eq_refl). split; [by apply prefix_app | intros Hr; by rewrite Hall2].
    + exists a1. split; [done|]. split; [by apply prefix_app_r | done].
  - exists []. rewrite app_nil_r. simpl. split; [done|]. split; [apply prefix_nil | done].
Qed.

(** X2. The function [AcquireScripts] hands to [Walk] takes a file as
    a script exactly when its name ends in [.ads]: the content of such
    a file is appended to the scripts, and when it cannot be read the
    function returns the error; any other file and every directory,
    whatever its name, leaves the scripts as they are, without an
    error. *)
Theorem script_files_end_in_ads (name : string) (data : option string)
    (entries : option (list config.Node)) (scripts : list string) :
  ((∃ base, name = base +:+ ".ads") →
     config.walkFn (config.File name data) false scripts
     = match data with
       | Some d => (scripts ++ [d], false)
       | None => (scripts, true)
       end)
  ∧ ((¬ ∃ base, name = base +:+ ".ads") →
     config.walkFn (config.File name data) false scripts = (scripts, false))
  ∧ config.walkFn (config.Directory name entries) false scripts = (scripts, false).
Proof.
  split; [|split; [|reflexivity]].
  - intros Hads. apply ext_is_ads in Hads. unfold config.walkFn.
    by rewrite bool_decide_eq_true_2.
  - intros Hother. unfold config.walkFn.
    rewrite bool_decide_eq_false_2; [reflexivity|]. by rewrite ext_is_ads.
Qed.

Lemma script_files_end_in_ads_witness :
  config.walkFn (config.File "brute.ads" (Some "script")) false ["default"]
  = (["default"] ++ ["script"], false)
  ∧ config.walkFn (config.File "brute.ads.bak" (Some "script")) false ["default"]
    = (["default"], false).
Proof.
  destruct (script_files_end_in_ads "brute.ads" (Some "script") None ["default"])
    as (Hads & _ & _).
  destruct (script_files_end_in_ads "brute.ads.bak" (Some "script") None ["default"])
    as (_ & Hother & _).
  split.
  - apply Hads. by exists "brute".
  - apply Hother. intros [base Hbase].
    apply (f_equal (λ s, rev (String.list_ascii_of_string s))) in Hbase.
    rewrite list_ascii_of_string_app, rev_app_distr in Hbase. discriminate Hbase.
Defined.

(** The entries before the first one that fails add all their
    scripts; the walk of the directory ends with that of the entry that
    fails. *)
Lemma walk_each_until (pre : list config.Node) (bad : config.Node) (post : list config.Node)
    (scripts : list string) :
  Forall (λ e, config.healthy e = true) pre → config.healthy bad = false →
  config.walk_each (pre ++ bad :: post) scripts
  = (fst (config.walk bad (scripts ++ flat_map config.ads_files pre)), true).
Proof.
  intros Hpre Hbad. revert scripts.
  induction Hpre as [|child pre Hchild _ IH]; intros scripts;
    cbn [app config.walk_each flat_map].
  - rewrite app_nil_r.
    destruct (walk_adds bad scripts) as (added & -> & _). by rewrite Hbad.
  - destruct (walk_adds child scripts) as (added & -> & _ & Hall).
    rewrite Hchild, (Hall Hchild). cbn [negb]. by rewrite IH, app_assoc.
Qed.

(** X3. A walk only ever appends to the scripts it is given, and what
    it appends is an initial part of the contents of the readable
    [.ads] files below the path, in the order of the walk: all of them
    when nothing below the path fails, and those before the first
    failure otherwise. A path that fails itself (a path without
    [Lstat], a directory that cannot be listed, an [.ads] file that
    cannot be read) adds nothing. A directory with an entry below which
    something fails adds all the scripts of the entries before the
    first such entry, then what the walk of that entry adds, and
    nothing of the entries after it. The error of the walk is dropped
    by [AcquireScripts]. *)
Theorem walk_appends_scripts_until_failure (tree : string → config.Node) (root : string)
    (scripts : list string) :
  (∃ added,
     config.Walk tree root scripts = scripts ++ added
     ∧ added `prefix_of` config.ads_files (tree root)
     ∧ snd (config.walk (tree root) scripts) = negb (config.healthy (tree root))
     ∧ (config.healthy (tree root) = true → added = config.ads_files (tree root)))
  ∧ (tree root = config.Missing
     ∨ (∃ name, tree root = config.Directory name None)
     ∨ (∃ name, tree root = config.File name None) →
     config.Walk tree root scripts = scripts)
  ∧ (∀ name pre bad post,
       tree root = config.Directory name (Some (pre ++ bad :: post)) →
       Forall (λ e, config.healthy e = true) pre → config.healthy bad = false →
       config.Walk tree root scripts
       = fst (config.walk bad (scripts ++ flat_map config.ads_files pre))).
Proof.
  split; [|split].
  - destruct (walk_adds (tree root) scripts) as (added & Hwalk & Hpre & Hall).
    exists added. unfold config.Walk. rewrite Hwalk. done.
  - unfold config.Walk. intros [->|[[name ->]|[name ->]]]; [reflexivity | reflexivity|].
    cbn [config.walk config.walkFn]. by destruct (negb _).
  - unfold config.Walk. intros name pre bad post -> Hpre Hbad.
    by rewrite walk_directory, walk_each_until.
Qed.

(** Of the two scripts of the example, the walk takes the one before
    the directory that cannot be listed; of a tree without a failure it
    takes every script. *)
Lemma walk_appends_scripts_until_failure_witness :
  config.Walk (λ _, config.sample) "scripts" ["default"] = ["default"; "first"]
  ∧ ∃ added,
      config.Walk (λ _, config.plain) "more" ["default"] = ["default"] ++ added
      ∧ added = config.ads_files config.plain.
Proof.
  destruct (walk_appends_scripts_until_failure (λ _, config.sample) "scripts" ["default"])
    as (_ & _ & Huntil).
  destruct (walk_appends_scripts_until_failure (λ _, config.plain) "more" ["default"])
    as ((added & Hwalk & _ & _ & Hall) & _ & _).
  split.
  - rewrite (Huntil "scripts"
               [config.File "a.ads" (Some "first"); config.File "notes.txt" (Some "text")]
               (config.Directory "private" None) [config.File "z.ads" (Some "last")]);
      [reflexivity | reflexivity | | reflexivity].
    repeat constructor.
  - exists added. split; [exact Hwalk|]. apply Hall. reflexivity.
Defined.

(** X4. How [AcquireScripts] ends. It panics exactly when the default
    scripts were obtained, the output directory has a name and
    [os.Stat] fails for it with an error other than that it does not
    exist: [finfo] is nil then and [finfo.IsDir()] is called. When it
    returns, the scripts start with what [GetDefaultScripts] returned;
    it returns an error exactly when [GetDefaultScripts] did or when
    the named output directory does not exist or is not a directory,
    and then the scripts are those of [GetDefaultScripts] alone. No
    failure below the script directories is reported. *)
Theorem acquire_scripts_outcome (GetDefaultScripts : list string * option string)
    (OutputDirectory : string → string) (Join : string → string → string)
    (stat : string → config.Stat) (tree : string → config.Node) (c : config.Config) :
  let run := config.AcquireScripts GetDefaultScripts OutputDirectory Join stat tree c in
  let dir := OutputDirectory (config.Dir c) in
  (run = config.NilDereference
   ↔ GetDefaultScripts.2 = None ∧ dir ≠ EmptyString ∧ stat dir = config.Failed)
  ∧ ∀ scripts err,
      run = config.Returns scripts err →
      GetDefaultScripts.1 `prefix_of` scripts
      ∧ (is_Some err
         ↔ is_Some GetDefaultScripts.2
           ∨ (dir ≠ EmptyString ∧ (stat dir = config.NotExist ∨ stat dir = config.IsDir false)))
      ∧ (is_Some err → scripts = GetDefaultScripts.1).
Proof.
  intros run dir. subst run dir. unfold config.AcquireScripts.
  destruct GetDefaultScripts as [defaults [e|]]; cbn [fst snd].
  { split; [split; [discriminate | intros [[=] _]]|].
    intros scripts err [= <- <-]. split; [reflexivity|]. split; [|done].
    split; [intros _; left; by eexists | intros _; by eexists]. }
  case_bool_decide as Hdir.
  { split; [split; [discriminate | intros (_ & Hne & _); by destruct Hne]|].
    intros scripts err [= <- <-]. split; [reflexivity|]. split; [|by intros [? [=]]].
    split; [by intros [? [=]] | intros [[? [=]]|[Hne _]]; by destruct Hne]. }
  destruct (stat (OutputDirectory (config.Dir c))) as [[|]| |] eqn:Hstat.
  - split; [split; [discriminate | by intros (_ & _ & [=])]|].
    intros scripts err [= <- <-]. split.
    + assert (Hgrow : ∀ paths s, defaults `prefix_of` s →
                defaults `prefix_of` foldl (λ scripts path, config.Walk tree path scripts) s paths).
      { induction paths as [|p paths IH]; intros s Hs; [exact Hs|].
        cbn [foldl]. apply IH.
        unfold config.Walk. destruct (walk_adds (tree p) s) as (added & -> & _).
        by apply prefix_app_r. }
      apply Hgrow. unfold config.Walk.
      destruct (walk_adds (tree (Join (OutputDirectory (config.Dir c)) "scripts")) defaults)
        as (added & -> & _).
      apply prefix_app_r. reflexivity.
    + split; [|by intros [? [=]]].
      split; [by intros [? [=]] | intros [[? [=]]|[_ [[=]|[=]]]]].
  - split; [split; [discriminate | by intros (_ & _ & [=])]|].
    intros scripts err [= <- <-]. split; [reflexivity|]. split; [|done].
    split; [intros _; right; auto | intros _; by eexists].
  - split; [split; [discriminate | by intros (_ & _ & [=])]|].
    intros scripts err [= <- <-]. split; [reflexivity|]. split; [|done].
    split; [intros _; right; auto | intros _; by eexists].
  - split; [done|]. intros scripts err [=].
Qed.

Lemma acquire_scripts_outcome_witness :
  [] `prefix_of` ["default"]
  ∧ (is_Some (Some "the output directory does not exist or is not a directory")
     ↔ is_Some (@None string)
       ∨ ("out" ≠ EmptyString
          ∧ (config.IsDir false = config.NotExist ∨ config.IsDir false = config.IsDir false))).
Proof.
  destruct (acquire_scripts_outcome (["default"], None) (λ d, d) (λ d f, d +:+ "/" +:+ f)
              (λ _, config.IsDir false) (λ _, config.Missing)
              {| config.Dir := "out"; config.ScriptsDirectory := EmptyString |})
    as [_ Hret].
  destruct (Hret ["default"]
              (Some "the output directory does not exist or is not a directory") eq_refl)
    as (_ & Herr & _).
  split; [apply prefix_nil | exact Herr].
Defined.

(** X5. With the default scripts at hand and an output directory that
    exists, [AcquireScripts] returns, without an error, the default
    scripts, then what the walk of the directory [scripts] below the
    output directory appends, then what the walk of the configured
    scripts directory appends, when one is configured. The two walks do
    not depend on each other: a failure below the first path cuts only
    its own scripts short. When nothing fails below either path the
    result is the defaults followed by every [.ads] file of the first
    and of the second path, so a file that both paths reach is returned
    twice. *)
Theorem acquire_scripts_walks_both (defaults : list string)
    (OutputDirectory : string → string) (Join : string → string → string)
    (stat : string → config.Stat) (tree : string → config.Node) (c : config.Config) :
  let dir := OutputDirectory (config.Dir c) in
  let own := tree (Join dir "scripts") in
  let configured :=
    if bool_decide (config.ScriptsDirectory c = EmptyString)
    then config.Directory EmptyString (Some [])
    else tree (config.ScriptsDirectory c) in
  dir ≠ EmptyString →
  stat dir = config.IsDir true →
  ∃ first second,
    config.AcquireScripts (defaults, None) OutputDirectory Join stat tree c
    = config.Returns (defaults ++ first ++ second) None
    ∧ first `prefix_of` config.ads_files own
    ∧ second `prefix_of` config.ads_files configured
    ∧ (config.healthy own = true → first = config.ads_files own)
    ∧ (config.healthy configured = true → second = config.ads_files configured).
Proof.
  intros dir own configured Hdir Hstat. subst dir own configured.
  unfold config.AcquireScripts.
  rewrite bool_decide_eq_false_2, Hstat by done.
  destruct (walk_adds (tree (Join (OutputDirectory (config.Dir c)) "scripts")) defaults)
    as (first & Hwalk1 & Hpre1 & Hall1).
  case_bool_decide as Hconf; cbn [negb app foldl]; unfold config.Walk; rewrite Hwalk1;
    cbn [fst].
  - exists first, []. rewrite app_nil_r. done.
  - destruct (walk_adds (tree (config.ScriptsDirectory c)) (defaults ++ first))
      as (second & Hwalk2 & Hpre2 & Hall2).
    exists first, second. rewrite Hwalk2. cbn [fst]. by rewrite app_assoc.
Qed.

(** The tree [sample] has a directory that cannot be listed before its
    last script, which is lost; the scripts of the configured directory
    follow all the same. *)
Lemma acquire_scripts_walks_both_witness :
  ∃ first second,
    config.AcquireScripts (["default"], None) (λ d, d) (λ d f, d +:+ "/" +:+ f)
      (λ _, config.IsDir true)
      (λ p, if bool_decide (p = "out/scripts") then config.sample else config.plain)
      {| config.Dir := "out"; config.ScriptsDirectory := "more" |}
    = config.Returns (["default"] ++ first ++ second) None
    ∧ first `prefix_of` ["first"; "last"]
    ∧ second = ["second"; "hidden"].
Proof.
  destruct (acquire_scripts_walks_both ["default"] (λ d, d) (λ d f, d +:+ "/" +:+ f)
              (λ _, config.IsDir true)
              (λ p, if bool_decide (p = "out/scripts") then config.sample else config.plain)
              {| config.Dir := "out"; config.ScriptsDirectory := "more" |})
    as (first & second & Hrun & Hpre1 & _ & _ & Hall2); [done | reflexivity |].
  exists first, second. split; [exact Hrun|]. split; [exact Hpre1|].
  apply Hall2. reflexivity.
Defined.

Example acquire_scripts_loses_later_scripts :
  config.AcquireScripts (["default"], None) (λ d, d) (λ d f, d +:+ "/" +:+ f)
    (λ _, config.IsDir true)
    (λ p, if bool_decide (p = "out/scripts") then config.sample else config.plain)
    {| config.Dir := "out"; config.ScriptsDirectory := "more" |}
  = config.Returns ["default"; "first"; "second"; "hidden"] None.
Proof. reflexivity. Qed.

(** ** Umbrella: the requests carry the key, and only to the provider *)

Lemma prefix_app_true (p s t : string) :
  String.prefix p s = true → String.prefix p (s +:+ t) = true.
Proof.
  revert s. induction p as [|c p IH]; intros s Hp; [by destruct (s +:+ t)|].
  destruct s as [|d s]; [discriminate Hp|].
  change (String.prefix (String c p) (String d (s +:+ t)) = true).
  simpl in Hp |- *. destruct (Ascii.ascii_dec c d); [by apply IH | discriminate Hp].
Qed.

Section sent_facts.
Variable P : Call → Prop.
Variable w0 : World.

Lemma sent_grew_refl : sent_grew P w0 w0.
Proof. exists []. split; [by rewrite app_nil_r | constructor]. Qed.

Lemma sent_grew_charged w : sent_grew P w0 w → sent_grew P w0 (charged w).
Proof. intros Hw. exact Hw. Qed.

Lemma sent_grew_checks n w :
  sent_grew P w0 w →
  sent_grew P w0 {| sent := sent w; checks := n; cache := cache w;
                    output := output w; stamps := stamps w |}.
Proof. intros Hw. exact Hw. Qed.

Lemma sent_grew_cached r w : sent_grew P w0 w → sent_grew P w0 (cached r w).
Proof. intros Hw. exact Hw. Qed.

Lemma sent_grew_emitted ev w : sent_grew P w0 w → sent_grew P w0 (emitted ev w).
Proof. intros Hw. exact Hw. Qed.

Lemma sent_grew_called c w : P c → sent_grew P w0 w → sent_grew P w0 (called c w).
Proof.
  intros Hc (new & Hs & Hnew). exists (new ++ [c]). split.
  - simpl. rewrite Hs. by rewrite app_assoc.
  - apply Forall_app. split; [exact Hnew | by constructor].
Qed.
End sent_facts.

#[local] Hint Resolve sent_grew_refl sent_grew_charged sent_grew_checks sent_grew_cached
  sent_grew_emitted sent_grew_called : grew.

Section umbrella_authorised.
Context `{Library}.
Variable serve : nat → Call → option Umbrella.Page.
Variable IsDomainInScope : string → bool.
Variable creds : option Credentials.
Variable w0 : World.
Hypothesis has_key : no_key creds = false.

#[local] Abbreviation A := (sent_grew (authorised creds) w0).

Lemma authorised_get (u : string) :
  String.prefix umbrellaHost u = true → authorised creds (GET u (Umbrella.restHeaders creds)).
Proof.
  intros Hu. unfold authorised, Umbrella.restHeaders. rewrite has_key.
  destruct creds as [[key]|]; [|discriminate has_key].
  exists key. simpl in has_key. apply bool_decide_eq_false in has_key. done.
Qed.

Lemma authorised_resolution fuel :
  (∀ req w, A w → wp (Umbrella.executeASNAddrQuery serve creds fuel req) (λ _, A) A w)
  ∧ (∀ req w, A w → wp (Umbrella.executeASNQuery serve creds fuel req) (λ _, A) A w).
Proof.
  induction fuel as [|fuel [IHa IHn]].
  { split; intros; simpl; wp_step; assumption. }
  assert (Ha : ∀ addr, authorised creds (GET (Umbrella.restAddrToASNURL addr)
                                           (Umbrella.restHeaders creds)))
    by (intros; by apply authorised_get).
  assert (Hn : ∀ asn, authorised creds (GET (Umbrella.restASNToCIDRsURL asn)
                                          (Umbrella.restHeaders creds)))
    by (intros; by apply authorised_get).
  split.
  - intros req w Hw. rewrite executeASNAddrQuery_S.
    wp_step. unfold Umbrella.fetch. wp_step.
    destruct (serve _ _ ≫= Umbrella.unmarshal_as) as [[|as0 rest]|];
      try (wp_step; auto with grew).
    destruct (parseDate _) as [created|]; [|wp_step; auto with grew].
    cbv zeta. wp_step.
    destruct (Nat.eqb _ _).
    + wp_step. wp_step.
      eapply wp_mono; [apply IHn; auto with grew | | auto].
      intros r w' Hw'. simpl. wp_step. wp_step. wp_step. auto with grew.
    + wp_step. wp_step. wp_step. wp_step. auto with grew.
  - intros req w Hw. rewrite executeASNQuery_S.
    wp_step. unfold Umbrella.fetch. wp_step.
    destruct (serve _ _ ≫= Umbrella.unmarshal_netblock) as [[|nb0 rest]|];
      try (wp_step; auto with grew).
    cbv zeta.
    destruct (if bool_decide _ then _ else _) as [addr|].
    + wp_step. wp_step. apply IHa. auto with grew.
    + wp_step. auto with grew.
Qed.

Lemma authorised_pages fuel apiURL count whois domains w Q :
  String.prefix umbrellaHost apiURL = true →
  (∀ r w', A w' → Q r w') →
  A w →
  wp (Umbrella.reverse_pages serve creds fuel apiURL count whois domains) Q A w.
Proof.
  intros Hurl HQ. revert count whois domains w.
  induction fuel as [|fuel IH]; intros count whois domains w Hw.
  { simpl. wp_step. exact Hw. }
  assert (Hc : authorised creds (GET (apiURL +:+ "&offset=" +:+ strconv.Itoa count)
                                   (Umbrella.restHeaders creds)))
    by (by apply authorised_get, prefix_app_true).
  rewrite reverse_pages_S. wp_step. wp_step. wp_step. unfold Umbrella.fetch. wp_step.
  destruct (serve _ _) as [page|]; [|wp_step; apply HQ; auto with grew].
  destruct (Umbrella.unmarshal_reverse _ _) as [whois'|];
    [|wp_step; apply HQ; auto with grew].
  destruct (foldl _ _ _) as [domains' more].
  destruct more; [apply IH; auto with grew | wp_step; apply HQ; auto with grew].
Qed.

Lemma authorised_whois fuel req w :
  A w → wp (Umbrella.whoisRequest serve IsDomainInScope creds fuel req) (λ _, A) A w.
Proof.
  intros Hw. unfold Umbrella.whoisRequest. rewrite has_key.
  destruct (negb _); [wp_step; exact Hw|].
  assert (Hc : authorised creds (GET (Umbrella.whoisRecordURL (Domain req))
                                   (Umbrella.restHeaders creds)))
    by (by apply authorised_get, prefix_app_true).
  wp_step. unfold Umbrella.queryWhois, Umbrella.fetch.
  wp_step. wp_step. wp_step. wp_step. wp_step.
  destruct (serve _ _ ≫= Umbrella.unmarshal_whois) as [record|];
    [|wp_step; auto with grew].
  cbv zeta.
  assert (Hlast : ∀ (ds : stringset.Set_) w2, A w2 →
    wp (if Nat.ltb 0 (stringset.Len ds)
        then send {| Domain := Domain req; NewDomains := stringset.Slice ds;
                     WhoisTag := Umbrella.SourceType; WhoisSource := Umbrella.String |}
        else mret tt) (λ _, A) A w2).
  { intros ds w2 Hw2. destruct (Nat.ltb _ _); wp_step; auto with grew. }
  assert (Hlookup : ∀ (B : Type) apiURL (k : list string → M B) (Q : B → World → Prop) w1,
    String.prefix umbrellaHost apiURL = true →
    (∀ ds w2, A w2 → wp (k ds) Q A w2) →
    A w1 →
    wp (Umbrella.queryReverseWhois serve creds fuel apiURL ≫= k) Q A w1).
  { intros B apiURL k Q w1 Hurl Hk Hw1. wp_step. unfold Umbrella.queryReverseWhois.
    apply authorised_pages; auto. }
  wp_step.
  assert (Hsecond : ∀ (domains : stringset.Set_) w1, A w1 →
    wp (domains ← (if Nat.ltb 0 (length (filter (λ ns, Umbrella.validateScope IsDomainInScope ns = true)
                                            (Umbrella.NameServers record)))
                   then ds ← Umbrella.queryReverseWhois serve creds fuel
                               (Umbrella.reverseWhoisByNSURL
                                  (filter (λ ns, Umbrella.validateScope IsDomainInScope ns = true)
                                     (Umbrella.NameServers record)));
                        mret (Umbrella.novel IsDomainInScope domains ds)
                   else mret domains);
        if Nat.ltb 0 (stringset.Len domains)
        then send {| Domain := Domain req; NewDomains := stringset.Slice domains;
                     WhoisTag := Umbrella.SourceType; WhoisSource := Umbrella.String |}
        else mret tt) (λ _, A) A w1).
  { intros domains w1 Hw1. wp_step.
    destruct (Nat.ltb _ _).
    - apply Hlookup; [reflexivity | | exact Hw1].
      intros ds w2 Hw2. wp_step. by apply Hlast.
    - wp_step. by apply Hlast. }
  destruct (Nat.ltb 0 (length (Umbrella.collateEmails IsDomainInScope record))).
  - apply Hlookup; [reflexivity | | auto with grew].
    intros ds w2 Hw2. wp_step. by apply Hsecond.
  - wp_step. apply Hsecond. auto with grew.
Qed.

End umbrella_authorised.

Lemma authorised_needs_key (creds : option Credentials) (c : Call) :
  authorised creds c → no_key creds = false.
Proof.
  intros (key & -> & Hkey & _). simpl. by apply bool_decide_eq_false.
Qed.

(** X6. Every request that Umbrella makes for a DNS, address, ASN or
    WHOIS request goes to a URL that starts with
    [https://investigate.api.umbrella.com/], has no body and carries
    exactly two headers, the JSON content type and [Authorization:
    Bearer] with the configured key, which is not empty. In particular
    a service without a key makes no request at all. *)
Theorem umbrella_requests_carry_key `{Library}
    (serve : nat → Call → option Umbrella.Page)
    (names : nat → Call → option UmbrellaNames.Page)
    (IsDomainInScope : string → bool) (creds : option Credentials)
    (RemoveLastDot : string → string) (fuel : nat) (w : World) :
  (∀ in_, sent_grew (authorised creds) w
            (final (Umbrella.requests serve IsDomainInScope creds fuel in_ w)))
  ∧ (∀ in_, sent_grew (authorised creds) w
              (final (UmbrellaNames.requests names IsDomainInScope creds RemoveLastDot in_ w)))
  ∧ (no_key creds = true →
     (∀ in_, sent (final (Umbrella.requests serve IsDomainInScope creds fuel in_ w)) = sent w)
     ∧ (∀ in_, sent (final (UmbrellaNames.requests names IsDomainInScope creds
                              RemoveLastDot in_ w)) = sent w)).
Proof.
  assert (Hasn : ∀ in_, sent_grew (authorised creds) w
            (final (Umbrella.requests serve IsDomainInScope creds fuel in_ w))).
  { intros in_. apply (wp_final _ (sent_grew (authorised creds) w)).
    destruct (no_key creds) eqn:Hkey.
    - destruct in_ as [req|req]; simpl; wp_step; wp_step.
      + wp_step. unfold Umbrella.asnRequest. rewrite Hkey. wp_step. wp_step. auto with grew.
      + unfold Umbrella.whoisRequest. rewrite Hkey. wp_step. auto with grew.
    - destruct in_ as [req|req]; simpl; wp_step; wp_step.
      + wp_step. unfold Umbrella.asnRequest. rewrite Hkey.
        destruct (authorised_resolution serve creds w Hkey fuel) as [Ha Hn].
        destruct (_ && _)%bool; [wp_step; wp_step; auto with grew|].
        destruct (negb _);
          (eapply wp_mono; [first [apply Ha | apply Hn]; auto with grew | | auto]);
          intros r w' Hw'; wp_step; exact Hw'.
      + apply authorised_whois; auto with grew. }
  assert (Hnames : ∀ in_, sent_grew (authorised creds) w
            (final (UmbrellaNames.requests names IsDomainInScope creds RemoveLastDot in_ w))).
  { intros in_. apply (wp_final _ (sent_grew (authorised creds) w)).
    destruct (no_key creds) eqn:Hkey.
    - destruct in_ as [req|req]; simpl; wp_step; wp_step.
      + unfold UmbrellaNames.dnsRequest. rewrite Hkey. wp_step. auto with grew.
      + unfold UmbrellaNames.addrRequest. rewrite Hkey. wp_step. auto with grew.
    - destruct in_ as [req|req]; simpl; wp_step; wp_step.
      + unfold UmbrellaNames.dnsRequest. rewrite Hkey.
        destruct (negb _); [wp_step; auto with grew|].
        wp_step. wp_step.
        assert (authorised creds (GET (UmbrellaNames.restDNSURL (UmbrellaNames.dns_Domain req))
                                    (Umbrella.restHeaders creds)))
          by (by apply authorised_get).
        destruct (_ ≫= _); wp_step; auto with grew.
      + unfold UmbrellaNames.addrRequest. rewrite Hkey.
        case_bool_decide; [wp_step; auto with grew|].
        wp_step. wp_step.
        assert (authorised creds (GET (UmbrellaNames.restAddrURL (UmbrellaNames.addr_Address req))
                                    (Umbrella.restHeaders creds)))
          by (by apply authorised_get).
        destruct (_ ≫= _); wp_step; auto with grew. }
  split; [exact Hasn|]. split; [exact Hnames|].
  intros Hkey.
  assert (Hnone : ∀ w', sent_grew (authorised creds) w w' → sent w' = sent w).
  { intros w' ([|c new] & Hs & Hnew); [by rewrite Hs, app_nil_r|].
    apply Forall_cons in Hnew as [Hc _]. apply authorised_needs_key in Hc. congruence. }
  split; intros in_; apply Hnone; auto.
Qed.

Lemma umbrella_requests_carry_key_witness :
  sent_grew (authorised Scenario.key) World_zero
    (final (Umbrella.requests (H := Example.library) (Scenario.umbrella 3) (λ _, true)
              Scenario.key 3 (Umbrella.ASNReq (Scenario.for_address "8.8.8.8")) World_zero))
  ∧ length (sent (final (Umbrella.requests (H := Example.library) (Scenario.umbrella 3)
                           (λ _, true) Scenario.key 3
                           (Umbrella.ASNReq (Scenario.for_address "8.8.8.8")) World_zero)))
    = 2%nat.
Proof.
  destruct (umbrella_requests_carry_key (H := Example.library) (Scenario.umbrella 3)
              (λ _ _, None) (λ _, true) Scenario.key (λ s, s) 3 World_zero) as (Hasn & _ & _).
  split; [apply Hasn | reflexivity].
Defined.

(** ** Umbrella: DNS and address requests *)

(** X7. A DNS or an address request costs Umbrella one admission by
    the rate limiter, that of the dispatch loop, and at most one
    request, which is made after that admission. The request is made
    exactly when the service has a key and the domain is in scope, for
    a DNS request, or the address is not empty, for an address request;
    otherwise no name is handed to [genNewNameEvent]. A DNS request
    hands over the names of the answer as they are and in their order,
    none when the answer does not decode; an address request hands over
    only what [RemoveLastDot] makes of an [rr] of the answer, and never
    the empty name. What [genNewNameEvent] does with a name is outside
    the sources and no part of the statement. *)
Theorem name_requests_ask_at_most_once
    (serve : nat → Call → option UmbrellaNames.Page)
    (IsDomainInScope : string → bool) (creds : option Credentials)
    (RemoveLastDot : string → string) (in_ : UmbrellaNames.Request) (w : World) :
  let asked :=
    (negb (no_key creds)
     && match in_ with
        | UmbrellaNames.DNSReq req => IsDomainInScope (UmbrellaNames.dns_Domain req)
        | UmbrellaNames.AddrReq req =>
            negb (bool_decide (UmbrellaNames.addr_Address req = EmptyString))
        end)%bool in
  let call :=
    GET match in_ with
        | UmbrellaNames.DNSReq req => UmbrellaNames.restDNSURL (UmbrellaNames.dns_Domain req)
        | UmbrellaNames.AddrReq req => UmbrellaNames.restAddrURL (UmbrellaNames.addr_Address req)
        end (Umbrella.restHeaders creds) in
  ∃ names w',
    UmbrellaNames.requests serve IsDomainInScope creds RemoveLastDot in_ w = Ok names w'
    ∧ checks w' = S (checks w)
    ∧ sent w' = sent w ++ (if asked then [call] else [])
    ∧ stamps w' = stamps w ++ (if asked then [S (checks w)] else [])
    ∧ (asked = false → names = [])
    ∧ match in_ with
      | UmbrellaNames.DNSReq _ =>
          asked = true →
          names = default [] (serve (length (sent w)) call ≫= UmbrellaNames.unmarshal_subs)
      | UmbrellaNames.AddrReq _ =>
          EmptyString ∉ names
          ∧ ∀ name, name ∈ names →
              ∃ rr records,
                serve (length (sent w)) call ≫= UmbrellaNames.unmarshal_ip = Some records
                ∧ rr ∈ records ∧ name = RemoveLastDot rr
      end.
Proof.
  intros asked call. subst asked call.
  assert (Hquiet : ∀ (l : list string) (w1 : World),
            checks (charged w1) = S (checks w1)
            ∧ sent (charged w1) = sent w1 ++ []
            ∧ stamps (charged w1) = stamps w1 ++ []
            ∧ (false = false → [] = @nil string)).
  { intros l w1. cbn [charged checks sent stamps]. by rewrite !app_nil_r. }
  destruct in_ as [req|req]; unfold UmbrellaNames.requests;
    rewrite (run_bind _ _ w tt (charged w)) by reflexivity.
  - unfold UmbrellaNames.dnsRequest.
    destruct (no_key creds); cbn [negb andb].
    { eexists _, _. split; [reflexivity|].
      destruct (Hquiet [] w) as (? & ? & ? & ?). done. }
    destruct (IsDomainInScope _); cbn [negb].
    + erewrite run_bind by reflexivity. cbn [charged sent].
      destruct (serve _ _ ≫= UmbrellaNames.unmarshal_subs) as [matches|];
        (eexists _, _; split; [reflexivity|]; cbn [called checks sent stamps];
         split; [reflexivity|]; split; [reflexivity|]; split; [reflexivity|];
         split; [discriminate | by intros _]).
    + eexists _, _. split; [reflexivity|].
      destruct (Hquiet [] w) as (? & ? & ? & ?). done.
  - unfold UmbrellaNames.addrRequest.
    destruct (no_key creds); cbn [negb andb].
    { eexists _, _. split; [reflexivity|].
      destruct (Hquiet [] w) as (? & ? & ? & ?).
      do 4 (split; [done|]).
      split; [apply not_elem_of_nil | intros name Hn; by apply elem_of_nil in Hn]. }
    case_bool_decide as Haddr; cbn [negb].
    { eexists _, _. split; [reflexivity|].
      destruct (Hquiet [] w) as (? & ? & ? & ?).
      do 4 (split; [done|]).
      split; [apply not_elem_of_nil | intros name Hn; by apply elem_of_nil in Hn]. }
    erewrite run_bind by reflexivity. cbn [charged sent].
    destruct (serve _ _ ≫= UmbrellaNames.unmarshal_ip) as [records|].
    + eexists _, _. split; [reflexivity|]. cbn [called checks sent stamps].
      do 3 (split; [reflexivity|]). split; [discriminate|]. split.
      * intros Hin. by apply list_elem_of_filter in Hin as [Hne _].
      * intros name Hin. apply list_elem_of_filter in Hin as [_ Hin].
        apply list_elem_of_fmap in Hin as (rr & -> & Hrr). by exists rr, records.
    + eexists _, _. split; [reflexivity|]. cbn [called checks sent stamps].
      do 3 (split; [reflexivity|]). split; [discriminate|].
      split; [apply not_elem_of_nil | intros name Hn; by apply elem_of_nil in Hn].
Qed.

Example address_request_drops_the_root :
  UmbrellaNames.requests
    (λ _ _, Some (UmbrellaNames.Object [] ["www.example.com."; "."; "example.org"]))
    (λ _, true) Scenario.key
    (λ name, match rev (String.list_ascii_of_string name) with
             | "."%char :: front => String.string_of_list_ascii (rev front)
             | _ => name
             end)
    (UmbrellaNames.AddrReq {| UmbrellaNames.addr_Address := "192.0.2.1" |}) World_zero
  = Ok ["www.example.com"; "example.org"]
       {| sent := [GET "https://investigate.api.umbrella.com/pdns/ip/192.0.2.1?recordType=A,AAAA"
                     (Umbrella.restHeaders Scenario.key)];
          checks := 1; cache := []; output := []; stamps := [1%nat] |}.
Proof. reflexivity. Qed.

(** ** Umbrella: the contact addresses of a WHOIS record *)

(** X8. [collateEmails] returns, without duplicates, exactly the
    contact addresses of the record (administrative, billing,
    registrant, technical, zone) that are not empty and in scope, each
    as the string set stores it. *)
Theorem collated_emails_are_contacts_in_scope `{Library}
    (IsDomainInScope : string → bool) (record : Umbrella.whoisRecord) :
  NoDup (Umbrella.collateEmails IsDomainInScope record)
  ∧ ∀ x, x ∈ Umbrella.collateEmails IsDomainInScope record
         ↔ ∃ e, e ∈ contacts record ∧ e ≠ EmptyString ∧ IsDomainInScope e = true
                ∧ x = set_key e.
Proof.
  split; [apply Slice_NoDup|].
  intros x. unfold Umbrella.collateEmails. rewrite Slice_elem.
  assert (Hadd : ∀ e (s : stringset.Set_),
            x ∈ (if Umbrella.validateScope IsDomainInScope e
                 then stringset.InsertMany [e] s else s)
            ↔ (e ≠ EmptyString ∧ IsDomainInScope e = true ∧ x = set_key e) ∨ x ∈ s).
  { intros e s. unfold Umbrella.validateScope.
    case_bool_decide as He; cbn [negb andb].
    - split; [by right | intros [(Hne & _)|Hx]; [by destruct Hne | exact Hx]].
    - destruct (IsDomainInScope e) eqn:Hs.
      + rewrite InsertMany_elem. split.
        * intros [(e' & He' & ->)|Hx]; [|by right].
          apply list_elem_of_singleton in He' as ->. by left.
        * intros [(_ & _ & ->)|Hx]; [|by right].
          left. exists e. split; [apply list_elem_of_here | done].
      + split; [by right | intros [(_ & [=] & _)|Hx]; exact Hx]. }
  rewrite !Hadd. unfold contacts, stringset.New.
  split.
  - intros [Hx|[Hx|[Hx|[Hx|[Hx|Hx]]]]]; try (by apply not_elem_of_empty in Hx);
      destruct Hx as (Hne & Hs & ->); eexists; (split; [|done]);
      repeat first [apply list_elem_of_here | apply list_elem_of_further].
  - intros (e & He & Hne & Hs & ->).
    repeat (apply elem_of_cons in He as [->|He]; [tauto|]).
    by apply elem_of_nil in He.
Qed.

(** ** Umbrella: a WHOIS request that names no one in scope *)

Lemma Slice_empty `{Library} : stringset.Slice ∅ = [].
Proof.
  apply length_zero_iff_nil. rewrite Slice_length. unfold stringset.Len. apply size_empty.
Qed.

(** X9. For a domain in scope and a service with a key, when the
    WHOIS record cannot be fetched or decoded, or when none of its
    contact addresses and none of its name servers is in scope,
    [whoisRequest] makes the one request for the record, after one
    admission by the rate limiter, and nothing else: no reverse lookup,
    no event, no change of the cache. The request is recorded with the
    number of admissions it went out after, one more than before the
    handler ran. *)
Theorem whois_without_contacts_asks_once `{Library}
    (serve : nat → Call → option Umbrella.Page) (IsDomainInScope : string → bool)
    (creds : option Credentials) (fuel : nat) (req : WhoisRequest) (w : World) :
  let call := GET (Umbrella.whoisRecordURL (Domain req)) (Umbrella.restHeaders creds) in
  no_key creds = false →
  IsDomainInScope (Domain req) = true →
  (∀ record, serve (length (sent w)) call ≫= Umbrella.unmarshal_whois = Some record →
     ∀ e, e ∈ contacts record ++ Umbrella.NameServers record →
          Umbrella.validateScope IsDomainInScope e = false) →
  Umbrella.whoisRequest serve IsDomainInScope creds fuel req w
  = Ok tt (called call (charged w))
  ∧ checks (called call (charged w)) = S (checks w)
  ∧ stamps (called call (charged w)) = stamps w ++ [S (checks w)].
Proof.
  intros call Hkey Hscope Hnone. subst call.
  split; [|split; reflexivity].
  unfold Umbrella.whoisRequest. rewrite Hkey, Hscope. cbn [negb].
  unfold Umbrella.queryWhois, Umbrella.fetch.
  erewrite run_bind;
    [|erewrite run_bind by reflexivity; erewrite run_bind by reflexivity; reflexivity].
  cbn [charged sent].
  destruct (serve _ _ ≫= Umbrella.unmarshal_whois) as [record|] eqn:Hrecord; [|reflexivity].
  specialize (Hnone record eq_refl).
  assert (Hemails : Umbrella.collateEmails IsDomainInScope record = []).
  { unfold Umbrella.collateEmails.
    rewrite !Hnone by (apply elem_of_app; left; unfold contacts;
                       repeat first [apply list_elem_of_here | apply list_elem_of_further]).
    apply Slice_empty. }
  assert (Hns : filter (λ ns, Umbrella.validateScope IsDomainInScope ns = true)
                  (Umbrella.NameServers record) = []).
  { assert (Hall : ∀ e, e ∈ Umbrella.NameServers record →
                        Umbrella.validateScope IsDomainInScope e = false)
      by (intros e He; apply Hnone, elem_of_app; by right).
    clear -Hall. induction (Umbrella.NameServers record) as [|ns l IH]; [reflexivity|].
    rewrite filter_cons_False; [apply IH; intros e He; apply Hall; by right|].
    rewrite (Hall ns) by (by left). discriminate. }
  cbv zeta. rewrite Hemails, Hns. reflexivity.
Qed.

Lemma whois_without_contacts_asks_once_witness :
  Umbrella.whoisRequest (H := Example.library)
    (λ _ _, Some (Umbrella.WhoisPage
                    {| Umbrella.NameServers := ["ns1.registrar.net"];
                       Umbrella.AdminContactEmail := "hostmaster@registrar.net";
                       Umbrella.BillingContactEmail := EmptyString;
                       Umbrella.RegistrantEmail := EmptyString;
                       Umbrella.TechContactEmail := EmptyString;
                       Umbrella.ZoneContactEmail := EmptyString |}))
    (λ d, bool_decide (d = "example.com")) Scenario.key 3
    (Scenario.whois_for "example.com") World_zero
  = Ok tt (called (GET (Umbrella.whoisRecordURL "example.com")
                     (Umbrella.restHeaders Scenario.key)) (charged World_zero)).
Proof.
  apply (whois_without_contacts_asks_once (H := Example.library)); [reflexivity..|].
  intros record [= <-] e He.
  unfold contacts in He. simpl in He.
  repeat (apply elem_of_cons in He as [->|He]; [reflexivity|]).
  by apply elem_of_nil in He.
Defined.

(** ** Umbrella: what the cache receives is the request as it ends *)

Section umbrella_final_fact.
Context `{Library}.
Variable serve : nat → Call → option Umbrella.Page.
Variable creds : option Credentials.

Lemma collect_from_umbrella req nb :
  from_umbrella req → from_umbrella (Umbrella.collect req nb).
Proof. unfold Umbrella.collect. by case_bool_decide. Qed.

Lemma foldl_collect_from_umbrella l req :
  from_umbrella req → from_umbrella (foldl Umbrella.collect req l).
Proof.
  revert req. induction l as [|nb l IH]; intros req Hreq; [exact Hreq|].
  apply IH, collect_from_umbrella, Hreq.
Qed.

Lemma finish_from_umbrella l req : from_umbrella req → from_umbrella (Umbrella.finish l req).
Proof.
  intros Hreq. induction l as [|nb l IH]; simpl; [exact Hreq|]. by case_bool_decide.
Qed.

Lemma final_fact_invariant fuel :
  (∀ req w,
     wp (Umbrella.executeASNAddrQuery serve creds fuel req)
        (λ r w', cached_final (if Netblocks req is [] then 2 else 1) w r w'
                 ∧ (from_umbrella req → from_umbrella r))
        (λ _, True) w)
  ∧ (∀ req w,
       wp (Umbrella.executeASNQuery serve creds fuel req)
          (λ r w', cached_final 1 w r w' ∧ (from_umbrella req → from_umbrella r))
          (λ _, True) w).
Proof.
  assert (Hnone : ∀ n w r c, cached_final n w r (called c w)).
  { intros n w r c. exists []. simpl. rewrite app_nil_r. split; [done|]. split; [lia | constructor]. }
  induction fuel as [|fuel [IHa IHn]].
  { split; intros; simpl; wp_step; exact I. }
  split.
  - intros req w. rewrite executeASNAddrQuery_S.
    wp_step. unfold Umbrella.fetch. wp_step.
    destruct (serve _ _ ≫= Umbrella.unmarshal_as) as [[|as0 rest]|];
      try (wp_step; split; [apply Hnone | auto]).
    destruct (parseDate _) as [created|]; [|wp_step; split; [apply Hnone | auto]].
    cbv zeta. wp_step. cbn [Netblocks].
    destruct (Netblocks req) as [|nb nbs] eqn:Hnb; cbn [length Nat.eqb].
    + wp_step. wp_step.
      eapply wp_mono; [apply IHn | | auto].
      intros r w' [(new & Hc & Hlen & Hnew) Hr]. cbv beta.
      wp_step. wp_step. wp_step.
      assert (Hfrom : from_umbrella r) by (apply Hr; repeat split; by eexists).
      split; [|by intros _].
      exists (new ++ [r]). split; [simpl in *; by rewrite Hc, app_assoc|].
      split; [rewrite length_app; simpl; lia|].
      apply Forall_app. split; [exact Hnew | by constructor].
    + wp_step. wp_step. wp_step. wp_step.
      split; [|intros _; repeat split; by eexists].
      eexists [_]. split; [reflexivity|]. split; [simpl; lia|].
      constructor; [|constructor]. repeat split; by eexists.
  - intros req w. rewrite executeASNQuery_S.
    wp_step. unfold Umbrella.fetch. wp_step.
    destruct (serve _ _ ≫= Umbrella.unmarshal_netblock) as [[|nb0 rest]|];
      try (wp_step; split; [apply Hnone | auto]).
    cbv zeta.
    set (req1 := foldl Umbrella.collect req (nb0 :: rest)).
    assert (Hnb : Netblocks req1 ≠ []).
    { unfold req1. rewrite foldl_collect_Netblocks. simpl.
      intros Hnil. apply app_eq_nil in Hnil as [_ [=]]. }
    assert (Hfrom : from_umbrella req → from_umbrella req1)
      by apply foldl_collect_from_umbrella.
    destruct (if bool_decide _ then _ else _) as [addr|].
    + wp_step. wp_step.
      eapply wp_mono; [apply IHa | | auto].
      intros r w' [Hc Hr]. cbn [Netblocks set_CC set_Address] in Hc.
      destruct (Netblocks req1) as [|nb nbs]; [done|].
      split; [exact Hc|]. intros Hreq. apply Hr.
      destruct (Hfrom Hreq) as (Ht & Hs & Hd). done.
    + wp_step. split; [apply Hnone|]. intros Hreq. by apply finish_from_umbrella, Hfrom.
Qed.

End umbrella_final_fact.

(** X10. A resolution by Umbrella that returns has handed at most two
    facts to the cache, and each of them is the request exactly as the
    handler leaves it: no field of the request is written after the
    cache has seen it. Each such fact names Umbrella as its source and
    has an allocation date. *)
Theorem umbrella_caches_the_request_it_returns `{Library}
    (serve : nat → Call → option Umbrella.Page) (creds : option Credentials)
    (fuel : nat) (req req' : ASNRequest) (w w' : World) :
  Umbrella.asnRequest serve creds fuel req w = Ok req' w' →
  ∃ new, cache w' = cache w ++ new ∧ (length new ≤ 2)%nat
         ∧ Forall (λ f, f = req' ∧ from_umbrella f) new.
Proof.
  intros Hrun.
  assert (Hwp : wp (Umbrella.asnRequest serve creds fuel req)
                  (λ r w', cached_final 2 w r w') (λ _, True) w).
  { unfold Umbrella.asnRequest.
    assert (Hnone : cached_final 2 w req w).
    { exists []. rewrite app_nil_r. split; [done|]. split; [simpl; lia | constructor]. }
    destruct (no_key creds); [wp_step; exact Hnone|].
    destruct (_ && _)%bool; [wp_step; exact Hnone|].
    destruct (final_fact_invariant serve creds fuel) as [Ha Hn].
    destruct (negb _).
    - eapply wp_mono; [apply Ha | | auto].
      intros r w1 [(new & Hc & Hlen & Hnew) _]. exists new. split; [exact Hc|].
      split; [destruct (Netblocks req); lia | exact Hnew].
    - eapply wp_mono; [apply Hn | | auto].
      intros r w1 [(new & Hc & Hlen & Hnew) _]. exists new. split; [exact Hc|].
      split; [lia | exact Hnew]. }
  unfold wp in Hwp. rewrite Hrun in Hwp. exact Hwp.
Qed.

Lemma umbrella_caches_the_request_it_returns_witness :
  ∃ new, cache (final (Umbrella.asnRequest (H := Example.library) (Scenario.umbrella 3)
                         Scenario.key 3 (Scenario.for_address "8.8.8.8") World_zero))
         = cache World_zero ++ new
         ∧ (length new ≤ 2)%nat
         ∧ Forall (λ f, f = {| Address := "8.8.8.8"; ASN := 15169; Prefix := "8.8.8.0/24";
                               CC := "US"; Registry := "ARIN";
                               AllocationDate := parseDate (Library := Example.library) "2000-03-30";
                               Description := "GOOGLE";
                               Netblocks := ["8.8.8.0/24"; "8.8.8.0/24"; "8.8.4.0/24"];
                               Tag := Umbrella.SourceType; Source := Umbrella.String |}
                        ∧ from_umbrella f) new.
Proof.
  apply (umbrella_caches_the_request_it_returns (H := Example.library) (Scenario.umbrella 3)
           Scenario.key 3 (Scenario.for_address "8.8.8.8")).
  vm_compute. reflexivity.
Defined.

(** ** NetworksDB: the shape of the requests *)

Section networksdb_calls.
Context `{Library}.
Variable web : nat → Call → option string.
Variable api : nat → Call → option NetworksDB.ApiPage.
Variable IsDomainInScope : string → bool.
Variable creds : option Credentials.
Variable AnySubdomain : string → list string.
Variable FirstLast : net.IPNet → net.IP * net.IP.
Variable w0 : World.

Lemma scrape_get (u : string) : scrape_call (GET (NetworksDB.networksdbBaseURL +:+ u) []).
Proof. repeat split. by apply prefix_app_true. Qed.

Section scrape.
#[local] Abbreviation S := (sent_grew scrape_call w0).

Lemma scrape_asn_query_calls asn addr netblocks w :
  S w → wp (NetworksDB.executeASNQuery web creds asn addr netblocks) (λ _, S) S w.
Proof.
  intros Hw. pose proof scrape_get as Hget.
  unfold NetworksDB.executeASNQuery, NetworksDB.page_of, NetworksDB.second,
    NetworksDB.getASNURL.
  wp_run; auto 6 with grew.
Qed.

Lemma scrape_addr_query_calls addr w :
  S w → wp (NetworksDB.executeASNAddrQuery web creds addr) (λ _, S) S w.
Proof.
  intros Hw. pose proof scrape_get as Hget.
  unfold NetworksDB.executeASNAddrQuery, NetworksDB.page_of, NetworksDB.second,
    NetworksDB.getIPURL.
  wp_run; auto 6 with grew.
  apply scrape_asn_query_calls. auto 6 with grew.
Qed.

Lemma harvest_calls matches newdomains w Q :
  (∀ s w', S w' → Q s w') →
  S w → wp (NetworksDB.harvest web AnySubdomain FirstLast matches newdomains) Q S w.
Proof.
  intros HQ. pose proof scrape_get as Hget. revert newdomains w.
  induction matches as [|m rest IH]; intros newdomains w Hw; cbn [NetworksDB.harvest].
  - wp_step. by apply HQ.
  - unfold NetworksDB.page_of, NetworksDB.second, NetworksDB.domains_region,
      NetworksDB.getDomainsInNetworkURL.
    wp_run; try (apply IH); auto 8 with grew.
Qed.

Lemma whois_calls req w :
  S w →
  wp (NetworksDB.whoisRequest web IsDomainInScope creds AnySubdomain FirstLast req)
     (λ _, S) S w.
Proof.
  intros Hw. pose proof scrape_get as Hget.
  unfold NetworksDB.whoisRequest, NetworksDB.page_of, NetworksDB.getDomainToIPURL.
  destruct (negb _); [wp_step; auto with grew|].
  wp_step. wp_step. wp_step. wp_step.
  destruct (web _ _) as [page|]; [|wp_step; auto 6 with grew].
  destruct (regexp.FindAllStringSubmatch _ _) as [|m ms]; [wp_step; auto 6 with grew|].
  wp_step. apply harvest_calls; [|auto 6 with grew].
  intros s w' Hw'. destruct (Nat.ltb _ _); wp_step; auto with grew.
Qed.

End scrape.

Section api.
Hypothesis has_key : NetworksDB.hasAPIKey creds = true.

#[local] Abbreviation K := (sent_grew (api_call creds) w0).

Lemma api_post (u field value : string) :
  u ∈ api_urls → api_call creds (POST u [(field, value)] (NetworksDB.getHeaders creds)).
Proof.
  intros Hu. unfold api_call, NetworksDB.getHeaders. rewrite has_key. cbn [negb].
  unfold NetworksDB.hasAPIKey in has_key.
  destruct creds as [[key]|]; [|discriminate has_key].
  exists key. simpl in has_key. apply negb_true_iff, bool_decide_eq_false in has_key. done.
Qed.

Lemma api_netblocks_calls asn w Q :
  (∀ s w', K w' → Q s w') → K w → wp (NetworksDB.apiNetblocksQuery api creds asn) Q K w.
Proof.
  intros HQ Hw.
  assert (Hc : ∀ v, api_call creds (POST NetworksDB.getAPINetblocksURL [("asn", v)]
                                      (NetworksDB.getHeaders creds))).
  { intros v. apply api_post. unfold api_urls. set_solver. }
  unfold NetworksDB.apiNetblocksQuery, NetworksDB.ask.
  wp_run; apply HQ; auto 6 with grew.
Qed.

Lemma api_asn_info_calls asn w Q :
  (∀ r w', K w' → Q r w') → K w → wp (NetworksDB.apiASNInfoQuery api creds asn) Q K w.
Proof.
  intros HQ Hw.
  assert (Hc : ∀ v, api_call creds (POST NetworksDB.getAPIASNInfoURL [("asn", v)]
                                      (NetworksDB.getHeaders creds))).
  { intros v. apply api_post. unfold api_urls. set_solver. }
  unfold NetworksDB.apiASNInfoQuery, NetworksDB.ask.
  wp_run; try apply HQ; auto 6 with grew.
Qed.

Lemma api_ip_calls addr w Q :
  (∀ r w', K w' → Q r w') → K w → wp (NetworksDB.apiIPQuery api creds addr) Q K w.
Proof.
  intros HQ Hw.
  assert (Hc : ∀ v, api_call creds (POST NetworksDB.getAPIIPURL [("ip", v)]
                                      (NetworksDB.getHeaders creds))).
  { intros v. apply api_post. unfold api_urls. set_solver. }
  unfold NetworksDB.apiIPQuery, NetworksDB.ask.
  wp_run; try apply HQ; auto 6 with grew.
Qed.

Lemma api_org_calls id w Q :
  (∀ r w', K w' → Q r w') → K w → wp (NetworksDB.apiOrgInfoQuery api creds id) Q K w.
Proof.
  intros HQ Hw.
  assert (Hc : ∀ v, api_call creds (POST NetworksDB.getAPIOrgInfoURL [("id", v)]
                                      (NetworksDB.getHeaders creds))).
  { intros v. apply api_post. unfold api_urls. set_solver. }
  unfold NetworksDB.apiOrgInfoQuery, NetworksDB.ask.
  wp_run; try apply HQ; auto 6 with grew.
Qed.

Lemma api_asn_query_calls asn addr netblocks w :
  K w → wp (NetworksDB.executeAPIASNQuery api creds asn addr netblocks) (λ _, K) K w.
Proof.
  intros Hw. unfold NetworksDB.executeAPIASNQuery. cbv zeta. wp_step.
  assert (Hrest : ∀ filled w1, K w1 →
    wp (if Nat.eqb (stringset.Len filled) 0 then mret tt
        else
          prefix ← (if bool_decide (NetworksDB.prefix_for addr filled = EmptyString)
                    then match stringset.Slice filled with
                         | first :: _ => mret first
                         | [] => panic
                         end
                    else mret (NetworksDB.prefix_for addr filled));
          numRateLimitChecks 3;;
          req ← NetworksDB.apiASNInfoQuery api creds asn;
          match req with
          | None => mret tt
          | Some req =>
              Update (set_Netblocks (stringset.Slice filled)
                        (set_Prefix prefix
                           (if negb (bool_decide (addr = EmptyString))
                            then set_Address addr req else req)))
          end) (λ _, K) K w1).
  { intros filled w1 Hw1.
    destruct (Nat.eqb _ _); [wp_step; done|].
    wp_step.
    assert (Hupd : ∀ p w2, K w2 →
      wp (numRateLimitChecks 3;;
          req ← NetworksDB.apiASNInfoQuery api creds asn;
          match req with
          | None => mret tt
          | Some req =>
              Update (set_Netblocks (stringset.Slice filled)
                        (set_Prefix p
                           (if negb (bool_decide (addr = EmptyString))
                            then set_Address addr req else req)))
          end) (λ _, K) K w2).
    { intros p w2 Hw2. wp_step. wp_step. wp_step.
      apply api_asn_info_calls; [|auto with grew].
      intros [r|] w3 Hw3; wp_step; auto with grew. }
    destruct (bool_decide (NetworksDB.prefix_for addr filled = EmptyString)).
    - destruct (stringset.Slice filled) as [|first rest] eqn:Hs; cbv beta iota;
        [wp_step; done|].
      wp_step. by apply Hupd.
    - wp_step. by apply Hupd. }
  destruct (Nat.eqb _ _).
  - wp_step. apply api_netblocks_calls; [|done].
    intros s w' Hw'. wp_step. by apply Hrest.
  - wp_step. by apply Hrest.
Qed.

Lemma candidates_calls ip asns asn cidrs w Q :
  (∀ r w', K w' → Q r w') →
  K w → wp (NetworksDB.candidates api creds ip asns asn cidrs) Q K w.
Proof.
  intros HQ. revert cidrs w.
  induction asns as [|a rest IH]; intros cidrs w Hw; cbn [NetworksDB.candidates].
  - wp_step. by apply HQ.
  - wp_step. wp_step. wp_step. apply api_netblocks_calls; [|auto with grew].
    intros s w' Hw'. destruct (existsb _ _); [wp_step; by apply HQ | by apply IH].
Qed.

Lemma api_addr_query_calls addr w :
  K w → wp (NetworksDB.executeAPIASNAddrQuery api creds addr) (λ _, K) K w.
Proof.
  intros Hw. unfold NetworksDB.executeAPIASNAddrQuery.
  wp_step. apply api_ip_calls; [|done].
  intros [cidr id] w1 Hw1. destruct (bool_decide _); [wp_step; done|].
  wp_step. wp_step. wp_step. apply api_org_calls; [|auto with grew].
  intros asns w2 Hw2. destruct (Nat.eqb _ _); [wp_step; done|].
  wp_step. apply candidates_calls; [|done].
  intros [asn cidrs] w3 Hw3. destruct (asn =? 0); [wp_step; done|].
  by apply api_asn_query_calls.
Qed.

End api.

End networksdb_calls.

(** X11. The requests of NetworksDB come in two shapes. Without an API
    key every request of [asnRequest] is a GET below
    [https://networksdb.io] with no body and no headers; with a key
    every request of [asnRequest] is a POST of one form value to one of
    the four endpoints of the API ([ip/info], [org/info], [as/info],
    [as/networks]) with the key in [X-Api-Key] and the form content
    type. [whoisRequest] always scrapes: its requests have no body and
    no headers even when a key is configured. *)
Theorem networksdb_requests_by_mode `{Library}
    (web : nat → Call → option string) (api : nat → Call → option NetworksDB.ApiPage)
    (IsDomainInScope : string → bool) (creds : option Credentials)
    (AnySubdomain : string → list string) (FirstLast : net.IPNet → net.IP * net.IP)
    (w : World) :
  (∀ req,
     sent_grew (if NetworksDB.hasAPIKey creds then api_call creds else scrape_call) w
       (final (NetworksDB.asnRequest web api creds req w)))
  ∧ (∀ req,
       sent_grew scrape_call w
         (final (NetworksDB.whoisRequest web IsDomainInScope creds AnySubdomain FirstLast
                   req w))).
Proof.
  split.
  - intros req. apply (wp_final _ (sent_grew _ w)).
    unfold NetworksDB.asnRequest.
    destruct (_ && _)%bool; [wp_step; auto with grew|].
    wp_step. wp_step.
    destruct (NetworksDB.hasAPIKey creds) eqn:Hkey, (negb _).
    + apply api_addr_query_calls; auto with grew.
    + apply api_asn_query_calls; auto with grew.
    + apply scrape_addr_query_calls. auto with grew.
    + apply scrape_asn_query_calls. auto with grew.
  - intros req. apply (wp_final _ (sent_grew _ w)).
    apply whois_calls. auto with grew.
Qed.

Lemma networksdb_requests_by_mode_witness :
  sent_grew (api_call Scenario.key) World_zero
    (final (NetworksDB.asnRequest (H := Example.library) (λ _ _, None) Networks.api
              Scenario.key (Scenario.for_address "8.8.8.8") World_zero))
  ∧ sent_grew scrape_call World_zero
      (final (NetworksDB.whoisRequest (H := Example.library) (Site.web Site.listing)
                Site.in_scope Scenario.key Site.names Site.FirstLast
                (Scenario.whois_for "example.com") World_zero))
  ∧ length (sent (final (NetworksDB.whoisRequest (H := Example.library)
                           (Site.web Site.listing) Site.in_scope Scenario.key Site.names
                           Site.FirstLast (Scenario.whois_for "example.com") World_zero)))
    = 3%nat.
Proof.
  destruct (networksdb_requests_by_mode (H := Example.library) (λ _ _, None) Networks.api
              Site.in_scope Scenario.key Site.names Site.FirstLast World_zero) as [Hasn _].
  destruct (networksdb_requests_by_mode (H := Example.library) (Site.web Site.listing)
              Networks.api Site.in_scope Scenario.key Site.names Site.FirstLast World_zero)
    as [_ Hwhois].
  split; [apply (Hasn (Scenario.for_address "8.8.8.8"))|].
  split; [apply Hwhois | by vm_compute].
Defined.

(** ** NetworksDB: where the API resolution can panic *)

Lemma run_bind_panic {A B : Type} (m : M A) (k : A → M B) w w1 :
  m w = Panic w1 → (m ≫= k) w = Panic w1.
Proof. unfold mbind, M_bind, bind. by intros ->. Qed.

Section networksdb_total.
Context `{Library}.
Variable web : nat → Call → option string.
Variable api : nat → Call → option NetworksDB.ApiPage.
Variable creds : option Credentials.

Lemma api_ip_total addr w :
  wp (NetworksDB.apiIPQuery api creds addr)
     (λ _ w', w' = called (POST NetworksDB.getAPIIPURL [("ip", addr)]
                             (NetworksDB.getHeaders creds))
                     {| sent := sent w; checks := 3 + checks w; cache := cache w;
                        output := output w; stamps := stamps w |})
     (λ _, False) w.
Proof.
  unfold NetworksDB.apiIPQuery, NetworksDB.ask.
  wp_run; try reflexivity.
  match goal with
  | Hg : (_ || _)%bool = false |- _ =>
      simpl in Hg; rewrite orb_true_r in Hg; discriminate Hg
  end.
Qed.

Lemma api_asn_info_total asn w Q :
  (∀ r w', Q r w') → wp (NetworksDB.apiASNInfoQuery api creds asn) Q (λ _, False) w.
Proof.
  intros HQ. unfold NetworksDB.apiASNInfoQuery, NetworksDB.ask.
  wp_run; try apply HQ.
  match goal with
  | Hg : (_ || _)%bool = false |- _ =>
      simpl in Hg; rewrite orb_true_r in Hg; discriminate Hg
  end.
Qed.

Lemma scrape_addr_query_total addr w :
  wp (NetworksDB.executeASNAddrQuery web creds addr) (λ _ _, True) (λ _, False) w.
Proof.
  unfold NetworksDB.executeASNAddrQuery, NetworksDB.page_of.
  wp_step. wp_step.
  destruct (web _ _) as [page|]; [|by wp_step].
  destruct (regexp.FindStringSubmatch NetworksDB.networksdbASNLinkRE page) as [m|];
    [|by wp_step].
  destruct (Nat.ltb (length m) 2) eqn:Hm; [by wp_step|].
  wp_step. wp_step. wp_step. apply second_present; [exact Hm|]. intros href _.
  wp_step. wp_step.
  destruct (web _ _) as [page'|]; [|by wp_step].
  cbv zeta.
  destruct (regexp.FindStringSubmatch NetworksDB.networksdbASNRE page') as [m'|];
    [|by wp_step].
  destruct (Nat.ltb (length m') 2) eqn:Hm'; [by wp_step|].
  wp_step. apply second_present; [exact Hm'|]. intros number _.
  destruct (strconv.Atoi _) as [asn|]; [|by wp_step].
  apply scrape_asn_query_total.
Qed.

Lemma api_asn_query_total asn addr netblocks w :
  wp (NetworksDB.executeAPIASNQuery api creds asn addr netblocks) (λ _ _, True) (λ _, False) w.
Proof.
  unfold NetworksDB.executeAPIASNQuery. cbv zeta. wp_step.
  assert (Hrest : ∀ filled w1,
    wp (if Nat.eqb (stringset.Len filled) 0 then mret tt
        else
          prefix ← (if bool_decide (NetworksDB.prefix_for addr filled = EmptyString)
                    then match stringset.Slice filled with
                         | first :: _ => mret first
                         | [] => panic
                         end
                    else mret (NetworksDB.prefix_for addr filled));
          numRateLimitChecks 3;;
          req ← NetworksDB.apiASNInfoQuery api creds asn;
          match req with
          | None => mret tt
          | Some req =>
              Update (set_Netblocks (stringset.Slice filled)
                        (set_Prefix prefix
                           (if negb (bool_decide (addr = EmptyString))
                            then set_Address addr req else req)))
          end) (λ _ _, True) (λ _, False) w1).
  { intros filled w1.
    destruct (Nat.eqb _ _) eqn:Hlen; [by wp_step|].
    apply Nat.eqb_neq in Hlen. rewrite <- Slice_length in Hlen.
    wp_step.
    assert (Hupd : ∀ p w2,
      wp (numRateLimitChecks 3;;
          req ← NetworksDB.apiASNInfoQuery api creds asn;
          match req with
          | None => mret tt
          | Some req =>
              Update (set_Netblocks (stringset.Slice filled)
                        (set_Prefix p
                           (if negb (bool_decide (addr = EmptyString))
                            then set_Address addr req else req)))
          end) (λ _ _, True) (λ _, False) w2).
    { intros p w2. wp_step. wp_step. wp_step.
      apply api_asn_info_total. intros [r|] w3; by wp_step. }
    destruct (bool_decide (NetworksDB.prefix_for addr filled = EmptyString)).
    - destruct (stringset.Slice filled) as [|first rest] eqn:Hs; cbv beta iota; [done|].
      wp_step. apply Hupd.
    - wp_step. apply Hupd. }
  destruct (Nat.eqb _ _).
  - wp_step. apply api_netblocks_total. intros s w'. wp_step. apply Hrest.
  - wp_step. apply Hrest.
Qed.

(** The organisation query, in each of its cases. *)
Lemma api_org_cases id w :
  let call := POST NetworksDB.getAPIOrgInfoURL [("id", id)] (NetworksDB.getHeaders creds) in
  let w1 := called call {| sent := sent w; checks := 3 + checks w; cache := cache w;
                           output := output w; stamps := stamps w |} in
  (empty_org_answer (api (length (sent w)) call)
   ∧ NetworksDB.apiOrgInfoQuery api creds id w = Panic w1)
  ∨ (¬ empty_org_answer (api (length (sent w)) call)
     ∧ ∃ asns, NetworksDB.apiOrgInfoQuery api creds id w = Ok asns w1).
Proof.
  intros call w1. subst call w1.
  unfold empty_org_answer, NetworksDB.apiOrgInfoQuery, NetworksDB.ask.
  erewrite run_bind by reflexivity. erewrite run_bind by reflexivity.
  cbn [sent].
  set (page := api _ _).
  destruct (page ≫= NetworksDB.unmarshal_org) as [m|] eqn:Hm.
  2: { right. split; [intros (m & [=] & _) | by eexists]. }
  case_bool_decide as He; cbn [negb].
  2: { right. split; [intros (m' & [= <-] & He' & _); by destruct He | by eexists]. }
  destruct (NetworksDB.Total m =? 0) eqn:Ht.
  { right. apply Z.eqb_eq in Ht.
    split; [intros (m' & [= <-] & _ & Ht' & _); by destruct Ht' | by eexists]. }
  apply Z.eqb_neq in Ht.
  destruct (NetworksDB.Results m) as [|r0 rest] eqn:Hr.
  - left. split; [by exists m | reflexivity].
  - right. split; [intros (m' & [= <-] & _ & _ & Hr'); congruence|].
    destruct (Nat.eqb _ _); by eexists.
Qed.

End networksdb_total.

(** X12. Of the four queries of the API, three return for every
    answer of the provider: [apiIPQuery], [apiASNInfoQuery] and
    [apiNetblocksQuery] test that the results are not empty before they
    read the first. [apiOrgInfoQuery] does not: it panics, on
    [m.Results[0]], exactly when the answer decodes, reports no error
    and a total that is not zero, and has no results; for every other
    answer it returns. Either way it has made its one request after
    three admissions. *)
Theorem api_queries_and_missing_results `{Library}
    (api : nat → Call → option NetworksDB.ApiPage) (creds : option Credentials) (w : World) :
  (∀ addr, ∃ r w', NetworksDB.apiIPQuery api creds addr w = Ok r w')
  ∧ (∀ asn, ∃ r w', NetworksDB.apiASNInfoQuery api creds asn w = Ok r w')
  ∧ (∀ asn, ∃ r w', NetworksDB.apiNetblocksQuery api creds asn w = Ok r w')
  ∧ ∀ id,
      let call := POST NetworksDB.getAPIOrgInfoURL [("id", id)] (NetworksDB.getHeaders creds) in
      let w1 := called call {| sent := sent w; checks := 3 + checks w; cache := cache w;
                               output := output w; stamps := stamps w |} in
      (empty_org_answer (api (length (sent w)) call) →
       NetworksDB.apiOrgInfoQuery api creds id w = Panic w1)
      ∧ (¬ empty_org_answer (api (length (sent w)) call) →
         ∃ asns, NetworksDB.apiOrgInfoQuery api creds id w = Ok asns w1).
Proof.
  split; [|split; [|split]].
  - intros addr. destruct (wp_ok _ _ _ (api_ip_total api creds addr w)) as (r & w' & Hrun & _).
    by exists r, w'.
  - intros asn.
    destruct (wp_ok _ _ _ (api_asn_info_total api creds asn w (λ _ _, True) (λ _ _, I)))
      as (r & w' & Hrun & _).
    by exists r, w'.
  - intros asn.
    destruct (wp_ok _ _ _ (api_netblocks_total api creds asn w (λ _ _, True) (λ _ _, I)))
      as (r & w' & Hrun & _).
    by exists r, w'.
  - intros id call w1. subst call w1.
    destruct (api_org_cases api creds id w) as [[Hempty Hrun]|[Hfull Hrun]].
    + split; [by intros _ | by intros Hnot].
    + split; [by intros Hempty | by intros _].
Qed.

Lemma api_queries_and_missing_results_witness :
  NetworksDB.apiOrgInfoQuery api_without_results Scenario.key "google" World_zero
  = Panic (called (POST NetworksDB.getAPIOrgInfoURL [("id", "google")]
                     (NetworksDB.getHeaders Scenario.key))
             {| sent := []; checks := 3; cache := []; output := []; stamps := [] |}).
Proof.
  destruct (api_queries_and_missing_results (H := Example.library) api_without_results
              Scenario.key World_zero) as (_ & _ & _ & Horg).
  apply (Horg "google").
  eexists. split; [reflexivity|]. split; [reflexivity|]. split; [discriminate | reflexivity].
Defined.

(** X13. [asnRequest] of NetworksDB can only panic in one place: with
    an API key and a request that names an address, in the
    organisation query, when its answer announces results and has none.
    The panic comes after exactly two requests, the address query and
    the organisation query, and before anything is handed to the cache
    or sent. Without a key, or for a request that names only an AS
    number, [asnRequest] never panics. *)
Theorem asn_request_panics_only_in_org_query `{Library}
    (web : nat → Call → option string) (api : nat → Call → option NetworksDB.ApiPage)
    (creds : option Credentials) (req : ASNRequest) (w w' : World) :
  NetworksDB.asnRequest web api creds req w = Panic w' →
  NetworksDB.hasAPIKey creds = true ∧ Address req ≠ EmptyString
  ∧ ∃ id,
      let ip := POST NetworksDB.getAPIIPURL [("ip", Address req)]
                  (NetworksDB.getHeaders creds) in
      let org := POST NetworksDB.getAPIOrgInfoURL [("id", id)]
                   (NetworksDB.getHeaders creds) in
      sent w' = sent w ++ [ip; org]
      ∧ cache w' = cache w ∧ output w' = output w
      ∧ empty_org_answer (api (S (length (sent w))) org).
Proof.
  unfold NetworksDB.asnRequest.
  destruct (_ && _)%bool; [discriminate|].
  erewrite run_bind by reflexivity.
  set (w2 := {| sent := sent w; checks := 2 + checks w; cache := cache w;
                output := output w; stamps := stamps w |}).
  assert (Htotal : ∀ (m : M unit), wp m (λ _ _, True) (λ _, False) w2 → m w2 ≠ Panic w').
  { intros m Hm Hp. unfold wp in Hm. by rewrite Hp in Hm. }
  destruct (NetworksDB.hasAPIKey creds) eqn:Hkey.
  2: { destruct (negb _); intros Hp; exfalso; revert Hp; apply Htotal;
         [apply scrape_addr_query_total | apply scrape_asn_query_total]. }
  case_bool_decide as Haddr; cbn [negb].
  { intros Hp. exfalso. revert Hp. apply Htotal, api_asn_query_total. }
  intros Hp. split; [reflexivity|]. split; [exact Haddr|].
  revert Hp. unfold NetworksDB.executeAPIASNAddrQuery.
  destruct (wp_ok _ _ _ (api_ip_total api creds (Address req) w2))
    as ([cidr id] & w3 & Hip & ->).
  rewrite (run_bind _ _ _ _ _ Hip). cbv beta iota.
  case_bool_decide; [discriminate|].
  erewrite run_bind by reflexivity.
  match goal with
  | |- (NetworksDB.apiOrgInfoQuery api creds id ≫= _) ?w4 = _ → _ =>
      destruct (api_org_cases api creds id w4) as [[Hempty Horg]|[_ [asns Horg]]]
  end.
  - rewrite (run_bind_panic _ _ _ _ Horg). intros [= <-].
    exists id. cbn [called sent cache output] in *.
    rewrite length_app in Hempty. cbn [length] in Hempty.
    rewrite Nat.add_1_r in Hempty.
    split; [by rewrite <- app_assoc|]. done.
  - rewrite (run_bind _ _ _ _ _ Horg). cbv beta.
    destruct (Nat.eqb _ _); [discriminate|].
    match goal with
    | |- (NetworksDB.candidates api creds ?ip asns 0 ?c ≫= _) ?w5 = _ → _ =>
        destruct (wp_ok _ _ _ (candidates_total api creds ip asns 0 c w5))
          as ([asn cidrs] & w6 & Hloop & _)
    end.
    rewrite (run_bind _ _ _ _ _ Hloop). cbv beta iota.
    destruct (asn =? 0); [discriminate|].
    intros Hp. exfalso.
    pose proof (api_asn_query_total api creds asn (Address req) (Some cidrs) w6) as Hq.
    unfold wp in Hq. by rewrite Hp in Hq.
Qed.

Lemma asn_request_panics_only_in_org_query_witness :
  NetworksDB.hasAPIKey Scenario.key = true
  ∧ ∃ id, empty_org_answer
            (api_without_results 1
               (POST NetworksDB.getAPIOrgInfoURL [("id", id)]
                  (NetworksDB.getHeaders Scenario.key))).
Proof.
  destruct (asn_request_panics_only_in_org_query (H := Example.library) (λ _ _, None)
              api_without_results Scenario.key (Scenario.for_address "8.8.8.8") World_zero
              {| sent := [POST NetworksDB.getAPIIPURL [("ip", "8.8.8.8")]
                            (NetworksDB.getHeaders Scenario.key);
                          POST NetworksDB.getAPIOrgInfoURL [("id", "google")]
                            (NetworksDB.getHeaders Scenario.key)];
                 checks := 11; cache := []; output := []; stamps := [5; 11]%nat |})
    as (Hkey & _ & id & _ & _ & _ & Hempty).
  - vm_compute. reflexivity.
  - split; [exact Hkey | by exists id].
Defined.

(** ** NetworksDB: the facts carry the address and a prefix around it *)

Section networksdb_located.
Context `{Library}.
Variable web : nat → Call → option string.
Variable api : nat → Call → option NetworksDB.ApiPage.
Variable creds : option Credentials.
Variable w0 : World.
Variable addr : string.
(** [sure] holds on the path on which a netblock around the address is
    known before the fact is made. *)
Variable sure : Prop.

#[local] Abbreviation ip := (net.ParseIP addr).
#[local] Abbreviation around :=
  (λ f : ASNRequest, ∃ nb, nb ∈ Netblocks f ∧ NetworksDB.covers ip nb = true).
#[local] Abbreviation L := (cache_grew (λ f, located creds addr f ∧ (sure → around f)) w0).

Lemma covers_empty (a : net.IP) : NetworksDB.covers a EmptyString = false.
Proof. reflexivity. Qed.

Lemma select_prefix_covers (a : net.IP) (cidrs : list string) :
  (∃ nb, nb ∈ cidrs ∧ NetworksDB.covers a nb = true) →
  NetworksDB.covers a (NetworksDB.select_prefix a cidrs) = true.
Proof.
  induction cidrs as [|cidr rest IH]; intros (nb & Hnb & Hc); simpl.
  - by apply elem_of_nil in Hnb.
  - destruct (NetworksDB.covers a cidr) eqn:Hcidr; [exact Hcidr|].
    apply IH. apply elem_of_cons in Hnb as [->|Hnb]; [congruence | by exists nb].
Qed.

Lemma prefix_for_covers (s : stringset.Set_) :
  addr ≠ EmptyString →
  (∃ nb, nb ∈ stringset.Slice s ∧ NetworksDB.covers ip nb = true) →
  NetworksDB.covers ip (NetworksDB.prefix_for addr s) = true.
Proof.
  intros Haddr Hnb. unfold NetworksDB.prefix_for.
  rewrite bool_decide_eq_false_2 by done. by apply select_prefix_covers.
Qed.

(** The prefix the two resolutions settle on: the netblock found
    around the address, or else any [other]. *)
Lemma located_fact (f : ASNRequest) (s : stringset.Set_) (other : string) :
  Address f = addr →
  Tag f = NetworksDB.SourceType creds → Source f = NetworksDB.String →
  Netblocks f = stringset.Slice s →
  Prefix f = (if bool_decide (NetworksDB.prefix_for addr s = EmptyString)
              then other else NetworksDB.prefix_for addr s) →
  located creds addr f.
Proof.
  intros Ha Ht Hs Hn Hp. repeat split; try done.
  intros Haddr Hnb. rewrite Hn in Hnb.
  pose proof (prefix_for_covers s Haddr Hnb) as Hc.
  rewrite Hp. case_bool_decide as He; [|exact Hc].
  rewrite He, covers_empty in Hc. discriminate Hc.
Qed.

Lemma scrape_asn_query_located asn netblocks w :
  ¬ sure →
  L w → wp (NetworksDB.executeASNQuery web creds asn addr netblocks) (λ _, L) L w.
Proof.
  intros Hnot Hw. unfold NetworksDB.executeASNQuery, NetworksDB.page_of, NetworksDB.second.
  wp_run; auto with grew.
  - apply cache_grew_cached; [|auto with grew]. split; [|done].
    match goal with
    | Hc : (bool_decide (_ = EmptyString) && _)%bool = true,
      Hs : stringset.Slice ?set = ?first :: _ |- _ =>
        apply andb_prop in Hc as [Hpf _];
        apply (located_fact _ set first); try reflexivity;
        [symmetry; exact Hs | cbn [Prefix]; by rewrite Hpf]
    end.
  - apply cache_grew_cached; [|auto with grew]. split; [|done].
    match goal with
    | Hc : (bool_decide (_ = EmptyString) && _)%bool = false
      |- located _ _ {| Address := _; ASN := _; Prefix := ?p; CC := _; Registry := _;
                        AllocationDate := _; Description := _;
                        Netblocks := stringset.Slice ?set; Tag := _; Source := _ |} =>
        apply (located_fact _ set p); try reflexivity; cbn [Prefix];
        by case_bool_decide
    end.
Qed.

Lemma scrape_addr_query_located w :
  ¬ sure →
  L w → wp (NetworksDB.executeASNAddrQuery web creds addr) (λ _, L) L w.
Proof.
  intros Hnot Hw.
  unfold NetworksDB.executeASNAddrQuery, NetworksDB.page_of, NetworksDB.second.
  wp_run; auto with grew.
  apply scrape_asn_query_located; auto with grew.
Qed.

Lemma api_netblocks_located asn w Q :
  (∀ s w', L w' → Q s w') → L w → wp (NetworksDB.apiNetblocksQuery api creds asn) Q L w.
Proof.
  intros HQ Hw. unfold NetworksDB.apiNetblocksQuery, NetworksDB.ask.
  wp_run; apply HQ; auto with grew.
Qed.

Lemma api_asn_info_located asn w Q :
  (∀ w', L w' → Q None w') →
  (∀ r w', L w' → Address r = EmptyString → Tag r = NetworksDB.SourceType creds →
           Source r = NetworksDB.String → Q (Some r) w') →
  L w → wp (NetworksDB.apiASNInfoQuery api creds asn) Q L w.
Proof.
  intros Hnone Hsome Hw. unfold NetworksDB.apiASNInfoQuery, NetworksDB.ask.
  wp_run; first [apply Hnone; auto with grew | apply Hsome; auto with grew | auto with grew].
Qed.

Lemma api_asn_query_located asn netblocks w :
  (sure → ∃ cidrs, netblocks = Some cidrs
                   ∧ existsb (NetworksDB.covers ip) (stringset.Slice cidrs) = true) →
  L w → wp (NetworksDB.executeAPIASNQuery api creds asn addr netblocks) (λ _, L) L w.
Proof.
  intros Hsure Hw. unfold NetworksDB.executeAPIASNQuery. cbv zeta. wp_step.
  assert (Hrest : ∀ filled w1,
    (sure → ∃ nb, nb ∈ stringset.Slice filled ∧ NetworksDB.covers ip nb = true) →
    L w1 →
    wp (if Nat.eqb (stringset.Len filled) 0 then mret tt
        else
          prefix ← (if bool_decide (NetworksDB.prefix_for addr filled = EmptyString)
                    then match stringset.Slice filled with
                         | first :: _ => mret first
                         | [] => panic
                         end
                    else mret (NetworksDB.prefix_for addr filled));
          numRateLimitChecks 3;;
          req ← NetworksDB.apiASNInfoQuery api creds asn;
          match req with
          | None => mret tt
          | Some req =>
              Update (set_Netblocks (stringset.Slice filled)
                        (set_Prefix prefix
                           (if negb (bool_decide (addr = EmptyString))
                            then set_Address addr req else req)))
          end) (λ _, L) L w1).
  { intros filled w1 Hnb Hw1.
    destruct (Nat.eqb _ _); [wp_step; done|].
    wp_step.
    assert (Hupd : ∀ p w2,
      p = (if bool_decide (NetworksDB.prefix_for addr filled = EmptyString)
           then p else NetworksDB.prefix_for addr filled) →
      L w2 →
      wp (numRateLimitChecks 3;;
          req ← NetworksDB.apiASNInfoQuery api creds asn;
          match req with
          | None => mret tt
          | Some req =>
              Update (set_Netblocks (stringset.Slice filled)
                        (set_Prefix p
                           (if negb (bool_decide (addr = EmptyString))
                            then set_Address addr req else req)))
          end) (λ _, L) L w2).
    { intros p w2 Hp Hw2. wp_step. wp_step. wp_step.
      apply api_asn_info_located; [| |auto with grew].
      - intros w3 Hw3. wp_step. done.
      - intros r w3 Hw3 Ha Ht Hs. wp_step. apply cache_grew_cached; [|done].
        split; [|exact Hnb].
        eapply (located_fact _ filled p); [| | |reflexivity|exact Hp].
        + destruct (bool_decide (addr = EmptyString)) eqn:He;
            cbn [negb set_Netblocks set_Prefix set_Address Address]; [|reflexivity].
          apply bool_decide_eq_true in He. by rewrite Ha.
        + by destruct (negb _).
        + by destruct (negb _). }
    destruct (bool_decide (NetworksDB.prefix_for addr filled = EmptyString)) eqn:Hpf.
    - destruct (stringset.Slice filled) as [|first rest] eqn:Hs; cbv beta iota;
        [wp_step; done|].
      wp_step. apply Hupd; [reflexivity | done].
    - wp_step. apply Hupd; [reflexivity | done]. }
  destruct (Nat.eqb _ _) eqn:Hlen.
  - wp_step. apply api_netblocks_located; [|done].
    intros s w' Hw'. wp_step. apply Hrest; [|done].
    intros Hs. destruct (Hsure Hs) as (cidrs & -> & Hex). exfalso.
    apply Nat.eqb_eq in Hlen. change (default stringset.New (Some cidrs)) with cidrs in Hlen.
    rewrite <- Slice_length in Hlen.
    apply length_zero_iff_nil in Hlen. by rewrite Hlen in Hex.
  - wp_step. apply Hrest; [|done].
    intros Hs. destruct (Hsure Hs) as (cidrs & -> & Hex).
    change (default stringset.New (Some cidrs)) with cidrs.
    apply existsb_exists in Hex as (nb & Hnb & Hc). exists nb.
    split; [by apply list_elem_of_In | exact Hc].
Qed.

Lemma candidates_located asns asn cidrs w Q :
  (∀ a s w', L w' →
     a = asn ∨ existsb (NetworksDB.covers ip) (stringset.Slice s) = true → Q (a, s) w') →
  L w → wp (NetworksDB.candidates api creds ip asns asn cidrs) Q L w.
Proof.
  intros HQ. revert cidrs w.
  induction asns as [|a rest IH]; intros cidrs w Hw; cbn [NetworksDB.candidates].
  - wp_step. apply HQ; [done | by left].
  - wp_step. wp_step. wp_step. apply api_netblocks_located; [|auto with grew].
    intros s w' Hw'. destruct (existsb _ _) eqn:Hex;
      [wp_step; apply HQ; [done | by right] | by apply IH].
Qed.

Lemma api_addr_query_located w :
  L w → wp (NetworksDB.executeAPIASNAddrQuery api creds addr) (λ _, L) L w.
Proof.
  intros Hw. unfold NetworksDB.executeAPIASNAddrQuery.
  wp_step.
  assert (Hip : wp (NetworksDB.apiIPQuery api creds addr) (λ _, L) L w).
  { unfold NetworksDB.apiIPQuery, NetworksDB.ask. wp_run; auto with grew. }
  eapply wp_mono; [exact Hip | | auto].
  intros [cidr id] w1 Hw1. destruct (bool_decide _); [wp_step; done|].
  wp_step. wp_step. wp_step.
  assert (Horg : ∀ w, L w → wp (NetworksDB.apiOrgInfoQuery api creds id) (λ _, L) L w).
  { intros w2 Hw2. unfold NetworksDB.apiOrgInfoQuery, NetworksDB.ask. wp_run; auto with grew. }
  eapply wp_mono; [apply Horg; auto with grew | | auto].
  intros asns w2 Hw2. destruct (Nat.eqb _ _); [wp_step; done|].
  wp_step. apply candidates_located; [|done].
  intros asn cidrs w3 Hw3 Hfound. destruct (asn =? 0) eqn:Hzero; [wp_step; done|].
  apply api_asn_query_located; [|done].
  intros _. exists cidrs. split; [reflexivity|].
  destruct Hfound as [->|Hex]; [discriminate Hzero | exact Hex].
Qed.

End networksdb_located.


Lemma cache_grew_impl (P Q : ASNRequest → Prop) (w0 w : World) :
  (∀ f, P f → Q f) → cache_grew P w0 w → cache_grew Q w0 w.
Proof.
  intros HPQ (new & Hc & Hnew). exists new. split; [exact Hc|].
  eapply Forall_impl; [exact Hnew | exact HPQ].
Qed.

Lemma asn_request_located `{Library} (web : nat → Call → option string)
    (api : nat → Call → option NetworksDB.ApiPage) (creds : option Credentials)
    (req : ASNRequest) (w : World) (sure : Prop) :
  (sure → NetworksDB.hasAPIKey creds = true ∧ Address req ≠ EmptyString) →
  cache_grew
    (λ f, located creds (Address req) f
          ∧ (sure → ∃ nb, nb ∈ Netblocks f
                          ∧ NetworksDB.covers (net.ParseIP (Address req)) nb = true))
    w (final (NetworksDB.asnRequest web api creds req w)).
Proof.
  intros Hsure. apply (wp_final _ (cache_grew _ w)).
  unfold NetworksDB.asnRequest.
  destruct (_ && _)%bool; [wp_step; auto with grew|].
  wp_step. wp_step.
  destruct (NetworksDB.hasAPIKey creds) eqn:Hkey.
  - case_bool_decide as Haddr; cbn [negb].
    + rewrite Haddr.
      apply (api_asn_query_located api creds w EmptyString sure); [|auto with grew].
      intros Hs. destruct (Hsure Hs) as [_ Hne]. by destruct Hne.
    + apply api_addr_query_located. auto with grew.
  - assert (Hnot : ¬ sure) by (intros Hs; by destruct (Hsure Hs)).
    case_bool_decide as Haddr; cbn [negb].
    + rewrite Haddr. apply scrape_asn_query_located; auto with grew.
    + apply scrape_addr_query_located; auto with grew.
Qed.

(** X14. Every fact NetworksDB hands to the cache for an ASN request
    carries the address of the request (none for a request by AS
    number), the tag of the mode the service runs in and its name as
    the source, and when a netblock of the fact contains the address,
    so does its prefix. On the API path of a request by address the
    prefix of a cached fact always contains the address, because the
    AS number was selected for a netblock around it. *)
Theorem networksdb_facts_are_located `{Library}
    (web : nat → Call → option string) (api : nat → Call → option NetworksDB.ApiPage)
    (creds : option Credentials) (req : ASNRequest) (w : World) :
  cache_grew (located creds (Address req)) w
    (final (NetworksDB.asnRequest web api creds req w))
  ∧ (NetworksDB.hasAPIKey creds = true → Address req ≠ EmptyString →
     cache_grew (pinned (Address req)) w
       (final (NetworksDB.asnRequest web api creds req w))).
Proof.
  split.
  - eapply cache_grew_impl; [|apply (asn_request_located web api creds req w False); tauto].
    by intros f [Hf _].
  - intros Hkey Haddr.
    eapply cache_grew_impl; [|apply (asn_request_located web api creds req w True); tauto].
    intros f [(_ & _ & _ & Hcov) Haround]. unfold pinned. apply Hcov; [exact Haddr | tauto].
Qed.

Lemma networksdb_facts_are_located_witness :
  cache_grew (pinned (H := Example.library) "8.8.8.8") World_zero
    (final (NetworksDB.asnRequest (H := Example.library) (λ _ _, None) Networks.api
              Scenario.key (Scenario.for_address "8.8.8.8") World_zero))
  ∧ Prefix <$> cache (final (NetworksDB.asnRequest (H := Example.library) (λ _ _, None)
                               Networks.api Scenario.key (Scenario.for_address "8.8.8.8")
                               World_zero))
    = ["8.8.8.0/24"].
Proof.
  destruct (networksdb_facts_are_located (H := Example.library) (λ _ _, None) Networks.api
              Scenario.key (Scenario.for_address "8.8.8.8") World_zero) as [_ Hpinned].
  split; [apply Hpinned; [reflexivity | discriminate] | by vm_compute].
Defined.

(** ** Package [regexp]: a match lies within the text *)

Lemma drop_length (n : nat) (s : string) :
  (String.length (strings.drop n s) = String.length s - n)%nat.
Proof.
  revert s. induction n as [|n IH]; intros s; simpl; [lia|].
  destruct s as [|c s]; simpl; [reflexivity | apply IH].
Qed.

Lemma prefix_length (l s : string) :
  String.prefix l s = true → (String.length l ≤ String.length s)%nat.
Proof.
  revert s. induction l as [|c l IH]; intros s Hp; simpl; [lia|].
  destruct s as [|d s]; [discriminate Hp|]. simpl in Hp |- *.
  destruct (Ascii.ascii_dec c d); [|discriminate Hp]. apply IH in Hp. lia.
Qed.

Lemma span_length (cls : Ascii.ascii → bool) (s : string) :
  (regexp.span cls s ≤ String.length s)%nat.
Proof. induction s as [|c s IH]; simpl; [lia|]. destruct (cls c); lia. Qed.

Lemma first_some_elem {A B : Type} (f : A → option B) (l : list A) (y : B) :
  regexp.first_some f l = Some y → ∃ x, x ∈ l ∧ f x = Some y.
Proof.
  induction l as [|x l IH]; simpl; [discriminate|].
  destruct (f x) as [y'|] eqn:Hx.
  - intros [= <-]. exists x. split; [apply list_elem_of_here | exact Hx].
  - intros Hy. destruct (IH Hy) as (x' & Hin & Hx'). exists x'.
    split; [by apply list_elem_of_further | exact Hx'].
Qed.

Lemma counts_bound (least most k : nat) : k ∈ regexp.counts least most → (k ≤ most)%nat.
Proof.
  unfold regexp.counts. intros Hk. apply list_elem_of_In, in_rev, in_seq in Hk. lia.
Qed.

Lemma exec_bounds (re : regexp.Regexp) :
  ∀ s pos g e g',
    regexp.exec re s pos g = Some (e, g') → (pos ≤ e ≤ pos + String.length s)%nat.
Proof.
  induction re as [|[l|cls least| |] re IH]; intros s pos g e g'; simpl.
  - intros [= <- <-]. lia.
  - destruct (String.prefix l s) eqn:Hp; [|discriminate].
    intros Hrun. apply IH in Hrun. apply prefix_length in Hp.
    rewrite drop_length in Hrun. lia.
  - intros Hrun. apply first_some_elem in Hrun as (k & Hk & Hrun).
    apply counts_bound in Hk. pose proof (span_length cls s) as Hs.
    apply IH in Hrun. rewrite drop_length in Hrun. lia.
  - apply IH.
  - apply IH.
Qed.

Lemma find_bounds (re : regexp.Regexp) (s : string) :
  ∀ pos m, regexp.find re s pos = Some m →
           (pos ≤ regexp.lo m ≤ regexp.hi m ∧ regexp.hi m ≤ pos + String.length s)%nat.
Proof.
  induction s as [|c s IH]; intros pos m; simpl.
  - destruct (regexp.exec re EmptyString pos (pos, pos)) as [[e g]|] eqn:Hrun; [|discriminate].
    intros [= <-]. apply exec_bounds in Hrun. simpl in *. lia.
  - destruct (regexp.exec re (String c s) pos (pos, pos)) as [[e g]|] eqn:Hrun.
    + intros [= <-]. apply exec_bounds in Hrun. simpl in *. lia.
    + intros Hm. apply IH in Hm. lia.
Qed.

Lemma FindStringIndex_bounds (re : regexp.Regexp) (page : string) (l : list nat) :
  regexp.FindStringIndex re page = Some l →
  ∃ b e, l = [b; e] ∧ (b ≤ e ≤ String.length page)%nat.
Proof.
  unfold regexp.FindStringIndex.
  destruct (regexp.find re page 0) as [m|] eqn:Hm; [|discriminate].
  intros [= <-]. apply find_bounds in Hm. exists (regexp.lo m), (regexp.hi m).
  split; [reflexivity | lia].
Qed.

(** ** NetworksDB: what a WHOIS request sends, and where it can panic *)

Section networksdb_whois.
Context `{Library}.
Variable web : nat → Call → option string.
Variable IsDomainInScope : string → bool.
Variable creds : option Credentials.
Variable AnySubdomain : string → list string.
Variable FirstLast : net.IPNet → net.IP * net.IP.
Variable w0 : World.

#[local] Abbreviation quiet := (λ w, cache w = cache w0 ∧ output w = output w0).
#[local] Abbreviation stopped := (λ w, quiet w ∧ stopped_at_page web w).

Lemma harvest_quiet matches newdomains w Q :
  (∀ s w', quiet w' → Q s w') →
  quiet w →
  wp (NetworksDB.harvest web AnySubdomain FirstLast matches newdomains) Q stopped w.
Proof.
  intros HQ. revert newdomains w.
  induction matches as [|m rest IH]; intros newdomains w Hw; cbn [NetworksDB.harvest].
  - wp_step. by apply HQ.
  - destruct (Nat.ltb (length m) 2) eqn:Hm; [by apply IH|].
    wp_step. wp_step. wp_step. apply second_present; [exact Hm|]. intros href _.
    wp_step. unfold NetworksDB.page_of. wp_step.
    destruct (_ ≫= regexp.FindStringSubmatch _) as [cidrMatch|]; [|by apply IH].
    destruct (Nat.ltb (length cidrMatch) 2) eqn:Hc; [by apply IH|].
    wp_step. apply second_present; [exact Hc|]. intros c1 _.
    destruct (net.ParseCIDR c1) as [[a cidr]|]; [|by apply IH].
    wp_step. wp_step. destruct (FirstLast cidr) as [first last].
    wp_step. wp_step.
    match goal with
    | |- wp _ _ _ (called ?c ?w1) => set (call := c); set (w2 := called c w1)
    end.
    destruct (web _ call) as [page|] eqn:Hpage; [|by apply IH].
    destruct (regexp.FindStringIndex NetworksDB.networksdbDomainsRE page)
      as [domainsPos|] eqn:Hd; [|by apply IH].
    destruct (regexp.FindStringIndex NetworksDB.networksdbTableRE page)
      as [tablePos|] eqn:Ht; [|by apply IH].
    destruct (_ || _)%bool; [by apply IH|].
    destruct (FindStringIndex_bounds _ _ _ Hd) as (s & e & -> & Hse).
    destruct (FindStringIndex_bounds _ _ _ Ht) as (s' & e' & -> & Hse').
    wp_step. unfold NetworksDB.domains_region, strings.slice. cbn [lookup list_lookup].
    destruct (Nat.leb e e') eqn:Hle; cbn [andb].
    + replace (Nat.leb e' (String.length page)) with true
        by (symmetry; apply Nat.leb_le; lia).
      wp_step. by apply IH.
    + wp_step. split; [exact Hw|].
      apply Nat.leb_gt in Hle. exists call, page.
      subst w2. cbn [called sent]. rewrite last_snoc, length_app. cbn [length].
      split; [reflexivity|]. split; [|by exists s, e, s', e'].
      cbn [called sent] in Hpage. rewrite <- Hpage. f_equal. lia.
Qed.

Lemma whois_quiet req w :
  quiet w →
  wp (NetworksDB.whoisRequest web IsDomainInScope creds AnySubdomain FirstLast req)
     (λ _ w', cache w' = cache w0
              ∧ (output w' = output w0
                 ∨ ∃ ev, output w' = output w0 ++ [ev] ∧ whois_event creds req ev))
     stopped w.
Proof.
  intros Hw. unfold NetworksDB.whoisRequest, NetworksDB.page_of.
  destruct (negb _); [wp_step; destruct Hw; auto|].
  wp_step. wp_step. wp_step. wp_step.
  destruct (web _ _) as [page|]; [|wp_step; destruct Hw; auto].
  destruct (regexp.FindAllStringSubmatch _ _) as [|m ms]; [wp_step; destruct Hw; auto|].
  wp_step.
  apply harvest_quiet; [|exact Hw].
  intros s w' [Hc Ho].
  destruct (Nat.ltb 0 (length (stringset.Slice s))) eqn:Hlen; wp_step; [|auto].
  split; [exact Hc|]. right. eexists. split; [cbn [emitted output]; by rewrite Ho|].
  repeat split; [|apply Slice_NoDup].
  cbn [NewDomains]. apply Nat.ltb_lt in Hlen. intros Hnil. rewrite Hnil in Hlen.
  simpl in Hlen. lia.
Qed.

End networksdb_whois.

(** X15. A WHOIS request never changes the cache of NetworksDB and
    puts at most one event on the output: an event for the domain of
    the request, with the tag and the name of the service, whose new
    domains are not empty and have no duplicates; a run that panics has
    sent none. The scope is asked about the domain of the request only:
    the names harvested from the pages are forwarded whether they are
    in scope or not. *)
Theorem networksdb_whois_sends_one_event `{Library}
    (web : nat → Call → option string) (IsDomainInScope : string → bool)
    (creds : option Credentials) (AnySubdomain : string → list string)
    (FirstLast : net.IPNet → net.IP * net.IP) (req : WhoisRequest) (w : World) :
  let run := NetworksDB.whoisRequest web IsDomainInScope creds AnySubdomain FirstLast req w in
  cache (final run) = cache w
  ∧ (output (final run) = output w
     ∨ ∃ ev, output (final run) = output w ++ [ev] ∧ whois_event creds req ev)
  ∧ ∀ scope : string → bool,
      scope (Domain req) = IsDomainInScope (Domain req) →
      NetworksDB.whoisRequest web scope creds AnySubdomain FirstLast req w = run.
Proof.
  intros run. subst run. split; [|split].
  - apply (wp_final _ (λ w', cache w' = cache w)).
    eapply wp_mono; [apply (whois_quiet web IsDomainInScope creds AnySubdomain FirstLast w);
                     by split | |].
    + by intros _ w' [Hc _].
    + by intros w' [[Hc _] _].
  - apply (wp_final _ (λ w', output w' = output w
                            ∨ ∃ ev, output w' = output w ++ [ev] ∧ whois_event creds req ev)).
    eapply wp_mono; [apply (whois_quiet web IsDomainInScope creds AnySubdomain FirstLast w);
                     by split | |].
    + by intros _ w' [_ Ho].
    + intros w' [[_ Ho] _]. by left.
  - intros scope Hscope. unfold NetworksDB.whoisRequest. by rewrite Hscope.
Qed.

Lemma networksdb_whois_sends_one_event_witness :
  NetworksDB.whoisRequest (H := Example.library) (Site.web Site.listing)
    (λ _, true) None Site.names Site.FirstLast (Scenario.whois_for "example.com") World_zero
  = NetworksDB.whoisRequest (H := Example.library) (Site.web Site.listing)
      Site.in_scope None Site.names Site.FirstLast (Scenario.whois_for "example.com")
      World_zero.
Proof.
  destruct (networksdb_whois_sends_one_event (H := Example.library) (Site.web Site.listing)
              Site.in_scope None Site.names Site.FirstLast
              (Scenario.whois_for "example.com") World_zero) as (_ & _ & Hscope).
  apply Hscope. reflexivity.
Defined.

(** X16. [whoisRequest] of NetworksDB can only panic in the slice
    [page[start:end]]: the last request it made was answered with a
    page that has both markers and on which the first [<table class]
    ends before the first [Domains in network] does. A page that lacks
    a marker, a request that fails and an address page without a
    network only make the loop go on with the next link. Nothing has
    been sent or cached when it panics. *)
Theorem networksdb_whois_panics_only_out_of_order `{Library}
    (web : nat → Call → option string) (IsDomainInScope : string → bool)
    (creds : option Credentials) (AnySubdomain : string → list string)
    (FirstLast : net.IPNet → net.IP * net.IP) (req : WhoisRequest) (w w' : World) :
  NetworksDB.whoisRequest web IsDomainInScope creds AnySubdomain FirstLast req w = Panic w' →
  stopped_at_page web w' ∧ cache w' = cache w ∧ output w' = output w.
Proof.
  intros Hrun.
  pose proof (whois_quiet web IsDomainInScope creds AnySubdomain FirstLast w req w
                (conj eq_refl eq_refl)) as Hwp.
  unfold wp in Hwp. rewrite Hrun in Hwp. destruct Hwp as [[Hc Ho] Hstop]. done.
Qed.

Lemma networksdb_whois_panics_only_out_of_order_witness :
  ∃ w', stopped_at_page (Site.web Site.listing_after_table) w'
        ∧ cache w' = [] ∧ output w' = [].
Proof.
  eexists.
  apply (networksdb_whois_panics_only_out_of_order (H := Example.library)
           (Site.web Site.listing_after_table) Site.in_scope None Site.names Site.FirstLast
           (Scenario.whois_for "example.com") World_zero).
  vm_compute. reflexivity.
Defined.

(** ** Umbrella: an entry that pages stop listing keeps its flag *)

Section umbrella_stale.
Context `{Library}.
Variable serve : nat → Call → option Umbrella.Page.
Variable creds : option Credentials.
Variable apiURL : string.
Variable key : string.
Variable r : Umbrella.rWhoisResponse.
Hypothesis flagged : Umbrella.MoreData r = true.

Lemma kept_entry_continues (pg acc : gmap string Umbrella.rWhoisResponse) (D : stringset.Set_) :
  (pg ∪ acc) !! key = Some r →
  snd (foldl Umbrella.gather (D, false) (map_to_list (pg ∪ acc))) = true.
Proof.
  intros Hr. apply (foldl_gather (map_to_list (pg ∪ acc)) D false). right.
  exists (key, r). split; [by apply elem_of_map_to_list | exact flagged].
Qed.

Lemma stale_pages_spin fuel :
  ∀ count acc D w,
    acc !! key = Some r →
    (∀ n c, (length (sent w) ≤ n)%nat →
            ∃ pg, serve n c = Some (Umbrella.ReversePage pg) ∧ pg !! key = None) →
    ∃ w', Umbrella.reverse_pages serve creds fuel apiURL count acc D w = Spin w'
          ∧ length (sent w') = (length (sent w) + fuel)%nat
          ∧ checks w' = (checks w + fuel)%nat
          ∧ cache w' = cache w ∧ output w' = output w.
Proof.
  induction fuel as [|fuel IH]; intros count acc D w Hacc Hserve.
  { exists w. simpl. repeat split; lia. }
  rewrite reverse_pages_S.
  erewrite run_bind by reflexivity. unfold Umbrella.fetch.
  erewrite run_bind by reflexivity. cbn [charged sent].
  destruct (Hserve (length (sent w)) (GET (apiURL +:+ "&offset=" +:+ strconv.Itoa count)
                                        (Umbrella.restHeaders creds)) (le_n _))
    as (pg & -> & Hpg).
  cbn [Umbrella.unmarshal_reverse].
  assert (Hkept : (pg ∪ acc) !! key = Some r)
    by (apply lookup_union_Some_raw; right; done).
  pose proof (kept_entry_continues pg acc D Hkept) as Hgo.
  destruct (foldl Umbrella.gather (D, false) (map_to_list (pg ∪ acc))) as [D' more].
  cbn [snd] in Hgo. subst more.
  match goal with
  | |- ∃ w', Umbrella.reverse_pages _ _ _ _ ?count' _ _ ?w1 = _ ∧ _ =>
      destruct (IH count' (pg ∪ acc) D' w1 Hkept) as (w' & Hrun & Hs & Hc & Hca & Ho)
  end.
  { intros n c Hn. apply Hserve. cbn [sent] in Hn. rewrite length_app in Hn. simpl in Hn. lia. }
  exists w'. split; [exact Hrun|]. cbn [sent checks cache output] in *.
  rewrite length_app in Hs. cbn [length] in Hs. repeat split; try done; lia.
Qed.

End umbrella_stale.

(** X17. [queryReverseWhois] decodes every page into the same map, so
    an entry that a later page does not list stays in it with the flag
    it had. When the first page carries the more-data flag under a key
    and no later page lists that key, the loop never stops by itself,
    whatever the flags of the later pages: for every number of pages it
    is allowed, it has made that many requests, with one admission
    each, and is still asking. *)
Theorem reverse_whois_stale_flag_never_stops `{Library}
    (serve : nat → Call → option Umbrella.Page) (creds : option Credentials)
    (apiURL key : string) (r : Umbrella.rWhoisResponse) (w : World) :
  Umbrella.MoreData r = true →
  (∃ pg, serve (length (sent w)) (page_call creds apiURL 0) = Some (Umbrella.ReversePage pg)
         ∧ pg !! key = Some r) →
  (∀ n c, (length (sent w) < n)%nat →
          ∃ pg, serve n c = Some (Umbrella.ReversePage pg) ∧ pg !! key = None) →
  ∀ fuel,
    ∃ w', Umbrella.queryReverseWhois serve creds fuel apiURL w = Spin w'
          ∧ length (sent w') = (length (sent w) + fuel)%nat
          ∧ checks w' = (checks w + fuel)%nat
          ∧ cache w' = cache w ∧ output w' = output w.
Proof.
  intros Hflag (pg0 & Hfirst & Hkey) Hlater fuel.
  unfold Umbrella.queryReverseWhois.
  destruct fuel as [|fuel].
  { exists w. simpl. repeat split; lia. }
  rewrite reverse_pages_S.
  erewrite run_bind by reflexivity. unfold Umbrella.fetch.
  erewrite run_bind by reflexivity. cbn [charged sent].
  unfold page_call in Hfirst. change (500 * Z.of_nat 0) with 0 in Hfirst. rewrite Hfirst.
  cbn [Umbrella.unmarshal_reverse].
  assert (Hkept : (pg0 ∪ ∅) !! key = Some r) by (by apply lookup_union_Some_l).
  pose proof (kept_entry_continues key r Hflag pg0 ∅ stringset.New Hkept) as Hgo.
  destruct (foldl Umbrella.gather (stringset.New, false) (map_to_list (pg0 ∪ ∅)))
    as [D' more].
  cbn [snd] in Hgo. subst more.
  match goal with
  | |- ∃ w', Umbrella.reverse_pages _ _ _ _ ?count' _ _ ?w1 = _ ∧ _ =>
      destruct (stale_pages_spin serve creds apiURL key r Hflag fuel count' (pg0 ∪ ∅) D' w1
                  Hkept) as (w' & Hrun & Hs & Hc & Hca & Ho)
  end.
  { intros n c Hn. apply Hlater. cbn [sent] in Hn. rewrite length_app in Hn. simpl in Hn. lia. }
  exists w'. split; [exact Hrun|]. cbn [sent checks cache output] in *.
  rewrite length_app in Hs. cbn [length] in Hs. repeat split; try done; lia.
Qed.

Lemma reverse_whois_stale_flag_never_stops_witness :
  ∃ w', Umbrella.queryReverseWhois (H := Example.library) stale_flag Scenario.key 7
          Reverse.by_email World_zero = Spin w'
        ∧ length (sent w') = (length (sent World_zero) + 7)%nat
        ∧ checks w' = (checks World_zero + 7)%nat
        ∧ cache w' = cache World_zero ∧ output w' = output World_zero.
Proof.
  apply (reverse_whois_stale_flag_never_stops (H := Example.library) stale_flag Scenario.key
           Reverse.by_email Reverse.contact (Reverse.entry 1 true [("a.example", true)])).
  - reflexivity.
  - eexists. split; [reflexivity|]. apply lookup_singleton_eq.
  - intros n c Hn. eexists. split; [reflexivity|].
    destruct n as [|n]; [simpl in Hn; lia|]. cbn [Nat.eqb].
    apply lookup_singleton_ne. discriminate.
Defined.

(** ** Package [regexp]: where a match is, and what its group holds *)

Lemma drop_drop (a b : nat) (s : string) :
  strings.drop a (strings.drop b s) = strings.drop (b + a) s.
Proof.
  revert s. induction b as [|b IH]; intros s; [reflexivity|].
  destruct s as [|c s]; simpl; [by destruct a | apply IH].
Qed.

Lemma substring_drop (n k : nat) (s : string) :
  String.substring n k s = String.substring 0 k (strings.drop n s).
Proof.
  revert s. induction n as [|n IH]; intros s; [reflexivity|].
  destruct s as [|c s]; simpl; [by destruct k | apply IH].
Qed.

Lemma prefix_split (p s : string) :
  String.prefix p s = true → ∃ rest, s = p +:+ rest.
Proof.
  revert s. induction p as [|c p IH]; intros s Hp; [by exists s|].
  destruct s as [|d s]; [discriminate Hp|]. simpl in Hp.
  destruct (Ascii.ascii_dec c d) as [->|]; [|discriminate Hp].
  destruct (IH s Hp) as [rest ->]. by exists rest.
Qed.

(** The match [find] returns is a match of the expression at the
    offset where it starts. *)
Lemma find_exec (re : regexp.Regexp) (s : string) :
  ∀ pos m, regexp.find re s pos = Some m →
    ∃ j, regexp.lo m = (pos + j)%nat
         ∧ regexp.exec re (strings.drop j s) (regexp.lo m) (regexp.lo m, regexp.lo m)
           = Some (regexp.hi m, regexp.group m).
Proof.
  induction s as [|c s IH]; intros pos m; simpl.
  - destruct (regexp.exec re EmptyString pos (pos, pos)) as [[e g]|] eqn:Hrun; [|discriminate].
    intros [= <-]. exists 0%nat. simpl. split; [lia | exact Hrun].
  - destruct (regexp.exec re (String c s) pos (pos, pos)) as [[e g]|] eqn:Hrun.
    + intros [= <-]. exists 0%nat. simpl. split; [lia | exact Hrun].
    + intros Hm. destruct (IH _ _ Hm) as (j & Hlo & Hj). exists (S j).
      split; [lia | exact Hj].
Qed.

Lemma find_all_exec (re : regexp.Regexp) (page : string) (fuel : nat) :
  ∀ s pos m,
    s = strings.drop pos page →
    m ∈ regexp.find_all fuel re s pos →
    regexp.exec re (strings.drop (regexp.lo m) page) (regexp.lo m)
      (regexp.lo m, regexp.lo m) = Some (regexp.hi m, regexp.group m).
Proof.
  induction fuel as [|fuel IH]; intros s pos m Hs Hm; simpl in Hm.
  { by apply elem_of_nil in Hm. }
  destruct (regexp.find re s pos) as [m0|] eqn:Hfind; [|by apply elem_of_nil in Hm].
  apply elem_of_cons in Hm as [->|Hm].
  - destruct (find_exec _ _ _ _ Hfind) as (j & Hlo & Hj).
    rewrite Hs, drop_drop, <- Hlo in Hj. exact Hj.
  - apply find_bounds in Hfind as Hb.
    eapply IH; [|exact Hm]. rewrite Hs, drop_drop. f_equal.
    destruct (Nat.eqb _ _); lia.
Qed.

(** The first [k] bytes of a text are of the class when [k] is within
    the run of the class at its head. *)
Lemma span_substring (cls : Ascii.ascii → bool) (k : nat) (s : string) :
  (k ≤ regexp.span cls s)%nat →
  Forall (λ c, cls c = true) (String.list_ascii_of_string (String.substring 0 k s)).
Proof.
  revert s. induction k as [|k IH]; intros s Hk.
  { destruct s; constructor. }
  destruct s as [|c s]; simpl in Hk; [lia|].
  destruct (cls c) eqn:Hc; [|lia]. simpl. constructor; [exact Hc | apply IH; lia].
Qed.

(** *** The link to the page of an address *)

Lemma ip_link_group (page : string) (m : regexp.loc) :
  regexp.exec NetworksDB.networksdbIPLinkRE (strings.drop (regexp.lo m) page) (regexp.lo m)
    (regexp.lo m, regexp.lo m) = Some (regexp.hi m, regexp.group m) →
  ∃ t, regexp.text page (fst (regexp.group m)) (snd (regexp.group m)) = "/ip/" +:+ t.
Proof.
  unfold NetworksDB.networksdbIPLinkRE. cbn [regexp.exec].
  destruct (String.prefix _ _); [|discriminate].
  rewrite drop_drop. cbn [fst snd].
  set (pos1 := (regexp.lo m + _)%nat).
  destruct (String.prefix "/ip/" (strings.drop pos1 page)) eqn:Hip; [|discriminate].
  intros Hrun. apply first_some_elem in Hrun as (k & _ & Hrun).
  cbn [regexp.exec] in Hrun.
  match type of Hrun with
  | (if ?b then _ else _) = _ => destruct b; [|discriminate Hrun]
  end.
  injection Hrun as _ <-. cbn [fst snd].
  unfold regexp.text. rewrite substring_drop.
  apply prefix_split in Hip as [rest ->].
  replace (pos1 + 4 + k - pos1)%nat with (4 + k)%nat by lia.
  by exists (String.substring 0 k rest).
Qed.

Lemma ip_links_on_site (page : string) :
  Forall (λ l, ∀ x, l !! 1%nat = Some x → ∃ t, x = "/ip/" +:+ t)
    (regexp.FindAllStringSubmatch NetworksDB.networksdbIPLinkRE page).
Proof.
  unfold regexp.FindAllStringSubmatch. apply Forall_fmap, Forall_forall. intros m Hm.
  apply (find_all_exec _ page _ page 0 m eq_refl) in Hm.
  intros x [= <-]. by apply ip_link_group.
Qed.

(** *** The AS number of a page *)

Lemma asn_group (page : string) (m : regexp.loc) :
  regexp.exec NetworksDB.networksdbASNRE (strings.drop (regexp.lo m) page) (regexp.lo m)
    (regexp.lo m, regexp.lo m) = Some (regexp.hi m, regexp.group m) →
  Forall (λ c, regexp.digit c = true)
    (String.list_ascii_of_string
       (regexp.text page (fst (regexp.group m)) (snd (regexp.group m)))).
Proof.
  unfold NetworksDB.networksdbASNRE. cbn [regexp.exec].
  destruct (String.prefix _ _); [|discriminate].
  rewrite drop_drop. cbn [fst snd].
  set (pos1 := (regexp.lo m + _)%nat).
  intros Hrun. apply first_some_elem in Hrun as (k & Hk & Hrun).
  apply counts_bound in Hk. cbn [regexp.exec] in Hrun.
  match type of Hrun with
  | (if ?b then _ else _) = _ => destruct b; [|discriminate Hrun]
  end.
  injection Hrun as _ <-. cbn [fst snd].
  unfold regexp.text. rewrite substring_drop.
  replace (pos1 + k - pos1)%nat with k by lia.
  by apply span_substring.
Qed.

Lemma digits_nonneg (s : string) :
  ∀ acc v, 0 ≤ acc → strconv.digits acc s = Some v → 0 ≤ v.
Proof.
  induction s as [|c s IH]; intros acc v Hacc; simpl.
  - intros [= <-]. exact Hacc.
  - destruct (strconv.digit c) as [d|] eqn:Hd; [|discriminate].
    unfold strconv.digit in Hd. destruct (strings.byte_in 48 57 c) eqn:Hc; [|discriminate].
    injection Hd as <-. apply IH.
    unfold strings.byte_in in Hc. apply andb_prop in Hc as [Hlo _].
    apply Nat.leb_le in Hlo. lia.
Qed.

Lemma trim_digits (s : string) :
  Forall (λ c, regexp.digit c = true) (String.list_ascii_of_string s) →
  strings.TrimSpace s = s.
Proof.
  intros Hs.
  assert (Hkeep : ∀ c, regexp.digit c = true → strings.isSpace c = false).
  { intros c Hc. unfold regexp.digit, strings.isSpace, strings.byte_in in *.
    apply andb_prop in Hc as [Hlo Hhi]. apply Nat.leb_le in Hlo, Hhi.
    apply orb_false_iff. split; apply andb_false_iff.
    - right. apply Nat.leb_gt. lia.
    - right. apply Nat.leb_gt. lia. }
  unfold strings.TrimSpace.
  assert (Hleft : strings.TrimLeft s = s).
  { destruct s as [|c s]; [reflexivity|]. simpl in Hs |- *.
    apply Forall_cons in Hs as [Hc _]. by rewrite (Hkeep c Hc). }
  rewrite Hleft. induction s as [|c s IH]; [reflexivity|].
  simpl in Hs. apply Forall_cons in Hs as [Hc Hs]. simpl.
  rewrite IH; [|exact Hs|].
  - destruct s; [by rewrite (Hkeep c Hc) | reflexivity].
  - destruct s as [|d s]; [reflexivity|]. simpl in Hs |- *.
    apply Forall_cons in Hs as [Hd _]. by rewrite (Hkeep d Hd).
Qed.

Lemma atoi_digits (s : string) (v : Z) :
  Forall (λ c, regexp.digit c = true) (String.list_ascii_of_string s) →
  strconv.Atoi s = Some v → 0 ≤ v.
Proof.
  intros Hs. unfold strconv.Atoi.
  destruct s as [|c s]; [discriminate|].
  simpl in Hs. apply Forall_cons in Hs as [Hc Hs].
  assert (Hminus : Ascii.eqb c "-"%char = false).
  { apply Ascii.eqb_neq. intros ->. discriminate Hc. }
  assert (Hplus : Ascii.eqb c "+"%char = false).
  { apply Ascii.eqb_neq. intros ->. discriminate Hc. }
  rewrite Hminus, Hplus.
  destruct (strconv.digits 0 (String c s)) as [n|] eqn:Hn; [|discriminate].
  apply digits_nonneg in Hn; [|lia].
  destruct (_ && _)%bool; [|discriminate]. by intros [= <-].
Qed.

Lemma scraped_asn_nonneg (page : string) (l : list string) (x : string) (asn : Z) :
  regexp.FindStringSubmatch NetworksDB.networksdbASNRE page = Some l →
  l !! 1%nat = Some x →
  strconv.Atoi (strings.TrimSpace x) = Some asn →
  0 ≤ asn.
Proof.
  unfold regexp.FindStringSubmatch.
  destruct (regexp.find NetworksDB.networksdbASNRE page 0) as [m|] eqn:Hfind; [|discriminate].
  intros [= <-] [= <-].
  destruct (find_exec _ _ _ _ Hfind) as (j & Hlo & Hj).
  simpl in Hlo. subst j. apply asn_group in Hj.
  rewrite (trim_digits _ Hj). by apply atoi_digits.
Qed.

(** ** NetworksDB: the WHOIS requests stay on the site *)

Section networksdb_on_site.
Context `{Library}.
Variable web : nat → Call → option string.
Variable IsDomainInScope : string → bool.
Variable creds : option Credentials.
Variable AnySubdomain : string → list string.
Variable FirstLast : net.IPNet → net.IP * net.IP.
Variable w0 : World.

#[local] Abbreviation O := (sent_grew on_site w0).

Lemma harvest_on_site matches newdomains w Q :
  Forall (λ l, ∀ x, l !! 1%nat = Some x → ∃ t, x = "/ip/" +:+ t) matches →
  (∀ s w', O w' → Q s w') →
  O w → wp (NetworksDB.harvest web AnySubdomain FirstLast matches newdomains) Q O w.
Proof.
  intros Hlinks HQ. revert newdomains w.
  induction Hlinks as [|m rest Hm _ IH]; intros newdomains w Hw; cbn [NetworksDB.harvest].
  - wp_step. by apply HQ.
  - destruct (Nat.ltb (length m) 2) eqn:Hlen; [by apply IH|].
    wp_step. wp_step. wp_step. apply second_present; [exact Hlen|]. intros href Hhref.
    destruct (Hm href Hhref) as [t ->].
    assert (Hip : on_site (GET (NetworksDB.networksdbBaseURL +:+ "/ip/" +:+ t) []))
      by (repeat split).
    wp_step. unfold NetworksDB.page_of. wp_step.
    destruct (_ ≫= regexp.FindStringSubmatch _) as [cidrMatch|]; [|apply IH; auto with grew].
    destruct (Nat.ltb (length cidrMatch) 2) eqn:Hc; [apply IH; auto with grew|].
    wp_step. apply second_present; [exact Hc|]. intros c1 _.
    destruct (net.ParseCIDR c1) as [[a cidr]|]; [|apply IH; auto with grew].
    wp_step. wp_step. destruct (FirstLast cidr) as [first last].
    assert (Hnet : on_site (GET (NetworksDB.getDomainsInNetworkURL (net.IP_String first)
                                   (net.IP_String last)) []))
      by (repeat split).
    wp_step. wp_step.
    unfold NetworksDB.domains_region.
    wp_run; try (apply IH); auto 8 with grew.
Qed.

Lemma whois_on_site req w :
  O w →
  wp (NetworksDB.whoisRequest web IsDomainInScope creds AnySubdomain FirstLast req)
     (λ _, O) O w.
Proof.
  intros Hw. unfold NetworksDB.whoisRequest, NetworksDB.page_of.
  destruct (negb _); [wp_step; auto with grew|].
  assert (Hfirst : on_site (GET (NetworksDB.getDomainToIPURL (Domain req)) []))
    by (repeat split).
  wp_step. wp_step. wp_step. wp_step.
  destruct (web _ _) as [page|]; [|wp_step; auto 6 with grew].
  pose proof (ip_links_on_site page) as Hlinks.
  destruct (regexp.FindAllStringSubmatch _ _) as [|m ms]; [wp_step; auto 6 with grew|].
  wp_step. apply harvest_on_site; [exact Hlinks | | auto 6 with grew].
  intros s w' Hw'. destruct (Nat.ltb _ _); wp_step; auto with grew.
Qed.

End networksdb_on_site.

(** X18. Every request [whoisRequest] of NetworksDB makes goes to a
    URL that starts with [https://networksdb.io/], so to that host: the
    links it follows from the page of a domain are taken with the
    expression for [/ip/] paths. The scrape path of [asnRequest] gives
    no such guarantee, because it appends whatever the [href] of the
    AS link holds to [https://networksdb.io]: for a page whose link
    starts with a dot it asks another host. *)
Theorem networksdb_whois_stays_on_site `{Library}
    (web : nat → Call → option string) (IsDomainInScope : string → bool)
    (creds : option Credentials) (AnySubdomain : string → list string)
    (FirstLast : net.IPNet → net.IP * net.IP) (req : WhoisRequest) (w : World) :
  sent_grew on_site w
    (final (NetworksDB.whoisRequest web IsDomainInScope creds AnySubdomain FirstLast req w))
  ∧ sent (final (NetworksDB.asnRequest foreign_link (λ _ _, None) None
                   (Scenario.for_address "8.8.8.8") World_zero))
    = [GET "https://networksdb.io/ip/8.8.8.8" [];
       GET "https://networksdb.io.evil.example/as" []]
  ∧ ¬ on_site (GET "https://networksdb.io.evil.example/as" []).
Proof.
  split; [|split].
  - apply (wp_final _ (sent_grew on_site w)). apply whois_on_site. auto with grew.
  - by vm_compute.
  - intros (_ & _ & Hp). discriminate Hp.
Qed.

(** ** NetworksDB: the AS number scraped from a page *)

Section networksdb_scraped_asn.
Context `{Library}.
Variable web : nat → Call → option string.
Variable creds : option Credentials.
Variable w0 : World.

#[local] Abbreviation N := (cache_grew (λ f, 0 ≤ ASN f) w0).

Lemma scrape_asn_query_number asn addr netblocks w :
  0 ≤ asn →
  N w → wp (NetworksDB.executeASNQuery web creds asn addr netblocks) (λ _, N) N w.
Proof.
  intros Hasn Hw. unfold NetworksDB.executeASNQuery, NetworksDB.page_of, NetworksDB.second.
  wp_run; auto with grew.
Qed.

Lemma scrape_addr_query_number addr w :
  N w → wp (NetworksDB.executeASNAddrQuery web creds addr) (λ _, N) N w.
Proof.
  intros Hw. unfold NetworksDB.executeASNAddrQuery, NetworksDB.page_of.
  wp_step. wp_step.
  destruct (web _ _) as [page|]; [|wp_step; auto with grew].
  destruct (regexp.FindStringSubmatch NetworksDB.networksdbASNLinkRE page) as [m|];
    [|wp_step; auto with grew].
  destruct (Nat.ltb (length m) 2) eqn:Hm; [wp_step; auto with grew|].
  wp_step. wp_step. wp_step. apply second_present; [exact Hm|]. intros href _.
  wp_step. wp_step.
  destruct (web _ _) as [page'|]; [|wp_step; auto with grew].
  cbv zeta.
  destruct (regexp.FindStringSubmatch NetworksDB.networksdbASNRE page') as [m'|] eqn:Hre;
    [|wp_step; auto with grew].
  destruct (Nat.ltb (length m') 2) eqn:Hm'; [wp_step; auto with grew|].
  wp_step. apply second_present; [exact Hm'|]. intros number Hnumber.
  destruct (strconv.Atoi _) as [asn|] eqn:Hasn; [|wp_step; auto with grew].
  apply scrape_asn_query_number; [|auto with grew].
  exact (scraped_asn_nonneg page' m' number asn Hre Hnumber Hasn).
Qed.

End networksdb_scraped_asn.

(** X19. Without an API key, a fact NetworksDB caches for a request by
    address never has a negative AS number: the number is read from
    the digits the page shows after [AS Number:], which carry no sign,
    and a page with no digits there ends the request with no fact. *)
Theorem scraped_as_number_is_not_negative `{Library}
    (web : nat → Call → option string) (api : nat → Call → option NetworksDB.ApiPage)
    (creds : option Credentials) (req : ASNRequest) (w : World) :
  NetworksDB.hasAPIKey creds = false →
  Address req ≠ EmptyString →
  cache_grew (λ f, 0 ≤ ASN f) w (final (NetworksDB.asnRequest web api creds req w)).
Proof.
  intros Hkey Haddr. apply (wp_final _ (cache_grew _ w)).
  unfold NetworksDB.asnRequest. rewrite Hkey.
  rewrite (bool_decide_eq_false_2 _ Haddr). cbn [andb negb].
  wp_step. wp_step. apply scrape_addr_query_number. auto with grew.
Qed.

Lemma scraped_as_number_is_not_negative_witness :
  cache_grew (λ f, 0 ≤ ASN f) World_zero
    (final (NetworksDB.asnRequest (H := Example.library) as_pages (λ _ _, None) None
              (Scenario.for_address "8.8.8.8") World_zero))
  ∧ (λ f, (ASN f, Prefix f, CC f)) <$>
      cache (final (NetworksDB.asnRequest (H := Example.library) as_pages (λ _ _, None) None
                      (Scenario.for_address "8.8.8.8") World_zero))
    = [(15169, "8.8.8.0/24", "US")].
Proof.
  split; [|by vm_compute].
  apply (scraped_as_number_is_not_negative (H := Example.library)); [reflexivity | discriminate].
Defined.
